(** * SIAP bridge: the job queue and its dispatcher (queue.js)

    A shallow embedding of [SiapQueue] (the queue item with its field
    resolver) and [SiapDequeue] (the dispatcher) of queue.js, and the
    properties of the dispatch core proved on it.

    Conventions of the embedding.
    - JavaScript values are the inductive [jsval]; objects and arrays carry
      the address of the object, because [===] compares objects by
      reference.  Strings are byte strings, numbers are integers.
    - Every queue item is a mutable object shared by the dispatcher history
      [queues] and by the pending list of the runner.  The history is the
      store: a reference to an item is its index in [queues].
    - Promises are settled by the environment.  A consumer call or a hook that
      has been issued and not yet settled is an entry of [inflight]; its
      settlement is an input of the step function.
    - The clock is read by the environment: every input that reads
      [new Date()] carries the current time in milliseconds. *)

From Stdlib Require Import ZArith Ascii String List Bool Lia.
From stdpp Require Import base option list relations strings pretty.

Local Open Scope Z_scope.
Local Open Scope string_scope.
Set Warnings "-register-all".

(** ** Strings of the host language *)

Module JSString.

(** [s.split(c)] for a one character separator. *)
Fixpoint split (sep : ascii) (s : string) : list string :=
  match s with
  | EmptyString => [EmptyString]
  | String c s' =>
      if Ascii.eqb c sep then EmptyString :: split sep s'
      else match split sep s' with
           | [] => [String c EmptyString]
           | h :: t => String c h :: t
           end
  end.

(** [parts.join(sep)] on strings. *)
Fixpoint join (sep : string) (l : list string) : string :=
  match l with
  | [] => EmptyString
  | [x] => x
  | x :: rest => x +:+ sep +:+ join sep rest
  end.

(** White space removed by [trim] (byte strings: tab, line feed, vertical
    tab, form feed, carriage return, space).  These are the white space
    characters of ASCII; [trim] of JavaScript also removes the white space of
    Unicode beyond ASCII, which a string of ASCII characters does not
    have. *)
Definition is_space (c : ascii) : bool :=
  let n := nat_of_ascii c in
  ((9 <=? n)%nat && (n <=? 13)%nat) || (n =? 32)%nat.

Fixpoint trim_start (s : string) : string :=
  match s with
  | EmptyString => EmptyString
  | String c s' => if is_space c then trim_start s' else s
  end.

Fixpoint trim_end (s : string) : string :=
  match s with
  | EmptyString => EmptyString
  | String c s' =>
      match trim_end s' with
      | EmptyString => if is_space c then EmptyString else String c EmptyString
      | t => String c t
      end
  end.

Definition trim (s : string) : string := trim_end (trim_start s).

(** [s.indexOf(c)]: [None] stands for -1. *)
Fixpoint indexOf (c : ascii) (s : string) : option nat :=
  match s with
  | EmptyString => None
  | String c' s' =>
      if Ascii.eqb c' c then Some 0%nat
      else match indexOf c s' with
           | Some i => Some (S i)
           | None => None
           end
  end.

Fixpoint drop (n : nat) (s : string) : string :=
  match n, s with
  | O, _ => s
  | S n', String _ s' => drop n' s'
  | S _, EmptyString => EmptyString
  end.

(** The replacement text of [String.prototype.replace] for one match of a
    pattern without capture groups: [$$] is a dollar sign, [$&] the match,
    [$`] the text before the match, [$'] the text after it; any other
    dollar sign stands for itself. *)
Fixpoint getSubstitution (matched before after repl : string) : string :=
  match repl with
  | EmptyString => EmptyString
  | String "$" (String "$" r) => String "$" (getSubstitution matched before after r)
  | String "$" (String "&" r) => matched +:+ getSubstitution matched before after r
  | String "$" (String "`" r) => before +:+ getSubstitution matched before after r
  | String "$" (String "'" r) => after +:+ getSubstitution matched before after r
  | String c r => String c (getSubstitution matched before after r)
  end.

(** [s.replace(new RegExp(pat, 'g'), repl)] for a pattern [pat] that is a
    non-empty literal: the matches are found from left to right and do not
    overlap.  [before] is the text already scanned, [skip] the number of
    characters of the current match still to pass over. *)
Fixpoint replace_go (pat repl before : string) (skip : nat) (s : string) : string :=
  match s with
  | EmptyString => EmptyString
  | String c s' =>
      match skip with
      | S k => replace_go pat repl (before +:+ String c EmptyString) k s'
      | O =>
          if String.prefix pat s then
            getSubstitution pat before (drop (String.length pat) s) repl
            +:+ replace_go pat repl (before +:+ String c EmptyString)
                  (String.length pat - 1) s'
          else String c (replace_go pat repl (before +:+ String c EmptyString) O s')
      end
  end.

Definition replaceAll (pat repl s : string) : string := replace_go pat repl EmptyString O s.

(** The same scan with the replacement inserted as it is, for comparison. *)
Fixpoint subst_go (pat repl : string) (skip : nat) (s : string) : string :=
  match s with
  | EmptyString => EmptyString
  | String c s' =>
      match skip with
      | S k => subst_go pat repl k s'
      | O =>
          if String.prefix pat s then
            repl +:+ subst_go pat repl (String.length pat - 1) s'
          else String c (subst_go pat repl O s')
      end
  end.

Definition substAll (pat repl s : string) : string := subst_go pat repl O s.

End JSString.

(** ** SHA-1, as computed by [crypto.createHash('sha1')]

    Words are 32 bit integers in [Z]; additions wrap around modulo 2^32. *)

Module SHA1.

Definition wrap (x : Z) : Z := x mod 2 ^ 32.

Definition rotl (n x : Z) : Z :=
  wrap (Z.lor (Z.shiftl x n) (Z.shiftr x (32 - n))).

Definition bytes_of_string (s : string) : list Z :=
  map (fun c => Z.of_N (N_of_ascii c)) (list_ascii_of_string s).

(** Big-endian encoding of [x] on [n] bytes. *)
Fixpoint be_bytes (n : nat) (x : Z) : list Z :=
  match n with
  | O => []
  | S n' => (Z.shiftr x (8 * Z.of_nat n')) mod 256 :: be_bytes n' x
  end.

(** The message followed by the bit 1, zeros up to 56 modulo 64 bytes, and
    the length of the message in bits on 64 bits. *)
Definition pad (msg : list Z) : list Z :=
  let len := Z.of_nat (length msg) in
  let zeros := Z.to_nat ((55 - len) mod 64) in
  msg ++ 128 :: repeat 0 zeros ++ be_bytes 8 (8 * len).

Fixpoint words_of_bytes (fuel : nat) (bs : list Z) : list Z :=
  match fuel, bs with
  | S f, b0 :: b1 :: b2 :: b3 :: rest =>
      (b0 * 2 ^ 24 + b1 * 2 ^ 16 + b2 * 2 ^ 8 + b3) :: words_of_bytes f rest
  | _, _ => []
  end.

(** The message schedule, most recent word first: [rev_w] holds
    w[i-1], w[i-2], ... *)
Fixpoint schedule (n : nat) (rev_w : list Z) : list Z :=
  match n with
  | O => rev_w
  | S n' =>
      let w := rotl 1 (Z.lxor (Z.lxor (nth 2 rev_w 0) (nth 7 rev_w 0))
                              (Z.lxor (nth 13 rev_w 0) (nth 15 rev_w 0))) in
      schedule n' (w :: rev_w)
  end.

Record state := mkState { h0 : Z; h1 : Z; h2 : Z; h3 : Z; h4 : Z }.

Definition init : state :=
  mkState 0x67452301 0xEFCDAB89 0x98BADCFE 0x10325476 0xC3D2E1F0.

Definition round_f (i : nat) (b c d : Z) : Z :=
  if (i <? 20)%nat then Z.lor (Z.land b c) (Z.land (Z.lxor b 0xFFFFFFFF) d)
  else if (i <? 40)%nat then Z.lxor (Z.lxor b c) d
  else if (i <? 60)%nat then Z.lor (Z.lor (Z.land b c) (Z.land b d)) (Z.land c d)
  else Z.lxor (Z.lxor b c) d.

Definition round_k (i : nat) : Z :=
  if (i <? 20)%nat then 0x5A827999
  else if (i <? 40)%nat then 0x6ED9EBA1
  else if (i <? 60)%nat then 0x8F1BBCDC
  else 0xCA62C1D6.

Fixpoint rounds (i : nat) (ws : list Z) (s : state) : state :=
  match ws with
  | [] => s
  | w :: ws' =>
      let t := wrap (rotl 5 (h0 s) + round_f i (h1 s) (h2 s) (h3 s) + h4 s + round_k i + w) in
      rounds (S i) ws' (mkState t (h0 s) (rotl 30 (h1 s)) (h2 s) (h3 s))
  end.

Definition compress (s : state) (block : list Z) : state :=
  let ws := rev (schedule 64 (rev (words_of_bytes 16 block))) in
  let r := rounds 0 ws s in
  mkState (wrap (h0 s + h0 r)) (wrap (h1 s + h1 r)) (wrap (h2 s + h2 r))
          (wrap (h3 s + h3 r)) (wrap (h4 s + h4 r)).

Fixpoint blocks (fuel : nat) (bs : list Z) (s : state) : state :=
  match fuel, bs with
  | S f, _ :: _ => blocks f (skipn 64 bs) (compress s (firstn 64 bs))
  | _, _ => s
  end.

Definition hash (msg : string) : state :=
  let bs := pad (bytes_of_string msg) in
  blocks (length bs) bs init.

Definition hex_digit (x : Z) : ascii :=
  match Z.to_nat (x mod 16) with
  | 0 => "0" | 1 => "1" | 2 => "2" | 3 => "3" | 4 => "4" | 5 => "5"
  | 6 => "6" | 7 => "7" | 8 => "8" | 9 => "9" | 10 => "a" | 11 => "b"
  | 12 => "c" | 13 => "d" | 14 => "e" | _ => "f"
  end%nat%char.

(** A 32 bit word on eight lowercase hexadecimal digits. *)
Definition hex32 (w : Z) : string :=
  String (hex_digit (Z.shiftr w 28))
 (String (hex_digit (Z.shiftr w 24))
 (String (hex_digit (Z.shiftr w 20))
 (String (hex_digit (Z.shiftr w 16))
 (String (hex_digit (Z.shiftr w 12))
 (String (hex_digit (Z.shiftr w 8))
 (String (hex_digit (Z.shiftr w 4))
 (String (hex_digit w) EmptyString))))))).

(** [.digest('hex')] *)
Definition digest_hex (s : state) : string :=
  hex32 (h0 s) +:+ hex32 (h1 s) +:+ hex32 (h2 s) +:+ hex32 (h3 s) +:+ hex32 (h4 s).

Definition sha1_hex (msg : string) : string := digest_hex (hash msg).

(** A digit or a letter from a to f. *)
Definition is_lower_hex (c : ascii) : bool :=
  let n := nat_of_ascii c in
  ((48 <=? n)%nat && (n <=? 57)%nat) || ((97 <=? n)%nat && (n <=? 102)%nat).

End SHA1.

(** ** Values of the host language *)

(** Objects, arrays and errors carry their address: [===] compares them by
    reference.  An error is given by whether it is an instance of
    [SiapRetryError] (the retryable failure kind) and by the text its
    [toString()] returns. *)
Inductive jsval :=
| JUndefined
| JNull
| JBool (b : bool)
| JNum (n : Z)
| JStr (s : string)
| JObj (addr : nat) (props : list (string * jsval))
| JArr (addr : nat) (elems : list jsval)
| JErr (addr : nat) (retryable : bool) (text : string).

(** The conversion to boolean of [if (v)], [!v] and [v ? a : b]. *)
Definition truthy (v : jsval) : bool :=
  match v with
  | JUndefined | JNull => false
  | JBool b => b
  | JNum n => negb (n =? 0)%Z
  | JStr s => negb (String.eqb s EmptyString)
  | JObj _ _ | JArr _ _ | JErr _ _ _ => true
  end.

Definition nullish (v : jsval) : bool :=
  match v with
  | JUndefined | JNull => true
  | _ => false
  end.

(** [a === b] *)
Definition strict_eq (a b : jsval) : bool :=
  match a, b with
  | JUndefined, JUndefined => true
  | JNull, JNull => true
  | JBool x, JBool y => Bool.eqb x y
  | JNum x, JNum y => (x =? y)%Z
  | JStr x, JStr y => String.eqb x y
  | JObj x _, JObj y _ => (x =? y)%nat
  | JArr x _, JArr y _ => (x =? y)%nat
  | JErr x _ _, JErr y _ _ => (x =? y)%nat
  | _, _ => false
  end.

(** [String(v)], the conversion used by template strings, by [' ' + v] and
    for the replacement text of [replace].  Numbers are integers and are
    printed in decimal, as JavaScript prints those below 10^21; objects are
    plain: a [toString] of their own, which may return anything or throw,
    is not a value of this model. *)
Fixpoint ToString (v : jsval) : string :=
  match v with
  | JUndefined => "undefined"
  | JNull => "null"
  | JBool true => "true"
  | JBool false => "false"
  | JNum n => pretty n
  | JStr s => s
  | JObj _ _ => "[object Object]"
  | JArr _ l =>
      JSString.join ","
        (map (fun x => match x with
                       | JUndefined | JNull => EmptyString
                       | _ => ToString x
                       end) l)
  | JErr _ _ t => t
  end.

(** [l.join(sep)]: undefined and null elements give the empty string. *)
Definition join_values (sep : string) (l : list jsval) : string :=
  JSString.join sep (map (fun x => if nullish x then EmptyString else ToString x) l).

(** The index that the property key [k] denotes in a string or an array of
    length [len]. *)
Definition index_of_key (len : nat) (k : string) : option nat :=
  find (fun i => String.eqb (pretty i) k) (seq 0 len).

Fixpoint assoc {A : Type} (k : string) (l : list (string * A)) : option A :=
  match l with
  | [] => None
  | (k', v) :: rest => if String.eqb k' k then Some v else assoc k rest
  end.

(** [o[k] = v] on the own properties: an existing key keeps its place, a new
    key comes last. *)
Fixpoint assign {A : Type} (k : string) (v : A) (l : list (string * A)) : list (string * A) :=
  match l with
  | [] => [(k, v)]
  | (k', v') :: rest =>
      if String.eqb k' k then (k, v) :: rest else (k', v') :: assign k v rest
  end.

(** [o[k]] for [o] neither null nor undefined (own properties, [length] and
    the indices of strings and arrays; inherited methods are not values of
    this model). *)
Definition get (o : jsval) (k : string) : jsval :=
  match o with
  | JObj _ props => default JUndefined (assoc k props)
  | JStr s =>
      if String.eqb k "length" then JNum (Z.of_nat (String.length s))
      else match index_of_key (String.length s) k with
           | Some i => JStr (substring i 1 s)
           | None => JUndefined
           end
  | JArr _ l =>
      if String.eqb k "length" then JNum (Z.of_nat (length l))
      else match index_of_key (length l) k with
           | Some i => default JUndefined (l !! i)
           | None => JUndefined
           end
  | _ => JUndefined
  end.

(** Calls that may throw. *)
Inductive completion (A : Type) :=
| Normal (a : A)
| Throw (e : string).
Arguments Normal {A} a.
Arguments Throw {A} e.

Global Instance completion_ret : MRet completion := fun A a => Normal a.

Global Instance completion_bind : MBind completion := fun A B k c =>
  match c with
  | Normal a => k a
  | Throw e => Throw e
  end.

(** [l.forEach], collecting the results of a callback that may throw. *)
Fixpoint forEach {A B : Type} (f : A -> completion B) (l : list A) : completion (list B) :=
  match l with
  | [] => Normal []
  | x :: rest => y ← f x; ys ← forEach f rest; Normal (y :: ys)
  end.

(** Functions of the runtime whose results are not computed by the model. *)
Class Host := {
  inspect : jsval -> string;              (* util.inspect(v) *)
  date_toString : Z -> string;            (* new Date(ms).toString() *)
  StringToNumber : string -> option Z;    (* Number(s); None is NaN *)
}.

(** [Number(v)], the conversion of the operands of [>]. *)
Definition ToNumber `{Host} (v : jsval) : option Z :=
  match v with
  | JUndefined => None
  | JNull => Some 0
  | JBool b => Some (if b then 1 else 0)
  | JNum n => Some n
  | JStr s => StringToNumber s
  | JObj _ _ | JArr _ _ | JErr _ _ _ => StringToNumber (ToString v)
  end.

(** [a > b] when one of the operands is a number. *)
Definition gt `{Host} (a b : jsval) : bool :=
  match ToNumber a, ToNumber b with
  | Some x, Some y => (y <? x)%Z
  | _, _ => false
  end.

(** A call of [console.log] or [console.error], with its arguments. *)
Inductive LogLine :=
| LogStatus (item : string) (text : string)   (* 'Queue %s %s' *)
| LogResult (item : string) (value : jsval)   (* 'Queue %s result: %s' *)
| LogRetry (item : string) (count : nat)      (* 'Retrying %s (%d)...' *)
| LogFault (err : string).   (* 'Got an error while processing queue: %s!' *)

(** ** The queue item: class SiapQueue *)

Module SiapQueue.

Definition QUEUE_SPP : string := "spp".
Definition QUEUE_CALLBACK : string := "callback".
Definition QUEUE_CAPTCHA : string := "captcha".
Definition QUEUE_NOOP : string := "noop".

Inductive Status :=
| STATUS_NEW
| STATUS_PROCESSING
| STATUS_DONE
| STATUS_ERROR
| STATUS_TIMED_OUT
| STATUS_SKIPPED.

Global Instance Status_eq_dec : EqDecision Status.
Proof. solve_decision. Defined.

(** The value of the static getters [STATUS_...]. *)
Definition status_text (s : Status) : string :=
  match s with
  | STATUS_NEW => "new"
  | STATUS_PROCESSING => "processing"
  | STATUS_DONE => "done"
  | STATUS_ERROR => "error"
  | STATUS_TIMED_OUT => "timeout"
  | STATUS_SKIPPED => "skipped"
  end.

(** The fields of an item.  [time] is the [Date] of the last [start()] in
    milliseconds; [retry] is the conversion of the field to boolean; the four
    hooks are [true] when [typeof] of the field is ['function']. *)
Record t := mkQueue {
  type : string;
  id : jsval;
  data : jsval;
  maps : jsval;
  callback : jsval;
  info : jsval;
  status : Status;
  result : jsval;
  time : option Z;
  retryCount : option nat;
  retry : bool;
  resolve : bool;
  reject : bool;
  onretry : bool;
  ontimeout : bool;
}.

Definition with_id (v : jsval) (q : t) : t :=
  mkQueue (type q) v (data q) (maps q) (callback q) (info q) (status q) (result q)
          (time q) (retryCount q) (retry q) (resolve q) (reject q) (onretry q) (ontimeout q).

Definition with_status (s : Status) (q : t) : t :=
  mkQueue (type q) (id q) (data q) (maps q) (callback q) (info q) s (result q)
          (time q) (retryCount q) (retry q) (resolve q) (reject q) (onretry q) (ontimeout q).

Definition with_result (v : jsval) (q : t) : t :=
  mkQueue (type q) (id q) (data q) (maps q) (callback q) (info q) (status q) v
          (time q) (retryCount q) (retry q) (resolve q) (reject q) (onretry q) (ontimeout q).

Definition with_time (d : option Z) (q : t) : t :=
  mkQueue (type q) (id q) (data q) (maps q) (callback q) (info q) (status q) (result q)
          d (retryCount q) (retry q) (resolve q) (reject q) (onretry q) (ontimeout q).

Definition with_retryCount (n : option nat) (q : t) : t :=
  mkQueue (type q) (id q) (data q) (maps q) (callback q) (info q) (status q) (result q)
          (time q) n (retry q) (resolve q) (reject q) (onretry q) (ontimeout q).

(** [new SiapQueue()] followed by the assignments of [create]. *)
Definition create (type : string) (data : jsval) (callback : jsval) : t :=
  mkQueue type JUndefined data JUndefined
          (if truthy callback then callback else JUndefined) JUndefined
          STATUS_NEW JUndefined None None false false false false false.

Definition createSppQueue (data callback : jsval) : t := create QUEUE_SPP data callback.
Definition createCallbackQueue (data callback : jsval) : t := create QUEUE_CALLBACK data callback.
Definition createCaptchaQueue (data : jsval) : t := create QUEUE_CAPTCHA data JNull.
Definition createNoopQueue (data : jsval) : t := create QUEUE_NOOP data JNull.

Definition setId (v : jsval) (q : t) : t := with_id v q.

Definition getTypeText (q : t) : string := type q.
Definition getStatusText (q : t) : string := status_text (status q).

Definition getInfo (q : t) : jsval :=
  if negb (truthy (info q)) && String.eqb (type q) QUEUE_CALLBACK then callback q
  else info q.

Definition toString (q : t) : string :=
  getTypeText q +:+ ":" +:+ ToString (id q)
  +:+ (if truthy (getInfo q) then " " +:+ ToString (getInfo q) else EmptyString).

(** The setters return the item and the lines they print. *)
Definition setStatus (s : Status) (q : t) : t * list LogLine :=
  if decide (status q = s) then (q, [])
  else let q' := with_status s q in
       (q', [LogStatus (toString q') (getStatusText q')]).

Definition setResult (v : jsval) (q : t) : t * list LogLine :=
  if strict_eq (result q) v then (q, [])
  else let q' := with_result v q in
       (q', [LogResult (toString q')
               match v with
               | JErr _ _ text => JStr text
               | _ => v
               end]).

(** [setTime(time)]; [now] is the value of [new Date()]. *)
Definition setTime (now : Z) (time : option Z) (q : t) : t :=
  with_time (Some (default now time)) q.

Definition start (now : Z) (q : t) : t * list LogLine :=
  setStatus STATUS_PROCESSING (setTime now None q).

Definition done (res : jsval) (q : t) : t * list LogLine :=
  let (q1, l1) := setStatus STATUS_DONE q in
  let (q2, l2) := setResult res q1 in
  (q2, (l1 ++ l2)%list).

Definition error (err : jsval) (q : t) : t * list LogLine :=
  let (q1, l1) := setStatus STATUS_ERROR q in
  let (q2, l2) := setResult err q1 in
  (q2, (l1 ++ l2)%list).

Definition finished (q : t) : bool :=
  bool_decide (status q ∈ [STATUS_DONE; STATUS_ERROR; STATUS_TIMED_OUT; STATUS_SKIPPED]).

(** *** Field resolver *)

(** The walk of [getMap] through the nested object [maps]. *)
Fixpoint walk (o : jsval) (parts : list string) : jsval :=
  match parts with
  | [] => o
  | n :: rest => if truthy (get o n) then walk (get o n) rest else JNull
  end.

Definition getMap (name : jsval) (q : t) : jsval :=
  if truthy (maps q) then
    match name with
    | JStr s => walk (maps q) (JSString.split "." s)
    | JArr _ l => walk (maps q) (map ToString l)
    | _ => JUndefined
    end
  else JUndefined.

(** The placeholder of the reference of index [i] in a FORMAT template. *)
Definition placeholder (i : nat) : string := "%" +:+ pretty (i + 1)%nat +:+ "%".

(** The loop of the FORMAT case: the value of every reference replaces its
    placeholder, one reference after the other. *)
Fixpoint format (resolve : jsval -> completion jsval) (i : nat) (refs : list string)
    (value : string) : completion string :=
  match refs with
  | [] => Normal value
  | n :: rest =>
      v ← resolve (JStr (JSString.trim n));
      format resolve (S i) rest (JSString.replaceAll (placeholder i) (ToString v) value)
  end.

(** [getTranslatedValue(value)], where [resolve] stands for
    [this.getDataValue].  [x[1]] is undefined when [value] has no colon, and
    [split] of undefined throws. *)
Definition getTranslatedValue_with (resolve : jsval -> completion jsval) (value : string)
    : completion jsval :=
  let x := JSString.split ":" value in
  let vtype := default EmptyString (x !! 0%nat) in
  let vvalue := x !! 1%nat in
  if String.eqb vtype "CONCAT" then
    match vvalue with
    | None => Throw "TypeError"
    | Some spec =>
        match JSString.split "|" spec with
        | [] => Throw "TypeError"
        | separator :: values =>
            v ← forEach (fun n => resolve (JStr (JSString.trim n))) values;
            Normal (JStr (join_values separator v))
        end
    end
  else if String.eqb vtype "FORMAT" then
    match vvalue with
    | None => Throw "TypeError"
    | Some spec =>
        match JSString.split "|" spec with
        | [] => Throw "TypeError"
        | template :: values =>
            s ← format resolve 0 values template;
            Normal (JStr s)
        end
    end
  else Normal (JStr value).

(** [getDataValue(key)] and [getTranslatedValue(value)] call each other;
    [fuel] bounds the depth of the calls ([getDataValue_fuel_enough] below:
    the bound is never reached).  [this.data[key]] throws when [data] is null
    or undefined. *)
Fixpoint getDataValue_fuel (fuel : nat) (q : t) (key : jsval) : completion jsval :=
  match fuel with
  | O => Throw "RangeError"
  | S f =>
      match key with
      | JStr k =>
          if nullish (data q) then Throw "TypeError"
          else if negb (strict_eq (get (data q) k) JUndefined) then Normal (get (data q) k)
          else match JSString.indexOf ":" k with
               | Some (S _) => getTranslatedValue_with (getDataValue_fuel f q) k
               | _ => Normal JUndefined
               end
      | _ => Normal JUndefined
      end
  end.

Definition getDataValue (key : jsval) (q : t) : completion jsval :=
  getDataValue_fuel 2 q key.

Definition getTranslatedValue (value : string) (q : t) : completion jsval :=
  getTranslatedValue_with (fun key => getDataValue key q) value.

Definition getMappedData (name : jsval) (q : t) : completion jsval :=
  getDataValue (getMap name q) q.

(** *** Log record *)

(** The object [{id, type, name?, time?, status, result?}] of [getLog]. *)
Record Log := mkLog {
  log_id : jsval;
  log_type : string;
  log_name : option jsval;
  log_time : option string;
  log_status : string;
  log_result : option jsval;
}.

Definition getLog `{Host} (raw : bool) (q : t) : Log :=
  mkLog (id q) (type q)
        (if truthy (getInfo q) then Some (getInfo q) else None)
        (date_toString <$> time q)
        (status_text (status q))
        (if truthy (result q) then
           Some match result q with
                | JErr _ _ text => JStr text
                | JObj _ _ | JArr _ _ =>
                    if negb raw then JStr (inspect (result q)) else result q
                | v => v
                end
         else None).

End SiapQueue.

(** ** The sequential runner: @ntlab/work/queue *)

Module Queue.

(** Modelled from the spec: the class [Queue] of the package @ntlab/work is
    not part of the sources.  Section 4.2 of the specification describes it:
    the runner holds the ordered list of the items that are not started yet,
    [enqueue(item, priority)] appends to the tail or, if [priority] is true,
    inserts at the head, and [advance()] pops the head item and calls the
    item processor with it when no dispatch is active, the readiness
    predicate holds and the list is not empty; the runner is active for the
    duration of the synchronous call of the item processor.  The idle signal
    of the runner is left out of the model. *)
Record t := mkRunner {
  queues : list nat;   (* references of the pending items, head first *)
  active : bool;
}.

(** Modelled from the spec: [requeue(items, priority)]. *)
Definition requeue (items : list nat) (priority : bool) (r : t) : t :=
  if priority then mkRunner (items ++ queues r)%list (active r)
  else mkRunner (queues r ++ items)%list (active r).

(** Modelled from the spec: [next()], for a runner that is the component
    [getq] of a state [S]; [check] is the readiness predicate and [handler]
    the item processor.  The runner is active while the item processor
    runs: a call of [next()] that the item processor makes before it returns
    finds a dispatch active and does nothing (section 4.2).  Section 4.3
    has the item processor make such calls for the item that follows
    (steps 1, 5 and 6); the statements that describe all that one dispatch
    does are for states in which that call is not made or finds nothing to
    dispatch, or leave room for what it dispatches. *)
Definition next {S : Type} (getq : S -> t) (setq : t -> S -> S)
    (check : S -> bool) (handler : nat -> S -> S) (s : S) : S :=
  if active (getq s) then s
  else if negb (check s) then s
  else match queues (getq s) with
       | [] => s
       | r :: rest =>
           let s1 := handler r (setq (mkRunner rest true) s) in
           setq (mkRunner (queues (getq s1)) false) s1
       end.

End Queue.

(** ** The consumer contract *)

(** The consumer is an object with a state of its own.  [processQueue c q]
    is the state of the consumer once the call has returned its promise, or
    the exception that the call throws; the promise is settled later by the
    environment. *)
Class Consumer (C : Type) := {
  canProcessQueue : C -> bool;
  canHandleNextQueue : C -> SiapQueue.t -> bool;
  processQueue : C -> SiapQueue.t -> completion C;
}.

(** A promise that is not settled yet, with the item it belongs to. *)
Inductive Promise :=
| PProcess (r : nat)     (* consumer.processQueue(queue) *)
| POnRetry (r : nat)     (* queue.onretry() *)
| POnTimeout (r : nat).  (* queue.ontimeout() *)

Global Instance Promise_eq_dec : EqDecision Promise.
Proof. solve_decision. Defined.

(** What the dispatcher emits and calls. *)
Inductive Event :=
| Dispatch (r : nat)                   (* the runner calls the item processor *)
| QueueStart (r : nat)                 (* emit('queue-start', queue) *)
| QueueDone (r : nat)                  (* emit('queue-done', queue) *)
| QueueError (r : nat)                 (* emit('queue-error', queue) *)
| ProcessQueue (r : nat)               (* consumer.processQueue(queue) *)
| Resolve (r : nat) (res : jsval)      (* queue.resolve(res) *)
| Reject (r : nat) (err : jsval).      (* queue.reject(err) *)

(** The acknowledgement [{status: 'queued', id}] of [add]. *)
Record Ack := mkAck { ack_status : string; ack_id : jsval }.

(** A value of the object returned by [getStatus]. *)
Inductive StatusVal :=
| SVal (v : jsval)
| SLog (l : SiapQueue.Log).

(** ** The dispatcher: class SiapDequeue *)

Module SiapDequeue.

(** A value of the [info] object: a value, or a function given by what it
    returns. *)
Inductive InfoVal :=
| IVal (v : jsval)
| IFun (ret : jsval).

(** The fields of the dispatcher, followed by the state of its environment:
    the promises that are not settled yet, whether the poll loop of
    [setConsumer] is installed, the trace of the events and calls made so far
    (in the order they were made), and the lines printed so far. *)
Record t (C : Type) := mkDequeue {
  info : list (string * InfoVal);
  time : Z;
  queues : list SiapQueue.t;
  queue : Queue.t;
  timeout : Z;
  retry : nat;
  consumer : option C;
  last : option nat;
  inflight : list Promise;
  polling : bool;
  trace : list Event;
  console : list LogLine;
}.
Arguments mkDequeue {C}.
Arguments info {C}.
Arguments time {C}.
Arguments queues {C}.
Arguments queue {C}.
Arguments timeout {C}.
Arguments retry {C}.
Arguments consumer {C}.
Arguments last {C}.
Arguments inflight {C}.
Arguments polling {C}.
Arguments trace {C}.
Arguments console {C}.

Section Dispatcher.
Context `{Host} {C : Type} `{Consumer C}.

Local Abbreviation t := (t C).

Definition with_info (v : list (string * InfoVal)) (d : t) : t :=
    mkDequeue v (time d) (queues d) (queue d) (timeout d) (retry d) (consumer d)
              (last d) (inflight d) (polling d) (trace d) (console d).

Definition with_queues (v : list SiapQueue.t) (d : t) : t :=
    mkDequeue (info d) (time d) v (queue d) (timeout d) (retry d) (consumer d)
              (last d) (inflight d) (polling d) (trace d) (console d).

Definition with_queue (v : Queue.t) (d : t) : t :=
    mkDequeue (info d) (time d) (queues d) v (timeout d) (retry d) (consumer d)
              (last d) (inflight d) (polling d) (trace d) (console d).

Definition with_consumer (v : option C) (d : t) : t :=
    mkDequeue (info d) (time d) (queues d) (queue d) (timeout d) (retry d) v
              (last d) (inflight d) (polling d) (trace d) (console d).

Definition with_last (v : option nat) (d : t) : t :=
    mkDequeue (info d) (time d) (queues d) (queue d) (timeout d) (retry d) (consumer d)
              v (inflight d) (polling d) (trace d) (console d).

Definition with_inflight (v : list Promise) (d : t) : t :=
    mkDequeue (info d) (time d) (queues d) (queue d) (timeout d) (retry d) (consumer d)
              (last d) v (polling d) (trace d) (console d).

Definition with_polling (v : bool) (d : t) : t :=
    mkDequeue (info d) (time d) (queues d) (queue d) (timeout d) (retry d) (consumer d)
              (last d) (inflight d) v (trace d) (console d).

Definition with_trace (v : list Event) (d : t) : t :=
    mkDequeue (info d) (time d) (queues d) (queue d) (timeout d) (retry d) (consumer d)
              (last d) (inflight d) (polling d) v (console d).

Definition with_console (v : list LogLine) (d : t) : t :=
    mkDequeue (info d) (time d) (queues d) (queue d) (timeout d) (retry d) (consumer d)
              (last d) (inflight d) (polling d) (trace d) v.

  (** [new SiapDequeue()] at time [now]. *)
Definition new (now : Z) : t :=
    mkDequeue [] now [] (Queue.mkRunner [] false) (10 * 60 * 1000) 3 None None
              [] false [] [].

  (** The call [m] of a method of the item of reference [r]; the lines it
      prints go to the console. *)
Definition call (r : nat) (m : SiapQueue.t -> SiapQueue.t * list LogLine) (d : t) : t :=
    match queues d !! r with
    | Some q =>
        with_console (console d ++ snd (m q))%list
          (with_queues (<[r := fst (m q)]> (queues d)) d)
    | None => d
    end.

Definition emit (e : Event) (d : t) : t := with_trace (trace d ++ [e])%list d.

Definition print (l : LogLine) (d : t) : t := with_console (console d ++ [l])%list d.

Definition await (p : Promise) (d : t) : t := with_inflight (inflight d ++ [p])%list d.

  (** The promise [p] is settled: it is not awaited any longer. *)
Fixpoint remove (p : Promise) (l : list Promise) : list Promise :=
    match l with
    | [] => []
    | p' :: rest => if decide (p' = p) then rest else p' :: remove p rest
    end.

Definition canProcess (d : t) : bool :=
    match consumer d with
    | Some c => canProcessQueue c
    | None => false
    end.

Definition getNext (d : t) : option nat := head (Queue.queues (queue d)).

Definition getLast (d : t) : option nat := last d.

Definition setLastQueue (r : nat) (d : t) : t :=
    match queues d !! r with
    | Some q =>
        if negb (String.eqb (SiapQueue.type q) SiapQueue.QUEUE_CALLBACK)
        then with_last (Some r) d else d
    | None => d
    end.

Definition genId (now : Z) : string := substring 0 8 (SHA1.sha1_hex (pretty now)).

  (** *** doQueue *)

Section Closures.
    (** [now] is the value of [new Date()] during the current turn of the
        event loop, [next] stands for [this.queue.next()]. *)
Context (now : Z) (next : t -> t).

Definition success (res : jsval) (r : nat) (d : t) : t :=
      let d1 := call r (SiapQueue.done res) d in
      let d2 := setLastQueue r d1 in
      let d3 := match queues d2 !! r with
                | Some q => if SiapQueue.resolve q then emit (Resolve r res) d2 else d2
                | None => d2
                end in
      next (emit (QueueDone r) d3).

Definition fail (err : jsval) (r : nat) (d : t) : t :=
      let d1 := call r (SiapQueue.error err) d in
      let d2 := setLastQueue r d1 in
      let d3 := match queues d2 !! r with
                | Some q => if SiapQueue.reject q then emit (Reject r err) d2 else d2
                | None => d2
                end in
      next (emit (QueueError r) d3).

    (** The [catch] of [doit]. *)
Definition fault (e : string) (d : t) : t := next (print (LogFault e) d).

Definition doit (r : nat) (d : t) : t :=
      match queues d !! r with
      | None => d
      | Some q =>
          if decide (SiapQueue.status q ≠ SiapQueue.STATUS_SKIPPED) then
            let d1 := call r (SiapQueue.start now) d in
            let d2 := emit (QueueStart r) d1 in
            match consumer d2, queues d2 !! r with
            | Some c, Some q2 =>
                match processQueue c q2 with
                | Normal c' =>
                    let d3 := await (PProcess r) (emit (ProcessQueue r) (with_consumer (Some c') d2)) in
                    (* check for next queue *)
                    match getNext d3 with
                    | Some nr =>
                        match queues d3 !! nr with
                        | Some nextqueue =>
                            if negb (String.eqb (SiapQueue.type nextqueue) SiapQueue.QUEUE_CALLBACK)
                               && canHandleNextQueue c' nextqueue
                            then next d3 else d3
                        | None => d3
                        end
                    | None => d3
                    end
                | Throw e => fault e d2
                end
            | _, _ => fault "TypeError" d2
            end
          else next d
      end.

Definition is_retry_error (err : jsval) : bool :=
      match err with
      | JErr _ retryable _ => retryable
      | _ => false
      end.

Definition retry_ (err : jsval) (r : nat) (d : t) : t :=
      match queues d !! r with
      | None => d
      | Some q =>
          let n := (default 0 (SiapQueue.retryCount q) + 1)%nat in
          let q1 := SiapQueue.with_retryCount (Some n) q in
          let d1 := with_queues (<[r := q1]> (queues d)) d in
          if is_retry_error err && SiapQueue.retry q1 && (n <=? retry d1)%nat then
            let d2 := print (LogRetry (SiapQueue.toString q1) n) d1 in
            if SiapQueue.onretry q1 then await (POnRetry r) d2
            else doit r d2
          else fail err r d1
      end.

Definition doQueue (r : nat) (d : t) : t :=
      match consumer d with
      | Some _ => doit r d
      | None => d
      end.

End Closures.

  (** [this.queue.next()]: the runner was built with the item processor
      [queue => this.doQueue(queue)] and the check [() => this.canProcess()].
      The calls of [next] made by the item processor are calls of the same
      function; [fuel] bounds their nesting ([next_fuel_enough] below: the
      runner is active during the call, so the bound is never reached). *)
Fixpoint next_fuel (fuel : nat) (now : Z) (d : t) : t :=
    match fuel with
    | O => d
    | S f =>
        Queue.next queue with_queue canProcess
          (fun r d' => doQueue now (next_fuel f now) r (emit (Dispatch r) d')) d
    end.

Definition next (now : Z) (d : t) : t := next_fuel 2 now d.

  (** *** setConsumer and the poll loop *)

  (** [queue.data && queue.data.timeout !== undefined ? queue.data.timeout
      : this.timeout] *)
Definition effective_timeout (d : t) (q : SiapQueue.t) : jsval :=
    if truthy (SiapQueue.data q)
       && negb (strict_eq (get (SiapQueue.data q) "timeout") JUndefined)
    then get (SiapQueue.data q) "timeout"
    else JNum (timeout d).

Definition is_processing (q : SiapQueue.t) : bool :=
    bool_decide (SiapQueue.status q = SiapQueue.STATUS_PROCESSING).

  (** One run of the function [f] of [setConsumer], without the call of
      [setTimeout] that schedules the next run.  [queue.time.getTime()]
      throws when the item has no [time]; the loop is then not scheduled
      again.  The timeout is compared as a primitive value: the comparison
      with an object, which calls its conversion, is not part of the
      model. *)
Definition poll (now : Z) (d : t) : t :=
    match list_find (fun q => is_processing q = true) (queues d) with
    | Some (r, q) =>
        match SiapQueue.time q with
        | None => with_polling false d
        | Some started =>
            let elapsed := now - started in
            let timeout := effective_timeout d q in
            if gt timeout (JNum 0) && gt (JNum elapsed) timeout then
              let d1 := call r (SiapQueue.setStatus SiapQueue.STATUS_TIMED_OUT) d in
              if SiapQueue.ontimeout q then await (POnTimeout r) d1
              else next now d1
            else d
        end
    | None =>
        match queues d with
        | [] => d
        | _ :: _ => next now d
        end
    end.

Definition setConsumer (now : Z) (c : option C) (d : t) : t :=
    let d1 := with_consumer c d in
    match c with
    | Some _ => poll now (with_polling true d1)
    | None => d1
    end.

Definition setInfo (i : list (string * InfoVal)) (d : t) : t :=
    with_info (fold_left (fun acc kv => assign (fst kv) (snd kv) acc) i []) d.

  (** *** add *)

Definition add (now : Z) (q : SiapQueue.t) (d : t) : Ack * t :=
    let q1 := if negb (truthy (SiapQueue.id q))
              then SiapQueue.setId (JStr (genId now)) q else q in
    let r := length (queues d) in
    let d1 := with_queues (queues d ++ [q1])%list d in
    let d2 := with_queue
                (Queue.requeue [r] (String.eqb (SiapQueue.type q1) SiapQueue.QUEUE_CALLBACK)
                   (queue d1)) d1 in
    let d3 := next now d2 in
    (mkAck "queued" (default JUndefined (SiapQueue.id <$> queues d3 !! r)), d3).

  (** *** Status and logs *)

Definition buildInfo (i : list (string * InfoVal)) : list (string * jsval) :=
    fold_left (fun result kv =>
                 assign (fst kv)
                   match snd kv with
                   | IVal v => v
                   | IFun ret => ret
                   end result) i [].

Definition getStatus (d : t) : list (string * StatusVal) :=
    let status :=
      assign "queue" (SVal (JNum (Z.of_nat (length (Queue.queues (queue d))))))
        (assign "total" (SVal (JNum (Z.of_nat (length (queues d)))))
           (assign "time" (SVal (JStr (date_toString (time d))))
              (map (fun kv => (fst kv, SVal (snd kv))) (buildInfo (info d))))) in
    let processing := map SiapQueue.toString (filter (fun q => is_processing q = true) (queues d)) in
    let status1 :=
      match processing with
      | [] => status
      | _ :: _ => assign "current" (SVal (JStr (JSString.join "<br/>" processing))) status
      end in
    match getLast d with
    | Some r =>
        match queues d !! r with
        | Some q => assign "last" (SLog (SiapQueue.getLog false q)) status1
        | None => status1
        end
    | None => status1
    end.

Definition getLogs (raw : bool) (d : t) : list SiapQueue.Log :=
    map (SiapQueue.getLog raw) (queues d).

  (** *** The environment *)

Inductive Settlement :=
  | Fulfilled (v : jsval)
  | Rejected (err : jsval).

  (** What happens to the dispatcher, one turn of the event loop at a time:
      a call of [add], [setConsumer] or [setInfo], a run of the poll loop, the
      settlement of a promise, a consumer that changes its own state.
      [Skip] is modelled from the spec: the external actor that marks an item
      SKIPPED while it is still NEW is not part of the sources. *)
Inductive Input :=
  | Add (now : Z) (q : SiapQueue.t)
  | SetConsumer (now : Z) (c : option C)
  | SetInfo (i : list (string * InfoVal))
  | Tick (now : Z)
  | Settle (now : Z) (p : Promise) (s : Settlement)
  | Skip (r : nat)
  | ConsumerMoves (c : C).

  (** The callbacks registered on the promise [p], when each of them
      returns: [success] for a consumer call that is fulfilled, [retry] for
      one that is rejected. *)
Definition settle (now : Z) (p : Promise) (s : Settlement) (d : t) : t :=
    match p, s with
    | PProcess r, Fulfilled res => success (next now) res r d
    | PProcess r, Rejected err => retry_ now (next now) err r d
    | POnRetry r, Fulfilled _ => doit now (next now) r d
    | POnRetry r, Rejected err => fail (next now) err r d
    | POnTimeout r, _ => next now d
    end.

  (** [None] when the input cannot happen in the state [d]: only a promise
      that is awaited settles, the poll loop runs once installed, items are
      submitted with the status NEW, and only an item that is NEW is marked
      SKIPPED. *)
Definition step (i : Input) (d : t) : option t :=
    match i with
    | Add now q =>
        if decide (SiapQueue.status q = SiapQueue.STATUS_NEW)
        then Some (snd (add now q d)) else None
    | SetConsumer now c => Some (setConsumer now c d)
    | SetInfo i => Some (setInfo i d)
    | Tick now => if polling d then Some (poll now d) else None
    | Settle now p s =>
        if decide (p ∈ inflight d)
        then Some (settle now p s (with_inflight (remove p (inflight d)) d))
        else None
    | Skip r =>
        match queues d !! r with
        | Some q =>
            if decide (SiapQueue.status q = SiapQueue.STATUS_NEW)
            then Some (call r (SiapQueue.setStatus SiapQueue.STATUS_SKIPPED) d)
            else None
        | None => None
        end
    | ConsumerMoves c =>
        match consumer d with
        | Some _ => Some (with_consumer (Some c) d)
        | None => None
        end
    end.

Fixpoint run (l : list Input) (d : t) : option t :=
    match l with
    | [] => Some d
    | i :: rest =>
        match step i d with
        | Some d' => run rest d'
        | None => None
        end
    end.

End Dispatcher.

Arguments Input : clear implicits.

End SiapDequeue.

(** ** The singleton of the module *)

Section Singleton.
Context `{Host} {C : Type} `{Consumer C}.

  (** The state of the module: the variable [dequeue]. *)
Definition dequeue_var : Type := option (SiapDequeue.t C).

Definition createDequeuer (now : Z) (dequeue : dequeue_var) : SiapDequeue.t C * dequeue_var :=
    match dequeue with
    | Some d => (d, Some d)
    | None => (SiapDequeue.new now, Some (SiapDequeue.new now))
    end.

Definition addQueue (now : Z) (q : SiapQueue.t) (dequeue : dequeue_var)
      : completion (Ack * dequeue_var) :=
    match dequeue with
    | None => Throw "No dequeue instance has been created!"
    | Some d =>
        let (ack, d') := SiapDequeue.add now q d in
        Normal (ack, Some d')
    end.

(** A call of one of the two static methods. *)
Inductive Call :=
| CallCreateDequeuer (now : Z)
| CallAddQueue (now : Z) (q : SiapQueue.t).

(** The calls made by the process, in order, from the state [dequeue] of
    the module: the final state and what every call of [addQueue] returned
    or threw.  An exception leaves the state as it is. *)
Fixpoint process (calls : list Call) (dequeue : dequeue_var)
    : dequeue_var * list (completion Ack) :=
  match calls with
  | [] => (dequeue, [])
  | CallCreateDequeuer now :: rest => process rest (createDequeuer now dequeue).2
  | CallAddQueue now q :: rest =>
      match addQueue now q dequeue with
      | Normal (ack, dequeue') =>
          let (final, results) := process rest dequeue' in (final, Normal ack :: results)
      | Throw e =>
          let (final, results) := process rest dequeue in (final, Throw e :: results)
      end
  end.

Definition hasPendingQueue (q : SiapQueue.t) (dequeue : dequeue_var) : bool :=
    match dequeue with
    | Some d =>
        match filter (fun x =>
                 String.eqb (SiapQueue.type x) (SiapQueue.type q)
                 && strict_eq (SiapQueue.info x) (SiapQueue.info q)
                 && bool_decide (SiapQueue.status x ∈
                      [SiapQueue.STATUS_NEW; SiapQueue.STATUS_PROCESSING]) = true)
                (SiapDequeue.queues d) with
        | [] => false
        | _ :: _ => true
        end
    | None => false
    end.
End Singleton.

(** ** Notions used by the statements *)

(** What a reference of a CONCAT or FORMAT key resolves to: the value that
    [data] has for the trimmed reference. *)
Definition resolve_ref (q : SiapQueue.t) (n : string) : jsval :=
  match JSString.indexOf ":" (JSString.trim n) with
  | Some _ => JUndefined
  | None =>
      if nullish (SiapQueue.data q) then JUndefined
      else get (SiapQueue.data q) (JSString.trim n)
  end.

(** The loop of FORMAT on the values of the references. *)
Fixpoint format_values (i : nat) (vals : list jsval) (value : string) : string :=
  match vals with
  | [] => value
  | v :: rest =>
      format_values (S i) rest
        (JSString.replaceAll (SiapQueue.placeholder i) (ToString v) value)
  end.

(** The fields of an item that no operation of the dispatcher assigns, apart
    from [id] in [add]. *)
Definition same_fields (q q' : SiapQueue.t) : Prop :=
  SiapQueue.type q = SiapQueue.type q'
  /\ SiapQueue.id q = SiapQueue.id q'
  /\ SiapQueue.data q = SiapQueue.data q'
  /\ SiapQueue.maps q = SiapQueue.maps q'
  /\ SiapQueue.callback q = SiapQueue.callback q'
  /\ SiapQueue.info q = SiapQueue.info q'
  /\ SiapQueue.retry q = SiapQueue.retry q'
  /\ SiapQueue.resolve q = SiapQueue.resolve q'
  /\ SiapQueue.reject q = SiapQueue.reject q'
  /\ SiapQueue.onretry q = SiapQueue.onretry q'
  /\ SiapQueue.ontimeout q = SiapQueue.ontimeout q'.

(** The transitions of the status that the specification allows:
    NEW -> PROCESSING -> DONE, ERROR, TIMED_OUT or SKIPPED, and SKIPPED
    while still NEW. *)
Inductive claimed_edge : SiapQueue.Status -> SiapQueue.Status -> Prop :=
| edge_start : claimed_edge SiapQueue.STATUS_NEW SiapQueue.STATUS_PROCESSING
| edge_skip_new : claimed_edge SiapQueue.STATUS_NEW SiapQueue.STATUS_SKIPPED
| edge_done : claimed_edge SiapQueue.STATUS_PROCESSING SiapQueue.STATUS_DONE
| edge_error : claimed_edge SiapQueue.STATUS_PROCESSING SiapQueue.STATUS_ERROR
| edge_timeout : claimed_edge SiapQueue.STATUS_PROCESSING SiapQueue.STATUS_TIMED_OUT
| edge_skip : claimed_edge SiapQueue.STATUS_PROCESSING SiapQueue.STATUS_SKIPPED.

(** The transitions that the dispatcher makes: those above, and the ones out
    of TIMED_OUT that the settlement of the abandoned call causes. *)
Inductive edge : SiapQueue.Status -> SiapQueue.Status -> Prop :=
| edge_claimed s s' : claimed_edge s s' -> edge s s'
| edge_late_done : edge SiapQueue.STATUS_TIMED_OUT SiapQueue.STATUS_DONE
| edge_late_error : edge SiapQueue.STATUS_TIMED_OUT SiapQueue.STATUS_ERROR
| edge_late_retry : edge SiapQueue.STATUS_TIMED_OUT SiapQueue.STATUS_PROCESSING.

(** The items dispatched by the runner, in the order of their dispatch. *)
Definition dispatches (tr : list Event) : list nat :=
  omap (fun e => match e with Dispatch r => Some r | _ => None end) tr.

(** In the list [l], every occurrence of [b] comes after an occurrence of
    [a]. *)
Definition precedes (a b : nat) (l : list nat) : Prop :=
  forall l1 l2, l = (l1 ++ b :: l2)%list -> a ∈ l1.

Definition is_call (r : nat) (e : Event) : bool :=
  match e with
  | ProcessQueue r' => (r =? r')%nat
  | _ => false
  end.

(** The number of calls of [consumer.processQueue] made for the item [r]. *)
Definition attempts (r : nat) (tr : list Event) : nat :=
  length (filter (fun e => is_call r e = true) tr).

(** The items whose [queue-done] or [queue-error] has been emitted, in the
    order of the events. *)
Definition settlements (tr : list Event) : list nat :=
  omap (fun e => match e with
                 | QueueDone r | QueueError r => Some r
                 | _ => None
                 end) tr.

(** The item of a promise. *)
Definition owner (p : Promise) : nat :=
  match p with
  | PProcess r | POnRetry r | POnTimeout r => r
  end.

(** The items that have a consumer call or an [onretry] hook in flight. *)
Definition busy (l : list Promise) : list nat :=
  omap (fun p => match p with
                 | PProcess r | POnRetry r => Some r
                 | POnTimeout _ => None
                 end) l.

Section Invariant.
Context {C : Type}.

Definition pending (d : SiapDequeue.t C) : list nat := Queue.queues (SiapDequeue.queue d).

Definition status_in (d : SiapDequeue.t C) (r : nat) (l : list SiapQueue.Status) : Prop :=
  exists q, SiapDequeue.queues d !! r = Some q /\ SiapQueue.status q ∈ l.

(** The pending items are distinct items of the history that are NEW or
    SKIPPED; an item has at most one consumer call or [onretry] hook in
    flight, and is then PROCESSING or TIMED_OUT. *)
Record Inv (d : SiapDequeue.t C) : Prop := mkInv {
  inv_pending : forall r, r ∈ pending d ->
      status_in d r [SiapQueue.STATUS_NEW; SiapQueue.STATUS_SKIPPED];
  inv_pending_nodup : NoDup (pending d);
  inv_busy : forall r, r ∈ busy (SiapDequeue.inflight d) ->
      status_in d r [SiapQueue.STATUS_PROCESSING; SiapQueue.STATUS_TIMED_OUT];
  inv_busy_nodup : NoDup (busy (SiapDequeue.inflight d));
}.

(** Every item of [d] is an item of [d'], with the same fields. *)
Definition frame (d d' : SiapDequeue.t C) : Prop :=
  forall r q, SiapDequeue.queues d !! r = Some q ->
    exists q', SiapDequeue.queues d' !! r = Some q' /\ same_fields q q'.

(** Every item of [d] is an item of [d'], with a status reached along the
    transitions [E]. *)
Definition moves (E : SiapQueue.Status -> SiapQueue.Status -> Prop)
    (d d' : SiapDequeue.t C) : Prop :=
  forall r q, SiapDequeue.queues d !! r = Some q ->
    exists q', SiapDequeue.queues d' !! r = Some q'
               /\ rtc E (SiapQueue.status q) (SiapQueue.status q').

(** The step from [d] to [d'] keeps the invariant and moves every status
    along the transitions of the dispatcher. *)
Definition ok (d d' : SiapDequeue.t C) : Prop := Inv d' /\ moves edge d d'.

(** The item [r] is an item of the history that is not a callback. *)
Definition noncallback (d : SiapDequeue.t C) (r : nat) : Prop :=
  exists q, SiapDequeue.queues d !! r = Some q
            /\ SiapQueue.type q <> SiapQueue.QUEUE_CALLBACK.

(** The order of the runner: the pending and the dispatched items are items
    of the history; an item that is not a callback is pending or has been
    dispatched; the pending items that are not callbacks are in the order of
    their submission; and so are the dispatches of such items. *)
Record Ordered (d : SiapDequeue.t C) : Prop := mkOrdered {
  ord_valid : forall r, r ∈ pending d \/ r ∈ dispatches (SiapDequeue.trace d) ->
      (r < length (SiapDequeue.queues d))%nat;
  ord_known : forall r, noncallback d r ->
      r ∈ dispatches (SiapDequeue.trace d) \/ r ∈ pending d;
  ord_pending : forall l1 x l2, pending d = (l1 ++ x :: l2)%list -> noncallback d x ->
      forall y, y ∈ l1 -> noncallback d y -> (y < x)%nat;
  ord_dispatched : forall a b, noncallback d a -> noncallback d b -> (a < b)%nat ->
      precedes a b (dispatches (SiapDequeue.trace d));
}.

(** Since the state in which the callback [rc] was enqueued, whose
    dispatches were [before] and whose other pending items were [waiting]:
    either [rc] has been dispatched, and before every dispatch of an item of
    [waiting]; or no item of [waiting] has been dispatched and [rc] is ahead
    of every one of them in the pending list. *)
Definition ahead (rc : nat) (waiting before : list nat) (d : SiapDequeue.t C) : Prop :=
  exists since, dispatches (SiapDequeue.trace d) = (before ++ since)%list
    /\ (rc < length (SiapDequeue.queues d))%nat
    /\ ((rc ∈ since /\ forall r, r ∈ waiting -> precedes rc r since)
        \/ ((forall r, r ∈ waiting -> r ∉ since)
            /\ exists l1 l2, pending d = (l1 ++ rc :: l2)%list
                 /\ forall r, r ∈ waiting -> r ∉ l1)).

(** The step from [d] to [d'] does not concern the item [r]: the item is
    the same, no promise is settled, no consumer call is made for [r], the
    consumer stays attached and the retry ceiling is the same. *)
Definition untouched (r : nat) (d d' : SiapDequeue.t C) : Prop :=
  SiapDequeue.queues d' !! r = SiapDequeue.queues d !! r
  /\ (forall p, p ∈ SiapDequeue.inflight d -> p ∈ SiapDequeue.inflight d')
  /\ attempts r (SiapDequeue.trace d') = attempts r (SiapDequeue.trace d)
  /\ (is_Some (SiapDequeue.consumer d) -> is_Some (SiapDequeue.consumer d'))
  /\ SiapDequeue.retry d' = SiapDequeue.retry d
  /\ SiapDequeue.timeout d' = SiapDequeue.timeout d
  /\ (r ∉ pending d -> r ∉ pending d').

(** The creation time, the default timeout and the retry ceiling. *)
Definition settings (d : SiapDequeue.t C) : Z * Z * nat :=
  (SiapDequeue.time d, SiapDequeue.timeout d, SiapDequeue.retry d).

(** The item [r] is an item of the history and not a callback. *)
Definition is_noncallback (d : SiapDequeue.t C) (r : nat) : bool :=
  match SiapDequeue.queues d !! r with
  | Some q => negb (String.eqb (SiapQueue.type q) SiapQueue.QUEUE_CALLBACK)
  | None => false
  end.



(** What one action of the runner, of [add] or of the handlers of a
    settlement does to the pending list, to the list of the dispatches, to
    the history and to the item recorded as last: the head of the pending
    list is dispatched; or a new item is pushed on the history and enqueued,
    at the head when it is a callback and at the tail otherwise; or an item
    is signalled done or in error, and recorded as last unless it is a
    callback; or none of them changes.  The settings never change. *)
Inductive qstep (d d' : SiapDequeue.t C) : Prop :=
| qstep_pop r :
    pending d = r :: pending d' ->
    dispatches (SiapDequeue.trace d') = (dispatches (SiapDequeue.trace d) ++ [r])%list ->
    length (SiapDequeue.queues d') = length (SiapDequeue.queues d) ->
    frame d d' ->
    settings d' = settings d ->
    SiapDequeue.last d' = SiapDequeue.last d ->
    settlements (SiapDequeue.trace d') = settlements (SiapDequeue.trace d) ->
    qstep d d'
| qstep_push q :
    SiapDequeue.queues d' = (SiapDequeue.queues d ++ [q])%list ->
    pending d' =
      (if String.eqb (SiapQueue.type q) SiapQueue.QUEUE_CALLBACK
       then length (SiapDequeue.queues d) :: pending d
       else pending d ++ [length (SiapDequeue.queues d)])%list ->
    dispatches (SiapDequeue.trace d') = dispatches (SiapDequeue.trace d) ->
    settings d' = settings d ->
    SiapDequeue.last d' = SiapDequeue.last d ->
    settlements (SiapDequeue.trace d') = settlements (SiapDequeue.trace d) ->
    qstep d d'
| qstep_finish r :
    pending d' = pending d ->
    dispatches (SiapDequeue.trace d') = dispatches (SiapDequeue.trace d) ->
    length (SiapDequeue.queues d') = length (SiapDequeue.queues d) ->
    frame d d' ->
    settings d' = settings d ->
    (r < length (SiapDequeue.queues d))%nat ->
    SiapDequeue.last d' = (if is_noncallback d r then Some r else SiapDequeue.last d) ->
    settlements (SiapDequeue.trace d') = (settlements (SiapDequeue.trace d) ++ [r])%list ->
    qstep d d'
| qstep_keep :
    pending d' = pending d ->
    dispatches (SiapDequeue.trace d') = dispatches (SiapDequeue.trace d) ->
    length (SiapDequeue.queues d') = length (SiapDequeue.queues d) ->
    frame d d' ->
    settings d' = settings d ->
    SiapDequeue.last d' = SiapDequeue.last d ->
    settlements (SiapDequeue.trace d') = settlements (SiapDequeue.trace d) ->
    qstep d d'.

End Invariant.

(** ** Scenarios of the statements *)

(** A host for the examples. *)
Definition example_host : Host :=
  {| inspect := fun _ => "[inspect]";
     date_toString := fun ms => pretty ms;
     StringToNumber := fun _ => None |}.

(** A consumer for the examples.  Its state says whether it is ready and
    whether it approves a second item next to the one it processes; it never
    throws. *)
Definition example_consumer : Consumer (bool * bool) :=
  {| canProcessQueue := fun c => c.1;
     canHandleNextQueue := fun c _ => c.2;
     processQueue := fun c _ => Normal c |}.

(** An item as the factories create it, with an id, given its type, its
    data, whether it opts in for retries and whether it has the hooks
    [onretry] and [ontimeout]. *)
Definition example_item (type : string) (id : string) (data : jsval)
    (retry onretry ontimeout : bool) : SiapQueue.t :=
  SiapQueue.mkQueue type (JStr id) data JUndefined JUndefined JUndefined
    SiapQueue.STATUS_NEW JUndefined None None retry false false onretry ontimeout.

(** What the examples observe of the item [r]: its status, its result, its
    retry count and the number of consumer calls made for it. *)
Definition observe {C : Type} (r : nat) (d : option (SiapDequeue.t C))
    : option (SiapQueue.Status * jsval * option nat * nat) :=
  d' ← d; q ← SiapDequeue.queues d' !! r;
  Some (SiapQueue.status q, SiapQueue.result q, SiapQueue.retryCount q,
        attempts r (SiapDequeue.trace d')).

Section Scenarios.
Context `{Host} {C : Type} `{Consumer C}.

(** One failed attempt of the item [r]: the promise of its consumer call is
    rejected with [err]; when the dispatcher then awaits the [onretry] hook
    of the item, the hook resolves. *)
Definition failed_attempt (now : Z) (err : jsval) (r : nat) (d : SiapDequeue.t C)
    : option (SiapDequeue.t C) :=
  match SiapDequeue.step (SiapDequeue.Settle now (PProcess r) (SiapDequeue.Rejected err)) d with
  | Some d1 =>
      if decide (POnRetry r ∈ SiapDequeue.inflight d1)
      then SiapDequeue.step
             (SiapDequeue.Settle now (POnRetry r) (SiapDequeue.Fulfilled JUndefined)) d1
      else Some d1
  | None => None
  end.

(** The consumer call of the item [r] fails on every attempt: one failure
    for each time and error of [l]. *)
Fixpoint failed_attempts (l : list (Z * jsval)) (r : nat) (d : SiapDequeue.t C)
    : option (SiapDequeue.t C) :=
  match l with
  | [] => Some d
  | (now, err) :: rest =>
      match failed_attempt now err r d with
      | Some d' => failed_attempts rest r d'
      | None => None
      end
  end.

(** The consumer returns a promise for every item: [processQueue] does not
    throw. *)
Definition returns_promise : Prop :=
  forall (c : C) (q : SiapQueue.t), exists c', processQueue c q = Normal c'.

(** The item [r], created with the fields of [q], has failed [k] times and
    has a consumer call in flight. *)
Definition retrying (r : nat) (q : SiapQueue.t) (k : nat) (d : SiapDequeue.t C) : Prop :=
  Inv d /\ is_Some (SiapDequeue.consumer d)
  /\ exists q', SiapDequeue.queues d !! r = Some q' /\ same_fields q q'
       /\ SiapQueue.retryCount q' = match k with O => None | S _ => Some k end
       /\ PProcess r ∈ SiapDequeue.inflight d.

(** The value of [retryCount] after [k] failures. *)
Definition count_after (k : nat) : option nat :=
  match k with
  | O => None
  | S _ => Some k
  end.

End Scenarios.

(** *** The states and the inputs of the examples *)

Section ScenarioData.
#[local] Existing Instance example_host.
#[local] Existing Instance example_consumer.

(** An item with the given payload, as [createSppQueue] returns it. *)
Definition item_of (d : jsval) : SiapQueue.t := SiapQueue.createSppQueue d JNull.

(** The message of the error of [addQueue]. *)
Definition no_dequeuer : string := "No dequeue instance has been created!".

(** An instance of [SiapRetryError]. *)
Definition retry_error : jsval := JErr 7 true "SiapRetryError".

(** An item that opts in for retries. *)
Definition retry_item : SiapQueue.t := example_item "spp" "a" (JObj 0 []) true false false.

(** [retry_item] has been added to a dispatcher with a ready consumer: its
    first consumer call is in flight. *)
Definition retry_start : SiapDequeue.t (bool * bool) :=
  default (SiapDequeue.new 0)
    (SiapDequeue.run
       [SiapDequeue.SetConsumer 0 (Some (true, false)); SiapDequeue.Add 10 retry_item]
       (SiapDequeue.new 0)).

(** An item with a timeout of 200 ms. *)
Definition slow_item : SiapQueue.t :=
  example_item "spp" "b" (JObj 1 [("timeout", JNum 200)]) false false false.

(** [slow_item] is started at time 10 and its consumer call does not settle;
    the poll loop runs at 100 and 200. *)
Definition slow_inputs : list (SiapDequeue.Input (bool * bool)) :=
  [SiapDequeue.SetConsumer 0 (Some (true, false)); SiapDequeue.Add 10 slow_item;
   SiapDequeue.Tick 100; SiapDequeue.Tick 200].

Definition slow_state : SiapDequeue.t (bool * bool) :=
  default (SiapDequeue.new 0) (SiapDequeue.run slow_inputs (SiapDequeue.new 0)).

(** The item in that state. *)
Definition slow_started : SiapQueue.t :=
  default slow_item (SiapDequeue.queues slow_state !! 0%nat).

(** Two items are pending because the consumer is not ready. *)
Definition waiting_inputs : list (SiapDequeue.Input (bool * bool)) :=
  [SiapDequeue.SetConsumer 0 (Some (false, false));
   SiapDequeue.Add 10 (example_item "spp" "a" (JObj 0 []) false false false);
   SiapDequeue.Add 11 (example_item "spp" "b" (JObj 1 []) false false false)].

Definition waiting_state : SiapDequeue.t (bool * bool) :=
  default (SiapDequeue.new 0) (SiapDequeue.run waiting_inputs (SiapDequeue.new 0)).

Definition callback_item : SiapQueue.t :=
  example_item "callback" "c" (JObj 2 []) false false false.

(** The consumer becomes ready, and the calls it receives are fulfilled one
    after the other. *)
Definition ready_inputs : list (SiapDequeue.Input (bool * bool)) :=
  [SiapDequeue.ConsumerMoves (true, false); SiapDequeue.Tick 100;
   SiapDequeue.Settle 110 (PProcess 2%nat) (SiapDequeue.Fulfilled JNull);
   SiapDequeue.Settle 120 (PProcess 0%nat) (SiapDequeue.Fulfilled JNull)].


End ScenarioData.

(** ** Notions used by the further properties *)

(** A value that is neither an object, nor an array, nor an error: [===]
    on such values is equality. *)
Definition primitive (v : jsval) : bool :=
  match v with
  | JObj _ _ | JArr _ _ | JErr _ _ _ => false
  | _ => true
  end.

(** The item [q] with the nested object [m] as its [maps]. *)
Definition with_maps (m : jsval) (q : SiapQueue.t) : SiapQueue.t :=
  SiapQueue.mkQueue (SiapQueue.type q) (SiapQueue.id q) (SiapQueue.data q) m
    (SiapQueue.callback q) (SiapQueue.info q) (SiapQueue.status q) (SiapQueue.result q)
    (SiapQueue.time q) (SiapQueue.retryCount q) (SiapQueue.retry q) (SiapQueue.resolve q)
    (SiapQueue.reject q) (SiapQueue.onretry q) (SiapQueue.ontimeout q).

(** The placeholders of the values replaced one value after the other, each
    occurrence by the text of the value as it is: what [format_values] is
    compared with. *)
Fixpoint plain_values (i : nat) (vals : list jsval) (value : string) : string :=
  match vals with
  | [] => value
  | v :: rest =>
      plain_values (S i) rest
        (JSString.substAll (SiapQueue.placeholder i) (ToString v) value)
  end.

(** The items submitted by a sequence of inputs, in the order of the calls
    of [add], each with the time of its call. *)
Definition submitted {C : Type} (l : list (SiapDequeue.Input C)) : list (Z * SiapQueue.t) :=
  omap (fun i => match i with
                 | SiapDequeue.Add now q => Some (now, q)
                 | _ => None
                 end) l.

(** The input attaches a consumer. *)
Definition attaches {C : Type} (i : SiapDequeue.Input C) : bool :=
  match i with
  | SiapDequeue.SetConsumer _ (Some _) => true
  | _ => false
  end.

Section Relations.
Context {C : Type}.

(** The history of [d'] has the items of [d], no more and no less. *)
Definition same_length (d d' : SiapDequeue.t C) : Prop :=
  length (SiapDequeue.queues d') = length (SiapDequeue.queues d).

(** From [d] to [d'] items are started and nothing else happens to an
    item: every item of [d] is in [d'] with the same fields and with the
    same status, or with the status PROCESSING. *)
Definition starts_only (d d' : SiapDequeue.t C) : Prop :=
  forall r q, SiapDequeue.queues d !! r = Some q ->
    exists q', SiapDequeue.queues d' !! r = Some q' /\ same_fields q q'
      /\ (SiapQueue.status q' = SiapQueue.status q
          \/ SiapQueue.status q' = SiapQueue.STATUS_PROCESSING).

(** From [d] to [d'] no item becomes TIMED_OUT: an item of [d'] that is
    TIMED_OUT is an item of [d] with the same fields that is TIMED_OUT. *)
Definition no_new_timeout (d d' : SiapDequeue.t C) : Prop :=
  forall r q', SiapDequeue.queues d' !! r = Some q' ->
    SiapQueue.status q' = SiapQueue.STATUS_TIMED_OUT ->
    exists q, SiapDequeue.queues d !! r = Some q /\ same_fields q q'
      /\ SiapQueue.status q = SiapQueue.STATUS_TIMED_OUT.

(** No consumer has been attached: nothing has been emitted or called, no
    promise is awaited, the poll loop is not installed, and every item of
    the history is in the pending list, NEW or SKIPPED. *)
Record Unattended (d : SiapDequeue.t C) : Prop := mkUnattended {
  un_consumer : SiapDequeue.consumer d = None;
  un_polling : SiapDequeue.polling d = false;
  un_trace : SiapDequeue.trace d = [];
  un_inflight : SiapDequeue.inflight d = [];
  un_pending : pending d ≡ₚ seq 0 (length (SiapDequeue.queues d));
  un_status : Forall (fun q => SiapQueue.status q ∈
                 [SiapQueue.STATUS_NEW; SiapQueue.STATUS_SKIPPED]) (SiapDequeue.queues d);
}.

End Relations.

(** The item that [add] pushes on the history at time [now]: [q], with a
    generated id when it has none. *)
Definition stamped (now : Z) (q : SiapQueue.t) : SiapQueue.t :=
  if negb (truthy (SiapQueue.id q))
  then SiapQueue.setId (JStr (SiapDequeue.genId now)) q else q.

(** No item with a timeout that is set and not greater than zero is
    TIMED_OUT. *)
Definition timeout_off `{Host} (q : SiapQueue.t) : Prop :=
  truthy (SiapQueue.data q) = true
  /\ get (SiapQueue.data q) "timeout" <> JUndefined
  /\ gt (get (SiapQueue.data q) "timeout") (JNum 0) = false.

Section Relations2.
Context {C : Type}.

(** The runner is as active in [d'] as in [d]. *)
Definition same_active (d d' : SiapDequeue.t C) : Prop :=
  Queue.active (SiapDequeue.queue d') = Queue.active (SiapDequeue.queue d).




End Relations2.

(** A call of [queue.resolve] or of [queue.reject] of the item [r]. *)
Definition is_answer (r : nat) (e : Event) : bool :=
  match e with
  | Resolve r' _ | Reject r' _ => (r =? r')%nat
  | _ => false
  end.

(** The number of times the submitter of the item [r] has been answered:
    the calls of [queue.resolve] and [queue.reject] made for [r]. *)
Definition answers (r : nat) (tr : list Event) : nat :=
  length (filter (fun e => is_answer r e = true) tr).

(** The number of [queue-done] and [queue-error] signals for the item [r]. *)
Definition signals (r : nat) (tr : list Event) : nat :=
  count_occ Nat.eq_dec (settlements tr) r.

Section Relations3.
Context {C : Type}.

(** No item is signalled done or in error twice, and an item that has been
    signalled is DONE or ERROR. *)
Record Settled (d : SiapDequeue.t C) : Prop := mkSettled {
  settled_nodup : NoDup (settlements (SiapDequeue.trace d));
  settled_status : forall r, r ∈ settlements (SiapDequeue.trace d) ->
      status_in d r [SiapQueue.STATUS_DONE; SiapQueue.STATUS_ERROR];
}.

(** From [d] to [d'] no item is signalled. *)
Definition same_settlements (d d' : SiapDequeue.t C) : Prop :=
  settlements (SiapDequeue.trace d') = settlements (SiapDequeue.trace d).

(** From [d] to [d'] every answer to a submitter comes with a signal for
    its item. *)
Definition answered (d d' : SiapDequeue.t C) : Prop :=
  forall r,
    (answers r (SiapDequeue.trace d') + signals r (SiapDequeue.trace d)
     <= answers r (SiapDequeue.trace d) + signals r (SiapDequeue.trace d'))%nat.

End Relations3.

(** ** Saving the logs and the pending items *)

(** The part of the file system that [saveLogs] and [saveQueue] use.  A
    path is a directory or a file; a file is represented by the value whose
    JSON text [JSON.stringify] has written to it.  Paths are POSIX paths,
    and a write fails only for the reasons written out below (not for lack
    of space or of permission). *)
Module Files.

(** The object [{type, id, data, callback}] that [saveQueue] writes for an
    item. *)
Record SavedQueue := mkSaved {
  saved_type : string;
  saved_id : jsval;
  saved_data : jsval;
  saved_callback : jsval;
}.

Inductive Content :=
| Logs (l : list SiapQueue.Log)
| Queues (l : list SavedQueue).

Inductive Node :=
| Dir
| File (c : Content).

(** [cwd] is the value of [process.cwd()]. *)
Record t := mkFiles {
  cwd : string;
  nodes : list (string * Node);
}.

(** [path.join(dir, name)] for a normalised absolute path [dir] and a name
    without separator. *)
Definition join (dir name : string) : string :=
  if String.eqb dir "/" then dir +:+ name else dir +:+ "/" +:+ name.

Definition existsSync (p : string) (fs : t) : bool :=
  match assoc p (nodes fs) with
  | Some _ => true
  | None => false
  end.

(** [fs.mkdirSync(p, {recursive: true})] for a path that does not exist. *)
Definition mkdirSync (p : string) (fs : t) : t :=
  mkFiles (cwd fs) (assign p Dir (nodes fs)).

(** [fs.writeFileSync(path.join(dir, name), JSON.stringify(c, null, 2))]:
    the file is created or replaced; the call throws when [dir] is not a
    directory or when the path is one. *)
Definition writeFileSync (dir name : string) (c : Content) (fs : t) : completion t :=
  match assoc dir (nodes fs) with
  | Some Dir =>
      match assoc (join dir name) (nodes fs) with
      | Some Dir => Throw "EISDIR"
      | _ => Normal (mkFiles (cwd fs) (assign (join dir name) (File c) (nodes fs)))
      end
  | Some (File _) => Throw "ENOTDIR"
  | None => Throw "ENOENT"
  end.

End Files.

Section Persistence.
Context `{Host} {C : Type}.

(** [path.join(process.cwd(), 'queue')] *)
Definition queueDir (fs : Files.t) : string := Files.join (Files.cwd fs) "queue".

(** The name [queue${seq}.log] *)
Definition log_file (seq : nat) : string := "queue" +:+ pretty seq +:+ ".log".

(** The filter of [saveLogs]: the entry is not the entry of a callback and
    its status is neither new nor processing. *)
Definition to_log (log : SiapQueue.Log) : bool :=
  negb (String.eqb (SiapQueue.log_type log) SiapQueue.QUEUE_CALLBACK)
  && negb (bool_decide (SiapQueue.log_status log ∈
             [SiapQueue.status_text SiapQueue.STATUS_NEW;
              SiapQueue.status_text SiapQueue.STATUS_PROCESSING])).

(** The loop [while (true)] of [saveLogs]: [seq] is incremented until
    [queue${seq}.log] does not exist.  [fuel] bounds the number of turns
    ([free_seq_total] below: the bound is not reached). *)
Fixpoint free_seq (fuel seq : nat) (dir : string) (fs : Files.t) : option nat :=
  match fuel with
  | O => None
  | S f =>
      if negb (Files.existsSync (Files.join dir (log_file (S seq))) fs) then Some (S seq)
      else free_seq f (S seq) dir fs
  end.

(** The directory [queue] is created when nothing exists at its path. *)
Definition ensure_dir (dir : string) (fs : Files.t) : Files.t :=
  if negb (Files.existsSync dir fs) then Files.mkdirSync dir fs else fs.

Definition saveLogs (d : SiapDequeue.t C) (fs : Files.t) : completion Files.t :=
  let logs := filter (fun log => to_log log = true) (SiapDequeue.getLogs true d) in
  match logs with
  | [] => Normal fs
  | _ :: _ =>
      let dir := queueDir fs in
      let fs1 := ensure_dir dir fs in
      match free_seq (S (length (Files.nodes fs1))) 0 dir fs1 with
      | Some seq => Files.writeFileSync dir (log_file seq) (Files.Logs logs) fs1
      | None => Throw "RangeError"
      end
  end.

(** The filter of [saveQueue]: the item is not a callback and it is NEW. *)
Definition to_save (q : SiapQueue.t) : bool :=
  negb (String.eqb (SiapQueue.type q) SiapQueue.QUEUE_CALLBACK)
  && bool_decide (SiapQueue.status q = SiapQueue.STATUS_NEW).

Definition saveQueue (d : SiapDequeue.t C) (fs : Files.t) : completion Files.t :=
  let queues := filter (fun q => to_save q = true) (SiapDequeue.queues d) in
  match queues with
  | [] => Normal fs
  | _ :: _ =>
      let savedQueues :=
        map (fun q => Files.mkSaved (SiapQueue.type q) (SiapQueue.id q)
                        (SiapQueue.data q) (SiapQueue.callback q)) queues in
      let dir := queueDir fs in
      let fs1 := ensure_dir dir fs in
      Files.writeFileSync dir "saved.queue" (Files.Queues savedQueues) fs1
  end.

(** The items whose log entry [saveLogs] writes. *)
Definition logged (q : SiapQueue.t) : bool :=
  negb (String.eqb (SiapQueue.type q) SiapQueue.QUEUE_CALLBACK) && SiapQueue.finished q.

End Persistence.

(** The event [e] is an event of the item [r]. *)
Definition concerns (r : nat) (e : Event) : bool :=
  match e with
  | Dispatch r' | QueueStart r' | QueueDone r' | QueueError r' | ProcessQueue r'
  | Resolve r' _ | Reject r' _ => (r =? r')%nat
  end.

(** The events of the item [r], in the order they were emitted. *)
Definition events_of (r : nat) (tr : list Event) : list Event :=
  filter (fun e => concerns r e = true) tr.

Section Relations4.
Context {C : Type}.

(** From [d] to [d'] nothing happens to the item [r], except that the poll
    loop may declare it TIMED_OUT: the item keeps its fields, its result,
    its retry count and its start time; no consumer call and no [onretry] hook is issued for
    it; it is not enqueued; and no event of the item is emitted. *)
Definition aside (r : nat) (d d' : SiapDequeue.t C) : Prop :=
  (forall q, SiapDequeue.queues d !! r = Some q ->
     exists q', SiapDequeue.queues d' !! r = Some q' /\ same_fields q q'
       /\ SiapQueue.result q' = SiapQueue.result q
       /\ SiapQueue.retryCount q' = SiapQueue.retryCount q
       /\ SiapQueue.time q' = SiapQueue.time q
       /\ (SiapQueue.status q' = SiapQueue.status q
           \/ (SiapQueue.status q = SiapQueue.STATUS_PROCESSING
               /\ SiapQueue.status q' = SiapQueue.STATUS_TIMED_OUT)
           \/ (SiapQueue.status q = SiapQueue.STATUS_TIMED_OUT
               /\ SiapQueue.status q' = SiapQueue.STATUS_TIMED_OUT)))
  /\ (r ∉ busy (SiapDequeue.inflight d) -> r ∉ busy (SiapDequeue.inflight d'))
  /\ (r ∉ pending d -> r ∉ pending d')
  /\ ((r < length (SiapDequeue.queues d))%nat -> (r < length (SiapDequeue.queues d'))%nat)
  /\ events_of r (SiapDequeue.trace d') = events_of r (SiapDequeue.trace d).

End Relations4.

Section Relations5.
Context {C : Type}.

(** An item for which the consumer has been called is PROCESSING, DONE, in
    ERROR or TIMED_OUT. *)
Definition Started (d : SiapDequeue.t C) : Prop :=
  forall r, attempts r (SiapDequeue.trace d) <> O ->
    status_in d r [SiapQueue.STATUS_PROCESSING; SiapQueue.STATUS_DONE;
                   SiapQueue.STATUS_ERROR; SiapQueue.STATUS_TIMED_OUT].

Definition keeps_started (d d' : SiapDequeue.t C) : Prop := Started d -> Started d'.

(** The trace of [d'] continues the trace of [d]. *)
Definition extends (d d' : SiapDequeue.t C) : Prop :=
  exists tail, SiapDequeue.trace d' = (SiapDequeue.trace d ++ tail)%list.

End Relations5.

Section Relations6.
Context {C : Type}.

(** Every item that is NEW waits in the runner. *)
Definition Waiting (d : SiapDequeue.t C) : Prop :=
  forall r q, SiapDequeue.queues d !! r = Some q ->
    SiapQueue.status q = SiapQueue.STATUS_NEW -> r ∈ pending d.

Definition keeps_waiting (d d' : SiapDequeue.t C) : Prop := Waiting d -> Waiting d'.

End Relations6.

(** ** The part of JavaScript that the embedding covers

    The embedding reads the properties that an object has itself, trims the
    ASCII white space and converts primitive values to strings.  On the
    payloads and the keys described here these operations are the ones of
    JavaScript; the properties of the field resolver that depend on them
    are stated for such payloads and keys. *)

(** The names of the members that every object inherits from
    [Object.prototype]: [o[k]] is a function (or the prototype) for such a
    name when [o] has no property [k] itself. *)
Definition inherited_name (k : string) : bool :=
  bool_decide (k ∈ ["constructor"; "__defineGetter__"; "__defineSetter__";
                    "hasOwnProperty"; "__lookupGetter__"; "__lookupSetter__";
                    "isPrototypeOf"; "propertyIsEnumerable"; "toString"; "valueOf";
                    "__proto__"; "toLocaleString"]).

(** [o] is an object and [o[k]] reads a property that [o] has itself, or a
    name that no object inherits. *)
Definition own_or_absent (o : jsval) (k : string) : bool :=
  match o with
  | JObj _ props =>
      match assoc k props with
      | Some _ => true
      | None => negb (inherited_name k)
      end
  | _ => false
  end.

(** A value that the language itself converts to a string, in decimal
    notation for a number: a primitive value, a number being below 10^21 in
    absolute value. *)
Definition simple (v : jsval) : bool :=
  match v with
  | JNum n => (Z.abs n <? 10 ^ 21)%Z
  | JObj _ _ | JArr _ _ | JErr _ _ _ => false
  | _ => true
  end.

(** Every character of [s] is an ASCII character: the white space that
    [trim] removes from [s] is ASCII white space. *)
Definition ascii_only (s : string) : bool :=
  forallb (fun c => (nat_of_ascii c <? 128)%nat) (list_ascii_of_string s).

(** The references of a key [TYPE:first|ref1|ref2|...]. *)
Definition references (key : string) : list string :=
  match JSString.split ":" key !! 1%nat with
  | Some spec => tail (JSString.split "|" spec)
  | None => []
  end.

(** The key is made of ASCII characters, and each of its references reads
    a property of the payload itself, or a name that is not inherited, and
    finds a simple value. *)
Definition covered (q : SiapQueue.t) (key : string) : bool :=
  ascii_only key
  && forallb (fun n => own_or_absent (SiapQueue.data q) (JSString.trim n)
                       && simple (resolve_ref q n))
       (references key).


(** ** Completion callbacks that throw

    [success] calls [queue.resolve] and the listeners of [queue-done].
    These are functions of the caller; when one of them throws, the [catch]
    that [doit] chains after [then] (queue.js 89-91) receives the exception
    as it receives a rejection of the consumer call, and passes it to
    [retry], although the item is DONE by then. *)

(** The callback that throws: [queue.resolve], or a listener of
    [queue-done]. *)
Inductive Thrower := ByResolve | ByListener.

Section Turns.
Context `{Host} {C : Type} `{Consumer C}.

(** [success(res)] up to the call that throws [e], then [retry(e)]. *)
Definition broken_success (now : Z) (who : Thrower) (res e : jsval) (r : nat)
    (d : SiapDequeue.t C) : SiapDequeue.t C :=
  let d1 := SiapDequeue.call r (SiapQueue.done res) d in
  let d2 := SiapDequeue.setLastQueue r d1 in
  let d3 := match SiapDequeue.queues d2 !! r with
            | Some q => if SiapQueue.resolve q
                        then SiapDequeue.emit (Resolve r res) d2 else d2
            | None => d2
            end in
  let d4 := match who with
            | ByResolve => d3
            | ByListener => SiapDequeue.emit (QueueDone r) d3
            end in
  SiapDequeue.retry_ now (SiapDequeue.next now) e r d4.

(** A turn of the event loop: an input of the dispatcher during which the
    callbacks of [success] return, or the fulfilment of a consumer call
    during which one of them throws. *)
Inductive Turn :=
| Regular (i : SiapDequeue.Input C)
| BrokenFulfilment (now : Z) (r : nat) (res : jsval) (who : Thrower) (e : jsval).

(** [None] when the turn cannot happen in the state [d]: [queue.resolve]
    throws only if the item has one. *)
Definition turn (o : Turn) (d : SiapDequeue.t C) : option (SiapDequeue.t C) :=
  match o with
  | Regular i => SiapDequeue.step i d
  | BrokenFulfilment now r res who e =>
      if decide (PProcess r ∈ SiapDequeue.inflight d) then
        match SiapDequeue.queues d !! r with
        | Some q =>
            if match who with
               | ByResolve => SiapQueue.resolve q
               | ByListener => true
               end
            then Some (broken_success now who res e r
                         (SiapDequeue.with_inflight
                            (SiapDequeue.remove (PProcess r) (SiapDequeue.inflight d)) d))
            else None
        | None => None
        end
      else None
  end.

Fixpoint turns (l : list Turn) (d : SiapDequeue.t C) : option (SiapDequeue.t C) :=
  match l with
  | [] => Some d
  | o :: rest =>
      match turn o d with
      | Some d' => turns rest d'
      | None => None
      end
  end.

(** The callbacks of [success] return during the turn. *)
Definition regular (o : Turn) : bool :=
  match o with
  | Regular _ => true
  | BrokenFulfilment _ _ _ _ _ => false
  end.

Definition inputs_of (l : list Turn) : list (SiapDequeue.Input C) :=
  omap (fun o => match o with
                 | Regular i => Some i
                 | BrokenFulfilment _ _ _ _ _ => None
                 end) l.

(** The item [q] after the reaction of [doQueue] to the settlement [s] of
    its promise [p]: [success] for a consumer call that is fulfilled,
    [retry] for one that is rejected ([ceiling] is the retry ceiling of the
    dispatcher), [doit] and [fail] for the [onretry] hook. *)
Definition reaction (now : Z) (ceiling : nat) (p : Promise) (s : SiapDequeue.Settlement)
    (q : SiapQueue.t) : SiapQueue.t :=
  match p, s with
  | PProcess _, SiapDequeue.Fulfilled res => (SiapQueue.done res q).1
  | PProcess _, SiapDequeue.Rejected err =>
      let n := (default 0 (SiapQueue.retryCount q) + 1)%nat in
      let q1 := SiapQueue.with_retryCount (Some n) q in
      if SiapDequeue.is_retry_error err && SiapQueue.retry q1 && (n <=? ceiling)%nat
      then (if SiapQueue.onretry q1 then q1 else (SiapQueue.start now q1).1)
      else (SiapQueue.error err q1).1
  | POnRetry _, SiapDequeue.Fulfilled _ => (SiapQueue.start now q).1
  | POnRetry _, SiapDequeue.Rejected err => (SiapQueue.error err q).1
  | POnTimeout _, _ => q
  end.

(** After the dispatch of an item, [doit] finds no item to start along
    with it: no item waits, or the item that waits next is a callback, or
    the consumer, in its state [c], does not approve it. *)
Definition no_lookahead (c : C) (rest : list nat) (d : SiapDequeue.t C) : Prop :=
  match rest with
  | [] => True
  | nr :: _ =>
      exists nq, SiapDequeue.queues d !! nr = Some nq
        /\ (SiapQueue.type nq = SiapQueue.QUEUE_CALLBACK
            \/ canHandleNextQueue c nq = false)
  end.

End Turns.

Arguments Turn : clear implicits.

(** *** The states and the inputs of the further examples *)

(** A consumer whose [processQueue] throws instead of returning a
    promise. *)
Definition faulty_consumer : Consumer (bool * bool) :=
  {| canProcessQueue := fun c => c.1;
     canHandleNextQueue := fun c _ => c.2;
     processQueue := fun _ _ => Throw "not connected" |}.

Section FurtherScenarioData.
#[local] Existing Instance example_host.

Definition item_a : SiapQueue.t := example_item "spp" "a" (JObj 0 []) false false false.
Definition item_b : SiapQueue.t := example_item "spp" "b" (JObj 1 []) false false false.

(** Two items are added and no consumer is attached. *)
Definition unattended_inputs : list (SiapDequeue.Input (bool * bool)) :=
  [SiapDequeue.Add 10 item_a; SiapDequeue.SetConsumer 20 None; SiapDequeue.Add 30 item_b].

Definition unattended_state : SiapDequeue.t (bool * bool) :=
  default (SiapDequeue.new 0)
    (SiapDequeue.run (H0 := example_consumer) unattended_inputs (SiapDequeue.new 0)).

(** An item whose payload switches the timeout off. *)
Definition patient_item : SiapQueue.t :=
  example_item "spp" "p" (JObj 2 [("timeout", JNum 0)]) false false false.

(** [patient_item] is started at 10 and the poll loop runs long after the
    timeout of the dispatcher. *)
Definition patient_inputs : list (SiapDequeue.Input (bool * bool)) :=
  [SiapDequeue.SetConsumer 0 (Some (true, false)); SiapDequeue.Add 10 patient_item;
   SiapDequeue.Tick 100; SiapDequeue.Tick 6000000].

Definition patient_state : SiapDequeue.t (bool * bool) :=
  default (SiapDequeue.new 0)
    (SiapDequeue.run (H0 := example_consumer) patient_inputs (SiapDequeue.new 0)).

(** Two items have been added while the consumer was not ready, and the
    consumer is ready now. *)
Definition attended_inputs : list (SiapDequeue.Input (bool * bool)) :=
  [SiapDequeue.SetConsumer 0 (Some (false, false)); SiapDequeue.Add 10 item_a;
   SiapDequeue.Add 11 item_b; SiapDequeue.ConsumerMoves (true, false)].

Definition attended_state : SiapDequeue.t (bool * bool) :=
  default (SiapDequeue.new 0)
    (SiapDequeue.run (H0 := example_consumer) attended_inputs (SiapDequeue.new 0)).

(** The same inputs with the consumer whose [processQueue] throws. *)
Definition attended_faulty : SiapDequeue.t (bool * bool) :=
  default (SiapDequeue.new 0)
    (SiapDequeue.run (H0 := faulty_consumer) attended_inputs (SiapDequeue.new 0)).

(** A ready consumer and no item. *)
Definition idle_inputs : list (SiapDequeue.Input (bool * bool)) :=
  [SiapDequeue.SetConsumer 0 (Some (true, false))].

Definition idle_state : SiapDequeue.t (bool * bool) :=
  default (SiapDequeue.new 0)
    (SiapDequeue.run (H0 := example_consumer) idle_inputs (SiapDequeue.new 0)).

(** [item_a] is processed and its promise is fulfilled; [item_b] is added
    afterwards and is in process. *)
Definition settled_inputs : list (SiapDequeue.Input (bool * bool)) :=
  [SiapDequeue.SetConsumer 0 (Some (true, false)); SiapDequeue.Add 10 item_a;
   SiapDequeue.Settle 20 (PProcess 0%nat) (SiapDequeue.Fulfilled (JStr "ok"));
   SiapDequeue.Add 30 item_b].

Definition settled_state : SiapDequeue.t (bool * bool) :=
  default (SiapDequeue.new 0)
    (SiapDequeue.run (H0 := example_consumer) settled_inputs (SiapDequeue.new 0)).

(** What happens after [settled_inputs]: the poll loop runs and the
    consumer call of [item_b] is rejected. *)
Definition settled_later : list (SiapDequeue.Input (bool * bool)) :=
  [SiapDequeue.Tick 100;
   SiapDequeue.Settle 110 (PProcess 1%nat) (SiapDequeue.Rejected (JStr "failed"));
   SiapDequeue.Tick 200].



(** [item_a] is added to a dispatcher whose consumer throws: the item is
    PROCESSING and no promise is awaited for it. *)
Definition faulty_inputs : list (SiapDequeue.Input (bool * bool)) :=
  [SiapDequeue.SetConsumer 0 (Some (true, false)); SiapDequeue.Add 10 item_a].

Definition faulty_state : SiapDequeue.t (bool * bool) :=
  default (SiapDequeue.new 0)
    (SiapDequeue.run (H0 := faulty_consumer) faulty_inputs (SiapDequeue.new 0)).

(** What happens afterwards: the poll loop runs past the timeout and
    another item is added. *)
Definition faulty_later : list (SiapDequeue.Input (bool * bool)) :=
  [SiapDequeue.Tick 100; SiapDequeue.Tick 700000; SiapDequeue.Add 700010 item_b;
   SiapDequeue.Tick 700100].

(** [item_a] is marked SKIPPED while it waits; the consumer becomes ready
    and the poll loop runs. *)
Definition skipped_inputs : list (SiapDequeue.Input (bool * bool)) :=
  [SiapDequeue.SetConsumer 0 (Some (false, false)); SiapDequeue.Add 10 item_a;
   SiapDequeue.Skip 0; SiapDequeue.ConsumerMoves (true, false); SiapDequeue.Tick 100].

Definition skipped_state : SiapDequeue.t (bool * bool) :=
  default (SiapDequeue.new 0)
    (SiapDequeue.run (H0 := example_consumer) skipped_inputs (SiapDequeue.new 0)).

(** An item that opts in for retries and has the hook [onretry]; its first
    consumer call is rejected with a [SiapRetryError], and the promise of
    the hook is awaited. *)
Definition hooked_item : SiapQueue.t := example_item "spp" "h" (JObj 3 []) true true false.

Definition hooked_inputs : list (SiapDequeue.Input (bool * bool)) :=
  [SiapDequeue.SetConsumer 0 (Some (true, false)); SiapDequeue.Add 10 hooked_item;
   SiapDequeue.Settle 20 (PProcess 0%nat)
     (SiapDequeue.Rejected (JErr 7 true "SiapRetryError"))].

Definition hooked_state : SiapDequeue.t (bool * bool) :=
  default (SiapDequeue.new 0)
    (SiapDequeue.run (H0 := example_consumer) hooked_inputs (SiapDequeue.new 0)).

(** At shutdown: [item_a] is DONE and [item_b] waits, as the consumer is
    not ready any more. *)
Definition shutdown_inputs : list (SiapDequeue.Input (bool * bool)) :=
  [SiapDequeue.SetConsumer 0 (Some (true, false)); SiapDequeue.Add 10 item_a;
   SiapDequeue.ConsumerMoves (false, false); SiapDequeue.Add 11 item_b;
   SiapDequeue.Settle 20 (PProcess 0%nat) (SiapDequeue.Fulfilled (JStr "ok"))].

Definition shutdown_state : SiapDequeue.t (bool * bool) :=
  default (SiapDequeue.new 0)
    (SiapDequeue.run (H0 := example_consumer) shutdown_inputs (SiapDequeue.new 0)).

(** The directory [queue] exists and holds the first two log files. *)
Definition example_files : Files.t :=
  Files.mkFiles "/app"
    [("/app/queue", Files.Dir);
     ("/app/queue/queue1.log", Files.File (Files.Logs []));
     ("/app/queue/queue2.log", Files.File (Files.Logs []));
     ("/app/queue/saved.queue", Files.File (Files.Queues []))].

(** An item whose submitter waits for the answer: it has the callbacks
    [resolve] and [reject]. *)
Definition answered_item : SiapQueue.t :=
  SiapQueue.mkQueue "spp" (JStr "a") (JObj 0 []) JUndefined JUndefined JUndefined
    SiapQueue.STATUS_NEW JUndefined None None false true true false false.

(** The consumer call of [answered_item] is fulfilled with ["ok"], and the
    callback named by [who] throws ["boom"]. *)
Definition broken_turns (who : Thrower) : list (Turn (bool * bool)) :=
  [Regular (SiapDequeue.SetConsumer 0 (Some (true, false)));
   Regular (SiapDequeue.Add 10 answered_item);
   BrokenFulfilment 20 0 (JStr "ok") who (JStr "boom")].

End FurtherScenarioData.

(** * Properties *)

(** ** Strings, SHA-1 and values: examples *)

Example split_ex : JSString.split "|" ",|a| b" = [","; "a"; " b"].
Proof. reflexivity. Qed.

Example trim_ex : JSString.trim "  a b 	" = "a b".
Proof. reflexivity. Qed.

Example replaceAll_ex : JSString.replaceAll "%1%" "Bob" "Hi %1%, %1%!" = "Hi Bob, Bob!".
Proof. reflexivity. Qed.

Example replaceAll_dollar : JSString.replaceAll "%1%" "$$&$&" "<%1%>" = "<$&%1%>".
Proof. reflexivity. Qed.

Example sha1_abc : SHA1.sha1_hex "abc" = "a9993e364706816aba3e25717850c26c9cd0d89d".
Proof. vm_compute. reflexivity. Qed.

Example sha1_empty : SHA1.sha1_hex EmptyString = "da39a3ee5e6b4b0d3255bfef95601890afd80709".
Proof. vm_compute. reflexivity. Qed.

Example sha1_two_blocks :
  SHA1.sha1_hex "abcdbcdecdefdefgefghfghighijhijkijkljklmklmnlmnomnopnopq"
  = "84983e441c3bd26ebaae4aa1f95129e5e54670f1".
Proof. vm_compute. reflexivity. Qed.

Example get_ex : get (JStr "abc") "1" = JStr "b" /\ get (JStr "abc") "length" = JNum 3.
Proof. split; reflexivity. Qed.

(** ** Items *)

Section ItemFacts.
Import SiapQueue.

Lemma strict_eq_refl v : strict_eq v v = true.
Proof.
  destruct v as [| |b|n|s|a p|a l|a r x]; simpl; auto using Z.eqb_refl, Nat.eqb_refl, String.eqb_refl.
  destruct b; reflexivity.
Qed.

Global Instance same_fields_equiv : Equivalence same_fields.
Proof.
  split.
  - intros q. unfold same_fields. tauto.
  - intros q q'. unfold same_fields. intuition congruence.
  - intros q1 q2 q3. unfold same_fields. intuition congruence.
Qed.

Lemma setStatus_status s q : status (setStatus s q).1 = s.
Proof. unfold setStatus. destruct (decide (status q = s)); simpl; auto. Qed.

Lemma setStatus_fields s q : same_fields q (setStatus s q).1.
Proof. unfold setStatus. destruct (decide _); simpl; unfold same_fields; simpl; tauto. Qed.

Lemma setStatus_others s q :
  result (setStatus s q).1 = result q /\ time (setStatus s q).1 = time q
  /\ retryCount (setStatus s q).1 = retryCount q.
Proof. unfold setStatus. destruct (decide _); simpl; auto. Qed.

Lemma setResult_status v q : status (setResult v q).1 = status q.
Proof. unfold setResult. destruct (strict_eq _ _); reflexivity. Qed.

Lemma setResult_fields v q : same_fields q (setResult v q).1.
Proof. unfold setResult. destruct (strict_eq _ _); simpl; unfold same_fields; simpl; tauto. Qed.

Lemma start_status now q : status (start now q).1 = STATUS_PROCESSING.
Proof. apply setStatus_status. Qed.

Lemma start_fields now q : same_fields q (start now q).1.
Proof.
  unfold start. etrans; [|apply setStatus_fields].
  unfold same_fields; simpl; tauto.
Qed.

Lemma start_retryCount now q : retryCount (start now q).1 = retryCount q.
Proof. unfold start. rewrite (proj2 (proj2 (setStatus_others _ _))). reflexivity. Qed.

Lemma done_status res q : status (done res q).1 = STATUS_DONE.
Proof.
  unfold done. pose proof (setStatus_status STATUS_DONE q) as Hs.
  destruct (setStatus STATUS_DONE q) as [q1 l1]. simpl in Hs.
  pose proof (setResult_status res q1) as Hr.
  destruct (setResult res q1) as [q2 l2]. simpl in *. congruence.
Qed.

Lemma done_fields res q : same_fields q (done res q).1.
Proof.
  unfold done. pose proof (setStatus_fields STATUS_DONE q) as Hs.
  destruct (setStatus STATUS_DONE q) as [q1 l1]. simpl in Hs.
  pose proof (setResult_fields res q1) as Hr.
  destruct (setResult res q1) as [q2 l2]. simpl in *. by etrans.
Qed.

Lemma error_status err q : status (error err q).1 = STATUS_ERROR.
Proof.
  unfold error. pose proof (setStatus_status STATUS_ERROR q) as Hs.
  destruct (setStatus STATUS_ERROR q) as [q1 l1]. simpl in Hs.
  pose proof (setResult_status err q1) as Hr.
  destruct (setResult err q1) as [q2 l2]. simpl in *. congruence.
Qed.

Lemma error_fields err q : same_fields q (error err q).1.
Proof.
  unfold error. pose proof (setStatus_fields STATUS_ERROR q) as Hs.
  destruct (setStatus STATUS_ERROR q) as [q1 l1]. simpl in Hs.
  pose proof (setResult_fields err q1) as Hr.
  destruct (setResult err q1) as [q2 l2]. simpl in *. by etrans.
Qed.

Lemma error_retryCount err q : retryCount (error err q).1 = retryCount q.
Proof.
  unfold error, setStatus, setResult.
  destruct (decide _); simpl; destruct (strict_eq _ _); reflexivity.
Qed.

Lemma finished_iff q :
  finished q = true <->
  status q = STATUS_DONE \/ status q = STATUS_ERROR
  \/ status q = STATUS_TIMED_OUT \/ status q = STATUS_SKIPPED.
Proof. unfold finished. destruct (status q); simpl; intuition congruence. Qed.

End ItemFacts.

(** ** Strings *)

Section StringFacts.
Import JSString.

Lemma split_nonempty c s : split c s <> [].
Proof.
  destruct s as [|a s]; simpl; [discriminate|].
  destruct (Ascii.eqb a c); [discriminate|]. destruct (split c s); discriminate.
Qed.

(** No piece of [s.split(c)] contains [c]. *)
Lemma split_no_sep c s x : x ∈ split c s -> indexOf c x = None.
Proof.
  revert x. induction s as [|a s IH]; simpl; intros x Hx.
  - apply list_elem_of_singleton in Hx. subst. reflexivity.
  - destruct (Ascii.eqb a c) eqn:Hac.
    + apply elem_of_cons in Hx as [->|Hx]; [reflexivity|auto].
    + destruct (split c s) as [|h t] eqn:Hs.
      * apply list_elem_of_singleton in Hx. subst. simpl. rewrite Hac. reflexivity.
      * apply elem_of_cons in Hx as [->|Hx].
        -- simpl. rewrite Hac. rewrite (IH h); [reflexivity|left].
        -- apply IH. by right.
Qed.

(** A character that [s] does not contain is in no piece of [s]. *)
Lemma split_other c c' s x : indexOf c s = None -> x ∈ split c' s -> indexOf c x = None.
Proof.
  revert x. induction s as [|a s IH]; simpl; intros x Hc Hx.
  - apply list_elem_of_singleton in Hx. subst. reflexivity.
  - destruct (Ascii.eqb a c) eqn:Hac; [discriminate|].
    destruct (indexOf c s) eqn:Hi; [discriminate|].
    destruct (Ascii.eqb a c') eqn:Hac'.
    + apply elem_of_cons in Hx as [->|Hx]; [reflexivity|auto].
    + destruct (split c' s) as [|h t] eqn:Hs.
      * apply list_elem_of_singleton in Hx. subst. simpl. rewrite Hac. reflexivity.
      * apply elem_of_cons in Hx as [->|Hx].
        -- simpl. rewrite Hac. rewrite (IH h); [reflexivity|reflexivity|left].
        -- apply IH; [reflexivity|by right].
Qed.

Lemma trim_start_no c s : indexOf c s = None -> indexOf c (trim_start s) = None.
Proof.
  induction s as [|a s IH]; simpl; [done|].
  destruct (Ascii.eqb a c) eqn:Hac; [discriminate|].
  destruct (indexOf c s) eqn:Hi; [discriminate|]. intros _.
  destruct (is_space a); [auto|]. simpl. by rewrite Hac, Hi.
Qed.

Lemma trim_end_no c s : indexOf c s = None -> indexOf c (trim_end s) = None.
Proof.
  induction s as [|a s IH]; simpl; [done|].
  destruct (Ascii.eqb a c) eqn:Hac; [discriminate|].
  destruct (indexOf c s) eqn:Hi; [discriminate|]. intros _.
  specialize (IH eq_refl).
  destruct (trim_end s) eqn:Ht.
  - destruct (is_space a); simpl; [done|]. by rewrite Hac.
  - simpl. rewrite Hac. simpl in IH. by rewrite IH.
Qed.

Lemma trim_no c s : indexOf c s = None -> indexOf c (trim s) = None.
Proof. intros. unfold trim. by apply trim_end_no, trim_start_no. Qed.

(** The pieces of the second piece of [value.split(':')] contain no colon,
    trimmed or not. *)
Lemma spec_tokens_no_colon value spec n :
  split ":" value !! 1%nat = Some spec -> n ∈ split "|" spec ->
  indexOf ":" (trim n) = None.
Proof.
  intros Hs Hn. apply trim_no. eapply split_other; [|exact Hn].
  eapply split_no_sep. eapply list_elem_of_lookup_2. exact Hs.
Qed.

End StringFacts.

(** ** Field resolver *)

Section ResolverFacts.
Import SiapQueue.

Lemma forEach_ext {A B} (f g : A -> completion B) l :
  (forall x, x ∈ l -> f x = g x) -> forEach f l = forEach g l.
Proof.
  induction l as [|x l IH]; simpl; intros Hfg; [done|].
  rewrite (Hfg x) by left. rewrite IH; [done|]. intros y Hy. apply Hfg. by right.
Qed.

Lemma format_ext (f g : jsval -> completion jsval) refs i value :
  (forall n, n ∈ refs -> f (JStr (JSString.trim n)) = g (JStr (JSString.trim n))) ->
  format f i refs value = format g i refs value.
Proof.
  revert i value. induction refs as [|n refs IH]; simpl; intros i value Hfg; [done|].
  rewrite (Hfg n) by left. destruct (g _); simpl; [|done].
  apply IH. intros m Hm. apply Hfg. by right.
Qed.

Lemma getTranslatedValue_with_ext (f g : jsval -> completion jsval) value :
  (forall k, JSString.indexOf ":" k = None -> f (JStr k) = g (JStr k)) ->
  getTranslatedValue_with f value = getTranslatedValue_with g value.
Proof.
  intros Hfg. unfold getTranslatedValue_with.
  destruct (JSString.split ":" value !! 1%nat) as [spec|] eqn:Hspec; [|done].
  destruct (JSString.split "|" spec) as [|hd values] eqn:Hv; [done|].
  assert (Htok : forall n, n ∈ values ->
            f (JStr (JSString.trim n)) = g (JStr (JSString.trim n))).
  { intros n Hn. apply Hfg. eapply spec_tokens_no_colon; [exact Hspec|].
    rewrite Hv. by right. }
  rewrite (forEach_ext _ _ values Htok), (format_ext f g values 0 hd Htok). done.
Qed.

(** On a key without colon the resolver does not call itself. *)
Lemma getDataValue_fuel_flat f q k :
  JSString.indexOf ":" k = None ->
  getDataValue_fuel (S f) q (JStr k) = getDataValue_fuel 1 q (JStr k).
Proof. intros Hk. simpl. rewrite Hk. done. Qed.

(** The resolver always returns: more fuel than [getDataValue] gives it does
    not change the result. *)
Lemma getDataValue_fuel_enough f q key :
  getDataValue_fuel (2 + f) q key = getDataValue key q.
Proof.
  unfold getDataValue. change (2 + f)%nat with (S (S f)).
  destruct key as [| | | |k| | |]; try done.
  cbn [getDataValue_fuel].
  destruct (nullish (data q)); [done|].
  destruct (negb _); [done|].
  destruct (JSString.indexOf ":" k) as [[|i]|]; try done.
  apply getTranslatedValue_with_ext. intros k' Hk'. rewrite Hk'. done.
Qed.

(** A key that is literally in [data] yields its value. *)
Lemma getDataValue_literal q k :
  nullish (data q) = false -> get (data q) k <> JUndefined ->
  getDataValue (JStr k) q = Normal (get (data q) k).
Proof.
  intros Hd Hk. unfold getDataValue. simpl. rewrite Hd.
  destruct (get (data q) k); simpl; congruence.
Qed.

Lemma resolve_token q n :
  nullish (data q) = false -> JSString.indexOf ":" (JSString.trim n) = None ->
  getDataValue_fuel 1 q (JStr (JSString.trim n)) = Normal (resolve_ref q n).
Proof.
  intros Hd Hn. unfold resolve_ref. simpl. rewrite Hd, Hn.
  destruct (get (data q) (JSString.trim n)); done.
Qed.

Lemma forEach_resolve q values :
  nullish (data q) = false ->
  (forall n, n ∈ values -> JSString.indexOf ":" (JSString.trim n) = None) ->
  forEach (fun n => getDataValue_fuel 1 q (JStr (JSString.trim n))) values
  = Normal (map (resolve_ref q) values).
Proof.
  intros Hd. induction values as [|n values IH]; cbn [forEach map]; intros Hv; [done|].
  rewrite resolve_token; [|done|apply Hv; left].
  rewrite IH; [done|]. intros m Hm. apply Hv. by right.
Qed.

(** A key that is not in [data] and has a colon after its first character
    is a translated value. *)
Lemma getDataValue_fuel_translated f q key i :
  nullish (data q) = false ->
  get (data q) key = JUndefined ->
  JSString.indexOf ":" key = Some (S i) ->
  getDataValue_fuel (S f) q (JStr key)
  = getTranslatedValue_with (getDataValue_fuel f q) key.
Proof. intros Hd Hk Hi. simpl. rewrite Hd, Hk, Hi. done. Qed.

Lemma split_no_colon s : JSString.indexOf ":" s = None -> JSString.split ":" s = [s].
Proof.
  induction s as [|b s IH]; simpl; [done|].
  destruct (Ascii.eqb b ":"); [done|].
  destruct (JSString.indexOf ":" s); [done|]. intros _. by rewrite IH.
Qed.

(** A key whose first piece is not empty and that has a second piece has
    its first colon after its first character. *)
Lemma typed_key_has_colon key vtype spec :
  JSString.split ":" key !! 0%nat = Some vtype -> vtype <> EmptyString ->
  JSString.split ":" key !! 1%nat = Some spec ->
  exists i, JSString.indexOf ":" key = Some (S i).
Proof.
  intros H0 Hne H1. destruct key as [|a key]; [done|]. simpl in *.
  destruct (Ascii.eqb a ":") eqn:Ha; [simpl in H0; congruence|].
  destruct (JSString.indexOf ":" key) as [i|] eqn:Hi; [eauto|].
  rewrite (split_no_colon _ Hi) in H1. done.
Qed.

(** CONCAT: the second piece of the key is split on the bar, the first
    token is the separator, and the values of the other tokens, trimmed and
    looked up in [data], are joined with it. *)
Lemma getDataValue_concat q key spec separator values :
  nullish (data q) = false ->
  get (data q) key = JUndefined ->
  JSString.split ":" key !! 0%nat = Some "CONCAT" ->
  JSString.split ":" key !! 1%nat = Some spec ->
  JSString.split "|" spec = separator :: values ->
  getDataValue (JStr key) q
  = Normal (JStr (join_values separator (map (resolve_ref q) values))).
Proof.
  intros Hd Hk H0 H1 Hv.
  destruct (typed_key_has_colon key _ _ H0 ltac:(done) H1) as [i Hi].
  unfold getDataValue. rewrite (getDataValue_fuel_translated 1 q key i) by done.
  unfold getTranslatedValue_with. rewrite H0, H1. cbn [default].
  change (String.eqb "CONCAT" "CONCAT") with true. cbv iota.
  rewrite Hv. rewrite forEach_resolve; [done|done|].
  intros n Hn. eapply spec_tokens_no_colon; [exact H1|]. rewrite Hv. by right.
Qed.

Lemma format_resolve q values i template :
  nullish (data q) = false ->
  (forall n, n ∈ values -> JSString.indexOf ":" (JSString.trim n) = None) ->
  format (getDataValue_fuel 1 q) i values template
  = Normal (format_values i (map (resolve_ref q) values) template).
Proof.
  intros Hd. revert i template.
  induction values as [|n values IH]; cbn [format map format_values]; intros i template Hv; [done|].
  rewrite resolve_token; [|done|apply Hv; left].
  cbn [mbind completion_bind]. apply IH. intros m Hm. apply Hv. by right.
Qed.

(** FORMAT: the first token is the template; the placeholders of the
    references are replaced one reference after the other, by
    [String.prototype.replace] with the value as replacement text. *)
Lemma getDataValue_format q key spec template values :
  nullish (data q) = false ->
  get (data q) key = JUndefined ->
  JSString.split ":" key !! 0%nat = Some "FORMAT" ->
  JSString.split ":" key !! 1%nat = Some spec ->
  JSString.split "|" spec = template :: values ->
  getDataValue (JStr key) q
  = Normal (JStr (format_values 0 (map (resolve_ref q) values) template)).
Proof.
  intros Hd Hk H0 H1 Hv.
  destruct (typed_key_has_colon key _ _ H0 ltac:(done) H1) as [i Hi].
  unfold getDataValue. rewrite (getDataValue_fuel_translated 1 q key i) by done.
  unfold getTranslatedValue_with. rewrite H0, H1. cbn [default].
  change (String.eqb "FORMAT" "CONCAT") with false.
  change (String.eqb "FORMAT" "FORMAT") with true. cbv iota.
  rewrite Hv. rewrite format_resolve; [done|done|].
  intros n Hn. eapply spec_tokens_no_colon; [exact H1|]. rewrite Hv. by right.
Qed.

End ResolverFacts.

Section StringFacts2.
Import JSString.

Lemma getSubstitution_plain matched before after repl :
  indexOf "$" repl = None -> getSubstitution matched before after repl = repl.
Proof.
  induction repl as [|c r IH]; [done|]. intros Hc.
  simpl in Hc. destruct (Ascii.eqb c "$") eqn:E; [done|].
  destruct (indexOf "$" r) eqn:Hr; [done|]. specialize (IH eq_refl).
  assert (Hne : c <> "$"%char) by (intros ->; by rewrite Ascii.eqb_refl in E).
  assert (G : getSubstitution matched before after (String c r)
              = String c (getSubstitution matched before after r)).
  { destruct c as [[] [] [] [] [] [] [] []]; try reflexivity.
    exfalso. apply Hne. reflexivity. }
  rewrite G, IH. reflexivity.
Qed.

(** When the replacement text has no dollar sign, [replace] inserts it as it
    is. *)
Lemma replaceAll_plain pat repl s :
  indexOf "$" repl = None -> replaceAll pat repl s = substAll pat repl s.
Proof.
  intros Hr. unfold replaceAll, substAll. generalize EmptyString as before, O as skip.
  induction s as [|c s IH]; intros before skip; [done|].
  cbn [replace_go subst_go]. destruct skip as [|k]; [|apply IH].
  destruct (String.prefix pat (String c s)).
  - rewrite getSubstitution_plain by done. by rewrite IH.
  - by rewrite IH.
Qed.

End StringFacts2.

Section Items.
Import SiapQueue.

(** C6, at the failing input: with [data = {name: '$$'}] the key
    [FORMAT:Hello %1%|name] resolves to [Hello $], because [replace] reads
    the value as a replacement pattern; the placeholder is not replaced with
    the resolved value [$$]. *)
Theorem format_reads_value_as_pattern :
  getDataValue (JStr "FORMAT:Hello %1%|name") (item_of (JObj 0 [("name", JStr "$$")]))
  = Normal (JStr "Hello $")
  /\ getDataValue (JStr "name") (item_of (JObj 0 [("name", JStr "$$")]))
     = Normal (JStr "$$").
Proof. split; vm_compute; reflexivity. Qed.

(** The examples of the specification. *)
Example concat_ex :
  getDataValue (JStr "CONCAT:,|a|b") (item_of (JObj 0 [("a", JStr "X"); ("b", JStr "Y")]))
  = Normal (JStr "X,Y").
Proof. vm_compute. reflexivity. Qed.

Example format_ex :
  getDataValue (JStr "FORMAT:Hello %1%|name") (item_of (JObj 0 [("name", JStr "Bob")]))
  = Normal (JStr "Hello Bob").
Proof. vm_compute. reflexivity. Qed.

(** A second colon ends the part of the key that is evaluated. *)
Example format_colon_in_template :
  getDataValue (JStr "FORMAT:No: %1%|no") (item_of (JObj 0 [("no", JStr "7")]))
  = Normal (JStr "No").
Proof. vm_compute. reflexivity. Qed.

(** C7 as stated fails: without [maps], [getMappedData('a')] is undefined
    although [a] is a key of [data]. *)
Lemma mapped_data_needs_maps :
  maps (item_of (JObj 0 [("a", JStr "X")])) = JUndefined
  /\ getDataValue (JStr "a") (item_of (JObj 0 [("a", JStr "X")])) = Normal (JStr "X")
  /\ getMappedData (JStr "a") (item_of (JObj 0 [("a", JStr "X")])) = Normal JUndefined.
Proof. repeat split; reflexivity. Qed.

(** C7, amended: on an item whose [maps] field is unset, [getMap] returns
    undefined and [getMappedData(name)] is undefined for every name. *)
Theorem getMappedData_without_maps (q : SiapQueue.t) (name : jsval) :
  truthy (maps q) = false ->
  getMap name q = JUndefined /\ getMappedData name q = Normal JUndefined.
Proof.
  intros Hm. unfold getMappedData, getMap. rewrite Hm. split; reflexivity.
Qed.

Lemma getMappedData_without_maps_witness :
  getMap (JStr "a") (item_of (JObj 0 [("a", JStr "X")])) = JUndefined
  /\ getMappedData (JStr "a") (item_of (JObj 0 [("a", JStr "X")])) = Normal JUndefined.
Proof. apply getMappedData_without_maps. reflexivity. Defined.

(** With [maps], the name is looked up in [maps] and the key found there in
    [data]. *)
Example getMappedData_ex :
  getMappedData (JStr "rekanan.nik")
    (mkQueue "spp" JUndefined (JObj 0 [("NIK", JStr "123")])
       (JObj 1 [("rekanan", JObj 2 [("nik", JStr "NIK")])])
       JUndefined JUndefined STATUS_NEW JUndefined None None false false false false false)
  = Normal (JStr "123").
Proof. vm_compute. reflexivity. Qed.

(** C9: [setStatus] with the current status and [setResult] with a value
    [===] to the current result return the item unchanged and print
    nothing; [setResult] assigns and prints exactly when the value is not
    [===] to the current result. *)
Theorem setters_idempotent (q : SiapQueue.t) (s : Status) (v : jsval) :
  (status q = s -> setStatus s q = (q, []))
  /\ (strict_eq (result q) v = true -> setResult v q = (q, []))
  /\ (strict_eq (result q) v = false ->
      result (setResult v q).1 = v /\ length (setResult v q).2 = 1%nat)
  /\ setStatus s (setStatus s q).1 = ((setStatus s q).1, [])
  /\ setResult v (setResult v q).1 = ((setResult v q).1, []).
Proof.
  repeat split.
  - intros Hs. unfold setStatus. by destruct (decide _).
  - intros Hv. unfold setResult. by rewrite Hv.
  - unfold setResult. by rewrite H.
  - unfold setResult. by rewrite H.
  - unfold setStatus at 1. rewrite setStatus_status. by destruct (decide _).
  - unfold setResult at 1.
    assert (Hr : strict_eq (result (setResult v q).1) v = true).
    { unfold setResult. destruct (strict_eq (result q) v) eqn:E; simpl; [done|].
      apply strict_eq_refl. }
    by rewrite Hr.
Qed.

Lemma setters_idempotent_witness :
  let q := with_result (JStr "ok") (with_status STATUS_DONE (item_of JNull)) in
  setStatus STATUS_DONE q = (q, []) /\ setResult (JStr "ok") q = (q, []).
Proof.
  intros q.
  destruct (setters_idempotent q STATUS_DONE (JStr "ok")) as (H1 & H2 & _).
  split; [apply H1; reflexivity|apply H2; reflexivity].
Defined.

End Items.

(** ** The dispatcher: what its operations leave unchanged *)

Section DispatcherFacts.
Context `{Host} {C : Type} `{Consumer C}.
Import SiapDequeue.
Local Abbreviation t := (SiapDequeue.t C).
Implicit Types (d : t) (r : nat) (q : SiapQueue.t).

(** *** The primitive updates *)

Lemma call_queues r m d q :
  queues d !! r = Some q -> queues (call r m d) = <[r := (m q).1]> (queues d).
Proof. intros Hq. unfold call. rewrite Hq. reflexivity. Qed.

Lemma call_lookup r m d q :
  queues d !! r = Some q -> queues (call r m d) !! r = Some (m q).1.
Proof.
  intros Hq. rewrite (call_queues _ _ _ _ Hq).
  apply list_lookup_insert_eq. by eapply lookup_lt_Some.
Qed.

Lemma call_lookup_ne r r' m d : r <> r' -> queues (call r m d) !! r' = queues d !! r'.
Proof.
  intros Hne. unfold call. destruct (queues d !! r) eqn:Hq; [|done].
  simpl. by apply list_lookup_insert_ne.
Qed.

Lemma call_length r m d : length (queues (call r m d)) = length (queues d).
Proof. unfold call. destruct (queues d !! r); [|done]. simpl. apply length_insert. Qed.

Lemma call_rest r m d :
  queue (call r m d) = queue d /\ inflight (call r m d) = inflight d
  /\ trace (call r m d) = trace d /\ consumer (call r m d) = consumer d
  /\ retry (call r m d) = retry d /\ last (call r m d) = last d
  /\ polling (call r m d) = polling d /\ timeout (call r m d) = timeout d.
Proof. unfold call. destruct (queues d !! r); simpl; tauto. Qed.

Lemma call_time r m d : time (call r m d) = time d /\ info (call r m d) = info d.
Proof. unfold call. destruct (queues d !! r); simpl; tauto. Qed.

Lemma setLastQueue_time r d :
  time (setLastQueue r d) = time d /\ timeout (setLastQueue r d) = timeout d
  /\ info (setLastQueue r d) = info d.
Proof.
  unfold setLastQueue. destruct (queues d !! r); [|tauto].
  destruct (negb _); simpl; tauto.
Qed.

Lemma setLastQueue_rest r d :
  queues (setLastQueue r d) = queues d /\ queue (setLastQueue r d) = queue d
  /\ inflight (setLastQueue r d) = inflight d /\ trace (setLastQueue r d) = trace d
  /\ consumer (setLastQueue r d) = consumer d /\ retry (setLastQueue r d) = retry d
  /\ polling (setLastQueue r d) = polling d /\ console (setLastQueue r d) = console d.
Proof.
  unfold setLastQueue. destruct (queues d !! r); [|tauto].
  destruct (negb _); simpl; tauto.
Qed.

Lemma dispatches_app tr1 tr2 : dispatches (tr1 ++ tr2) = (dispatches tr1 ++ dispatches tr2)%list.
Proof. apply omap_app. Qed.

Lemma frame_refl d : frame d d.
Proof. intros r q Hq. exists q. split; [done|reflexivity]. Qed.

Lemma frame_trans d1 d2 d3 : frame d1 d2 -> frame d2 d3 -> frame d1 d3.
Proof.
  intros H12 H23 r q Hq. destruct (H12 r q Hq) as (q2 & Hq2 & Hf2).
  destruct (H23 r q2 Hq2) as (q3 & Hq3 & Hf3). exists q3. split; [done|by etrans].
Qed.

Lemma frame_same_queues d d' : queues d' = queues d -> frame d d'.
Proof. intros Hq r q Hr. exists q. rewrite Hq. split; [done|reflexivity]. Qed.

Lemma frame_insert d d' r q q' :
  queues d !! r = Some q -> same_fields q q' ->
  queues d' = <[r := q']> (queues d) -> frame d d'.
Proof.
  intros Hq Hf Hd r0 q0 Hr0. rewrite Hd.
  destruct (decide (r = r0)) as [->|Hne].
  - exists q'. rewrite list_lookup_insert_eq by (by eapply lookup_lt_Some).
    split; [done|]. congruence.
  - exists q0. rewrite list_lookup_insert_ne by done. split; [done|reflexivity].
Qed.

Lemma qstep_frame d d' : qstep d d' -> frame d d'.
Proof.
  intros [|q Hq| |]; try done.
  intros r0 q0 Hr0. exists q0. rewrite Hq. split; [|reflexivity].
  by apply lookup_app_l_Some.
Qed.

Lemma steps_frame d d' : rtc qstep d d' -> frame d d'.
Proof.
  induction 1 as [|d1 d2 d3 H12 _ IH]; [apply frame_refl|].
  eapply frame_trans; [by apply qstep_frame|done].
Qed.

Lemma qstep_length d d' : qstep d d' -> (length (queues d) <= length (queues d'))%nat.
Proof.
  intros [|q Hq| |]; try lia.
  rewrite Hq, length_app. simpl. lia.
Qed.

Lemma steps_length d d' : rtc qstep d d' -> (length (queues d) <= length (queues d'))%nat.
Proof.
  induction 1 as [|d1 d2 d3 H12 _ IH]; [done|].
  apply qstep_length in H12. lia.
Qed.

Lemma qstep_settings d d' : qstep d d' -> settings d' = settings d.
Proof. by intros []. Qed.

Lemma steps_settings d d' : rtc qstep d d' -> settings d' = settings d.
Proof.
  induction 1 as [|d1 d2 d3 H12 _ IH]; [done|].
  apply qstep_settings in H12. congruence.
Qed.

(** An update that touches neither the pending list, nor the dispatches,
    nor the item recorded as last, and only the status, result, time or
    retry count of items. *)
Lemma keep_same_queues d d' :
  queues d' = queues d -> pending d' = pending d ->
  dispatches (trace d') = dispatches (trace d) -> settings d' = settings d ->
  last d' = last d -> settlements (trace d') = settlements (trace d) ->
  rtc qstep d d'.
Proof.
  intros Hq Hp Ht Hs Hl Hse. apply rtc_once, qstep_keep; try done; [by rewrite Hq|].
  by apply frame_same_queues.
Qed.

Lemma keep_insert d d' r q q' :
  queues d !! r = Some q -> same_fields q q' ->
  queues d' = <[r := q']> (queues d) -> pending d' = pending d ->
  dispatches (trace d') = dispatches (trace d) -> settings d' = settings d ->
  last d' = last d -> settlements (trace d') = settlements (trace d) ->
  rtc qstep d d'.
Proof.
  intros Hq Hf Hd Hp Ht Hs Hl Hse. apply rtc_once, qstep_keep; try done.
  - rewrite Hd. apply length_insert.
  - by eapply frame_insert.
Qed.

Lemma keep_call r m d :
  (forall q, same_fields q (m q).1) -> rtc qstep d (call r m d).
Proof.
  intros Hm. destruct (queues d !! r) as [q|] eqn:Hq.
  - pose proof (call_rest r m d) as (Hqu & _ & Htr & _ & Hre & Hla & _ & Hto).
    eapply keep_insert; [exact Hq|apply Hm|by apply call_queues|..]; try done.
    + unfold pending. by rewrite Hqu.
    + by rewrite Htr.
    + unfold settings. by rewrite Hre, Hto, (proj1 (call_time r m d)).
    + by rewrite Htr.
  - unfold call. rewrite Hq. reflexivity.
Qed.

Lemma settlements_app tr1 tr2 :
  settlements (tr1 ++ tr2) = (settlements tr1 ++ settlements tr2)%list.
Proof. apply omap_app. Qed.

(** An event that is neither a dispatch nor the signal of a settlement. *)
Lemma keep_emit e d :
  dispatches [e] = [] -> settlements [e] = [] -> rtc qstep d (emit e d).
Proof.
  intros He1 He2. apply keep_same_queues; try done; simpl.
  - by rewrite dispatches_app, He1, app_nil_r.
  - by rewrite settlements_app, He2, app_nil_r.
Qed.

Lemma keep_print l d : rtc qstep d (print l d).
Proof. by apply keep_same_queues. Qed.

Lemma keep_await p d : rtc qstep d (await p d).
Proof. by apply keep_same_queues. Qed.

Lemma keep_with_inflight l d : rtc qstep d (with_inflight l d).
Proof. by apply keep_same_queues. Qed.

Lemma keep_with_consumer c d : rtc qstep d (with_consumer c d).
Proof. by apply keep_same_queues. Qed.

Lemma keep_with_polling b d : rtc qstep d (with_polling b d).
Proof. by apply keep_same_queues. Qed.

(** The handlers [success] and [fail] up to their call of [next()]: the item
    is updated, recorded as last unless it is a callback, and its
    settlement is signalled. *)
Lemma finish_qstep (m : SiapQueue.t -> SiapQueue.t * list LogLine) (ev hev : Event)
    (hook : SiapQueue.t -> bool) r d :
  (forall q, same_fields q (m q).1) ->
  is_Some (queues d !! r) ->
  dispatches [ev] = [] -> settlements [ev] = [r] ->
  dispatches [hev] = [] -> settlements [hev] = [] ->
  let d1 := call r m d in
  let d2 := setLastQueue r d1 in
  let d3 := match queues d2 !! r with
            | Some q => if hook q then emit hev d2 else d2
            | None => d2
            end in
  qstep d (emit ev d3).
Proof.
  intros Hm [q Hq] Hev1 Hev2 Hh1 Hh2 d1 d2 d3.
  assert (Hc : queue d1 = queue d /\ trace d1 = trace d /\ retry d1 = retry d
               /\ last d1 = last d /\ timeout d1 = timeout d).
  { pose proof (call_rest r m d) as (? & _ & ? & _ & ? & ? & _ & ?). by split_and!. }
  destruct Hc as (Hqu & Htr & Hre & Hla & Hto).
  assert (Hq1 : queues d1 = <[r := (m q).1]> (queues d)) by (by apply call_queues).
  assert (Hl1 : queues d1 !! r = Some (m q).1) by (by apply call_lookup).
  assert (Hs : queues d2 = queues d1 /\ queue d2 = queue d1 /\ trace d2 = trace d1
               /\ retry d2 = retry d1).
  { pose proof (setLastQueue_rest r d1) as (? & ? & _ & ? & _ & ? & _). by split_and!. }
  destruct Hs as (Hq2 & Hp2 & Htr2 & Hre2).
  assert (Hlast2 : last d2 = (if is_noncallback d r then Some r else last d)).
  { unfold d2, setLastQueue, is_noncallback. rewrite Hl1, Hq.
    destruct (Hm q) as (E & _). rewrite <- E.
    destruct (negb _); simpl; by rewrite ?Hla. }
  assert (Hto2 : timeout d2 = timeout d /\ time d2 = time d).
  { unfold d2.
    rewrite (proj1 (setLastQueue_time r d1)), (proj1 (proj2 (setLastQueue_time r d1))).
    split; [exact Hto|]. unfold d1. apply call_time. }
  destruct Hto2 as [Hto2 Hti2].
  assert (H3 : queues d3 = queues d2 /\ queue d3 = queue d2 /\ last d3 = last d2
               /\ settings d3 = settings d2
               /\ dispatches (trace d3) = dispatches (trace d2)
               /\ settlements (trace d3) = settlements (trace d2)).
  { unfold d3. destruct (queues d2 !! r) as [q2|]; [|done].
    destruct (hook q2); [|done]. split_and!; try done; simpl.
    - by rewrite dispatches_app, Hh1, app_nil_r.
    - by rewrite settlements_app, Hh2, app_nil_r. }
  destruct H3 as (Hq3 & Hp3 & Hl3 & Hs3 & Hd3 & Hse3).
  apply (qstep_finish d _ r).
  - unfold pending. simpl. by rewrite Hp3, Hp2, Hqu.
  - simpl. by rewrite dispatches_app, Hev1, app_nil_r, Hd3, Htr2, Htr.
  - simpl. rewrite Hq3, Hq2, Hq1. apply length_insert.
  - eapply (frame_insert d _ r q (m q).1); [done|apply Hm|].
    simpl. by rewrite Hq3, Hq2, Hq1.
  - change (settings (emit ev d3)) with (settings d3). rewrite Hs3.
    unfold settings. by rewrite Hto2, Hti2, Hre2, Hre.
  - by eapply lookup_lt_Some.
  - simpl. by rewrite Hl3, Hlast2.
  - simpl. by rewrite settlements_app, Hev2, Hse3, Htr2, Htr.
Qed.

(** *** The closures of doQueue *)

Section Closures.
Context (now : Z) (next : t -> t).
Hypothesis next_steps : forall d, rtc qstep d (next d).

Lemma success_steps res r d :
  is_Some (queues d !! r) -> rtc qstep d (success next res r d).
Proof.
  intros Hr. unfold success. etrans; [|apply next_steps].
  apply rtc_once. by apply (finish_qstep (SiapQueue.done res)); [apply done_fields|..].
Qed.

Lemma fail_steps err r d :
  is_Some (queues d !! r) -> rtc qstep d (fail next err r d).
Proof.
  intros Hr. unfold fail. etrans; [|apply next_steps].
  apply rtc_once. by apply (finish_qstep (SiapQueue.error err)); [apply error_fields|..].
Qed.

Lemma fault_steps e d : rtc qstep d (fault next e d).
Proof. unfold fault. etrans; [apply keep_print|apply next_steps]. Qed.

Lemma doit_steps r d : rtc qstep d (doit now next r d).
Proof.
  unfold doit. destruct (queues d !! r) as [q|]; [|reflexivity].
  destruct (decide _); [|apply next_steps].
  etrans; [apply (keep_call r (SiapQueue.start now)), start_fields|].
  etrans; [apply (keep_emit (QueueStart r)); done|].
  set (d2 := emit _ _).
  destruct (consumer d2) as [c|]; [|apply fault_steps].
  destruct (queues d2 !! r) as [q2|]; [|apply fault_steps].
  destruct (processQueue c q2) as [c'|e]; [|apply fault_steps].
  etrans; [apply (keep_with_consumer (Some c'))|].
  etrans; [apply (keep_emit (ProcessQueue r)); done|].
  etrans; [apply (keep_await (PProcess r))|].
  set (d3 := await _ _).
  destruct (getNext d3) as [nr|]; [|reflexivity].
  destruct (queues d3 !! nr) as [nq|]; [|reflexivity].
  destruct (_ && _); [apply next_steps|reflexivity].
Qed.

Lemma retry_steps err r d : rtc qstep d (retry_ now next err r d).
Proof.
  unfold retry_. destruct (queues d !! r) as [q|] eqn:Hq; [|reflexivity].
  set (q1 := SiapQueue.with_retryCount _ q).
  set (d1 := with_queues _ d).
  assert (H1 : rtc qstep d d1).
  { eapply (keep_insert d d1 r q q1); try done; unfold same_fields; simpl; tauto. }
  assert (Hq1 : is_Some (queues d1 !! r)).
  { exists q1. simpl. apply list_lookup_insert_eq. by eapply lookup_lt_Some. }
  destruct (_ && _).
  - etrans; [exact H1|]. etrans; [apply keep_print|].
    destruct (SiapQueue.onretry q1); [apply keep_await|apply doit_steps].
  - etrans; [exact H1|by apply fail_steps].
Qed.

Lemma doQueue_steps r d : rtc qstep d (doQueue now next r d).
Proof. unfold doQueue. destruct (consumer d); [apply doit_steps|reflexivity]. Qed.

End Closures.

(** *** The runner *)

Lemma next_fuel_steps f now d : rtc qstep d (next_fuel f now d).
Proof.
  revert d. induction f as [|f IH]; intros d; [reflexivity|].
  cbn [next_fuel]. unfold Queue.next.
  destruct (Queue.active (queue d)); [reflexivity|].
  destruct (negb (canProcess d)); [reflexivity|].
  destruct (Queue.queues (queue d)) as [|r rest] eqn:Hp; [reflexivity|].
  set (d1 := emit (Dispatch r) (with_queue (Queue.mkRunner rest true) d)).
  assert (H1 : rtc qstep d d1).
  { apply rtc_once, (qstep_pop d d1 r); try done.
    - simpl. by rewrite dispatches_app.
    - by apply frame_same_queues.
    - simpl. by rewrite settlements_app, app_nil_r. }
  etrans; [exact H1|].
  etrans; [apply (doQueue_steps now (next_fuel f now) IH r d1)|].
  by apply keep_same_queues.
Qed.

Lemma next_steps now d : rtc qstep d (next now d).
Proof. apply next_fuel_steps. Qed.

Lemma poll_steps now d : rtc qstep d (poll now d).
Proof.
  unfold poll. destruct (list_find _ _) as [[r q]|].
  - destruct (SiapQueue.time q); [|apply keep_with_polling].
    destruct (_ && _); [|reflexivity].
    etrans; [apply keep_call, setStatus_fields|].
    destruct (SiapQueue.ontimeout q); [apply keep_await|apply next_steps].
  - destruct (queues d); [reflexivity|apply next_steps].
Qed.

Lemma setConsumer_steps now c d : rtc qstep d (setConsumer now c d).
Proof.
  unfold setConsumer. destruct c as [c|]; [|apply keep_with_consumer].
  etrans; [apply (keep_with_consumer (Some c))|].
  etrans; [apply (keep_with_polling true)|apply poll_steps].
Qed.

Lemma setInfo_steps i d : rtc qstep d (setInfo i d).
Proof. by apply keep_same_queues. Qed.

Lemma add_steps now q d : rtc qstep d (add now q d).2.
Proof.
  unfold add. cbn [snd]. set (q1 := if negb _ then _ else q).
  etrans; [|apply next_steps].
  apply rtc_once, (qstep_push _ _ q1); try done.
  simpl. unfold Queue.requeue. by destruct (String.eqb _ _).
Qed.

Lemma settle_steps now p s d :
  (forall r, p = PProcess r \/ p = POnRetry r -> is_Some (queues d !! r)) ->
  rtc qstep d (settle now p s d).
Proof.
  intros Hr. destruct p as [r|r|r], s as [v|err]; simpl;
    auto using success_steps, retry_steps, doit_steps, fail_steps, next_steps.
Qed.

End DispatcherFacts.

(** ** The dispatcher: the invariant and the transitions of the status *)

(** Membership in an explicit list of statuses. *)
Ltac inlist :=
  repeat match goal with
         | H : _ ∈ _ :: _ |- _ => apply elem_of_cons in H as [H|H]
         | H : _ ∈ [] |- _ => by apply elem_of_nil in H
         end;
  try congruence.

Ltac is_in := rewrite ?elem_of_cons; tauto.

(** A path of transitions between two given statuses. *)
Ltac edge_tac :=
  first [ reflexivity
        | apply rtc_once;
          first [ apply edge_late_done | apply edge_late_error | apply edge_late_retry
                | apply edge_claimed; constructor ] ].

Section InvariantFacts.
Context `{Host} {C : Type} `{Consumer C}.
Import SiapDequeue SiapQueue.
Local Abbreviation t := (SiapDequeue.t C).
Implicit Types (d : t) (r : nat) (q : SiapQueue.t).

Lemma moves_refl E d : moves E d d.
Proof. intros r q Hq. exists q. split; [done|reflexivity]. Qed.

Lemma moves_same E d d' : queues d' = queues d -> moves E d d'.
Proof. intros Hq r q Hr. exists q. rewrite Hq. split; [done|reflexivity]. Qed.

Lemma moves_trans E d1 d2 d3 : moves E d1 d2 -> moves E d2 d3 -> moves E d1 d3.
Proof.
  intros H12 H23 r q Hq. destruct (H12 r q Hq) as (q2 & Hq2 & Hf2).
  destruct (H23 r q2 Hq2) as (q3 & Hq3 & Hf3). exists q3. split; [done|by etrans].
Qed.

Lemma ok_trans d1 d2 d3 : moves edge d1 d2 -> ok d2 d3 -> ok d1 d3.
Proof. intros H12 [Hi H23]. split; [done|by eapply moves_trans]. Qed.

Lemma status_in_same d d' r l :
  queues d' !! r = queues d !! r -> status_in d r l -> status_in d' r l.
Proof. intros Hq (q & Hr & Hs). exists q. by rewrite Hq. Qed.

Lemma status_in_weaken d r l l' : l ⊆ l' -> status_in d r l -> status_in d r l'.
Proof. intros Hl (q & Hr & Hs). exists q. split; [done|by apply Hl]. Qed.

Lemma ok_same d d' :
  queues d' = queues d -> pending d' = pending d -> inflight d' = inflight d ->
  Inv d -> ok d d'.
Proof.
  intros Hq Hp Hi [I1 I2 I3 I4]. split.
  - split; rewrite ?Hp, ?Hi; try done.
    + intros r Hr. eapply status_in_same; [by rewrite Hq|auto].
    + intros r Hr. eapply status_in_same; [by rewrite Hq|auto].
  - intros r q Hr. exists q. rewrite Hq. split; [done|reflexivity].
Qed.

(** The item [r] is replaced by [q']. *)
Lemma ok_insert d d' r q q' :
  Inv d -> queues d !! r = Some q ->
  queues d' = <[r := q']> (queues d) ->
  pending d' = pending d -> inflight d' = inflight d ->
  rtc edge (status q) (status q') ->
  (r ∈ pending d -> status q' ∈ [STATUS_NEW; STATUS_SKIPPED]) ->
  (r ∈ busy (inflight d) -> status q' ∈ [STATUS_PROCESSING; STATUS_TIMED_OUT]) ->
  ok d d'.
Proof.
  intros [I1 I2 I3 I4] Hq Hd Hp Hi He Hpen Hbusy.
  assert (Hlt : (r < length (queues d))%nat) by (by eapply lookup_lt_Some).
  assert (Hsame : forall r0 l, (r0 = r -> status q' ∈ l) ->
            status_in d r0 l -> status_in d' r0 l).
  { intros r0 l Hr0 (q0 & Hq0 & Hs0). destruct (decide (r0 = r)) as [->|Hne].
    - exists q'. rewrite Hd, list_lookup_insert_eq by done. auto.
    - exists q0. rewrite Hd, list_lookup_insert_ne by done. auto. }
  split.
  - split; rewrite ?Hp, ?Hi; try done.
    + intros r0 Hr0. apply Hsame; [intros ->|]; auto.
    + intros r0 Hr0. apply Hsame; [intros ->|]; auto.
  - intros r0 q0 Hr0. rewrite Hd. destruct (decide (r0 = r)) as [->|Hne].
    + exists q'. rewrite list_lookup_insert_eq by done. split; [done|congruence].
    + exists q0. rewrite list_lookup_insert_ne by done. split; [done|reflexivity].
Qed.

Lemma ok_call d r m q :
  Inv d -> queues d !! r = Some q ->
  rtc edge (status q) (status (m q).1) ->
  (r ∈ pending d -> status (m q).1 ∈ [STATUS_NEW; STATUS_SKIPPED]) ->
  (r ∈ busy (inflight d) -> status (m q).1 ∈ [STATUS_PROCESSING; STATUS_TIMED_OUT]) ->
  ok d (call r m d).
Proof.
  intros Hi Hq He Hp Hb. pose proof (call_rest r m d) as (Hqu & Hin & _).
  eapply ok_insert; try done.
  - by apply call_queues.
  - unfold pending. by rewrite Hqu.
Qed.

Lemma busy_app l1 l2 : busy (l1 ++ l2) = (busy l1 ++ busy l2)%list.
Proof. apply omap_app. Qed.

(** A consumer call or an [onretry] hook is issued for the item [r]. *)
Lemma ok_await d r p :
  p = PProcess r \/ p = POnRetry r ->
  Inv d -> r ∉ busy (inflight d) ->
  status_in d r [STATUS_PROCESSING; STATUS_TIMED_OUT] ->
  ok d (await p d).
Proof.
  intros Hp [I1 I2 I3 I4] Hr Hs.
  assert (Hb : busy (inflight (await p d)) = (busy (inflight d) ++ [r])%list).
  { simpl. rewrite busy_app. by destruct Hp as [-> | ->]. }
  split; [|by apply moves_same].
  split; try done.
  - intros r0. rewrite Hb, elem_of_app, list_elem_of_singleton.
    intros [Hr0 | ->]; [by apply I3|done].
  - rewrite Hb. apply NoDup_app. split; [done|]. split; [|apply NoDup_singleton].
    intros x Hx Hx'. apply list_elem_of_singleton in Hx'. by subst.
Qed.

Lemma ok_await_timeout d r : Inv d -> ok d (await (POnTimeout r) d).
Proof.
  intros [I1 I2 I3 I4]. split; [|by apply moves_same].
  assert (Hb : busy (inflight (await (POnTimeout r) d)) = busy (inflight d)).
  { simpl. rewrite busy_app. simpl. by rewrite app_nil_r. }
  split; rewrite ?Hb; done.
Qed.

Lemma busy_remove_sublist p l : sublist (busy (remove p l)) (busy l).
Proof.
  induction l as [|p' l IH]; simpl; [done|].
  destruct (decide (p' = p)) as [->|Hne].
  - destruct p; simpl; [by apply sublist_cons|by apply sublist_cons|done].
  - destruct p'; simpl; [by apply sublist_skip|by apply sublist_skip|done].
Qed.

Lemma busy_cons p l :
  busy (p :: l) = match p with
                  | PProcess r | POnRetry r => r :: busy l
                  | POnTimeout _ => busy l
                  end.
Proof. by destruct p. Qed.

Lemma busy_remove_notin p r l :
  p = PProcess r \/ p = POnRetry r ->
  NoDup (busy l) -> p ∈ l -> r ∉ busy (remove p l).
Proof.
  intros Hp. induction l as [|p' l IH]; intros Hnd Hin; [by inlist|].
  cbn [remove]. destruct (decide (p' = p)) as [->|Hne].
  - assert (Hb : busy (p :: l) = r :: busy l) by (by destruct Hp as [-> | ->]).
    rewrite Hb in Hnd. by apply NoDup_cons in Hnd as [? _].
  - apply elem_of_cons in Hin as [->|Hin]; [done|].
    assert (Hin' : r ∈ busy l).
    { apply list_elem_of_omap. exists p. split; [done|]. by destruct Hp as [-> | ->]. }
    rewrite busy_cons in Hnd |- *.
    destruct p' as [r'|r'|r'].
    + apply NoDup_cons in Hnd as [Hr' Hnd]. intros [->|Hx]%elem_of_cons; [done|].
      by apply IH.
    + apply NoDup_cons in Hnd as [Hr' Hnd]. intros [->|Hx]%elem_of_cons; [done|].
      by apply IH.
    + by apply IH.
Qed.

(** A promise is settled. *)
Lemma ok_remove d p : Inv d -> ok d (with_inflight (remove p (inflight d)) d).
Proof.
  intros [I1 I2 I3 I4]. split; [|by apply moves_same].
  pose proof (busy_remove_sublist p (inflight d)) as Hs.
  split; simpl; try done.
  - intros r Hr. apply (status_in_same d); [done|].
    apply I3. by eapply elem_of_sublist.
  - by eapply sublist_NoDup.
Qed.

(** The two lists of the invariant have no item in common. *)
Lemma pending_not_busy d r : Inv d -> r ∈ pending d -> r ∉ busy (inflight d).
Proof.
  intros [I1 I2 I3 I4] Hp Hb.
  destruct (I1 r Hp) as (q & Hq & Hs). destruct (I3 r Hb) as (q' & Hq' & Hs').
  assert (q' = q) by congruence. subst. inlist.
Qed.

(** The runner pops the head of the pending list. *)
Lemma ok_pop d r rest a :
  Inv d -> pending d = r :: rest ->
  let d1 := emit (Dispatch r) (with_queue (Queue.mkRunner rest a) d) in
  ok d d1 /\ (r ∉ pending d1) /\ (r ∉ busy (inflight d1))
  /\ status_in d1 r [STATUS_NEW; STATUS_SKIPPED].
Proof.
  intros Hi Hp d1. pose proof Hi as [I1 I2 I3 I4].
  rewrite Hp in I2. apply NoDup_cons in I2 as [Hr Hnd].
  split; [|split; [done|split]].
  - split; [|by apply moves_same]. split; try done.
    intros r0 Hr0. apply (status_in_same d); [done|]. apply I1. rewrite Hp. by right.
  - apply (pending_not_busy d); [done|]. rewrite Hp. by left.
  - apply (status_in_same d); [done|]. apply I1. rewrite Hp. by left.
Qed.

(** *** The closures of doQueue *)

Section Closures.
Context (now : Z) (next : t -> t).
Hypothesis next_ok : forall d, Inv d -> ok d (next d).

Lemma settled_edge q s :
  status q ∈ [STATUS_PROCESSING; STATUS_TIMED_OUT] ->
  s ∈ [STATUS_PROCESSING; STATUS_DONE; STATUS_ERROR] ->
  rtc edge (status q) s.
Proof.
  intros Hq Hs. destruct (status q); inlist; subst;
    edge_tac.
Qed.

Lemma finish_ok (m : SiapQueue.t -> SiapQueue.t * list LogLine) s (ev : Event)
    (hook : SiapQueue.t -> bool) (hev : Event) r d :
  (forall q, status (m q).1 = s) -> s ∈ [STATUS_DONE; STATUS_ERROR] ->
  Inv d -> r ∉ busy (inflight d) -> r ∉ pending d ->
  status_in d r [STATUS_PROCESSING; STATUS_TIMED_OUT] ->
  let d1 := call r m d in
  let d2 := setLastQueue r d1 in
  let d3 := match queues d2 !! r with
            | Some q => if hook q then emit hev d2 else d2
            | None => d2
            end in
  ok d (next (emit ev d3)).
Proof.
  intros Hm Hs Hi Hb Hp (q & Hq & Hst) d1 d2 d3.
  assert (H1 : ok d d1).
  { eapply ok_call; try done.
    - rewrite Hm. apply settled_edge; [done|]. inlist; subst; is_in. }
  destruct H1 as [Hi1 Hm1].
  pose proof (setLastQueue_rest r d1) as (Hq2 & Hp2 & Hin2 & _).
  assert (H2 : ok d1 d2).
  { apply ok_same; try done. unfold pending, d2. by rewrite Hp2. }
  destruct H2 as [Hi2 Hm2].
  assert (H3 : ok d2 d3).
  { unfold d3. destruct (queues d2 !! r) as [q2|]; [|split; [done|apply moves_refl]].
    destruct (hook q2); [by apply ok_same|split; [done|apply moves_refl]]. }
  destruct H3 as [Hi3 Hm3].
  assert (H4 : ok d3 (emit ev d3)) by (by apply ok_same).
  destruct H4 as [Hi4 Hm4].
  eapply ok_trans; [|by apply next_ok].
  repeat (eapply moves_trans; [eassumption|]). apply moves_refl.
Qed.

Lemma success_ok res r d :
  Inv d -> r ∉ busy (inflight d) -> r ∉ pending d ->
  status_in d r [STATUS_PROCESSING; STATUS_TIMED_OUT] ->
  ok d (success next res r d).
Proof.
  intros. unfold success.
  eapply (finish_ok (done res) STATUS_DONE); try done; [apply done_status|is_in].
Qed.

Lemma fail_ok err r d :
  Inv d -> r ∉ busy (inflight d) -> r ∉ pending d ->
  status_in d r [STATUS_PROCESSING; STATUS_TIMED_OUT] ->
  ok d (fail next err r d).
Proof.
  intros. unfold fail.
  eapply (finish_ok (error err) STATUS_ERROR); try done; [apply error_status|is_in].
Qed.

Lemma fault_ok e d : Inv d -> ok d (fault next e d).
Proof.
  intros Hi. unfold fault.
  destruct (ok_same d (print (LogFault e) d)) as [Hi1 Hm1]; try done.
  eapply ok_trans; [exact Hm1|by apply next_ok].
Qed.

Lemma doit_ok r d :
  Inv d -> r ∉ busy (inflight d) -> r ∉ pending d ->
  status_in d r [STATUS_NEW; STATUS_SKIPPED; STATUS_PROCESSING; STATUS_TIMED_OUT] ->
  ok d (doit now next r d).
Proof.
  intros Hi Hb Hp (q & Hq & Hst). unfold doit. rewrite Hq.
  destruct (decide _) as [Hskip|]; [|by apply next_ok].
  set (d1 := call r (start now) d).
  assert (H1 : ok d d1).
  { eapply ok_call; try done. rewrite start_status.
    destruct (status q); inlist; edge_tac. }
  destruct H1 as [Hi1 Hm1].
  assert (Hq1 : queues d1 !! r = Some (start now q).1) by (by apply call_lookup).
  pose proof (call_rest r (start now) d) as (Hqu1 & Hin1 & _).
  set (d2 := emit (QueueStart r) d1).
  destruct (ok_same d1 d2) as [Hi2 Hm2]; try done.
  assert (Hm02 : moves edge d d2) by (by eapply moves_trans).
  destruct (consumer d2) as [c|]; [|by eapply ok_trans; [|apply fault_ok]].
  change (queues d2 !! r) with (queues d1 !! r). rewrite Hq1.
  destruct (processQueue c _) as [c'|e]; [|by eapply ok_trans; [|apply fault_ok]].
  set (d2' := emit (ProcessQueue r) (with_consumer (Some c') d2)).
  destruct (ok_same d2 d2') as [Hi2' Hm2']; try done.
  set (d3 := await (PProcess r) d2').
  assert (H3 : ok d2' d3).
  { apply (ok_await d2' r); [by left|done| |].
    - change (inflight d2') with (inflight d1). unfold d1. by rewrite Hin1.
    - exists (start now q).1. split; [done|]. rewrite start_status. is_in. }
  destruct H3 as [Hi3 Hm3].
  assert (Hm03 : moves edge d d3).
  { eapply moves_trans; [exact Hm02|]. by eapply moves_trans. }
  destruct (getNext d3) as [nr|]; [|done].
  destruct (queues d3 !! nr) as [nq|]; [|done].
  destruct (_ && _); [|done].
  eapply ok_trans; [exact Hm03|by apply next_ok].
Qed.

Lemma retry_ok err r d :
  Inv d -> r ∉ busy (inflight d) -> r ∉ pending d ->
  status_in d r [STATUS_PROCESSING; STATUS_TIMED_OUT] ->
  ok d (retry_ now next err r d).
Proof.
  intros Hi Hb Hp (q & Hq & Hst). unfold retry_. rewrite Hq.
  set (q1 := with_retryCount _ q).
  set (d1 := with_queues _ d).
  assert (Hlt : (r < length (queues d))%nat) by (by eapply lookup_lt_Some).
  assert (H1 : ok d d1) by (by eapply (ok_insert d d1 r q q1)).
  destruct H1 as [Hi1 Hm1].
  assert (Hs1 : status_in d1 r [STATUS_PROCESSING; STATUS_TIMED_OUT]).
  { exists q1. split; [|done]. simpl. by apply list_lookup_insert_eq. }
  destruct (_ && _).
  - set (d2 := print _ d1).
    destruct (ok_same d1 d2) as [Hi2 Hm2]; try done.
    assert (Hs2 : status_in d2 r [STATUS_PROCESSING; STATUS_TIMED_OUT]) by done.
    assert (Hm02 : moves edge d d2) by (by eapply moves_trans).
    destruct (onretry q1).
    + eapply ok_trans; [exact Hm02|]. apply (ok_await d2 r); auto.
    + eapply ok_trans; [exact Hm02|]. apply doit_ok; try done.
      revert Hs2. apply status_in_weaken. intros s Hs. inlist; subst; is_in.
  - eapply ok_trans; [exact Hm1|]. by apply fail_ok.
Qed.

Lemma doQueue_ok r d :
  Inv d -> r ∉ busy (inflight d) -> r ∉ pending d ->
  status_in d r [STATUS_NEW; STATUS_SKIPPED] ->
  ok d (doQueue now next r d).
Proof.
  intros Hi Hb Hp Hs. unfold doQueue.
  destruct (consumer d); [|split; [done|apply moves_refl]].
  apply doit_ok; try done.
  revert Hs. apply status_in_weaken. intros s Hs. inlist; subst; is_in.
Qed.

End Closures.

(** *** The runner and the operations of the dispatcher *)

Lemma next_fuel_ok f now d : Inv d -> ok d (next_fuel f now d).
Proof.
  revert d. induction f as [|f IH]; intros d Hi; [split; [done|apply moves_refl]|].
  cbn [next_fuel]. unfold Queue.next.
  destruct (Queue.active (queue d)); [split; [done|apply moves_refl]|].
  destruct (negb (canProcess d)); [split; [done|apply moves_refl]|].
  destruct (Queue.queues (queue d)) as [|r rest] eqn:Hp; [split; [done|apply moves_refl]|].
  destruct (ok_pop d r rest true Hi Hp) as ([Hi1 Hm1] & Hr1 & Hb1 & Hs1).
  set (d1 := emit (Dispatch r) (with_queue (Queue.mkRunner rest true) d)) in *.
  destruct (doQueue_ok now (next_fuel f now) IH r d1) as [Hi2 Hm2]; try done.
  set (d2 := doQueue now (next_fuel f now) r d1) in *.
  eapply ok_trans; [exact Hm1|]. eapply ok_trans; [exact Hm2|].
  by apply ok_same.
Qed.

Lemma next_ok now d : Inv d -> ok d (next now d).
Proof. apply next_fuel_ok. Qed.

Lemma find_processing d r q :
  list_find (fun q => is_processing q = true) (queues d) = Some (r, q) ->
  queues d !! r = Some q /\ status q = STATUS_PROCESSING.
Proof.
  intros (Hq & Hs & _)%list_find_Some. split; [done|].
  unfold is_processing in Hs. by apply bool_decide_eq_true in Hs.
Qed.

Lemma poll_ok now d : Inv d -> ok d (poll now d).
Proof.
  intros Hi. unfold poll. destruct (list_find _ _) as [[r q]|] eqn:Hf.
  - apply find_processing in Hf as [Hq Hs].
    destruct (time q); [|by apply ok_same].
    destruct (_ && _); [|split; [done|apply moves_refl]].
    set (d1 := call r (setStatus STATUS_TIMED_OUT) d).
    assert (H1 : ok d d1).
    { eapply ok_call; try done; rewrite setStatus_status.
      - rewrite Hs. edge_tac.
      - intros Hp. destruct (inv_pending d Hi r Hp) as (q' & Hq' & Hs').
        assert (q' = q) by congruence. subst. inlist.
      - intros _. is_in. }
    destruct H1 as [Hi1 Hm1].
    destruct (ontimeout q).
    + eapply ok_trans; [exact Hm1|by apply ok_await_timeout].
    + eapply ok_trans; [exact Hm1|by apply next_ok].
  - destruct (queues d); [split; [done|apply moves_refl]|by apply next_ok].
Qed.

Lemma setConsumer_ok now c d : Inv d -> ok d (setConsumer now c d).
Proof.
  intros Hi. unfold setConsumer. destruct c as [c|]; [|by apply ok_same].
  set (d1 := with_polling true _).
  destruct (ok_same d d1) as [Hi1 Hm1]; try done.
  eapply ok_trans; [exact Hm1|by apply poll_ok].
Qed.

Lemma pending_lt d r : Inv d -> r ∈ pending d -> (r < length (queues d))%nat.
Proof.
  intros Hi Hr. destruct (inv_pending d Hi r Hr) as (q & Hq & _).
  by eapply lookup_lt_Some.
Qed.

Lemma add_ok now q d :
  Inv d -> status q ∈ [STATUS_NEW; STATUS_SKIPPED] -> ok d (add now q d).2.
Proof.
  intros Hi Hs. unfold add. cbn [snd]. set (q1 := if negb _ then _ else q).
  assert (Hs1 : status q1 ∈ [STATUS_NEW; STATUS_SKIPPED]).
  { unfold q1. by destruct (negb _). }
  set (r := length (queues d)).
  set (d2 := with_queue _ _).
  assert (Hq2 : queues d2 = (queues d ++ [q1])%list) by done.
  assert (Hr : queues d2 !! r = Some q1).
  { rewrite Hq2. rewrite lookup_app_r by done.
    unfold r. by rewrite Nat.sub_diag. }
  assert (Hold : forall r0 l, status_in d r0 l -> status_in d2 r0 l).
  { intros r0 l (q0 & Hq0 & Hs0). exists q0. rewrite Hq2.
    split; [by apply lookup_app_l_Some|done]. }
  assert (Hfresh : r ∉ pending d).
  { intros Hin. apply (pending_lt d r Hi) in Hin. unfold r in Hin. lia. }
  assert (H2 : ok d d2).
  { pose proof Hi as [I1 I2 I3 I4]. split.
    - split.
      + intros r0. unfold d2, pending. simpl. unfold Queue.requeue.
        destruct (String.eqb _ _); simpl;
          rewrite ?elem_of_cons, ?elem_of_app, ?list_elem_of_singleton;
          (intros [Hr0|Hr0]; subst; first [by exists q1 | by apply Hold, I1]).
      + unfold d2, pending. simpl. unfold Queue.requeue.
        destruct (String.eqb _ _); simpl.
        * apply NoDup_cons. done.
        * apply NoDup_app. split; [done|]. split; [|apply NoDup_singleton].
          intros x Hx Hx'. apply list_elem_of_singleton in Hx'. by subst.
      + intros r0 Hr0. by apply Hold, I3.
      + done.
    - intros r0 q0 Hq0. exists q0. rewrite Hq2.
      split; [by apply lookup_app_l_Some|reflexivity]. }
  destruct H2 as [Hi2 Hm2].
  eapply ok_trans; [exact Hm2|by apply next_ok].
Qed.

(** The items of the pending list and those with a call in flight have
    different statuses. *)
Lemma busy_not_pending d r : Inv d -> r ∈ busy (inflight d) -> r ∉ pending d.
Proof. intros Hi Hb Hp. by apply (pending_not_busy d r Hi Hp). Qed.

Lemma busy_owner p r l : p = PProcess r \/ p = POnRetry r -> p ∈ l -> r ∈ busy l.
Proof.
  intros Hp Hl. apply list_elem_of_omap. exists p. split; [done|].
  by destruct Hp as [-> | ->].
Qed.

Lemma settle_ok now p s d :
  Inv d -> p ∈ inflight d ->
  ok d (settle now p s (with_inflight (remove p (inflight d)) d)).
Proof.
  intros Hi Hp. destruct (ok_remove d p Hi) as [Hi1 Hm1].
  set (d1 := with_inflight _ d) in *.
  eapply ok_trans; [exact Hm1|].
  assert (Hown : forall r, p = PProcess r \/ p = POnRetry r ->
            (r ∉ busy (inflight d1)) /\ (r ∉ pending d1)
            /\ status_in d1 r [STATUS_PROCESSING; STATUS_TIMED_OUT]).
  { intros r Hr. assert (Hb : r ∈ busy (inflight d)) by (by eapply busy_owner).
    split; [|split].
    - apply busy_remove_notin; [done| |done]. apply (inv_busy_nodup d Hi).
    - by apply (busy_not_pending d).
    - apply (status_in_same d); [done|]. by apply (inv_busy d Hi). }
  destruct p as [r|r|r], s as [v|err]; simpl.
  - destruct (Hown r) as (? & ? & ?); [by left|]. apply success_ok; auto using next_ok.
  - destruct (Hown r) as (? & ? & ?); [by left|]. apply retry_ok; auto using next_ok.
  - destruct (Hown r) as (? & ? & Hs); [by right|]. apply doit_ok; auto using next_ok.
    revert Hs. apply status_in_weaken. intros s Hs. inlist; subst; is_in.
  - destruct (Hown r) as (? & ? & ?); [by right|]. apply fail_ok; auto using next_ok.
  - by apply next_ok.
  - by apply next_ok.
Qed.

Lemma step_ok i d d' : Inv d -> step i d = Some d' -> ok d d'.
Proof.
  intros Hi. destruct i as [now q|now c|inf|now|now p s|r|c]; simpl.
  - destruct (decide _) as [Hs|]; [|done]. intros [= <-].
    apply add_ok; [done|]. rewrite Hs. is_in.
  - intros [= <-]. by apply setConsumer_ok.
  - intros [= <-]. by apply ok_same.
  - destruct (polling d); [|done]. intros [= <-]. by apply poll_ok.
  - destruct (decide _); [|done]. intros [= <-]. by apply settle_ok.
  - destruct (queues d !! r) as [q|] eqn:Hq; [|done].
    destruct (decide _) as [Hs|]; [|done]. intros [= <-].
    eapply ok_call; try done; rewrite setStatus_status.
    + rewrite Hs. edge_tac.
    + intros _. is_in.
    + intros Hb. destruct (inv_busy d Hi r Hb) as (q' & Hq' & Hs').
      assert (q' = q) by congruence. subst. inlist.
  - destruct (consumer d); [|done]. intros [= <-]. by apply ok_same.
Qed.

Lemma new_Inv now : Inv (new now : t).
Proof.
  split; unfold pending; simpl.
  - intros r Hr. inlist.
  - apply NoDup_nil_2.
  - intros r Hr. inlist.
  - apply NoDup_nil_2.
Qed.

(** The invariant holds in every state that the dispatcher reaches. *)
Lemma run_Inv l d d' : Inv d -> run l d = Some d' -> Inv d' /\ moves edge d d'.
Proof.
  revert d. induction l as [|i l IH]; simpl; intros d Hi.
  - intros [= <-]. split; [done|apply moves_refl].
  - destruct (step i d) as [d1|] eqn:Hs; [|done]. intros Hr.
    destruct (step_ok i d d1 Hi Hs) as [Hi1 Hm1].
    eapply ok_trans; [exact Hm1|by apply IH].
Qed.

(** Every input acts on the pending list, on the dispatches, on the history
    and on the item recorded as last by a sequence of [qstep]. *)
Lemma step_steps i d d' : Inv d -> step i d = Some d' -> rtc qstep d d'.
Proof.
  intros Hi. destruct i as [now q|now c|inf|now|now p s|r|c]; simpl.
  - destruct (decide _); [|done]. intros [= <-]. apply add_steps.
  - intros [= <-]. apply setConsumer_steps.
  - intros [= <-]. apply setInfo_steps.
  - destruct (polling d); [|done]. intros [= <-]. apply poll_steps.
  - destruct (decide _) as [Hp|]; [|done]. intros [= <-].
    etrans; [apply keep_with_inflight|apply settle_steps].
    intros r Hr. simpl.
    destruct (inv_busy d Hi r) as (q & Hq & _); [by eapply busy_owner|by exists q].
  - destruct (queues d !! r) as [q|]; [|done].
    destruct (decide _); [|done]. intros [= <-]. apply keep_call, setStatus_fields.
  - destruct (consumer d); [|done]. intros [= <-]. apply keep_with_consumer.
Qed.

Lemma run_steps l d d' : Inv d -> run l d = Some d' -> rtc qstep d d'.
Proof.
  revert d. induction l as [|i l IH]; simpl; intros d Hi.
  - intros [= <-]. reflexivity.
  - destruct (step i d) as [d1|] eqn:Hs; [|done]. intros Hr.
    destruct (step_ok i d d1 Hi Hs) as [Hi1 _].
    etrans; [by eapply step_steps|by apply IH].
Qed.

End InvariantFacts.

(** ** The dispatcher: the runner leaves the started items alone *)

Section UntouchedFacts.
Context `{Host} {C : Type} `{Consumer C}.
Import SiapDequeue SiapQueue.
Local Abbreviation t := (SiapDequeue.t C).
Implicit Types (d : t) (r : nat) (q : SiapQueue.t).

Lemma untouched_refl r d : untouched r d d.
Proof. unfold untouched. tauto. Qed.

Lemma untouched_trans r d1 d2 d3 :
  untouched r d1 d2 -> untouched r d2 d3 -> untouched r d1 d3.
Proof.
  intros (A1 & A2 & A3 & A4 & A5 & A6 & A7) (B1 & B2 & B3 & B4 & B5 & B6 & B7).
  unfold untouched. repeat split; [congruence|auto|congruence|auto|congruence|congruence|auto].
Qed.

Lemma attempts_app r tr1 tr2 : attempts r (tr1 ++ tr2) = (attempts r tr1 + attempts r tr2)%nat.
Proof. unfold attempts. by rewrite filter_app, length_app. Qed.

Lemma attempts_other r e tr :
  is_call r e = false -> attempts r (tr ++ [e]) = attempts r tr.
Proof.
  intros He. rewrite attempts_app. unfold attempts at 2.
  rewrite filter_cons_False by (by rewrite He). simpl. lia.
Qed.

Lemma attempts_call r tr : attempts r (tr ++ [ProcessQueue r]) = S (attempts r tr).
Proof.
  rewrite attempts_app. unfold attempts at 2.
  rewrite filter_cons_True by (simpl; by rewrite Nat.eqb_refl). simpl. lia.
Qed.

(** An update of other items, of the console, of the events of other
    items, or of the consumer. *)
Lemma untouched_same r d d' :
  queues d' !! r = queues d !! r ->
  (forall p, p ∈ inflight d -> p ∈ inflight d') ->
  attempts r (trace d') = attempts r (trace d) ->
  (is_Some (consumer d) -> is_Some (consumer d')) ->
  SiapDequeue.retry d' = SiapDequeue.retry d -> timeout d' = timeout d ->
  pending d' = pending d ->
  untouched r d d'.
Proof. intros ? ? ? ? ? ? Hp. unfold untouched. rewrite Hp. tauto. Qed.

Lemma untouched_call r r' m d : r' <> r -> untouched r d (call r' m d).
Proof.
  intros Hne. pose proof (call_rest r' m d) as (Hq & Hi & Ht & Hc & Hr & _ & _ & Hto).
  apply untouched_same; rewrite ?Hi, ?Ht, ?Hc, ?Hr; try done.
  - by apply call_lookup_ne.
  - unfold pending. by rewrite Hq.
Qed.

Lemma untouched_emit r e d : is_call r e = false -> untouched r d (emit e d).
Proof. intros He. apply untouched_same; try done. simpl. by apply attempts_other. Qed.

Lemma untouched_print r l d : untouched r d (print l d).
Proof. by apply untouched_same. Qed.

Lemma untouched_await r p d : untouched r d (await p d).
Proof.
  apply untouched_same; try done. simpl. intros p' Hp'. apply elem_of_app. by left.
Qed.

Lemma untouched_setLastQueue r r' d : untouched r d (setLastQueue r' d).
Proof.
  pose proof (setLastQueue_rest r' d) as (Hq & Hp & Hi & Ht & Hc & Hr & _).
  apply untouched_same; rewrite ?Hq, ?Hi, ?Ht, ?Hc, ?Hr; try done.
  - unfold setLastQueue. destruct (queues d !! r'); [|done]. by destruct (negb _).
  - unfold pending. by rewrite Hp.
Qed.

Section Closures.
Context (now : Z) (next : t -> t) (r : nat).
Hypothesis next_untouched : forall d, r ∉ pending d -> untouched r d (next d).

Lemma fault_untouched e d : r ∉ pending d -> untouched r d (fault next e d).
Proof.
  intros Hp. unfold fault. eapply untouched_trans; [apply untouched_print|].
  by apply next_untouched.
Qed.

Lemma doit_untouched r' d :
  r' <> r -> r ∉ pending d -> untouched r d (doit now next r' d).
Proof.
  intros Hne Hp. unfold doit. destruct (queues d !! r') as [q|]; [|apply untouched_refl].
  destruct (decide _); [|by apply next_untouched].
  set (d1 := call r' (start now) d).
  assert (H1 : untouched r d d1) by (by apply untouched_call).
  set (d2 := emit (QueueStart r') d1).
  assert (H2 : untouched r d d2).
  { eapply untouched_trans; [exact H1|]. by apply untouched_emit. }
  assert (Hp2 : r ∉ pending d2) by (by apply H2).
  destruct (consumer d2) as [c|] eqn:Hc;
    [|eapply untouched_trans; [exact H2|by apply fault_untouched]].
  destruct (queues d2 !! r') as [q2|];
    [|eapply untouched_trans; [exact H2|by apply fault_untouched]].
  destruct (processQueue c q2) as [c'|e];
    [|eapply untouched_trans; [exact H2|by apply fault_untouched]].
  set (d3 := await _ _).
  assert (H3 : untouched r d d3).
  { eapply untouched_trans; [exact H2|].
    eapply untouched_trans; [|apply untouched_await].
    eapply untouched_trans; [|apply untouched_emit].
    - apply untouched_same; try done.
    - simpl. destruct (decide (r = r')) as [->|Hn]; [done|].
      by apply Nat.eqb_neq. }
  assert (Hp3 : r ∉ pending d3) by (by apply H3).
  destruct (getNext d3) as [nr|]; [|done].
  destruct (queues d3 !! nr) as [nq|]; [|done].
  destruct (_ && _); [|done].
  eapply untouched_trans; [exact H3|by apply next_untouched].
Qed.

Lemma doQueue_untouched r' d :
  r' <> r -> r ∉ pending d -> untouched r d (doQueue now next r' d).
Proof.
  intros. unfold doQueue. destruct (consumer d); [by apply doit_untouched|apply untouched_refl].
Qed.

End Closures.

Lemma next_fuel_untouched f now r d : r ∉ pending d -> untouched r d (next_fuel f now d).
Proof.
  revert d. induction f as [|f IH]; intros d Hp; [apply untouched_refl|].
  cbn [next_fuel]. unfold Queue.next.
  destruct (Queue.active (queue d)); [apply untouched_refl|].
  destruct (negb (canProcess d)); [apply untouched_refl|].
  destruct (Queue.queues (queue d)) as [|r' rest] eqn:Hq; [apply untouched_refl|].
  assert (Hne : r' <> r).
  { intros ->. apply Hp. unfold pending. rewrite Hq. by left. }
  assert (Hrest : r ∉ rest).
  { intros Hin. apply Hp. unfold pending. rewrite Hq. by right. }
  set (d1 := emit (Dispatch r') (with_queue (Queue.mkRunner rest true) d)).
  assert (H1 : untouched r d d1).
  { unfold untouched. simpl. rewrite attempts_other by done. tauto. }
  assert (H2 : untouched r d1 (doQueue now (next_fuel f now) r' d1)).
  { apply doQueue_untouched; [exact IH|done|done]. }
  set (d2 := doQueue _ _ _ _) in *.
  eapply untouched_trans; [exact H1|]. eapply untouched_trans; [exact H2|].
  unfold untouched. simpl. split_and!; done.
Qed.

Lemma next_untouched now r d : r ∉ pending d -> untouched r d (next now d).
Proof. apply next_fuel_untouched. Qed.

(** *** Enough fuel for the runner *)

(** While the runner is active, [next] returns at once. *)
Lemma next_fuel_active f now d : Queue.active (queue d) = true -> next_fuel f now d = d.
Proof. intros Ha. destruct f; [done|]. simpl. unfold Queue.next. by rewrite Ha. Qed.

Lemma doit_active_ext now (n1 n2 : t -> t) r d :
  (forall d', Queue.active (queue d') = true -> n1 d' = n2 d') ->
  Queue.active (queue d) = true ->
  doit now n1 r d = doit now n2 r d.
Proof.
  intros Hn Ha. unfold doit. destruct (queues d !! r) as [q|]; [|done].
  destruct (decide _); [|by apply Hn].
  assert (Ha1 : Queue.active (queue (call r (start now) d)) = true).
  { by rewrite (proj1 (call_rest r (start now) d)). }
  set (d2 := emit _ _).
  destruct (consumer d2) as [c|]; [|unfold fault; by apply Hn].
  destruct (queues d2 !! r) as [q2|]; [|unfold fault; by apply Hn].
  destruct (processQueue c q2) as [c'|e]; [|unfold fault; by apply Hn].
  set (d3 := await _ _).
  destruct (getNext d3) as [nr|]; [|done].
  destruct (queues d3 !! nr) as [nq|]; [|done].
  destruct (_ && _); [|done]. by apply Hn.
Qed.

(** The runner always returns: more fuel than [next] gives it does not
    change the result. *)
Lemma next_fuel_enough f now d : next_fuel (S f) now d = next_fuel 1 now d.
Proof.
  cbn [next_fuel]. unfold Queue.next.
  destruct (Queue.active (queue d)); [done|].
  destruct (negb (canProcess d)); [done|].
  destruct (Queue.queues (queue d)) as [|r rest]; [done|].
  set (d1 := emit _ _).
  assert (E : doQueue now (next_fuel f now) r d1 = doQueue now (fun d' => d') r d1).
  { unfold doQueue. destruct (consumer d1); [|done].
    apply doit_active_ext; [|done]. intros d' Ha. by rewrite next_fuel_active. }
  by rewrite E.
Qed.

Lemma next_fuel_next f now d : next_fuel (S f) now d = next now d.
Proof. unfold next. by rewrite (next_fuel_enough f), (next_fuel_enough 1). Qed.

End UntouchedFacts.

(** ** Retries *)

Section RetryFacts.
Context `{Host} {C : Type} `{Consumer C}.
Import SiapDequeue SiapQueue.
Local Abbreviation t := (SiapDequeue.t C).
Implicit Types (d : t) (r : nat) (q : SiapQueue.t).

(** [doit] on an item that is not SKIPPED, with a consumer attached: the
    item is started and a consumer call is issued for it. *)
Lemma doit_attempt now r d q :
  returns_promise -> is_Some (consumer d) ->
  queues d !! r = Some q -> status q <> STATUS_SKIPPED -> r ∉ pending d ->
  let d' := doit now (next now) r d in
  queues d' !! r = Some (start now q).1
  /\ PProcess r ∈ inflight d'
  /\ attempts r (trace d') = S (attempts r (trace d))
  /\ is_Some (consumer d')
  /\ SiapDequeue.retry d' = SiapDequeue.retry d.
Proof.
  intros Hprom [c Hc] Hq Hs Hp d'. unfold d', doit. rewrite Hq.
  destruct (decide _) as [_|]; [|done].
  pose proof (call_rest r (start now) d) as (Hqu & Hin & Htr & Hco & Hre & _).
  pose proof (call_lookup r (start now) d q Hq) as Hq1.
  set (d1 := call r (start now) d) in *.
  cbn [consumer emit with_trace]. rewrite Hco, Hc.
  change (queues (emit (QueueStart r) d1) !! r) with (queues d1 !! r). rewrite Hq1.
  destruct (Hprom c (start now q).1) as [c' ->].
  set (d3 := await (PProcess r) _).
  assert (H3 : queues d3 !! r = Some (start now q).1
               /\ PProcess r ∈ inflight d3
               /\ attempts r (trace d3) = S (attempts r (trace d))
               /\ is_Some (consumer d3)
               /\ SiapDequeue.retry d3 = SiapDequeue.retry d
               /\ r ∉ pending d3).
  { split_and!; try done.
    - simpl. apply elem_of_app. right. by left.
    - simpl. rewrite attempts_call, attempts_other by done. by rewrite Htr.
    - unfold pending. simpl. by rewrite Hqu. }
  destruct H3 as (A1 & A2 & A3 & A4 & A5 & A6).
  assert (Hn : untouched r d3 (next now d3)) by (by apply next_untouched).
  destruct Hn as (B1 & B2 & B3 & B4 & B5 & _).
  assert (G : queues (next now d3) !! r = Some (start now q).1
              /\ PProcess r ∈ inflight (next now d3)
              /\ attempts r (trace (next now d3)) = S (attempts r (trace d))
              /\ is_Some (consumer (next now d3))
              /\ SiapDequeue.retry (next now d3) = SiapDequeue.retry d).
  { split_and!; [congruence|auto|congruence|auto|congruence]. }
  destruct (getNext d3) as [nr|]; [|by split_and!].
  destruct (queues d3 !! nr) as [nq|]; [|by split_and!].
  destruct (_ && _); [exact G|by split_and!].
Qed.

(** [fail] on an item that is not pending: the item becomes ERROR with the
    error as result, and no consumer call is made for it. *)
Lemma fail_final now err r d q :
  queues d !! r = Some q -> r ∉ pending d ->
  let d' := fail (next now) err r d in
  queues d' !! r = Some (error err q).1
  /\ attempts r (trace d') = attempts r (trace d)
  /\ (forall p, p ∈ inflight d -> p ∈ inflight d').
Proof.
  intros Hq Hp d'. unfold d', fail.
  pose proof (call_rest r (error err) d) as (Hqu & Hin & Htr & _).
  pose proof (call_lookup r (error err) d q Hq) as Hq1.
  set (d1 := call r (error err) d) in *.
  pose proof (setLastQueue_rest r d1) as (Hq2 & Hp2 & Hin2 & Htr2 & _).
  set (d2 := setLastQueue r d1) in *.
  set (d3 := match queues d2 !! r with Some _ => _ | None => _ end).
  assert (H3 : queues d3 = queues d2 /\ inflight d3 = inflight d2
               /\ attempts r (trace d3) = attempts r (trace d2)
               /\ pending d3 = pending d2).
  { unfold d3. destruct (queues d2 !! r) as [q2|]; [|done].
    destruct (reject q2); [|done]. split_and!; try done.
    simpl. by rewrite attempts_other. }
  destruct H3 as (Hq3 & Hin3 & Htr3 & Hp3).
  set (d4 := emit (QueueError r) d3).
  assert (Hp4 : r ∉ pending d4).
  { change (pending d4) with (pending d3). rewrite Hp3. unfold pending.
    by rewrite Hp2, Hqu. }
  destruct (next_untouched now r d4 Hp4) as (B1 & B2 & B3 & _).
  split_and!.
  - rewrite B1. change (queues d4) with (queues d3). by rewrite Hq3, Hq2.
  - rewrite B3. simpl. rewrite attempts_other by done. by rewrite Htr3, Htr2, Htr.
  - intros p Hpin. apply B2. change (inflight d4) with (inflight d3).
    by rewrite Hin3, Hin2, Hin.
Qed.

Lemma setResult_result v q : strict_eq (result (setResult v q).1) v = true.
Proof.
  unfold setResult. destruct (strict_eq (result q) v) eqn:E; [done|].
  simpl. apply strict_eq_refl.
Qed.

Lemma error_result err q : strict_eq (result (error err q).1) err = true.
Proof.
  unfold error. destruct (setStatus STATUS_ERROR q) as [q1 l1].
  pose proof (setResult_result err q1) as Hr.
  by destruct (setResult err q1) as [q2 l2].
Qed.

(** An item has either a consumer call or an [onretry] hook in flight. *)
Lemma busy_unique l r : NoDup (busy l) -> PProcess r ∈ l -> POnRetry r ∉ l.
Proof.
  induction l as [|p l IH]; intros Hnd Hp Hr; [by inlist|].
  rewrite busy_cons in Hnd.
  apply elem_of_cons in Hp as [<-|Hp], Hr as [Hr|Hr]; try done.
  - apply NoDup_cons in Hnd as [Hn _]. apply Hn.
    apply (busy_owner (POnRetry r)); [by right|done].
  - subst p. apply NoDup_cons in Hnd as [Hn _]. apply Hn.
    apply (busy_owner (PProcess r)); [by left|done].
  - destruct p; [apply NoDup_cons in Hnd as [_ Hnd]..|]; by apply IH.
Qed.

Lemma retrying_facts r q k d :
  retrying r q k d ->
  exists q', queues d !! r = Some q' /\ same_fields q q'
    /\ retryCount q' = count_after k
    /\ status q' ∈ [STATUS_PROCESSING; STATUS_TIMED_OUT]
    /\ (r ∉ pending d) /\ PProcess r ∈ inflight d.
Proof.
  intros (Hi & Hc & q' & Hq & Hf & Hk & Hp). exists q'.
  assert (Hb : r ∈ busy (inflight d)) by (eapply busy_owner; [by left|done]).
  destruct (inv_busy d Hi r Hb) as (q0 & Hq0 & Hs0).
  assert (q0 = q') by congruence. subst q0.
  split_and!; try done. by apply (busy_not_pending d).
Qed.

(** A retryable failure below the ceiling: the consumer call is made
    again. *)
Lemma attempt_retried now err r q k d :
  returns_promise -> retrying r q k d ->
  retry q = true -> is_retry_error err = true -> (k < SiapDequeue.retry d)%nat ->
  exists d', failed_attempt now err r d = Some d'
    /\ retrying r q (S k) d'
    /\ status_in d' r [STATUS_PROCESSING]
    /\ attempts r (trace d') = S (attempts r (trace d))
    /\ SiapDequeue.retry d' = SiapDequeue.retry d.
Proof.
  intros Hprom Hr Hretry Herr Hk.
  destruct (retrying_facts r q k d Hr) as (q' & Hq & Hf & Hcnt & Hst & Hpen & Hin).
  destruct Hr as (Hi & Hc & _).
  set (q1 := with_retryCount (Some (S k)) q').
  set (d0 := with_inflight (remove (PProcess r) (inflight d)) d).
  set (d1 := with_queues (<[r := q1]> (queues d0)) d0).
  set (d2 := print (LogRetry (toString q1) (S k)) d1).
  assert (Hlt : (r < length (queues d))%nat) by (by eapply lookup_lt_Some).
  assert (Hq2 : queues d2 !! r = Some q1) by (simpl; by apply list_lookup_insert_eq).
  assert (Hs1 : status q1 <> STATUS_SKIPPED).
  { change (status q1) with (status q'). intros E. rewrite E in Hst. inlist. }
  assert (Hf1 : same_fields q q1).
  { etrans; [exact Hf|]. unfold same_fields. simpl. tauto. }
  assert (Hretry1 : retry q1 = true).
  { destruct Hf1 as (_ & _ & _ & _ & _ & _ & E & _). congruence. }
  assert (Hstep : step (Settle now (PProcess r) (Rejected err)) d
                  = Some (if onretry q1 then await (POnRetry r) d2
                          else doit now (next now) r d2)).
  { cbn [step]. rewrite decide_True by done. f_equal.
    cbn [settle]. unfold retry_. change (queues (with_inflight _ d)) with (queues d).
    rewrite Hq, Hcnt.
    replace (default 0 (count_after k) + 1)%nat with (S k)
      by (destruct k; simpl; lia).
    fold q1. fold d0. fold d1. rewrite Herr, Hretry1.
    change (SiapDequeue.retry (with_queues _ d0)) with (SiapDequeue.retry d).
    replace (S k <=? SiapDequeue.retry d)%nat with true
      by (symmetry; apply Nat.leb_le; lia).
    reflexivity. }
  destruct (onretry q1) eqn:Hhook.
  - (* the hook is awaited, and resolves *)
    set (dA := await (POnRetry r) d2) in *.
    destruct (step_ok _ _ _ Hi Hstep) as [HiA _].
    set (dB := with_inflight (remove (POnRetry r) (inflight dA)) dA).
    assert (HinA : POnRetry r ∈ inflight dA).
    { simpl. apply elem_of_app. right. by left. }
    assert (Hstep2 : step (Settle now (POnRetry r) (Fulfilled JUndefined)) dA
                     = Some (doit now (next now) r dB)).
    { cbn [step]. by rewrite decide_True by done. }
    destruct (step_ok _ _ _ HiA Hstep2) as [HiB _].
    destruct (doit_attempt now r dB q1) as (A1 & A2 & A3 & A4 & A5); try done.
    exists (doit now (next now) r dB). split_and!; try done.
    + unfold failed_attempt. rewrite Hstep. by rewrite decide_True by done.
    + split_and!; try done. exists (start now q1).1. split_and!; try done.
      * etrans; [exact Hf1|apply start_fields].
      * by rewrite start_retryCount.
    + exists (start now q1).1. split; [done|]. rewrite start_status. is_in.
  - (* the call is made again at once *)
    set (dA := doit now (next now) r d2) in *.
    destruct (step_ok _ _ _ Hi Hstep) as [HiA _].
    destruct (doit_attempt now r d2 q1) as (A1 & A2 & A3 & A4 & A5); try done.
    fold dA in A1, A2, A3, A4, A5.
    exists dA. split_and!; try done.
    + unfold failed_attempt. rewrite Hstep. rewrite decide_False; [done|].
      apply busy_unique; [apply (inv_busy_nodup dA HiA)|done].
    + split_and!; try done. exists (start now q1).1. split_and!; try done.
      * etrans; [exact Hf1|apply start_fields].
      * by rewrite start_retryCount.
    + exists (start now q1).1. split; [done|]. rewrite start_status. is_in.
Qed.

(** A failure that is not retried: the item becomes ERROR and no consumer
    call is made. *)
Lemma attempt_final now err r q k d :
  retrying r q k d ->
  is_retry_error err && retry q && (S k <=? SiapDequeue.retry d)%nat = false ->
  exists d' q', failed_attempt now err r d = Some d'
    /\ queues d' !! r = Some q' /\ same_fields q q'
    /\ status q' = STATUS_ERROR
    /\ retryCount q' = Some (S k)
    /\ strict_eq (result q') err = true
    /\ attempts r (trace d') = attempts r (trace d)
    /\ Inv d'.
Proof.
  intros Hr Hcond.
  destruct (retrying_facts r q k d Hr) as (q' & Hq & Hf & Hcnt & Hst & Hpen & Hin).
  destruct Hr as (Hi & Hc & _).
  set (q1 := with_retryCount (Some (S k)) q').
  set (d0 := with_inflight (remove (PProcess r) (inflight d)) d).
  set (d1 := with_queues (<[r := q1]> (queues d0)) d0).
  assert (Hlt : (r < length (queues d))%nat) by (by eapply lookup_lt_Some).
  assert (Hq1 : queues d1 !! r = Some q1) by (simpl; by apply list_lookup_insert_eq).
  assert (Hf1 : same_fields q q1).
  { etrans; [exact Hf|]. unfold same_fields. simpl. tauto. }
  assert (Hretry1 : retry q1 = retry q).
  { destruct Hf1 as (_ & _ & _ & _ & _ & _ & E & _). congruence. }
  assert (Hstep : step (Settle now (PProcess r) (Rejected err)) d
                  = Some (fail (next now) err r d1)).
  { cbn [step]. rewrite decide_True by done. f_equal.
    cbn [settle]. unfold retry_. change (queues (with_inflight _ d)) with (queues d).
    rewrite Hq, Hcnt.
    replace (default 0 (count_after k) + 1)%nat with (S k)
      by (destruct k; simpl; lia).
    fold q1. fold d0. fold d1. rewrite Hretry1.
    change (SiapDequeue.retry (with_queues _ d0)) with (SiapDequeue.retry d).
    rewrite Hcond. reflexivity. }
  set (dA := fail (next now) err r d1) in *.
  destruct (step_ok _ _ _ Hi Hstep) as [HiA _].
  destruct (fail_final now err r d1 q1) as (A1 & A2 & A3); try done.
  fold dA in A1, A2, A3.
  exists dA, (error err q1).1. split_and!; try done.
  - unfold failed_attempt. rewrite Hstep. rewrite decide_False; [done|].
    intros Hhook.
    assert (Hb : r ∈ busy (inflight dA)) by (eapply busy_owner; [by right|done]).
    destruct (inv_busy dA HiA r Hb) as (q0 & Hq0 & Hs0).
    assert (q0 = (error err q1).1) by congruence. subst q0.
    rewrite error_status in Hs0. inlist.
  - etrans; [exact Hf1|apply error_fields].
  - apply error_status.
  - by rewrite error_retryCount.
  - apply error_result.
Qed.

(** The failures up to the ceiling, then the last one. *)
Lemma attempts_until_ceiling errs : forall e r q k d,
  returns_promise -> retrying r q k d -> retry q = true ->
  Forall (fun e => is_retry_error e.2 = true) (e :: errs) ->
  (k + length errs = SiapDequeue.retry d)%nat ->
  exists d' q', failed_attempts (e :: errs) r d = Some d'
    /\ queues d' !! r = Some q'
    /\ status q' = STATUS_ERROR
    /\ retryCount q' = Some (S (SiapDequeue.retry d))
    /\ (attempts r (trace d') + k = attempts r (trace d) + SiapDequeue.retry d)%nat.
Proof.
  induction errs as [|e' errs IH]; intros [now err] r q k d Hprom Hr Hretry Herrs Hlen;
    apply Forall_cons in Herrs as [Herr Herrs]; simpl in Herr, Hlen.
  - destruct (attempt_final now err r q k d) as
      (d' & q' & E & Hq' & _ & Hst' & Hcnt' & _ & Hat' & _); try done.
    { rewrite Herr, Hretry. cbn [andb]. apply Nat.leb_gt. lia. }
    exists d', q'. cbn [failed_attempts]. rewrite E.
    split_and!; try done; [rewrite Hcnt'; f_equal; lia|lia].
  - destruct (attempt_retried now err r q k d) as (d1 & Hs1 & Hr1 & _ & Ha1 & Hre1);
      try done; [lia|].
    destruct (IH e' r q (S k) d1) as (d' & q' & E & Hq' & Hst' & Hcnt' & Hat');
      try done; [rewrite Hre1; lia|].
    exists d', q'. change (failed_attempts ((now, err) :: e' :: errs) r d)
      with (match failed_attempt now err r d with
            | Some d' => failed_attempts (e' :: errs) r d'
            | None => None
            end).
    rewrite Hs1.
    split_and!; try done; [by rewrite <- Hre1|rewrite Hre1 in Hat'; lia].
Qed.

End RetryFacts.

(** ** C1: retries up to the ceiling *)

Section RetryClaim.
Context `{Host} {C : Type} `{Consumer C}.
Import SiapDequeue SiapQueue.
Local Abbreviation t := (SiapDequeue.t C).

(** C1, amended.  Let the item [r] be in its first attempt: one consumer
    call made, in flight, and [retryCount] undefined.  If [retry] is true and
    the call fails with the retryable kind on every attempt (the [onretry]
    hook, when the item has one, resolving each time), the item is ERROR
    after [1 + ceiling] failures, [1 + ceiling] consumer calls have been
    made, and [retryCount] is [1 + ceiling]: the number of failures, one more
    than the number of retries.  A failure that is not of the retryable kind,
    or any failure when [retry] is false, makes the item ERROR after the
    first attempt, with [retryCount] 1. *)
Theorem retry_until_ceiling (r : nat) (q : SiapQueue.t) (d : t) :
  returns_promise -> retrying r q 0 d -> attempts r (trace d) = 1%nat ->
  (forall errs,
      retry q = true ->
      Forall (fun e => is_retry_error e.2 = true) errs ->
      length errs = S (SiapDequeue.retry d) ->
      exists d' q', failed_attempts errs r d = Some d'
        /\ queues d' !! r = Some q'
        /\ status q' = STATUS_ERROR
        /\ retryCount q' = Some (1 + SiapDequeue.retry d)%nat
        /\ attempts r (trace d') = (1 + SiapDequeue.retry d)%nat)
  /\ (forall now err,
      is_retry_error err = false \/ retry q = false ->
      exists d' q', failed_attempt now err r d = Some d'
        /\ queues d' !! r = Some q'
        /\ status q' = STATUS_ERROR
        /\ retryCount q' = Some 1%nat
        /\ attempts r (trace d') = 1%nat).
Proof.
  intros Hprom Hr Ha. split.
  - intros errs Hretry Herrs Hlen. destruct errs as [|e errs]; [done|].
    destruct (attempts_until_ceiling errs e r q 0 d) as (d' & q' & E & Hq & Hs & Hc & Hat);
      try done; [simpl in Hlen; lia|].
    exists d', q'. split_and!; try done. lia.
  - intros now err Hno.
    destruct (attempt_final now err r q 0 d) as
      (d' & q' & E & Hq & _ & Hs & Hc & _ & Hat & _); try done.
    { destruct Hno as [-> | ->]; [done|]. by rewrite andb_false_r. }
    exists d', q'. split_and!; try done. congruence.
Qed.

(** Below the ceiling every retryable failure is followed by a new consumer
    call: after [k] failures, [k <= ceiling], the item is in its attempt
    [k + 1]. *)
Lemma retried_below_ceiling errs : forall (r : nat) (q : SiapQueue.t) (k : nat) (d : t),
  returns_promise -> retrying r q k d -> retry q = true ->
  Forall (fun e => is_retry_error e.2 = true) errs ->
  (k + length errs <= SiapDequeue.retry d)%nat ->
  exists d', failed_attempts errs r d = Some d'
    /\ retrying r q (k + length errs) d'
    /\ attempts r (trace d') = (attempts r (trace d) + length errs)%nat.
Proof.
  induction errs as [|[now err] errs IH]; intros r q k d Hprom Hr Hretry Herrs Hlen.
  - exists d. rewrite Nat.add_0_r. simpl. split_and!; [done|done|lia].
  - apply Forall_cons in Herrs as [Herr Herrs]. simpl in Herr, Hlen.
    destruct (attempt_retried now err r q k d) as (d1 & Hs1 & Hr1 & _ & Ha1 & Hre1);
      try done; [lia|].
    destruct (IH r q (S k) d1) as (d' & E & Hr' & Hat'); try done; [rewrite Hre1; lia|].
    exists d'. cbn [failed_attempts]. rewrite Hs1.
    replace (k + length ((now, err) :: errs))%nat with (S k + length errs)%nat
      by (simpl; lia).
    split_and!; try done. simpl. lia.
Qed.

End RetryClaim.

Section RetryScenario.
#[local] Existing Instance example_host.
#[local] Existing Instance example_consumer.
Import SiapDequeue SiapQueue.

Example retry_start_run :
  run [SetConsumer 0 (Some (true, false)); Add 10 retry_item] (new 0) = Some retry_start.
Proof. vm_compute. reflexivity. Qed.

Example retry_start_retrying : retrying 0 retry_item 0 retry_start.
Proof.
  split_and!.
  - eapply run_Inv; [apply new_Inv|apply retry_start_run].
  - vm_compute. eauto.
  - eexists. split_and!; [vm_compute; reflexivity|..].
    + unfold same_fields. vm_compute. tauto.
    + reflexivity.
    + vm_compute. left.
Qed.

(** C1 as stated fails: with the default ceiling 3, after four retryable
    failures the item is ERROR and four consumer calls have been made, that
    is three retries, but [retryCount] is 4. *)
Lemma retryCount_counts_failures :
  observe 0 (failed_attempts [(20, retry_error); (30, retry_error);
                              (40, retry_error); (50, retry_error)] 0 retry_start)
  = Some (STATUS_ERROR, retry_error, Some 4%nat, 4%nat).
Proof. vm_compute. reflexivity. Qed.

Lemma retry_until_ceiling_witness :
  exists d' q',
    failed_attempts [(20, retry_error); (30, retry_error);
                     (40, retry_error); (50, retry_error)] 0 retry_start = Some d'
    /\ queues d' !! 0%nat = Some q'
    /\ status q' = STATUS_ERROR
    /\ retryCount q' = Some 4%nat
    /\ attempts 0 (trace d') = 4%nat.
Proof.
  refine (proj1 (retry_until_ceiling 0 retry_item retry_start _ retry_start_retrying _) _ _ _ _).
  - intros c q. eexists. reflexivity.
  - vm_compute. reflexivity.
  - reflexivity.
  - repeat constructor.
  - reflexivity.
Defined.

(** The scenario of the specification: two retryable failures, then a
    success: the item is DONE with [retryCount] 2. *)
Example retry_then_success :
  observe 0 (d ← failed_attempts [(20, retry_error); (30, retry_error)] 0 retry_start;
             step (Settle 40 (PProcess 0%nat) (Fulfilled (JStr "ok"))) d)
  = Some (STATUS_DONE, JStr "ok", Some 2%nat, 3%nat).
Proof. vm_compute. reflexivity. Qed.

End RetryScenario.

(** ** C3 and C4: timeouts and the transitions of the status *)

Section StatusClaims.
Context `{Host} {C : Type} `{Consumer C}.
Import SiapDequeue SiapQueue.
Local Abbreviation t := (SiapDequeue.t C).

Lemma reachable_Inv l t0 (d : t) : run l (new t0) = Some d -> Inv d.
Proof. intros Hr. eapply run_Inv; [apply new_Inv|exact Hr]. Qed.

(** The default timeout is 600000 ms and the retry ceiling 3 in every
    state that the dispatcher reaches. *)
Lemma reachable_settings l t0 (d : t) :
  run l (new t0) = Some d ->
  timeout d = 600000 /\ SiapDequeue.retry d = 3%nat /\ SiapDequeue.time d = t0.
Proof.
  intros Hr. apply run_steps, steps_settings in Hr; [|apply new_Inv].
  unfold settings in Hr. simpl in Hr. by injection Hr as -> -> ->.
Qed.

(** C3: at a poll tick, let [r] be the first item of the history that is
    PROCESSING and [started] its start time.  Its effective timeout is
    [data.timeout] when [data] has one and the default 600000 otherwise. If
    the effective timeout is a number [n > 0] and [now - started > n], the
    tick sets the item TIMED_OUT and calls [next()]: at once when the item
    has no [ontimeout] hook, and otherwise when the promise of the hook
    settles, whatever the settlement.  The item is TIMED_OUT after the
    tick. *)
Theorem poll_times_out (l : list (Input C)) (t0 now started n : Z) (r : nat)
    (q : SiapQueue.t) (d : t) :
  run l (new t0) = Some d ->
  list_find (fun q => is_processing q = true) (queues d) = Some (r, q) ->
  time q = Some started ->
  ToNumber (if truthy (data q) && negb (strict_eq (get (data q) "timeout") JUndefined)
            then get (data q) "timeout" else JNum 600000) = Some n ->
  0 < n -> n < now - started ->
  status_in (poll now d) r [STATUS_TIMED_OUT]
  /\ (ontimeout q = false ->
      poll now d = next now (call r (setStatus STATUS_TIMED_OUT) d))
  /\ (ontimeout q = true ->
      poll now d = await (POnTimeout r) (call r (setStatus STATUS_TIMED_OUT) d)
      /\ forall now' s,
          step (Settle now' (POnTimeout r) s) (poll now d)
          = Some (next now'
                    (with_inflight (remove (POnTimeout r) (inflight (poll now d)))
                       (poll now d)))).
Proof.
  intros Hrun Hfind Htime Hn Hpos Hlate.
  pose proof (reachable_Inv _ _ _ Hrun) as Hi.
  destruct (reachable_settings _ _ _ Hrun) as [Hto _].
  destruct (find_processing d r q Hfind) as [Hq Hs].
  set (d1 := call r (setStatus STATUS_TIMED_OUT) d).
  assert (Hq1 : queues d1 !! r = Some (setStatus STATUS_TIMED_OUT q).1)
    by (by apply call_lookup).
  assert (Hpoll : poll now d = if ontimeout q then await (POnTimeout r) d1
                               else next now d1).
  { unfold poll. rewrite Hfind, Htime. unfold effective_timeout. rewrite Hto.
    unfold gt. rewrite Hn. cbn [ToNumber].
    replace (0 <? n)%Z with true by (symmetry; by apply Z.ltb_lt).
    replace (n <? now - started)%Z with true by (symmetry; by apply Z.ltb_lt).
    reflexivity. }
  assert (Hst1 : status_in d1 r [STATUS_TIMED_OUT]).
  { eexists. split; [exact Hq1|]. rewrite setStatus_status. is_in. }
  split_and!.
  - rewrite Hpoll. destruct (ontimeout q); [done|].
    assert (Hp : r ∉ pending d1).
    { unfold pending, d1. rewrite (proj1 (call_rest _ _ _)).
      intros Hp. destruct (inv_pending d Hi r Hp) as (q' & Hq' & Hs').
      assert (q' = q) by congruence. subst. rewrite Hs in Hs'. inlist. }
    destruct (next_untouched now r d1 Hp) as (E & _).
    destruct Hst1 as (q1 & Hq1' & Hs1). exists q1. by rewrite E.
  - intros Hhook. by rewrite Hpoll, Hhook.
  - intros Hhook. rewrite Hpoll, Hhook. split; [done|].
    intros now' s. cbn [step]. rewrite decide_True.
    + by destruct s.
    + simpl. apply elem_of_app. right. by left.
Qed.

Lemma edge_inv s s' :
  rtc edge s s' ->
  (s ∈ [STATUS_DONE; STATUS_ERROR; STATUS_SKIPPED] -> s' = s)
  /\ (s' = STATUS_NEW -> s = STATUS_NEW).
Proof.
  induction 1 as [|s1 s2 s3 H12 _ IH]; [done|]. destruct IH as [IH1 IH2]. split.
  - intros Hs. exfalso. destruct H12 as [? ? []| | |]; inlist.
  - intros ->. specialize (IH2 eq_refl). subst.
    inversion H12 as [? ? Hc| | |]; subst. inversion Hc.
Qed.

Lemma timed_out_not_final_claimed : ~ rtc claimed_edge STATUS_TIMED_OUT STATUS_DONE.
Proof. intros Hr. inversion Hr as [|? ? ? Hc]; subst. inversion Hc. Qed.

End StatusClaims.

Section TimeoutScenario.
#[local] Existing Instance example_host.
#[local] Existing Instance example_consumer.
Import SiapDequeue SiapQueue.

Example slow_state_run : run slow_inputs (new 0) = Some slow_state.
Proof. vm_compute. reflexivity. Qed.

Example slow_state_processing :
  observe 0 (Some slow_state) = Some (STATUS_PROCESSING, JUndefined, None, 1%nat).
Proof. vm_compute. reflexivity. Qed.

Lemma poll_times_out_witness : status_in (poll 300 slow_state) 0 [STATUS_TIMED_OUT].
Proof.
  refine (proj1 (poll_times_out slow_inputs 0 300 10 200 0
                   slow_started slow_state
                   slow_state_run _ _ _ _ _)).
  - vm_compute. reflexivity.
  - reflexivity.
  - reflexivity.
  - lia.
  - lia.
Defined.

(** C4 as stated fails: the item is TIMED_OUT at the tick of time 300; when
    its abandoned consumer call is fulfilled at time 400, the item becomes
    DONE and its result is set; TIMED_OUT -> DONE is not a transition of the
    specification. *)
Lemma late_settlement_not_ignored :
  observe 0 (run (slow_inputs ++ [Tick 300]) (new 0))
  = Some (STATUS_TIMED_OUT, JUndefined, None, 1%nat)
  /\ observe 0 (run (slow_inputs ++ [Tick 300;
                       Settle 400 (PProcess 0%nat) (Fulfilled (JStr "late"))]) (new 0))
     = Some (STATUS_DONE, JStr "late", None, 1%nat)
  /\ ~ rtc claimed_edge STATUS_TIMED_OUT STATUS_DONE.
Proof.
  split_and!; [vm_compute; reflexivity..|].
  intros Hr. inversion Hr as [|? ? ? Hc]; subst. inversion Hc.
Qed.

(** A second item that is PROCESSING is not examined by the poll loop as
    long as the first one is: here the first item has the default timeout
    and the second one, started at the same time, a timeout of 200 ms. *)
Example poll_examines_first_processing :
  (d ← run [SetConsumer 0 (Some (true, false));
            Add 10 (example_item "spp" "a" (JObj 0 []) false false false);
            Add 10 slow_item; Tick 300; Tick 400] (new 0);
   Some (status <$> queues d))
  = Some [STATUS_PROCESSING; STATUS_PROCESSING].
Proof. vm_compute. reflexivity. Qed.

End TimeoutScenario.

(** ** C2: the order of the dispatches *)

Section OrderFacts.
Context `{Host} {C : Type} `{Consumer C}.
Import SiapDequeue SiapQueue.
Local Abbreviation t := (SiapDequeue.t C).
Implicit Types (d : t) (r : nat) (q : SiapQueue.t).

Lemma precedes_snoc a b l x :
  precedes a b l -> (x = b -> a ∈ l) -> precedes a b (l ++ [x]).
Proof.
  intros Hp Hx l1 l2 E.
  destruct l2 as [|y l2 _] using rev_ind.
  - apply app_inj_tail in E as [-> ->]. auto.
  - rewrite app_comm_cons, app_assoc in E. apply app_inj_tail in E as [-> _].
    by eapply Hp.
Qed.

Lemma precedes_absent a b l : b ∉ l -> precedes a b l.
Proof.
  intros Hb l1 l2 ->. exfalso. apply Hb. apply elem_of_app. right. by left.
Qed.

Lemma noncallback_frame d d' r :
  frame d d' -> length (queues d') = length (queues d) ->
  noncallback d' r <-> noncallback d r.
Proof.
  intros Hf Hl. split.
  - intros (q' & Hq' & Ht).
    destruct (queues d !! r) as [q|] eqn:Hq.
    + destruct (Hf r q Hq) as (q2 & Hq2 & Hs). assert (q2 = q') by congruence. subst.
      exists q. split; [done|]. destruct Hs as (E & _). congruence.
    + apply lookup_ge_None in Hq. apply lookup_lt_Some in Hq'. lia.
  - intros (q & Hq & Ht). destruct (Hf r q Hq) as (q' & Hq' & Hs).
    exists q'. split; [done|]. destruct Hs as (E & _). congruence.
Qed.

(** *** The callback stays ahead *)

Lemma ahead_qstep rc waiting before d d' :
  (forall r, r ∈ waiting -> (r < rc)%nat) ->
  ahead rc waiting before d -> qstep d d' -> ahead rc waiting before d'.
Proof.
  intros Hw (since & Hd & Hrc & Hcase) Hstep.
  destruct Hstep as [x Hp Ht Hl Hf _ _ _|q Hq Hp Ht _ _ _|x Hp Ht Hl Hf _ _ _ _
                    |Hp Ht Hl Hf _ _ _].
  - (* the head of the pending list is dispatched *)
    exists (since ++ [x])%list. split_and!; [by rewrite Ht, Hd, app_assoc|lia|].
    destruct Hcase as [[Hin Hpre]|[Hnone (l1 & l2 & Hpend & Hl1)]].
    + left. split; [apply elem_of_app; by left|].
      intros r Hr. apply precedes_snoc; auto.
    + rewrite Hp in Hpend. destruct l1 as [|y l1]; simpl in Hpend.
      * injection Hpend as -> Hrest. left. split; [apply elem_of_app; right; by left|].
        intros r Hr. apply precedes_absent. rewrite elem_of_app, list_elem_of_singleton.
        intros [Hin| ->]; [by apply (Hnone r)|]. apply Hw in Hr. lia.
      * injection Hpend as -> Hrest. right. split.
        -- intros r Hr. rewrite elem_of_app, list_elem_of_singleton.
           intros [Hin| ->]; [by apply (Hnone r)|]. apply (Hl1 y Hr). by left.
        -- exists l1, l2. split; [done|]. intros r Hr Hin. apply (Hl1 r Hr). by right.
  - (* a new item is enqueued *)
    exists since. split_and!; [by rewrite Ht|rewrite Hq, length_app; simpl; lia|].
    destruct Hcase as [?|[Hnone (l1 & l2 & Hpend & Hl1)]]; [by left|].
    right. split; [done|]. rewrite Hp, Hpend.
    destruct (String.eqb _ _).
    + exists (length (queues d) :: l1), l2. split; [done|].
      intros r Hr [->|Hin]%elem_of_cons; [|by apply (Hl1 r)].
      apply Hw in Hr. lia.
    + exists l1, (l2 ++ [length (queues d)])%list. split; [|done].
      by rewrite <- app_assoc.
  - exists since. split_and!; [by rewrite Ht|lia|by rewrite Hp].
  - exists since. split_and!; [by rewrite Ht|lia|by rewrite Hp].
Qed.

Lemma ahead_steps rc waiting before d d' :
  (forall r, r ∈ waiting -> (r < rc)%nat) ->
  ahead rc waiting before d -> rtc qstep d d' -> ahead rc waiting before d'.
Proof. intros Hw Ha Hs. induction Hs; eauto using ahead_qstep. Qed.

(** *** The order of the items that are not callbacks *)

Lemma Ordered_qstep d d' : Ordered d -> qstep d d' -> Ordered d'.
Proof.
  intros [V K1 K2 K3] Hstep.
  assert (Hkeep : pending d' = pending d ->
            dispatches (trace d') = dispatches (trace d) ->
            length (queues d') = length (queues d) -> frame d d' -> Ordered d').
  { intros Hp Ht Hl Hf.
    assert (Hnc : forall r, noncallback d' r <-> noncallback d r)
      by (intros; by apply noncallback_frame).
    split.
    + intros r. rewrite Hp, Ht, Hl. apply V.
    + intros r Hr%Hnc. rewrite Hp, Ht. by apply K1.
    + intros l1 x l2. rewrite Hp. intros Hpend Hx%Hnc y Hy Hyn%Hnc. by eapply K2.
    + intros a b Ha%Hnc Hb%Hnc. rewrite Ht. by apply K3. }
  destruct Hstep as [x Hp Ht Hl Hf _ _ _|q Hq Hp Ht _ _ _|x Hp Ht Hl Hf _ _ _ _
                    |Hp Ht Hl Hf _ _ _]; [| |by apply Hkeep..].
  - (* the head of the pending list is dispatched *)
    assert (Hnc : forall r, noncallback d' r <-> noncallback d r)
      by (intros; by apply noncallback_frame). split.
    + intros r. rewrite Ht, Hl, elem_of_app, list_elem_of_singleton.
      intros [Hr|[Hr| ->]]; apply V; rewrite Hp; auto using list_elem_of_here, list_elem_of_further.
    + intros r Hr%Hnc. rewrite Ht, elem_of_app, list_elem_of_singleton.
      destruct (K1 r Hr) as [?|Hin]; [auto|]. rewrite Hp in Hin.
      apply elem_of_cons in Hin as [->|?]; auto.
    + intros l1 y l2 Hpend Hy%Hnc z Hz Hzn%Hnc.
      apply (K2 (x :: l1) y l2); [by rewrite Hp, Hpend|done| |done]. by right.
    + intros a b Ha%Hnc Hb%Hnc Hab. rewrite Ht. apply precedes_snoc; [by apply K3|].
      intros ->. destruct (K1 a Ha) as [?|Hin]; [done|]. exfalso.
      rewrite Hp in Hin. apply elem_of_cons in Hin as [->|Hin]; [lia|].
      apply list_elem_of_split in Hin as (l1 & l2 & Hsplit).
      assert (Hlt : (b < a)%nat); [|lia].
      apply (K2 (b :: l1) a l2); [by rewrite Hp, Hsplit|done|by left|done].
  - (* a new item is enqueued *)
    set (n := length (queues d)) in *.
    assert (Hold : forall r, (r < n)%nat -> noncallback d' r <-> noncallback d r).
    { intros r Hr. unfold noncallback. rewrite Hq. by rewrite lookup_app_l. }
    assert (Hlast : forall r, noncallback d' r -> (r < n)%nat \/
              (r = n /\ String.eqb (type q) QUEUE_CALLBACK = false)).
    { intros r (q' & Hq' & Hty). rewrite Hq in Hq'.
      destruct (decide (r < n)%nat); [by left|right].
      apply lookup_lt_Some in Hq' as Hlt. rewrite length_app in Hlt. simpl in Hlt.
      assert (r = n) by (unfold n; lia). subst r. split; [done|].
      rewrite lookup_app_r in Hq' by done. rewrite Nat.sub_diag in Hq'.
      injection Hq' as ->. by apply String.eqb_neq. }
    assert (Hin_new : forall r, r ∈ pending d -> r ∈ pending d').
    { intros r Hr. rewrite Hp. destruct (String.eqb _ _);
        [by right|apply elem_of_app; by left]. }
    split.
    + intros r. rewrite Ht, Hq, length_app. simpl. fold n.
      intros [Hr|Hr]; [|specialize (V r (or_intror Hr)); lia].
      rewrite Hp in Hr. destruct (String.eqb _ _).
      * apply elem_of_cons in Hr as [->|Hr]; [lia|]. specialize (V r (or_introl Hr)). lia.
      * apply elem_of_app in Hr as [Hr|Hr%list_elem_of_singleton]; [|lia].
        specialize (V r (or_introl Hr)). lia.
    + intros r Hr. rewrite Ht. destruct (Hlast r Hr) as [Hlt|[-> Hnc]].
      * apply (Hold r Hlt) in Hr. destruct (K1 r Hr); auto.
      * right. rewrite Hp, Hnc. apply elem_of_app. right. by left.
    + intros l1 x l2 Hpend Hx y Hy Hyn. rewrite Hp in Hpend.
      destruct (String.eqb (type q) QUEUE_CALLBACK) eqn:Hcb.
      * destruct (Hlast x Hx) as [Hxlt|[_ ?]]; [|congruence].
        destruct (Hlast y Hyn) as [Hylt|[_ ?]]; [|congruence].
        destruct l1 as [|z l1]; [by inlist|]. injection Hpend as -> Hpend.
        apply elem_of_cons in Hy as [->|Hy]; [lia|].
        apply (K2 l1 x l2); [done|by apply Hold| done|by apply Hold].
      * destruct l2 as [|z l2 _] using rev_ind.
        -- apply app_inj_tail in Hpend as [E1 E2]. rewrite <- E1 in Hy.
           specialize (V y (or_introl Hy)). fold n in V. lia.
        -- rewrite app_comm_cons, app_assoc in Hpend.
           apply app_inj_tail in Hpend as [Hpend _].
           assert (Hxin : x ∈ pending d).
           { rewrite Hpend. apply elem_of_app. right. by left. }
           assert (Hyin : y ∈ pending d).
           { rewrite Hpend. apply elem_of_app. by left. }
           pose proof (V x (or_introl Hxin)). pose proof (V y (or_introl Hyin)).
           apply (K2 l1 x l2); [done|by apply Hold|done|by apply Hold].
    + intros a b Ha Hb Hab. rewrite Ht.
      destruct (Hlast b Hb) as [Hblt|[-> _]].
      * apply K3; [apply Hold; [lia|done]|by apply Hold|done].
      * apply precedes_absent. intros Hin. specialize (V n (or_intror Hin)).
        unfold n in V. lia.
Qed.

Lemma Ordered_steps d d' : Ordered d -> rtc qstep d d' -> Ordered d'.
Proof. intros Ho Hs. induction Hs; eauto using Ordered_qstep. Qed.

Lemma new_Ordered now : Ordered (new now : t).
Proof.
  split; unfold pending, noncallback; simpl.
  - intros r [Hr|Hr]; inlist.
  - intros r (q & Hq & _). done.
  - intros l1 x l2 _ (q & Hq & _). done.
  - intros a b (q & Hq & _). done.
Qed.

Lemma reachable_Ordered l t0 d : run l (new t0) = Some d -> Ordered d.
Proof.
  intros Hr. eapply Ordered_steps; [apply new_Ordered|].
  eapply run_steps; [apply new_Inv|exact Hr].
Qed.

(** [add] pushes the item on the history, enqueues it, and calls [next()]. *)
Lemma add_enqueues now q d :
  exists q1 d1,
    same_fields (if negb (truthy (id q)) then setId (JStr (genId now)) q else q) q1
    /\ queues d1 = (queues d ++ [q1])%list
    /\ queue d1 = Queue.requeue [length (queues d)]
                    (String.eqb (type q) QUEUE_CALLBACK) (queue d)
    /\ trace d1 = trace d
    /\ (add now q d).2 = next now d1.
Proof.
  eexists _, _. split_and!; [reflexivity|..|reflexivity]; try done.
  simpl. by destruct (negb _).
Qed.

End OrderFacts.

Section OrderScenario.
#[local] Existing Instance example_host.
#[local] Existing Instance example_consumer.
Import SiapDequeue SiapQueue.

Example waiting_state_run : run waiting_inputs (new 0) = Some waiting_state.
Proof. vm_compute. reflexivity. Qed.

Example callback_scenario :
  pending waiting_state = [0; 1]%nat
  /\ pending (add 12 callback_item waiting_state).2 = [2; 0; 1]%nat
  /\ (d ← run ready_inputs (add 12 callback_item waiting_state).2;
      Some (dispatches (trace d))) = Some [2; 0; 1]%nat.
Proof. split_and!; vm_compute; reflexivity. Qed.

End OrderScenario.

(** ** C8: the status report *)

Section AssocFacts.
Context {A : Type}.

Lemma assoc_assign_eq k (v : A) l : assoc k (assign k v l) = Some v.
Proof.
  induction l as [|[k' v'] l IH]; simpl; [by rewrite String.eqb_refl|].
  destruct (String.eqb k' k) eqn:E; simpl; [by rewrite String.eqb_refl|by rewrite E].
Qed.

Lemma assoc_assign_ne k k' (v : A) l : k <> k' -> assoc k (assign k' v l) = assoc k l.
Proof.
  intros Hne. induction l as [|[k0 v0] l IH]; simpl.
  - destruct (String.eqb k' k) eqn:E; [|done]. apply String.eqb_eq in E. congruence.
  - destruct (String.eqb k0 k') eqn:E; simpl.
    + apply String.eqb_eq in E. subst k0.
      destruct (String.eqb k' k) eqn:E'; [|done]. apply String.eqb_eq in E'. congruence.
    + destruct (String.eqb k0 k); [done|apply IH].
Qed.


End AssocFacts.

Section StatusClaim.
Context `{Host} {C : Type} `{Consumer C}.
Import SiapDequeue SiapQueue.
Local Abbreviation t := (SiapDequeue.t C).






End StatusClaim.

Section StatusScenario.
#[local] Existing Instance example_host.
#[local] Existing Instance example_consumer.
Import SiapDequeue SiapQueue.


Example status_report_ex :
  (d ← run (slow_inputs ++ [Tick 300;
              Settle 400 (PProcess 0%nat) (Rejected (JErr 3 false "Error: gone"))]) (new 0);
   Some (getStatus d))
  = Some [("time", SVal (JStr "0")); ("total", SVal (JNum 1)); ("queue", SVal (JNum 0));
          ("last", SLog (mkLog (JStr "b") "spp" None (Some "10") "error"
                           (Some (JStr "Error: gone"))))].
Proof. vm_compute. reflexivity. Qed.


End StatusScenario.

(** ** C5: the identifier assigned by add *)

Section IdFacts.

Lemma hex_digit_lower x : SHA1.is_lower_hex (SHA1.hex_digit x) = true.
Proof.
  unfold SHA1.hex_digit. destruct (Z.to_nat (x mod 16)) as [|n]; [reflexivity|].
  do 15 (destruct n as [|n]; [reflexivity|]). reflexivity.
Qed.

Lemma hex32_format w :
  String.length (SHA1.hex32 w) = 8%nat
  /\ Forall (fun c => SHA1.is_lower_hex c = true) (list_ascii_of_string (SHA1.hex32 w)).
Proof.
  split; [reflexivity|]. unfold SHA1.hex32. simpl.
  repeat (constructor; [apply hex_digit_lower|]). constructor.
Qed.

(** The first eight characters of the digest are the first word of the
    hash. *)
Lemma sha1_hex_prefix msg :
  substring 0 8 (SHA1.sha1_hex msg) = SHA1.hex32 (SHA1.h0 (SHA1.hash msg)).
Proof.
  unfold SHA1.sha1_hex, SHA1.digest_hex. generalize (SHA1.hash msg). intros s.
  unfold SHA1.hex32 at 1. reflexivity.
Qed.

End IdFacts.

Section IdClaim.
Context `{Host} {C : Type} `{Consumer C}.
Import SiapDequeue SiapQueue.
Local Abbreviation t := (SiapDequeue.t C).

Lemma genId_format now :
  String.length (genId now) = 8%nat
  /\ Forall (fun c => SHA1.is_lower_hex c = true) (list_ascii_of_string (genId now)).
Proof. unfold genId. rewrite sha1_hex_prefix. apply hex32_format. Qed.

(** C5, amended.  [add(item)] pushes the item on the history and returns
    [{status: 'queued', id}] with the id of that item.  When the item has no
    id, its id is the first eight characters of the SHA-1 digest, in
    hexadecimal, of the decimal timestamp: eight characters among the
    digits and the letters a to f; the id is a function of the timestamp, so
    two items added in the same millisecond receive the same id.  When the
    item has an id, it keeps it.  No later input changes the id of the
    item. *)
Theorem add_assigns_id (now : Z) (q : SiapQueue.t) (d : t) :
  let r := length (queues d) in
  exists q', queues (add now q d).2 !! r = Some q'
    /\ (add now q d).1 = mkAck "queued" (id q')
    /\ (truthy (id q) = false ->
        id q' = JStr (genId now)
        /\ genId now = substring 0 8 (SHA1.sha1_hex (pretty now))
        /\ String.length (genId now) = 8%nat
        /\ Forall (fun c => SHA1.is_lower_hex c = true) (list_ascii_of_string (genId now)))
    /\ (truthy (id q) = true -> id q' = id q)
    /\ (forall l d', Inv (add now q d).2 -> run l (add now q d).2 = Some d' ->
          exists q'', queues d' !! r = Some q'' /\ id q'' = id q').
Proof.
  intros r.
  destruct (add_enqueues now q d) as (q1 & d1 & Hf & Hq1 & _ & _ & Hadd).
  assert (Hr1 : queues d1 !! r = Some q1).
  { rewrite Hq1, lookup_app_r by done. unfold r. by rewrite Nat.sub_diag. }
  destruct (steps_frame d1 (next now d1) (next_steps now d1) r q1 Hr1) as (q' & Hq' & Hs).
  rewrite <- Hadd in Hq'.
  assert (Hid : id q' = id (if negb (truthy (id q)) then setId (JStr (genId now)) q else q)).
  { destruct Hf as (_ & E1 & _), Hs as (_ & E2 & _). congruence. }
  exists q'. split_and!.
  - done.
  - unfold add. cbn [fst]. fold r.
    change (queues (next now _) !! r) with (queues (add now q d).2 !! r).
    by rewrite Hq'.
  - intros Hno. rewrite Hid, Hno. split_and!; [done|done|apply genId_format..].
  - intros Hyes. by rewrite Hid, Hyes.
  - intros l d' Hi Hrun.
    destruct (steps_frame _ _ (run_steps l _ d' Hi Hrun) r q' Hq') as (q'' & Hq'' & Hs').
    exists q''. split; [done|]. by destruct Hs' as (_ & <- & _).
Qed.

End IdClaim.

Section IdScenario.
#[local] Existing Instance example_host.
#[local] Existing Instance example_consumer.
Import SiapDequeue SiapQueue.

(** C5 as stated fails: two items added during the same millisecond receive
    the same id. *)
Lemma same_millisecond_same_id :
  let q := createSppQueue (JObj 0 []) JNull in
  let first := add 1730000000000 q (new 0) in
  let second := add 1730000000000 q first.2 in
  first.1 = mkAck "queued" (JStr "548ed985")
  /\ second.1 = mkAck "queued" (JStr "548ed985")
  /\ (id <$> queues second.2) = [JStr "548ed985"; JStr "548ed985"].
Proof. vm_compute. repeat split. Qed.

Lemma add_assigns_id_witness :
  exists q', queues (add 1730000000000 (item_of (JObj 0 [])) (new 0)).2 !! 0%nat = Some q'
    /\ id q' = JStr (genId 1730000000000)
    /\ String.length (genId 1730000000000) = 8%nat.
Proof.
  destruct (add_assigns_id 1730000000000 (item_of (JObj 0 [])) (new 0))
    as (q' & Hq' & _ & Hid & _).
  exists q'. destruct (Hid eq_refl) as (E & _ & Hlen & _). by split_and!.
Defined.

End IdScenario.

(** ** C10: the singleton *)

Section SingletonClaim.
Context `{Host} {C : Type} `{Consumer C}.

(** C10: as long as [createDequeuer] has not been called, every call of
    [addQueue] throws and the module has no dispatcher, hence no item
    enqueued or recorded; once the singleton exists, [addQueue(item)] returns
    the acknowledgement of its [add(item)], and [createDequeuer] returns the
    same singleton. *)
Theorem addQueue_needs_dequeuer (calls : list Call) :
  Forall (fun c => exists now q, c = CallAddQueue now q) calls ->
  process calls (None : @dequeue_var C) = (None, map (fun _ => Throw no_dequeuer) calls)
  /\ (forall now q (d : SiapDequeue.t C),
        addQueue now q (Some d)
        = Normal ((SiapDequeue.add now q d).1, Some (SiapDequeue.add now q d).2))
  /\ (forall now,
        createDequeuer now (None : @dequeue_var C)
        = (SiapDequeue.new now, Some (SiapDequeue.new now)))
  /\ (forall now (d : SiapDequeue.t C), createDequeuer now (Some d) = (d, Some d)).
Proof.
  intros Hc. split_and!; try done.
  induction Hc as [|c calls (now & q & ->) _ IH]; [done|].
  simpl. by rewrite IH.
Qed.

End SingletonClaim.

Section SingletonScenario.
#[local] Existing Instance example_host.
#[local] Existing Instance example_consumer.

Lemma addQueue_needs_dequeuer_witness :
  let q := SiapQueue.createSppQueue (JObj 0 []) JNull in
  process [CallAddQueue 1 q; CallAddQueue 2 q] (None : @dequeue_var (bool * bool))
  = (None, [Throw no_dequeuer; Throw no_dequeuer]).
Proof.
  intros q. refine (proj1 (addQueue_needs_dequeuer [CallAddQueue 1 q; CallAddQueue 2 q] _)).
  repeat constructor; eexists _, _; reflexivity.
Defined.

Example addQueue_after_createDequeuer :
  let q := example_item "spp" "a" (JObj 0 []) false false false in
  (process [CallAddQueue 1 q; CallCreateDequeuer 2; CallAddQueue 3 q]
     (None : @dequeue_var (bool * bool))).2
  = [Throw no_dequeuer; Normal (mkAck "queued" (JStr "a"))].
Proof. vm_compute. reflexivity. Qed.

End SingletonScenario.

(** ** The field resolver: errors and edge cases *)

Section SplitFacts.
Import JSString.

(** A string that contains the separator has at least two pieces. *)
Lemma split_two c s i : indexOf c s = Some i -> exists a b rest, split c s = a :: b :: rest.
Proof.
  revert i. induction s as [|x s IH]; intros i; simpl; [done|].
  destruct (Ascii.eqb x c).
  - intros _. destruct (split c s) as [|b rest] eqn:Hs; [by apply split_nonempty in Hs|].
    by exists EmptyString, b, rest.
  - destruct (indexOf c s) as [j|]; [|done]. intros _.
    destruct (IH j eq_refl) as (a & b & rest & ->). by exists (String x a), b, rest.
Qed.

Lemma split_none c s : indexOf c s = None -> split c s = [s].
Proof.
  induction s as [|x s IH]; simpl; [done|].
  destruct (Ascii.eqb x c); [done|].
  destruct (indexOf c s); [done|]. intros _. by rewrite IH.
Qed.

(** The first separator of a string ends its first piece. *)
Lemma split_app_sep c a b :
  indexOf c a = None -> split c (a +:+ String c b) = a :: split c b.
Proof.
  induction a as [|x a IH]; simpl.
  - intros _. by rewrite Ascii.eqb_refl.
  - destruct (Ascii.eqb x c); [done|].
    destruct (indexOf c a); [done|]. intros _. by rewrite IH.
Qed.

Lemma indexOf_app_sep c a b :
  indexOf c a = None -> indexOf c (a +:+ String c b) = Some (String.length a).
Proof.
  induction a as [|x a IH]; simpl.
  - intros _. by rewrite Ascii.eqb_refl.
  - destruct (Ascii.eqb x c); [done|].
    destruct (indexOf c a); [done|]. intros _. by rewrite IH.
Qed.

(** [split] undoes [join] on pieces that do not contain the separator. *)
Lemma split_join c parts :
  parts <> [] -> (forall p, p ∈ parts -> indexOf c p = None) ->
  split c (join (String c EmptyString) parts) = parts.
Proof.
  induction parts as [|x parts IH]; [done|]. intros _ Hp.
  destruct parts as [|y parts].
  - simpl. apply split_none, Hp. left.
  - change (join (String c EmptyString) (x :: y :: parts))
      with (x +:+ String c (join (String c EmptyString) (y :: parts))).
    rewrite split_app_sep by (apply Hp; left).
    rewrite IH; [done|done|]. intros p Hin. apply Hp. by right.
Qed.

End SplitFacts.

Section ResolverEdge.
Import SiapQueue.

Lemma format_values_total q values i template :
  nullish (data q) = false ->
  (forall n, n ∈ values -> JSString.indexOf ":" (JSString.trim n) = None) ->
  exists s, format (getDataValue_fuel 1 q) i values template = Normal s.
Proof. intros Hd Hv. rewrite format_resolve by done. eauto. Qed.

(** With a payload, the resolver returns for every key. *)
Lemma getDataValue_with_data q key :
  nullish (data q) = false -> exists v, getDataValue key q = Normal v.
Proof.
  intros Hd. destruct key as [| | | |k| | |]; try (by eexists).
  destruct (get (data q) k) eqn:Hg;
    try (eexists; apply getDataValue_literal; [done|by rewrite Hg]).
  destruct (JSString.indexOf ":" k) as [[|i]|] eqn:Hi;
    try (unfold getDataValue; simpl; rewrite Hd, Hg, Hi; by eexists).
  unfold getDataValue. rewrite (getDataValue_fuel_translated 1 q k i) by done.
  destruct (split_two _ _ _ Hi) as (a & spec & rest & Hx).
  unfold getTranslatedValue_with. rewrite Hx. cbn [lookup list_lookup default from_option Datatypes.id].
  assert (Hspec : JSString.split ":" k !! 1%nat = Some spec) by (by rewrite Hx).
  destruct (JSString.split "|" spec) as [|hd values] eqn:Hv;
    [by apply split_nonempty in Hv|].
  assert (Htok : forall n, n ∈ values -> JSString.indexOf ":" (JSString.trim n) = None).
  { intros n Hn. eapply spec_tokens_no_colon; [exact Hspec|]. rewrite Hv. by right. }
  destruct (String.eqb a "CONCAT").
  - rewrite forEach_resolve by done. eexists. reflexivity.
  - destruct (String.eqb a "FORMAT"); [|by eexists].
    rewrite format_resolve by done. eexists. reflexivity.
Qed.

(** X1: [getDataValue] throws exactly when the key is a string and the item has
    no payload ([data] is null or undefined): the access [this.data[key]]
    fails.  With a payload, a key that the embedding covers is resolved
    without exception, whatever its form: the key is made of ASCII
    characters and its references read properties of the payload itself (or
    names that are not inherited) whose values are simple. *)
Theorem getDataValue_throws_iff (q : SiapQueue.t) (key : jsval) :
  (nullish (data q) = false -> forall k, key = JStr k -> covered q k = true) ->
  ((exists e, getDataValue key q = Throw e)
   <-> nullish (data q) = true /\ exists k, key = JStr k).
Proof.
  intros _. split.
  - intros [e He]. destruct (nullish (data q)) eqn:Hd.
    + split; [done|]. destruct key; try done. by eexists.
    + destruct (getDataValue_with_data q key Hd) as [v Hv]. congruence.
  - intros [Hd [k ->]]. exists "TypeError". unfold getDataValue. simpl. by rewrite Hd.
Qed.

Lemma getDataValue_throws_iff_witness :
  ~ exists e, getDataValue (JStr "CONCAT:,|a|b") (item_of (JObj 0 [("a", JStr "X")]))
              = Throw e.
Proof.
  intros He.
  apply (getDataValue_throws_iff (item_of (JObj 0 [("a", JStr "X")]))
           (JStr "CONCAT:,|a|b")) in He.
  - destruct He as [Hn _]. discriminate Hn.
  - intros _ k [= <-]. reflexivity.
Defined.

(** X2: The type of a key that is neither CONCAT nor FORMAT is not an error:
    a key that is not in the payload and has a colon after its first
    character is returned as it is. *)
Theorem getDataValue_unknown_type (q : SiapQueue.t) (key vtype : string) (i : nat) :
  nullish (data q) = false ->
  get (data q) key = JUndefined ->
  JSString.indexOf ":" key = Some (S i) ->
  JSString.split ":" key !! 0%nat = Some vtype ->
  vtype <> "CONCAT" -> vtype <> "FORMAT" ->
  getDataValue (JStr key) q = Normal (JStr key).
Proof.
  intros Hd Hk Hi Hx Hc Hf. unfold getDataValue.
  rewrite (getDataValue_fuel_translated 1 q key i) by done.
  unfold getTranslatedValue_with. rewrite Hx. cbn [default from_option Datatypes.id].
  apply String.eqb_neq in Hc, Hf. by rewrite Hc, Hf.
Qed.

Lemma getDataValue_unknown_type_witness :
  getDataValue (JStr "http://host/") (item_of (JObj 0 [])) = Normal (JStr "http://host/").
Proof.
  apply (getDataValue_unknown_type (item_of (JObj 0 [])) "http://host/" "http" 3);
    try reflexivity; discriminate.
Defined.

(** What [getTranslatedValue] does with a key of type CONCAT or FORMAT
    depends on the first two pieces of the key only. *)
Lemma getTranslatedValue_with_pieces f k1 k2 vtype :
  JSString.split ":" k1 !! 0%nat = Some vtype ->
  JSString.split ":" k2 !! 0%nat = Some vtype ->
  JSString.split ":" k1 !! 1%nat = JSString.split ":" k2 !! 1%nat ->
  vtype = "CONCAT" \/ vtype = "FORMAT" ->
  getTranslatedValue_with f k1 = getTranslatedValue_with f k2.
Proof.
  intros H1 H2 H12 Hv. unfold getTranslatedValue_with.
  rewrite H1, H2, H12. cbn [default from_option Datatypes.id].
  destruct Hv as [-> | ->]; reflexivity.
Qed.

(** X3: The part of a CONCAT or FORMAT key that follows a second colon is
    ignored: [value.split(':')] is read up to its second piece. *)
Theorem text_after_second_colon_ignored (q : SiapQueue.t) (vtype spec rest : string) :
  nullish (data q) = false ->
  vtype = "CONCAT" \/ vtype = "FORMAT" ->
  JSString.indexOf ":" spec = None ->
  get (data q) (vtype +:+ ":" +:+ spec +:+ ":" +:+ rest) = JUndefined ->
  get (data q) (vtype +:+ ":" +:+ spec) = JUndefined ->
  getDataValue (JStr (vtype +:+ ":" +:+ spec +:+ ":" +:+ rest)) q
  = getDataValue (JStr (vtype +:+ ":" +:+ spec)) q.
Proof.
  intros Hd Hv Hs Hk1 Hk2.
  assert (Hvt : JSString.indexOf ":" vtype = None /\ exists n, String.length vtype = S n).
  { destruct Hv as [-> | ->]; split; try reflexivity; by eexists. }
  destruct Hvt as [Hvt [n Hn]].
  assert (Hx1 : JSString.split ":" (vtype +:+ ":" +:+ spec +:+ ":" +:+ rest)
                = vtype :: spec :: JSString.split ":" rest).
  { change (vtype +:+ ":" +:+ spec +:+ ":" +:+ rest)
      with (vtype +:+ String ":" (spec +:+ String ":" rest)).
    by rewrite !split_app_sep. }
  assert (Hx2 : JSString.split ":" (vtype +:+ ":" +:+ spec) = [vtype; spec]).
  { change (vtype +:+ ":" +:+ spec) with (vtype +:+ String ":" spec).
    rewrite split_app_sep by done. by rewrite split_none. }
  assert (Hi1 : JSString.indexOf ":" (vtype +:+ ":" +:+ spec +:+ ":" +:+ rest) = Some (S n)).
  { change (vtype +:+ ":" +:+ spec +:+ ":" +:+ rest)
      with (vtype +:+ String ":" (spec +:+ String ":" rest)).
    by rewrite indexOf_app_sep, Hn. }
  assert (Hi2 : JSString.indexOf ":" (vtype +:+ ":" +:+ spec) = Some (S n)).
  { change (vtype +:+ ":" +:+ spec) with (vtype +:+ String ":" spec).
    by rewrite indexOf_app_sep, Hn. }
  unfold getDataValue.
  rewrite (getDataValue_fuel_translated 1 q _ n) by done.
  rewrite (getDataValue_fuel_translated 1 q (vtype +:+ ":" +:+ spec) n) by done.
  apply (getTranslatedValue_with_pieces _ _ _ vtype); [by rewrite Hx1|by rewrite Hx2| |done].
  by rewrite Hx1, Hx2.
Qed.

Lemma text_after_second_colon_ignored_witness :
  getDataValue (JStr "FORMAT:No. %1%|no:ignored") (item_of (JObj 0 [("no", JStr "7")]))
  = getDataValue (JStr "FORMAT:No. %1%|no") (item_of (JObj 0 [("no", JStr "7")])).
Proof.
  apply (text_after_second_colon_ignored (item_of (JObj 0 [("no", JStr "7")]))
           "FORMAT" "No. %1%|no" "ignored"); try reflexivity. by right.
Defined.

(** X26: CONCAT: the key resolves to the values of the references, looked
    up in the payload under their trimmed names, joined with the separator
    in the order of the references.  A value that is null or undefined (a
    reference that the payload does not have) is joined as the empty
    string; the other values are joined as their text.  The statement is
    for a key that the embedding covers: the key is made of ASCII
    characters and its references read properties of the payload itself (or
    names that are not inherited) whose values are simple. *)
Theorem concat_joins_values (q : SiapQueue.t) (key spec separator : string)
    (values : list string) :
  nullish (data q) = false ->
  covered q key = true ->
  get (data q) key = JUndefined ->
  JSString.split ":" key !! 0%nat = Some "CONCAT" ->
  JSString.split ":" key !! 1%nat = Some spec ->
  JSString.split "|" spec = separator :: values ->
  getDataValue (JStr key) q
  = Normal (JStr (JSString.join separator
                    (map (fun n => if nullish (resolve_ref q n) then EmptyString
                                   else ToString (resolve_ref q n)) values))).
Proof.
  intros Hd _ Hk H0 H1 Hv.
  rewrite (getDataValue_concat q key spec separator values) by done.
  unfold join_values. by rewrite map_map.
Qed.

Lemma concat_joins_values_witness :
  getDataValue (JStr "CONCAT:, |a| zz |b")
    (item_of (JObj 0 [("a", JStr "X"); ("b", JStr "Y")]))
  = Normal (JStr "X, , Y").
Proof.
  apply (concat_joins_values (item_of (JObj 0 [("a", JStr "X"); ("b", JStr "Y")]))
           "CONCAT:, |a| zz |b" ", |a| zz |b" ", " ["a"; " zz "; "b"]); reflexivity.
Defined.

Lemma format_values_plain i vals value :
  (forall v, v ∈ vals -> JSString.indexOf "$" (ToString v) = None) ->
  format_values i vals value = plain_values i vals value.
Proof.
  revert i value. induction vals as [|v vals IH]; intros i value Hv; [done|].
  cbn [format_values plain_values].
  rewrite replaceAll_plain by (apply Hv; left). apply IH.
  intros w Hw. apply Hv. by right.
Qed.

(** X4: FORMAT with values that have no dollar sign: the key resolves to the
    template in which, one reference after the other, every occurrence of
    the placeholder [%i%] is replaced by the text of the value of the i-th
    reference, inserted as it is.  A reference that the payload does not
    have gives the text [undefined].  The statement is for a key that the
    embedding covers: the key is made of ASCII characters and its
    references read properties of the payload itself (or names that are not
    inherited) whose values are simple. *)
Theorem format_inserts_plain_values (q : SiapQueue.t) (key spec template : string)
    (values : list string) :
  nullish (data q) = false ->
  covered q key = true ->
  get (data q) key = JUndefined ->
  JSString.split ":" key !! 0%nat = Some "FORMAT" ->
  JSString.split ":" key !! 1%nat = Some spec ->
  JSString.split "|" spec = template :: values ->
  (forall n, n ∈ values -> JSString.indexOf "$" (ToString (resolve_ref q n)) = None) ->
  getDataValue (JStr key) q
  = Normal (JStr (plain_values 0 (map (resolve_ref q) values) template)).
Proof.
  intros Hd _ Hk H0 H1 Hv Hplain.
  rewrite (getDataValue_format q key spec template values) by done.
  rewrite format_values_plain; [done|].
  intros v [n [-> Hn]]%list_elem_of_fmap. by apply Hplain.
Qed.

Lemma format_inserts_plain_values_witness :
  getDataValue (JStr "FORMAT:%1% and %2%, %1%| a |b")
    (item_of (JObj 0 [("a", JStr "%2%")]))
  = Normal (JStr "undefined and undefined, undefined").
Proof.
  apply (format_inserts_plain_values (item_of (JObj 0 [("a", JStr "%2%")]))
           "FORMAT:%1% and %2%, %1%| a |b" "%1% and %2%, %1%| a |b" "%1% and %2%, %1%"
           [" a "; "b"]); try reflexivity.
  intros n Hn. repeat (apply elem_of_cons in Hn as [->|Hn]; [reflexivity|]).
  by apply elem_of_nil in Hn.
Defined.

End ResolverEdge.

(** ** The map of field names *)

Section MapFacts.
Import SiapQueue.


Lemma walk_app o p1 p2 :
  truthy o = true ->
  walk o (p1 ++ p2) = if truthy (walk o p1) then walk (walk o p1) p2 else JNull.
Proof.
  revert o. induction p1 as [|n p1 IH]; intros o Ho; simpl; [by rewrite Ho|].
  destruct (truthy (get o n)) eqn:Hn; [by apply IH|done].
Qed.

Lemma map_ToString_JStr parts : map ToString (map JStr parts) = parts.
Proof. induction parts as [|p parts IH]; simpl; [done|]. by rewrite IH. Qed.

(** X5: [getMap] accepts a dotted name or the array of its parts: the two forms
    of the same path give the same entry. *)
Theorem getMap_dotted_name (q : SiapQueue.t) (a : nat) (parts : list string) :
  parts <> [] ->
  (forall p, p ∈ parts -> JSString.indexOf "." p = None) ->
  getMap (JStr (JSString.join "." parts)) q = getMap (JArr a (map JStr parts)) q.
Proof.
  intros Hne Hp. unfold getMap. destruct (truthy (maps q)); [|done].
  by rewrite split_join, map_ToString_JStr.
Qed.

Lemma getMap_dotted_name_witness :
  getMap (JStr "rekanan.nik") (with_maps (JObj 1 [("rekanan", JObj 2 [("nik", JStr "NIK")])])
                                 (item_of JNull))
  = getMap (JArr 5 [JStr "rekanan"; JStr "nik"])
      (with_maps (JObj 1 [("rekanan", JObj 2 [("nik", JStr "NIK")])]) (item_of JNull)).
Proof.
  apply (getMap_dotted_name _ 5 ["rekanan"; "nik"]); [discriminate|].
  intros p Hp. apply elem_of_cons in Hp as [->|Hp]; [reflexivity|].
  apply list_elem_of_singleton in Hp. subst. reflexivity.
Defined.


(** X7: Paths compose: the entry of the path [l1 ++ l2] is the entry of [l2] in
    the nested map that [l1] leads to, and null when [l1] leads nowhere. *)
Theorem getMap_path_app (q : SiapQueue.t) (a : nat) (l1 l2 : list jsval) :
  truthy (maps q) = true ->
  getMap (JArr a (l1 ++ l2)) q
  = if truthy (getMap (JArr a l1) q)
    then getMap (JArr a l2) (with_maps (getMap (JArr a l1) q) q)
    else JNull.
Proof.
  intros Hm. unfold getMap. rewrite Hm. rewrite map_app, walk_app by done.
  cbn [maps with_maps]. by destruct (truthy (walk (maps q) (map ToString l1))).
Qed.

Lemma getMap_path_app_witness :
  getMap (JArr 5 ([JStr "rekanan"] ++ [JStr "nik"]))
    (with_maps (JObj 1 [("rekanan", JObj 2 [("nik", JStr "NIK")])]) (item_of JNull))
  = JStr "NIK".
Proof.
  rewrite (getMap_path_app _ 5 [JStr "rekanan"] [JStr "nik"]); reflexivity.
Defined.

End MapFacts.

(** ** The log entry of a settled item *)

Section LogFacts.
Context `{Host}.
Import SiapQueue.

Lemma strict_eq_primitive a b : primitive b = true -> strict_eq a b = true -> a = b.
Proof.
  destruct a, b; simpl; try done; intros _ E.
  - f_equal. by apply Bool.eqb_prop.
  - f_equal. by apply Z.eqb_eq.
  - f_equal. by apply String.eqb_eq.
Qed.

Lemma done_others res q :
  time (done res q).1 = time q /\ strict_eq (result (done res q).1) res = true.
Proof.
  unfold done, setStatus, setResult.
  destruct (decide _); simpl; destruct (strict_eq _ _) eqn:E; simpl;
    auto using strict_eq_refl.
Qed.

Lemma getInfo_fields q q' : same_fields q q' -> getInfo q' = getInfo q.
Proof.
  intros (Ht & _ & _ & _ & Hc & Hi & _). unfold getInfo. by rewrite Ht, Hc, Hi.
Qed.

(** X8: After [done(res)] with a result that is not an object, the log entry
    of the item has the status done and the result [res], unless [res] is
    falsy: a result that is zero, the empty string, false, null or undefined
    is left out of the entry.  The other fields of the entry are the same
    as before. *)
Theorem getLog_after_done (raw : bool) (q : SiapQueue.t) (res : jsval) :
  primitive res = true ->
  getLog raw (done res q).1
  = mkLog (id q) (type q) (log_name (getLog raw q)) (log_time (getLog raw q))
      "done" (if truthy res then Some res else None).
Proof.
  intros Hp. pose proof (done_fields res q) as Hf.
  pose proof (done_status res q) as Hs.
  destruct (done_others res q) as [Ht Hr].
  apply strict_eq_primitive in Hr; [|done].
  unfold getLog. rewrite (getInfo_fields _ _ Hf), Hs, Ht, Hr.
  destruct Hf as (<- & <- & _). cbn [log_name log_time status_text].
  f_equal. destruct res; try done.
Qed.

End LogFacts.

Section LogScenario.
#[local] Existing Instance example_host.
Import SiapQueue.

Lemma getLog_after_done_witness :
  log_result (getLog false (done (JNum 0) (item_of JNull)).1) = None.
Proof. rewrite (getLog_after_done false (item_of JNull) (JNum 0)); reflexivity. Defined.

End LogScenario.

(** ** The dispatcher: a relation kept by every operation *)

(** A relation between states that is reflexive and transitive, and that
    the primitive updates of the dispatcher satisfy, is satisfied by the
    closures of [doQueue], by the runner, by the poll loop and by the
    handlers of the settlements.  The hypotheses follow the code: one for
    every update that a function of the dispatcher makes. *)
Section ClosureInduction.
Context `{Host} {C : Type} `{Consumer C}.
Import SiapDequeue.
Local Abbreviation t := (SiapDequeue.t C).
Implicit Types (d : t) (r : nat) (q : SiapQueue.t).

Variable R : t -> t -> Prop.
Hypothesis R_refl : forall d, R d d.
Hypothesis R_trans : forall d1 d2 d3, R d1 d2 -> R d2 d3 -> R d1 d3.
(* doit *)
Hypothesis R_start : forall now r d, R d (call r (SiapQueue.start now) d).
Hypothesis R_qstart : forall r d, R d (emit (QueueStart r) d).
Hypothesis R_process : forall r d,
  status_in d r [SiapQueue.STATUS_PROCESSING] -> R d (emit (ProcessQueue r) d).
Hypothesis R_print : forall l d, R d (print l d).
Hypothesis R_inflight : forall l d, R d (with_inflight l d).
Hypothesis R_consumer : forall c d, R d (with_consumer c d).
(* the runner *)
Hypothesis R_dispatch : forall r d, R d (emit (Dispatch r) d).
Hypothesis R_runner : forall (rq : Queue.t) d, R d (with_queue rq d).
(* success, fail and retry *)
Hypothesis R_done : forall res r d, R d (call r (SiapQueue.done res) d).
Hypothesis R_error : forall err r d, R d (call r (SiapQueue.error err) d).
Hypothesis R_last : forall r d, R d (setLastQueue r d).
Hypothesis R_qdone : forall r d, R d (emit (QueueDone r) d).
Hypothesis R_resolved : forall r res d, R d (emit (QueueDone r) (emit (Resolve r res) d)).
Hypothesis R_qerror : forall r d, R d (emit (QueueError r) d).
Hypothesis R_rejected : forall r err d, R d (emit (QueueError r) (emit (Reject r err) d)).
Hypothesis R_count : forall r q n d, queues d !! r = Some q ->
  R d (with_queues (<[r := SiapQueue.with_retryCount (Some n) q]> (queues d)) d).

Section Closures.
Context (now : Z) (next : t -> t).
Hypothesis next_R : forall d, R d (next d).

Lemma fault_R e d : R d (fault next e d).
Proof. unfold fault. eapply R_trans; [apply R_print|apply next_R]. Qed.

Lemma doit_R r d : R d (doit now next r d).
Proof.
  unfold doit. destruct (queues d !! r) as [q|] eqn:Hq; [|apply R_refl].
  destruct (decide _); [|apply next_R].
  eapply R_trans; [apply (R_start now r)|].
  eapply R_trans; [apply (R_qstart r)|].
  set (d2 := emit _ _).
  assert (Hq2 : queues d2 !! r = Some (SiapQueue.start now q).1) by (by apply call_lookup).
  destruct (consumer d2) as [c|]; [|apply fault_R].
  rewrite Hq2.
  destruct (processQueue c _) as [c'|e]; [|apply fault_R].
  eapply R_trans; [apply (R_consumer (Some c'))|].
  eapply R_trans.
  { apply (R_process r). exists (SiapQueue.start now q).1. split; [exact Hq2|].
    rewrite start_status. left. }
  eapply R_trans; [apply (R_inflight (inflight (emit (ProcessQueue r)
                            (with_consumer (Some c') d2)) ++ [PProcess r]))|].
  fold (await (PProcess r) (emit (ProcessQueue r) (with_consumer (Some c') d2))).
  set (d3 := await _ _).
  destruct (getNext d3) as [nr|]; [|apply R_refl].
  destruct (queues d3 !! nr) as [nq|]; [|apply R_refl].
  destruct (_ && _); [apply next_R|apply R_refl].
Qed.

Lemma doQueue_R r d : R d (doQueue now next r d).
Proof. unfold doQueue. destruct (consumer d); [apply doit_R|apply R_refl]. Qed.

Lemma success_R res r d : R d (success next res r d).
Proof.
  unfold success. eapply R_trans; [|apply next_R].
  eapply R_trans; [apply (R_done res r)|].
  eapply R_trans; [apply (R_last r)|].
  set (d2 := setLastQueue r _).
  destruct (queues d2 !! r) as [q|]; [|apply R_qdone].
  destruct (SiapQueue.resolve q); [apply R_resolved|apply R_qdone].
Qed.

Lemma fail_R err r d : R d (fail next err r d).
Proof.
  unfold fail. eapply R_trans; [|apply next_R].
  eapply R_trans; [apply (R_error err r)|].
  eapply R_trans; [apply (R_last r)|].
  set (d2 := setLastQueue r _).
  destruct (queues d2 !! r) as [q|]; [|apply R_qerror].
  destruct (SiapQueue.reject q); [apply R_rejected|apply R_qerror].
Qed.

Lemma retry_R err r d : R d (retry_ now next err r d).
Proof.
  unfold retry_. destruct (queues d !! r) as [q|] eqn:Hq; [|apply R_refl].
  set (n := (default 0 (SiapQueue.retryCount q) + 1)%nat).
  eapply R_trans; [apply (R_count r q n d Hq)|].
  destruct (_ && _); [|apply fail_R].
  eapply R_trans; [apply R_print|].
  destruct (SiapQueue.onretry _); [apply R_inflight|apply doit_R].
Qed.

End Closures.

Lemma next_fuel_R f now d : R d (next_fuel f now d).
Proof.
  revert d. induction f as [|f IH]; intros d; [apply R_refl|].
  cbn [next_fuel]. unfold Queue.next.
  destruct (Queue.active (queue d)); [apply R_refl|].
  destruct (negb (canProcess d)); [apply R_refl|].
  destruct (Queue.queues (queue d)) as [|r rest]; [apply R_refl|].
  eapply R_trans; [apply (R_runner (Queue.mkRunner rest true))|].
  eapply R_trans; [apply (R_dispatch r)|].
  eapply R_trans; [apply (doQueue_R now (next_fuel f now) IH r)|].
  apply R_runner.
Qed.

Lemma next_R now d : R d (next now d).
Proof. apply next_fuel_R. Qed.

(** The operations that call the runner, for a relation that the runner
    satisfies. *)
Hypothesis R_next : forall now d, R d (next now d).
Hypothesis R_timeout : forall r d,
  R d (call r (SiapQueue.setStatus SiapQueue.STATUS_TIMED_OUT) d).
Hypothesis R_polling : forall b d, R d (with_polling b d).
Hypothesis R_info : forall i d, R d (with_info i d).
Hypothesis R_skip : forall r d,
  R d (call r (SiapQueue.setStatus SiapQueue.STATUS_SKIPPED) d).

Lemma settle_R now p s d : R d (settle now p s d).
Proof.
  destruct p as [r|r|r], s as [v|err]; simpl;
    auto using success_R, retry_R, doit_R, fail_R.
Qed.

Lemma poll_R now d : R d (poll now d).
Proof.
  unfold poll. destruct (list_find _ _) as [[r q]|].
  - destruct (SiapQueue.time q); [|apply R_polling].
    destruct (_ && _); [|apply R_refl].
    eapply R_trans; [apply R_timeout|].
    destruct (SiapQueue.ontimeout q); [apply R_inflight|apply R_next].
  - destruct (queues d); [apply R_refl|apply R_next].
Qed.

Lemma setConsumer_R now c d : R d (setConsumer now c d).
Proof.
  unfold setConsumer. destruct c as [c|]; [|apply R_consumer].
  eapply R_trans; [apply (R_consumer (Some c))|].
  eapply R_trans; [apply (R_polling true)|apply poll_R].
Qed.

(** Every input but a call of [add]. *)
Lemma step_R i d d' :
  (forall now q, i <> Add now q) -> step i d = Some d' -> R d d'.
Proof.
  intros Hi. destruct i as [now q|now c|inf|now|now p s|r|c]; simpl.
  - by destruct (Hi now q).
  - intros [= <-]. apply setConsumer_R.
  - intros [= <-]. apply R_info.
  - destruct (polling d); [|done]. intros [= <-]. apply poll_R.
  - destruct (decide _); [|done]. intros [= <-].
    eapply R_trans; [apply R_inflight|apply settle_R].
  - destruct (queues d !! r) as [q|]; [|done].
    destruct (decide _); [|done]. intros [= <-]. apply R_skip.
  - destruct (consumer d); [|done]. intros [= <-]. apply R_consumer.
Qed.

End ClosureInduction.

(** ** The dispatcher: the history *)

Section HistoryFacts.
Context `{Host} {C : Type} `{Consumer C}.
Import SiapDequeue.
Local Abbreviation t := (SiapDequeue.t C).
Implicit Types (d : t) (r : nat) (q : SiapQueue.t).

(** *** The length of the history *)

Lemma same_length_refl d : same_length d d.
Proof. done. Qed.

Lemma same_length_trans d1 d2 d3 :
  same_length d1 d2 -> same_length d2 d3 -> same_length d1 d3.
Proof. unfold same_length. congruence. Qed.

Lemma same_length_call r m d : same_length d (call r m d).
Proof. apply call_length. Qed.

Lemma same_length_last r d : same_length d (setLastQueue r d).
Proof. unfold same_length. by rewrite (proj1 (setLastQueue_rest r d)). Qed.

Lemma same_length_count r q n d :
  queues d !! r = Some q ->
  same_length d (with_queues (<[r := SiapQueue.with_retryCount (Some n) q]> (queues d)) d).
Proof. intros _. unfold same_length. simpl. apply length_insert. Qed.

Lemma next_same_length now d : same_length d (next now d).
Proof.
  apply (next_R same_length);
    try exact same_length_refl; try exact same_length_trans;
    try (intros; apply same_length_call); intros; by unfold same_length.
Qed.

(** Only [add] changes the number of items. *)
Lemma step_same_length i d d' :
  (forall now q, i <> Add now q) -> step i d = Some d' -> same_length d d'.
Proof.
  apply (step_R same_length);
    try exact same_length_refl; try exact same_length_trans;
    try exact same_length_count; try exact same_length_last;
    try exact next_same_length;
    try (intros; apply same_length_call); intros; by unfold same_length.
Qed.

Lemma add_length now q d : length (queues (add now q d).2) = S (length (queues d)).
Proof.
  unfold add. cbn [snd]. rewrite next_same_length. simpl. rewrite length_app. simpl. lia.
Qed.

(** *** The runner starts items, and does nothing else to an item *)

Lemma starts_only_refl d : starts_only d d.
Proof. intros r q Hq. exists q. split_and!; [done|reflexivity|by left]. Qed.

Lemma starts_only_trans d1 d2 d3 :
  starts_only d1 d2 -> starts_only d2 d3 -> starts_only d1 d3.
Proof.
  intros H12 H23 r q Hq. destruct (H12 r q Hq) as (q2 & Hq2 & Hf2 & Hs2).
  destruct (H23 r q2 Hq2) as (q3 & Hq3 & Hf3 & Hs3). exists q3.
  split_and!; [done|by etrans|]. destruct Hs2, Hs3; [left|right|right|right]; congruence.
Qed.

Lemma starts_only_same d d' : queues d' = queues d -> starts_only d d'.
Proof. intros E r q Hq. exists q. rewrite E. split_and!; [done|reflexivity|by left]. Qed.

Lemma starts_only_start now r d : starts_only d (call r (SiapQueue.start now) d).
Proof.
  intros r0 q0 Hq0. destruct (decide (r = r0)) as [->|Hne].
  - exists (SiapQueue.start now q0).1. split_and!.
    + by apply call_lookup.
    + apply start_fields.
    + right. apply start_status.
  - exists q0. rewrite call_lookup_ne by done. split_and!; [done|reflexivity|by left].
Qed.

Lemma next_starts_only now d : starts_only d (next now d).
Proof.
  apply (next_R starts_only);
    try exact starts_only_refl; try exact starts_only_trans;
    try exact starts_only_start; intros; by apply starts_only_same.
Qed.

(** *** Only the poll loop makes an item TIMED_OUT *)

Lemma no_new_timeout_refl d : no_new_timeout d d.
Proof. intros r q Hq Hs. exists q. split_and!; [done|reflexivity|done]. Qed.

Lemma no_new_timeout_trans d1 d2 d3 :
  no_new_timeout d1 d2 -> no_new_timeout d2 d3 -> no_new_timeout d1 d3.
Proof.
  intros H12 H23 r q3 Hq3 Hs3. destruct (H23 r q3 Hq3 Hs3) as (q2 & Hq2 & Hf2 & Hs2).
  destruct (H12 r q2 Hq2 Hs2) as (q1 & Hq1 & Hf1 & Hs1). exists q1.
  split_and!; [done|by etrans|done].
Qed.

Lemma no_new_timeout_same d d' : queues d' = queues d -> no_new_timeout d d'.
Proof. intros E r q Hq Hs. exists q. rewrite <- E. split_and!; [done|reflexivity|done]. Qed.

Lemma no_new_timeout_insert r q q' d d' :
  queues d !! r = Some q -> queues d' = <[r := q']> (queues d) -> same_fields q q' ->
  (SiapQueue.status q' = SiapQueue.STATUS_TIMED_OUT ->
   SiapQueue.status q = SiapQueue.STATUS_TIMED_OUT) ->
  no_new_timeout d d'.
Proof.
  intros Hq E Hf Hst r0 q0 Hq0 Hs0. rewrite E in Hq0.
  destruct (decide (r = r0)) as [->|Hne].
  - rewrite list_lookup_insert_eq in Hq0 by (by eapply lookup_lt_Some).
    injection Hq0 as <-. exists q. auto.
  - rewrite list_lookup_insert_ne in Hq0 by done. exists q0.
    split_and!; [done|reflexivity|done].
Qed.

Lemma no_new_timeout_call r m d :
  (forall q, same_fields q (m q).1
             /\ (SiapQueue.status (m q).1 = SiapQueue.STATUS_TIMED_OUT ->
                 SiapQueue.status q = SiapQueue.STATUS_TIMED_OUT)) ->
  no_new_timeout d (call r m d).
Proof.
  intros Hm. destruct (queues d !! r) as [q|] eqn:Hq.
  - destruct (Hm q) as [Hf Hs].
    eapply no_new_timeout_insert; [exact Hq|by apply call_queues|done|done].
  - unfold call. rewrite Hq. apply no_new_timeout_refl.
Qed.

Lemma no_new_timeout_start now r d : no_new_timeout d (call r (SiapQueue.start now) d).
Proof.
  apply no_new_timeout_call. intros q. split; [apply start_fields|].
  by rewrite start_status.
Qed.

Lemma no_new_timeout_done res r d : no_new_timeout d (call r (SiapQueue.done res) d).
Proof.
  apply no_new_timeout_call. intros q. split; [apply done_fields|].
  by rewrite done_status.
Qed.

Lemma no_new_timeout_error err r d : no_new_timeout d (call r (SiapQueue.error err) d).
Proof.
  apply no_new_timeout_call. intros q. split; [apply error_fields|].
  by rewrite error_status.
Qed.

Lemma no_new_timeout_skip r d :
  no_new_timeout d (call r (SiapQueue.setStatus SiapQueue.STATUS_SKIPPED) d).
Proof.
  apply no_new_timeout_call. intros q. split; [apply setStatus_fields|].
  by rewrite setStatus_status.
Qed.

Lemma no_new_timeout_count r q n d :
  queues d !! r = Some q ->
  no_new_timeout d
    (with_queues (<[r := SiapQueue.with_retryCount (Some n) q]> (queues d)) d).
Proof.
  intros Hq. eapply no_new_timeout_insert; [exact Hq|done| |done].
  unfold same_fields. simpl. tauto.
Qed.

Lemma no_new_timeout_last r d : no_new_timeout d (setLastQueue r d).
Proof. apply no_new_timeout_same. apply setLastQueue_rest. Qed.

Lemma next_no_new_timeout now d : no_new_timeout d (next now d).
Proof.
  apply (next_R no_new_timeout);
    try exact no_new_timeout_refl; try exact no_new_timeout_trans;
    try exact no_new_timeout_start; intros; by apply no_new_timeout_same.
Qed.

Lemma settle_no_new_timeout now p s d : no_new_timeout d (settle now p s d).
Proof.
  apply (settle_R no_new_timeout);
    try exact no_new_timeout_refl; try exact no_new_timeout_trans;
    try exact no_new_timeout_start; try exact no_new_timeout_done;
    try exact no_new_timeout_error; try exact no_new_timeout_count;
    try exact no_new_timeout_last; try exact next_no_new_timeout;
    intros; by apply no_new_timeout_same.
Qed.

End HistoryFacts.

(** ** The dispatcher: submission, logs and timeouts *)

Section SubmissionFacts.
Context `{Host} {C : Type} `{Consumer C}.
Import SiapDequeue.
Local Abbreviation t := (SiapDequeue.t C).
Implicit Types (d : t) (r : nat) (q : SiapQueue.t).

Lemma run_frame l d d' : Inv d -> run l d = Some d' -> frame d d'.
Proof. intros Hi Hr. eapply steps_frame, run_steps; done. Qed.

(** The item pushed by [add] is in the history after the call, NEW or
    PROCESSING. *)
Lemma add_item now q d :
  exists q', queues (add now q d).2 !! length (queues d) = Some q'
    /\ same_fields (stamped now q) q'
    /\ (SiapQueue.status q' = SiapQueue.status q
        \/ SiapQueue.status q' = SiapQueue.STATUS_PROCESSING).
Proof.
  unfold add. cbn [snd]. fold (stamped now q).
  set (d2 := with_queue _ _).
  assert (Hq : queues d2 !! length (queues d) = Some (stamped now q)).
  { simpl. apply list_lookup_middle. done. }
  destruct (next_starts_only now d2 _ _ Hq) as (q' & Hq' & Hf & Hs).
  exists q'. split_and!; [done|done|].
  assert (E : SiapQueue.status (stamped now q) = SiapQueue.status q).
  { unfold stamped. by destruct (negb _). }
  by rewrite <- E.
Qed.

Lemma submitted_cons_add now q (l : list (Input C)) :
  submitted (Add now q :: l) = (now, q) :: submitted l.
Proof. reflexivity. Qed.

Lemma submitted_cons_other i (l : list (Input C)) :
  (forall now q, i <> Add now q) -> submitted (i :: l) = submitted l.
Proof. intros Hi. destruct i; try done. by destruct (Hi now q). Qed.

Lemma run_submitted l d0 d :
  Inv d0 -> run l d0 = Some d ->
  length (queues d) = (length (queues d0) + length (submitted l))%nat
  /\ forall k now q, submitted l !! k = Some (now, q) ->
       exists q', queues d !! (length (queues d0) + k)%nat = Some q'
                  /\ same_fields (stamped now q) q'.
Proof.
  revert d0. induction l as [|i l IH]; intros d0 Hi0; cbn [run].
  - intros [= <-]. split; [simpl; lia|done].
  - destruct (step i d0) as [d1|] eqn:Hs; [|done]. intros Hr.
    destruct (step_ok _ _ _ Hi0 Hs) as [Hi1 _].
    destruct (IH d1 Hi1 Hr) as [Hlen Hitems].
    assert (Hcase : (exists now q, i = Add now q) \/ forall now q, i <> Add now q).
    { destruct i; try (right; intros; discriminate). left. eauto. }
    destruct Hcase as [(now & q & ->)|Hother].
    + assert (Hl1 : length (queues d1) = S (length (queues d0))).
      { simpl in Hs. destruct (decide _); [|done]. injection Hs as <-. apply add_length. }
      rewrite submitted_cons_add. split; [simpl; lia|].
      intros [|k] now' q' Hk; simpl in Hk.
      * injection Hk as <- <-.
        assert (Hq1 : exists q1, queues d1 !! length (queues d0) = Some q1
                                 /\ same_fields (stamped now q) q1).
        { simpl in Hs. destruct (decide _); [|done]. injection Hs as <-.
          destruct (add_item now q d0) as (q1 & ? & ? & _). eauto. }
        destruct Hq1 as (q1 & Hq1 & Hf1).
        destruct (run_frame _ _ _ Hi1 Hr _ _ Hq1) as (q2 & Hq2 & Hf2).
        exists q2. rewrite Nat.add_0_r. split; [done|by etrans].
      * destruct (Hitems k now' q' Hk) as (q2 & Hq2 & Hf2).
        exists q2. split; [|done]. rewrite <- Hq2. f_equal. lia.
    + rewrite (submitted_cons_other _ _ Hother).
      pose proof (step_same_length _ _ _ Hother Hs) as Hl1. unfold same_length in Hl1.
      rewrite <- Hl1. done.
Qed.

(** X9: Every call of [add] pushes one item on the history and nothing else
    changes the number of items, so [getLogs] has one entry for every call of
    [add] made since the dispatcher was created, in the order of the calls;
    the entry of a call has the type of the submitted item and its id, or
    the generated id when the item had none. *)
Theorem logs_in_submission_order (l : list (Input C)) (t0 : Z) (d : t) (raw : bool) :
  run l (new t0) = Some d ->
  length (getLogs raw d) = length (submitted l)
  /\ forall k now q, submitted l !! k = Some (now, q) ->
       exists lg, getLogs raw d !! k = Some lg
         /\ SiapQueue.log_type lg = SiapQueue.type q
         /\ SiapQueue.log_id lg
            = (if truthy (SiapQueue.id q) then SiapQueue.id q else JStr (genId now)).
Proof.
  intros Hr. destruct (run_submitted l (new t0) d (new_Inv t0) Hr) as [Hlen Hitems].
  unfold getLogs. rewrite length_map. split; [exact Hlen|].
  intros k now q Hk. destruct (Hitems k now q Hk) as (q' & Hq' & Hf).
  exists (SiapQueue.getLog raw q'). rewrite list_lookup_fmap. simpl in Hq'. rewrite Hq'.
  split; [done|]. destruct Hf as (Ht & Hid & _). unfold SiapQueue.getLog. simpl.
  rewrite <- Ht, <- Hid. unfold stamped. by destruct (truthy (SiapQueue.id q)).
Qed.

(** *** Without a consumer *)

Lemma next_not_ready now d : canProcess d = false -> next now d = d.
Proof.
  intros Hc. unfold next. cbn [next_fuel]. unfold Queue.next.
  destruct (Queue.active (queue d)); [done|]. by rewrite Hc.
Qed.

Lemma new_Unattended now : Unattended (new now : t).
Proof. by split. Qed.

Lemma step_Unattended i d d' :
  attaches i = false -> Unattended d -> step i d = Some d' -> Unattended d'.
Proof.
  intros Hi [U1 U2 U3 U4 U5 U6].
  destruct i as [now q|now [c|]|inf|now|now p s|r|c]; simpl in *; try done.
  - destruct (decide (SiapQueue.status q = SiapQueue.STATUS_NEW)) as [Hs|]; [|done].
    intros [= <-]. unfold add. cbn [snd]. fold (stamped now q).
    rewrite next_not_ready by (unfold canProcess; simpl; by rewrite U1).
    split; simpl; try done.
    + unfold pending in *. simpl. rewrite length_app. simpl.
      rewrite Nat.add_1_r, seq_S. simpl.
      unfold Queue.requeue. destruct (String.eqb _ _); simpl.
      * rewrite U5. by rewrite Permutation_cons_append.
      * by rewrite U5.
    + apply Forall_app. split; [done|]. apply Forall_singleton.
      assert (E : SiapQueue.status (stamped now q) = SiapQueue.status q).
      { unfold stamped. by destruct (negb _). }
      rewrite E, Hs. left.
  - intros [= <-]. by split.
  - intros [= <-]. by split.
  - by rewrite U2.
  - rewrite U4. destruct (decide _) as [Hin|]; [|done]. by apply elem_of_nil in Hin.
  - destruct (queues d !! r) as [q|] eqn:Hq; [|done].
    destruct (decide _); [|done]. intros [= <-].
    pose proof (call_rest r (SiapQueue.setStatus SiapQueue.STATUS_SKIPPED) d)
      as (Hqu & Hin & Htr & Hco & _ & _ & Hpo & _).
    split; rewrite ?Hco, ?Hpo, ?Htr, ?Hin; try done.
    + unfold pending. rewrite Hqu. by rewrite call_length.
    + rewrite (call_queues _ _ _ _ Hq). apply Forall_insert; [done|].
      rewrite setStatus_status. right. left.
  - by rewrite U1.
Qed.

Lemma run_Unattended l d d' :
  Forall (fun i => attaches i = false) l -> Unattended d -> run l d = Some d' ->
  Unattended d'.
Proof.
  revert d. induction l as [|i l IH]; intros d Hl Hu; simpl; [by intros [= <-]|].
  destruct (step i d) as [d1|] eqn:Hs; [|done].
  apply Forall_cons in Hl as [Hi Hl]. apply IH; [done|].
  by eapply step_Unattended.
Qed.

(** X10: As long as no consumer has been attached, nothing is dispatched: no
    event is emitted, no promise is awaited, and every submitted item is in
    the pending list, with the status NEW or SKIPPED. *)
Theorem nothing_dispatched_without_consumer (l : list (Input C)) (t0 : Z) (d : t) :
  run l (new t0) = Some d ->
  Forall (fun i => attaches i = false) l ->
  trace d = [] /\ inflight d = []
  /\ pending d ≡ₚ seq 0 (length (queues d))
  /\ Forall (fun q => SiapQueue.status q ∈
               [SiapQueue.STATUS_NEW; SiapQueue.STATUS_SKIPPED]) (queues d).
Proof.
  intros Hr Hl. destruct (run_Unattended l _ _ Hl (new_Unattended t0) Hr). done.
Qed.

(** *** A timeout that is switched off *)

Lemma timeout_off_effective d q :
  timeout_off q -> gt (effective_timeout d q) (JNum 0) = false.
Proof.
  intros (Hd & Hu & Hg). unfold effective_timeout. rewrite Hd.
  destruct (get (SiapQueue.data q) "timeout"); done.
Qed.

Lemma timeout_off_fields q q' : same_fields q q' -> timeout_off q' -> timeout_off q.
Proof. intros (_ & _ & Hd & _). unfold timeout_off. by rewrite Hd. Qed.

Lemma no_new_timeout_off d d' :
  no_new_timeout d d' ->
  (forall r q, queues d !! r = Some q -> timeout_off q ->
     SiapQueue.status q <> SiapQueue.STATUS_TIMED_OUT) ->
  forall r q, queues d' !! r = Some q -> timeout_off q ->
    SiapQueue.status q <> SiapQueue.STATUS_TIMED_OUT.
Proof.
  intros Hn Hd r q' Hq' Hoff Hs. destruct (Hn r q' Hq' Hs) as (q & Hq & Hf & Hst).
  apply (Hd r q Hq); [by eapply timeout_off_fields|done].
Qed.

Lemma poll_timeout_off now d :
  (forall r q, queues d !! r = Some q -> timeout_off q ->
     SiapQueue.status q <> SiapQueue.STATUS_TIMED_OUT) ->
  forall r q, queues (poll now d) !! r = Some q -> timeout_off q ->
    SiapQueue.status q <> SiapQueue.STATUS_TIMED_OUT.
Proof.
  intros Hd. unfold poll. destruct (list_find _ _) as [[r0 q0]|] eqn:Hfind.
  - destruct (SiapQueue.time q0) as [started|]; [|done]. cbv zeta.
    destruct (gt (effective_timeout d q0) (JNum 0)) eqn:Hg; [|done].
    destruct (gt (JNum (now - started)) _); [|done]. cbn [andb].
    destruct (find_processing d r0 q0 Hfind) as [Hq0 Hs0].
    set (d1 := call r0 (SiapQueue.setStatus SiapQueue.STATUS_TIMED_OUT) d).
    assert (H1 : forall r q, queues d1 !! r = Some q -> timeout_off q ->
                   SiapQueue.status q <> SiapQueue.STATUS_TIMED_OUT).
    { intros r q Hq Hoff. destruct (decide (r0 = r)) as [->|Hne].
      - unfold d1 in Hq. rewrite (call_lookup _ _ _ _ Hq0) in Hq. injection Hq as <-.
        pose proof (timeout_off_fields _ _ (setStatus_fields _ q0) Hoff) as Hoff0.
        rewrite (timeout_off_effective d q0 Hoff0) in Hg. done.
      - unfold d1 in Hq. rewrite call_lookup_ne in Hq by done. by apply (Hd r). }
    destruct (SiapQueue.ontimeout q0); [exact H1|].
    apply (no_new_timeout_off d1 _ (next_no_new_timeout now d1) H1).
  - assert (Hcase : match queues d with [] => d | _ :: _ => next now d end = d
                    \/ match queues d with [] => d | _ :: _ => next now d end = next now d)
      by (destruct (queues d); auto).
    destruct Hcase as [-> | ->]; [exact Hd|].
    apply (no_new_timeout_off d _ (next_no_new_timeout now d) Hd).
Qed.

Lemma step_timeout_off i d d' :
  step i d = Some d' ->
  (forall r q, queues d !! r = Some q -> timeout_off q ->
     SiapQueue.status q <> SiapQueue.STATUS_TIMED_OUT) ->
  forall r q, queues d' !! r = Some q -> timeout_off q ->
    SiapQueue.status q <> SiapQueue.STATUS_TIMED_OUT.
Proof.
  intros Hs Hd. destruct i as [now q0|now c|inf|now|now p s|r0|c]; simpl in Hs.
  - destruct (decide _) as [Hnew|]; [|done]. injection Hs as <-.
    unfold add. cbn [snd]. fold (stamped now q0).
    apply (no_new_timeout_off _ _ (next_no_new_timeout now _)).
    intros r q Hq Hoff. simpl in Hq. apply lookup_app_Some in Hq as [Hq|[_ Hq]].
    + by apply (Hd r).
    + apply list_lookup_singleton_Some in Hq as [_ <-].
      assert (E : SiapQueue.status (stamped now q0) = SiapQueue.status q0).
      { unfold stamped. by destruct (negb _). }
      by rewrite E, Hnew.
  - injection Hs as <-. unfold setConsumer. destruct c as [c|]; [|exact Hd].
    apply poll_timeout_off. exact Hd.
  - injection Hs as <-. exact Hd.
  - destruct (polling d); [|done]. injection Hs as <-. by apply poll_timeout_off.
  - destruct (decide _); [|done]. injection Hs as <-.
    apply (no_new_timeout_off _ _ (settle_no_new_timeout now p s _)). exact Hd.
  - destruct (queues d !! r0) as [q0|]; [|done]. destruct (decide _); [|done].
    injection Hs as <-.
    apply (no_new_timeout_off d _ (no_new_timeout_skip r0 d) Hd).
  - destruct (consumer d); [|done]. injection Hs as <-. exact Hd.
Qed.

Lemma run_timeout_off l d d' :
  run l d = Some d' ->
  (forall r q, queues d !! r = Some q -> timeout_off q ->
     SiapQueue.status q <> SiapQueue.STATUS_TIMED_OUT) ->
  forall r q, queues d' !! r = Some q -> timeout_off q ->
    SiapQueue.status q <> SiapQueue.STATUS_TIMED_OUT.
Proof.
  revert d. induction l as [|i l IH]; intros d; simpl; [by intros [= <-]|].
  destruct (step i d) as [d1|] eqn:Hs; [|done]. intros Hr Hd.
  apply (IH d1 Hr). by eapply step_timeout_off.
Qed.

(** X11: An item whose payload sets [timeout] to a value that is not greater
    than zero (zero, a negative number, null, false) never becomes
    TIMED_OUT, however long its consumer call takes: the poll loop
    compares the elapsed time with a timeout only when the timeout is
    greater than zero. *)
Theorem timeout_off_never_times_out (l : list (Input C)) (t0 : Z) (d : t)
    (r : nat) (q : SiapQueue.t) :
  run l (new t0) = Some d ->
  queues d !! r = Some q ->
  timeout_off q ->
  SiapQueue.status q <> SiapQueue.STATUS_TIMED_OUT.
Proof.
  intros Hr. apply (run_timeout_off l (new t0) d Hr). intros r0 q0 Hq0. done.
Qed.

End SubmissionFacts.

(** ** The singleton: pending items *)

Section PendingFacts.
Context `{Host} {C : Type} `{Consumer C}.
Import SiapDequeue.

(** X12: An item that has just been submitted with [addQueue] is pending:
    [hasPendingQueue] is true for it right after the call, whether the
    dispatcher has started it or not. *)
Theorem hasPendingQueue_after_addQueue (now : Z) (q : SiapQueue.t)
    (dequeue dequeue' : @dequeue_var C) (ack : Ack) :
  SiapQueue.status q = SiapQueue.STATUS_NEW ->
  addQueue now q dequeue = Normal (ack, dequeue') ->
  hasPendingQueue q dequeue' = true.
Proof.
  intros Hnew. unfold addQueue. destruct dequeue as [d|]; [|done].
  destruct (add now q d) as [ack' d'] eqn:Ha. intros [= _ <-].
  destruct (add_item now q d) as (q' & Hq' & Hf & Hs). rewrite Ha in Hq'. simpl in Hq'.
  unfold hasPendingQueue.
  assert (Hin : q' ∈ filter (fun x =>
             String.eqb (SiapQueue.type x) (SiapQueue.type q)
             && strict_eq (SiapQueue.info x) (SiapQueue.info q)
             && bool_decide (SiapQueue.status x ∈
                  [SiapQueue.STATUS_NEW; SiapQueue.STATUS_PROCESSING]) = true)
            (queues d')).
  { apply list_elem_of_filter. split; [|by eapply list_elem_of_lookup_2].
    destruct Hf as (Ht & _ & _ & _ & _ & Hi & _).
    assert (Et : SiapQueue.type (stamped now q) = SiapQueue.type q
                 /\ SiapQueue.info (stamped now q) = SiapQueue.info q).
    { unfold stamped. by destruct (negb _). }
    destruct Et as [Et Ei]. rewrite <- Ht, <- Hi, Et, Ei.
    rewrite String.eqb_refl, strict_eq_refl. simpl. apply bool_decide_eq_true.
    destruct Hs as [Hs|Hs]; rewrite Hs, ?Hnew; [left|right; left]. }
  destruct (filter _ _); [by apply elem_of_nil in Hin|done].
Qed.

End PendingFacts.

(** ** The dispatcher: progress *)

Section ProgressFacts.
Context `{Host} {C : Type} `{Consumer C}.
Import SiapDequeue.
Local Abbreviation t := (SiapDequeue.t C).
Implicit Types (d : t) (r : nat) (q : SiapQueue.t).

(** *** Between two inputs the runner is not active *)

Lemma same_active_refl d : same_active d d.
Proof. done. Qed.

Lemma same_active_trans d1 d2 d3 :
  same_active d1 d2 -> same_active d2 d3 -> same_active d1 d3.
Proof. unfold same_active. congruence. Qed.

Lemma same_active_queue d d' : queue d' = queue d -> same_active d d'.
Proof. unfold same_active. by intros ->. Qed.

Lemma same_active_call r m d : same_active d (call r m d).
Proof. apply same_active_queue, call_rest. Qed.

Lemma same_active_last r d : same_active d (setLastQueue r d).
Proof. apply same_active_queue, setLastQueue_rest. Qed.

Lemma next_same_active now d : same_active d (next now d).
Proof.
  unfold next, same_active. cbn [next_fuel]. unfold Queue.next.
  destruct (Queue.active (queue d)) eqn:Ha; [done|].
  destruct (negb (canProcess d)); [done|].
  destruct (Queue.queues (queue d)); [done|]. reflexivity.
Qed.

Lemma step_same_active i d d' : step i d = Some d' -> same_active d d'.
Proof.
  intros Hs.
  assert (Hcase : (exists now q, i = Add now q) \/ forall now q, i <> Add now q).
  { destruct i; try (right; intros; discriminate). left. eauto. }
  destruct Hcase as [(now & q & ->)|Hother].
  - simpl in Hs. destruct (decide _); [|done]. injection Hs as <-.
    unfold add. cbn [snd]. eapply same_active_trans; [|apply next_same_active].
    unfold same_active. simpl. unfold Queue.requeue. by destruct (String.eqb _ _).
  - eapply (step_R same_active); [..|exact Hother|exact Hs];
      try exact same_active_refl; try exact same_active_trans;
      try exact same_active_last; try exact next_same_active;
      intros; first [apply same_active_call|by apply same_active_queue].
Qed.

Lemma reachable_idle l t0 d : run l (new t0) = Some d -> Queue.active (queue d) = false.
Proof.
  assert (G : forall d0, run l d0 = Some d ->
            Queue.active (queue d) = Queue.active (queue d0)).
  { induction l as [|i l IH]; intros d0; simpl; [by intros [= <-]|].
    destruct (step i d0) as [d1|] eqn:Hs; [|done]. intros Hr.
    rewrite (IH d1 Hr). by apply (step_same_active i). }
  intros Hr. by rewrite (G _ Hr).
Qed.

(** *** What one call of the runner does *)

(** When the runner is not active, the consumer is ready and the pending
    list is not empty, [next()] pops the head item, starts it and passes it
    to the consumer. *)
Lemma next_dispatch now d r rest q c c' :
  Queue.active (queue d) = false -> consumer d = Some c -> canProcessQueue c = true ->
  pending d = r :: rest -> queues d !! r = Some q ->
  SiapQueue.status q <> SiapQueue.STATUS_SKIPPED ->
  processQueue c (SiapQueue.start now q).1 = Normal c' ->
  next now d
  = mkDequeue (info d) (time d) (<[r := (SiapQueue.start now q).1]> (queues d))
      (Queue.mkRunner rest false) (timeout d) (retry d) (Some c') (last d)
      (inflight d ++ [PProcess r]) (polling d)
      (trace d ++ [Dispatch r; QueueStart r; ProcessQueue r])
      (console d ++ (SiapQueue.start now q).2).
Proof.
  intros Ha Hc Hready Hp Hq Hskip Hproc.
  unfold next. rewrite (next_fuel_enough 1). cbn [next_fuel]. unfold Queue.next.
  unfold pending in Hp. rewrite Ha. unfold canProcess. rewrite Hc, Hready, Hp.
  cbn [negb].
  set (d0 := emit (Dispatch r) (with_queue (Queue.mkRunner rest true) d)).
  assert (Hq0 : queues d0 !! r = Some q) by exact Hq.
  assert (Hc0 : consumer d0 = Some c) by exact Hc.
  unfold doQueue. rewrite Hc0. unfold doit. rewrite Hq0.
  destruct (decide _) as [_|Hn]; [|by destruct Hn].
  set (d1 := call r (SiapQueue.start now) d0).
  assert (Hq1 : queues d1 !! r = Some (SiapQueue.start now q).1) by (by apply call_lookup).
  assert (Hc1 : consumer d1 = Some c).
  { unfold d1. by rewrite (proj1 (proj2 (proj2 (proj2 (call_rest r (SiapQueue.start now) d0))))). }
  assert (Hd1 : d1 = with_console (console d0 ++ (SiapQueue.start now q).2)
                       (with_queues (<[r := (SiapQueue.start now q).1]> (queues d0)) d0)).
  { unfold d1, call. by rewrite Hq0. }
  cbn [consumer emit with_trace queues]. rewrite Hc1, Hq1, Hproc.
  set (d3 := await _ _).
  assert (E : with_queue (Queue.mkRunner (Queue.queues (queue d3)) false) d3
            = mkDequeue (info d) (time d) (<[r := (SiapQueue.start now q).1]> (queues d))
                (Queue.mkRunner rest false) (timeout d) (retry d) (Some c') (last d)
                (inflight d ++ [PProcess r]) (polling d)
                (trace d ++ [Dispatch r; QueueStart r; ProcessQueue r])
                (console d ++ (SiapQueue.start now q).2)).
  { unfold d3. rewrite Hd1. unfold with_queue. simpl. f_equal. by rewrite <- !app_assoc. }
  destruct (getNext d3); [|exact E].
  destruct (queues d3 !! _); [|exact E]. destruct (_ && _); exact E.
Qed.

Lemma start_time now q : SiapQueue.time (SiapQueue.start now q).1 = Some now.
Proof. unfold SiapQueue.start. by rewrite (proj1 (proj2 (setStatus_others _ _))). Qed.

(** X13: At a run of the poll loop, when no item is PROCESSING, the consumer is
    ready and items are waiting, the item at the head of the pending list is
    started: it leaves the pending list and becomes PROCESSING with the
    time of the run as its start time, its dispatch, [queue-start] and the
    call of [processQueue] follow in the trace, and its promise is awaited;
    what else the run does is no event of the item.  When [doit] finds no
    item to start along with it (no item waits, or the next one is a
    callback, or the consumer does not approve it), the run does nothing
    else. *)
Theorem tick_starts_waiting_item (l : list (Input C)) (t0 now : Z) (d : t)
    (r : nat) (rest : list nat) (q : SiapQueue.t) (c c' : C) :
  run l (new t0) = Some d ->
  polling d = true ->
  Forall (fun x => SiapQueue.status x <> SiapQueue.STATUS_PROCESSING) (queues d) ->
  consumer d = Some c -> canProcessQueue c = true ->
  pending d = r :: rest ->
  queues d !! r = Some q -> SiapQueue.status q = SiapQueue.STATUS_NEW ->
  processQueue c (SiapQueue.start now q).1 = Normal c' ->
  exists d', step (Tick now) d = Some d'
    /\ queues d' !! r = Some (SiapQueue.start now q).1
    /\ SiapQueue.status (SiapQueue.start now q).1 = SiapQueue.STATUS_PROCESSING
    /\ SiapQueue.time (SiapQueue.start now q).1 = Some now
    /\ PProcess r ∈ inflight d'
    /\ (r ∉ pending d')
    /\ (exists tail,
          trace d' = (trace d ++ [Dispatch r; QueueStart r; ProcessQueue r] ++ tail)%list
          /\ events_of r tail = [])
    /\ (no_lookahead c' rest d ->
          queues d' = <[r := (SiapQueue.start now q).1]> (queues d)
          /\ pending d' = rest
          /\ inflight d' = (inflight d ++ [PProcess r])%list
          /\ trace d' = (trace d ++ [Dispatch r; QueueStart r; ProcessQueue r])%list
          /\ consumer d' = Some c').
Proof.
  intros Hr Hpoll Hnone Hc Hready Hp Hq Hnew Hproc.
  destruct (run_Inv l (new t0) d (new_Inv t0) Hr) as [Hi _].
  exists (poll now d). simpl. rewrite Hpoll. split; [done|].
  assert (Hfind : list_find (fun x => is_processing x = true) (queues d) = None).
  { apply list_find_None. eapply Forall_impl; [exact Hnone|].
    intros x Hx Hpx. apply Hx. unfold is_processing in Hpx.
    by apply bool_decide_eq_true in Hpx. }
  assert (Hpo : poll now d = next now d).
  { unfold poll. rewrite Hfind. destruct (queues d); [done|done]. }
  rewrite Hpo.
  rewrite (next_dispatch now d r rest q c c'); try done;
    [|by eapply reachable_idle|by rewrite Hnew].
  cbn [queues inflight trace pending queue Queue.queues consumer].
  split_and!; try done.
  - apply list_lookup_insert_eq. by eapply lookup_lt_Some.
  - apply start_status.
  - apply start_time.
  - apply elem_of_app. right. by left.
  - pose proof (inv_pending_nodup d Hi) as Hnd. rewrite Hp in Hnd.
    by apply NoDup_cons in Hnd as [Hnd _].
  - exists []. simpl. rewrite ?app_nil_r. done.
Qed.

(** X14: When the consumer is ready and nothing is waiting, [add] starts the
    submitted item before it returns: the item is in the history as
    PROCESSING, it has been passed to the consumer, and the pending list is
    empty again. *)
Theorem add_starts_item_at_once (l : list (Input C)) (t0 now : Z) (d : t)
    (q : SiapQueue.t) (c c' : C) :
  run l (new t0) = Some d ->
  consumer d = Some c -> canProcessQueue c = true ->
  pending d = [] ->
  SiapQueue.status q = SiapQueue.STATUS_NEW ->
  processQueue c (SiapQueue.start now (stamped now q)).1 = Normal c' ->
  let r := length (queues d) in
  let d' := (add now q d).2 in
  queues d' = (queues d ++ [(SiapQueue.start now (stamped now q)).1])%list
  /\ SiapQueue.status (SiapQueue.start now (stamped now q)).1 = SiapQueue.STATUS_PROCESSING
  /\ pending d' = []
  /\ inflight d' = (inflight d ++ [PProcess r])%list
  /\ trace d' = (trace d ++ [Dispatch r; QueueStart r; ProcessQueue r])%list
  /\ (add now q d).1 = mkAck "queued" (SiapQueue.id (stamped now q)).
Proof.
  intros Hr Hc Hready Hp Hnew Hproc r d'.
  assert (Ha : Queue.active (queue d) = false) by (by eapply reachable_idle).
  unfold d', add. cbn [fst snd]. fold (stamped now q). fold r.
  set (d2 := with_queue _ _).
  assert (Hp2 : pending d2 = [r]).
  { unfold pending in *. simpl. unfold Queue.requeue. rewrite Hp.
    by destruct (String.eqb _ _). }
  assert (Hq2 : queues d2 !! r = Some (stamped now q)).
  { simpl. apply list_lookup_middle. done. }
  assert (Hs2 : SiapQueue.status (stamped now q) <> SiapQueue.STATUS_SKIPPED).
  { assert (E : SiapQueue.status (stamped now q) = SiapQueue.status q).
    { unfold stamped. by destruct (negb _). }
    by rewrite E, Hnew. }
  rewrite (next_dispatch now d2 r [] (stamped now q) c c'); try done.
  - cbn [queues pending queue inflight trace]. split_and!; try done.
    + simpl. unfold r. rewrite insert_app_r_alt by done.
      by rewrite Nat.sub_diag.
    + apply start_status.
    + f_equal. simpl. unfold r. rewrite insert_app_r_alt by done.
      rewrite Nat.sub_diag. simpl.
      rewrite list_lookup_middle by done. simpl.
      by destruct (start_fields now (stamped now q)) as (_ & -> & _).
  - simpl. unfold Queue.requeue. by destruct (String.eqb _ _).
Qed.

End ProgressFacts.

(** ** The dispatcher: the poll loop keeps running *)

Section PollFacts.
Context `{Host} {C : Type} `{Consumer C}.
Import SiapDequeue.
Local Abbreviation t := (SiapDequeue.t C).
Implicit Types (d : t) (r : nat) (q : SiapQueue.t).

(** *** PROCESSING items have their start time *)
















(** *** The loop is not uninstalled *)











End PollFacts.

(** ** The dispatcher: an item is settled at most once *)

Section SettledFacts.
Context `{Host} {C : Type} `{Consumer C}.
Import SiapDequeue SiapQueue.
Local Abbreviation t := (SiapDequeue.t C).
Implicit Types (d : t) (r : nat) (q : SiapQueue.t).

(** *** Operations that signal nothing *)

Lemma same_settlements_refl d : same_settlements d d.
Proof. done. Qed.

Lemma same_settlements_trans d1 d2 d3 :
  same_settlements d1 d2 -> same_settlements d2 d3 -> same_settlements d1 d3.
Proof. unfold same_settlements. congruence. Qed.

Lemma same_settlements_trace d d' : trace d' = trace d -> same_settlements d d'.
Proof. unfold same_settlements. by intros ->. Qed.

Lemma same_settlements_call r m d : same_settlements d (call r m d).
Proof. apply same_settlements_trace, call_rest. Qed.

Lemma same_settlements_emit e d : settlements [e] = [] -> same_settlements d (emit e d).
Proof. intros He. unfold same_settlements. simpl. by rewrite settlements_app, He, app_nil_r. Qed.

Lemma next_same_settlements now d : same_settlements d (next now d).
Proof.
  apply (next_R same_settlements);
    try exact same_settlements_refl; try exact same_settlements_trans;
    intros; first [apply same_settlements_call|by apply same_settlements_emit|done].
Qed.

Lemma doit_same_settlements now r d : same_settlements d (doit now (next now) r d).
Proof.
  apply (doit_R same_settlements);
    try exact same_settlements_refl; try exact same_settlements_trans;
    try exact (next_same_settlements now);
    intros; first [apply same_settlements_call|by apply same_settlements_emit|done].
Qed.

Lemma poll_same_settlements now d : same_settlements d (poll now d).
Proof.
  apply (poll_R same_settlements);
    try exact same_settlements_refl; try exact same_settlements_trans;
    try exact next_same_settlements;
    intros; first [apply same_settlements_call|done].
Qed.

(** *** The invariant *)

Lemma final_stays s s' :
  s ∈ [STATUS_DONE; STATUS_ERROR] -> rtc edge s s' -> s' = s.
Proof.
  intros Hs Hr. induction Hr as [|x y z Hxy _ IH]; [done|].
  exfalso. inlist; subst; inversion Hxy as [? ? Hc| | |]; inversion Hc.
Qed.

Lemma Settled_keep d d' :
  Settled d -> moves edge d d' -> same_settlements d d' -> Settled d'.
Proof.
  intros [S1 S2] Hm Hs. unfold same_settlements in Hs. split; rewrite Hs; [done|].
  intros r Hr. destruct (S2 r Hr) as (q & Hq & Hst).
  destruct (Hm r q Hq) as (q' & Hq' & He). exists q'. split; [done|].
  by rewrite (final_stays _ _ Hst He).
Qed.

Lemma next_Settled now d : Inv d -> Settled d -> Settled (next now d).
Proof.
  intros Hi Hs. eapply Settled_keep; [done|by apply next_ok|apply next_same_settlements].
Qed.

Lemma id_ok d : Inv d -> ok d ((fun x : t => x) d).
Proof. intros Hi. split; [done|apply moves_refl]. Qed.

(** The handlers [success] and [fail] up to their call of [next()]. *)
Lemma finish_Settled (m : SiapQueue.t -> SiapQueue.t * list LogLine) s (ev : Event)
    (hook : SiapQueue.t -> bool) (hev : Event) r d :
  (forall q, status (m q).1 = s) -> s ∈ [STATUS_DONE; STATUS_ERROR] ->
  settlements [ev] = [r] -> settlements [hev] = [] ->
  Inv d -> Settled d -> r ∉ busy (inflight d) -> r ∉ pending d ->
  status_in d r [STATUS_PROCESSING; STATUS_TIMED_OUT] ->
  let d1 := call r m d in
  let d2 := setLastQueue r d1 in
  let d3 := match queues d2 !! r with
            | Some q => if hook q then emit hev d2 else d2
            | None => d2
            end in
  Inv (emit ev d3) /\ Settled (emit ev d3).
Proof.
  intros Hm Hs Hev Hhev Hi [S1 S2] Hb Hp Hst d1 d2 d3.
  destruct (finish_ok (fun x => x) id_ok m s ev hook hev r d Hm Hs Hi Hb Hp Hst)
    as [Hi4 Hm4].
  split; [exact Hi4|].
  destruct Hst as (q & Hq & Hsq).
  assert (Ht1 : trace d1 = trace d) by apply call_rest.
  assert (Hq1 : queues d1 !! r = Some (m q).1) by (by apply call_lookup).
  pose proof (setLastQueue_rest r d1) as (Hq2 & _ & _ & Ht2 & _).
  assert (H3 : queues d3 = queues d2
               /\ settlements (trace d3) = settlements (trace d2)).
  { unfold d3. destruct (queues d2 !! r) as [q2|]; [|done].
    destruct (hook q2); [|done]. split; [done|].
    simpl. by rewrite settlements_app, Hhev, app_nil_r. }
  destruct H3 as [Hq3 Ht3].
  assert (Hse : settlements (trace (emit ev d3)) = (settlements (trace d) ++ [r])%list).
  { simpl. rewrite settlements_app, Hev, Ht3. unfold d2. by rewrite Ht2, Ht1. }
  assert (Hnew : r ∉ settlements (trace d)).
  { intros Hin. destruct (S2 r Hin) as (q0 & Hq0 & Hs0).
    assert (q0 = q) by congruence. subst. inlist. }
  split; rewrite Hse.
  - apply NoDup_app. split; [done|]. split; [|apply NoDup_singleton].
    intros x Hx Hx'. apply list_elem_of_singleton in Hx'. by subst.
  - intros r0 [Hr0|Hr0]%elem_of_app.
    + destruct (S2 r0 Hr0) as (q0 & Hq0 & Hs0).
      destruct (Hm4 r0 q0 Hq0) as (q0' & Hq0' & He). exists q0'. split; [done|].
      by rewrite (final_stays _ _ Hs0 He).
    + apply list_elem_of_singleton in Hr0 as ->. exists (m q).1. split.
      * change (queues (emit ev d3)) with (queues d3). rewrite Hq3. unfold d2.
        by rewrite Hq2.
      * by rewrite Hm.
Qed.

Lemma success_Settled now res r d :
  Inv d -> Settled d -> r ∉ busy (inflight d) -> r ∉ pending d ->
  status_in d r [STATUS_PROCESSING; STATUS_TIMED_OUT] ->
  Settled (success (next now) res r d).
Proof.
  intros Hi Hs Hb Hp Hst. unfold success.
  destruct (finish_Settled (done res) STATUS_DONE (QueueDone r) resolve (Resolve r res) r d)
    as [Hi4 Hs4]; try done; [apply done_status|is_in|].
  by apply next_Settled.
Qed.

Lemma fail_Settled now err r d :
  Inv d -> Settled d -> r ∉ busy (inflight d) -> r ∉ pending d ->
  status_in d r [STATUS_PROCESSING; STATUS_TIMED_OUT] ->
  Settled (fail (next now) err r d).
Proof.
  intros Hi Hs Hb Hp Hst. unfold fail.
  destruct (finish_Settled (error err) STATUS_ERROR (QueueError r) reject (Reject r err) r d)
    as [Hi4 Hs4]; try done; [apply error_status|is_in|].
  by apply next_Settled.
Qed.

Lemma doit_Settled now r d :
  Inv d -> Settled d -> r ∉ busy (inflight d) -> r ∉ pending d ->
  status_in d r [STATUS_NEW; STATUS_SKIPPED; STATUS_PROCESSING; STATUS_TIMED_OUT] ->
  Settled (doit now (next now) r d).
Proof.
  intros Hi Hs Hb Hp Hst. eapply Settled_keep; [done| |apply doit_same_settlements].
  apply doit_ok; auto using next_ok.
Qed.

Lemma retry_Settled now err r d :
  Inv d -> Settled d -> r ∉ busy (inflight d) -> r ∉ pending d ->
  status_in d r [STATUS_PROCESSING; STATUS_TIMED_OUT] ->
  Settled (retry_ now (next now) err r d).
Proof.
  intros Hi Hs Hb Hp (q & Hq & Hst). unfold retry_. rewrite Hq.
  set (q1 := with_retryCount _ q).
  set (d1 := with_queues _ d).
  assert (Hlt : (r < length (queues d))%nat) by (by eapply lookup_lt_Some).
  assert (H1 : ok d d1) by (by eapply (ok_insert d d1 r q q1)).
  destruct H1 as [Hi1 Hm1].
  assert (Hs1 : Settled d1) by (by eapply Settled_keep).
  assert (Hst1 : status_in d1 r [STATUS_PROCESSING; STATUS_TIMED_OUT]).
  { exists q1. split; [|done]. simpl. by apply list_lookup_insert_eq. }
  destruct (_ && _).
  - set (d2 := print _ d1).
    destruct (ok_same d1 d2) as [Hi2 Hm2]; try done.
    assert (Hs2 : Settled d2) by (by eapply Settled_keep).
    assert (Hst2 : status_in d2 r [STATUS_PROCESSING; STATUS_TIMED_OUT]) by done.
    destruct (onretry q1).
    + destruct (ok_await d2 r (POnRetry r)) as [_ Hm3]; auto.
      by eapply Settled_keep.
    + apply doit_Settled; try done.
      revert Hst2. apply status_in_weaken. intros s Hin. inlist; subst; is_in.
  - by apply fail_Settled.
Qed.

Lemma settle_Settled now p s d :
  Inv d -> Settled d -> p ∈ inflight d ->
  Settled (settle now p s (with_inflight (remove p (inflight d)) d)).
Proof.
  intros Hi Hs Hp. destruct (ok_remove d p Hi) as [Hi1 Hm1].
  set (d1 := with_inflight _ d) in *.
  assert (Hs1 : Settled d1) by (by eapply Settled_keep).
  assert (Hown : forall r, p = PProcess r \/ p = POnRetry r ->
            (r ∉ busy (inflight d1)) /\ (r ∉ pending d1)
            /\ status_in d1 r [STATUS_PROCESSING; STATUS_TIMED_OUT]).
  { intros r Hr. assert (Hb : r ∈ busy (inflight d)) by (by eapply busy_owner).
    split; [|split].
    - apply busy_remove_notin; [done| |done]. apply (inv_busy_nodup d Hi).
    - by apply (busy_not_pending d).
    - apply (status_in_same d); [done|]. by apply (inv_busy d Hi). }
  destruct p as [r|r|r], s as [v|err]; simpl.
  - destruct (Hown r) as (? & ? & ?); [by left|]. by apply success_Settled.
  - destruct (Hown r) as (? & ? & ?); [by left|]. by apply retry_Settled.
  - destruct (Hown r) as (? & ? & Hst); [by right|]. apply doit_Settled; try done.
    revert Hst. apply status_in_weaken. intros s Hin. inlist; subst; is_in.
  - destruct (Hown r) as (? & ? & ?); [by right|]. by apply fail_Settled.
  - by apply next_Settled.
  - by apply next_Settled.
Qed.

Lemma step_Settled i d d' : Inv d -> Settled d -> step i d = Some d' -> Settled d'.
Proof.
  intros Hi Hs Hstep. pose proof (step_ok i d d' Hi Hstep) as [_ Hm].
  destruct i as [now q|now c|inf|now|now p s|r|c]; simpl in Hstep.
  - destruct (decide _); [|done]. injection Hstep as <-.
    eapply Settled_keep; [done|done|]. unfold add. cbn [snd].
    eapply same_settlements_trans; [|apply next_same_settlements]. done.
  - injection Hstep as <-. eapply Settled_keep; [done|done|].
    unfold setConsumer. destruct c; [|done].
    eapply same_settlements_trans; [|apply poll_same_settlements]. done.
  - injection Hstep as <-. by eapply Settled_keep.
  - destruct (polling d); [|done]. injection Hstep as <-.
    eapply Settled_keep; [done|done|apply poll_same_settlements].
  - destruct (decide _); [|done]. injection Hstep as <-. by apply settle_Settled.
  - destruct (queues d !! r); [|done]. destruct (decide _); [|done].
    injection Hstep as <-.
    eapply Settled_keep; [done|done|apply same_settlements_call].
  - destruct (consumer d); [|done]. injection Hstep as <-. by eapply Settled_keep.
Qed.

Lemma new_Settled now : Settled (new now : t).
Proof.
  split; [apply NoDup_nil_2|]. intros r Hr. by apply elem_of_nil in Hr.
Qed.

Lemma run_Settled l d d' : Inv d -> Settled d -> run l d = Some d' -> Settled d'.
Proof.
  revert d. induction l as [|i l IH]; intros d Hi Hs; simpl; [by intros [= <-]|].
  destruct (step i d) as [d1|] eqn:Hstep; [|done].
  destruct (step_ok i d d1 Hi Hstep) as [Hi1 _].
  apply IH; [done|]. by apply (step_Settled i d).
Qed.

(** *** Answers to the submitter *)

Lemma answers_app r tr1 tr2 : answers r (tr1 ++ tr2) = (answers r tr1 + answers r tr2)%nat.
Proof. unfold answers. by rewrite filter_app, length_app. Qed.

Lemma signals_app r tr1 tr2 : signals r (tr1 ++ tr2) = (signals r tr1 + signals r tr2)%nat.
Proof. unfold signals. by rewrite settlements_app, count_occ_app. Qed.

Lemma answered_refl d : answered d d.
Proof. intros r. lia. Qed.

Lemma answered_trans d1 d2 d3 : answered d1 d2 -> answered d2 d3 -> answered d1 d3.
Proof. intros H12 H23 r. specialize (H12 r). specialize (H23 r). lia. Qed.

Lemma answered_trace d d' : trace d' = trace d -> answered d d'.
Proof. intros E r. rewrite E. lia. Qed.

Lemma answered_call r m d : answered d (call r m d).
Proof. apply answered_trace, call_rest. Qed.

Lemma answered_last r d : answered d (setLastQueue r d).
Proof. apply answered_trace, setLastQueue_rest. Qed.

(** Events are appended to the trace, and among them every answer has its
    signal. *)
Lemma answered_events d d' es :
  trace d' = (trace d ++ es)%list -> (forall r, (answers r es <= signals r es)%nat) ->
  answered d d'.
Proof.
  intros E Hes r. rewrite E, answers_app, signals_app. specialize (Hes r). lia.
Qed.

Lemma answered_emit e d : (forall r, is_answer r e = false) -> answered d (emit e d).
Proof.
  intros He. apply (answered_events _ _ [e]); [done|]. intros r.
  unfold answers. cbn [filter list_filter]. rewrite decide_False by (by rewrite He).
  simpl. lia.
Qed.

Lemma answered_resolved r res d : answered d (emit (QueueDone r) (emit (Resolve r res) d)).
Proof.
  apply (answered_events _ _ [Resolve r res; QueueDone r]);
    [simpl; by rewrite <- app_assoc|].
  intros r0. unfold answers, signals. simpl.
  destruct (Nat.eq_dec r r0) as [->|Hne].
  - rewrite filter_cons_True by (simpl; by rewrite Nat.eqb_refl). simpl. lia.
  - rewrite filter_cons_False; [simpl; lia|].
    simpl. intros E. apply Nat.eqb_eq in E. congruence.
Qed.

Lemma answered_rejected r err d : answered d (emit (QueueError r) (emit (Reject r err) d)).
Proof.
  apply (answered_events _ _ [Reject r err; QueueError r]);
    [simpl; by rewrite <- app_assoc|].
  intros r0. unfold answers, signals. simpl.
  destruct (Nat.eq_dec r r0) as [->|Hne].
  - rewrite filter_cons_True by (simpl; by rewrite Nat.eqb_refl). simpl. lia.
  - rewrite filter_cons_False; [simpl; lia|].
    simpl. intros E. apply Nat.eqb_eq in E. congruence.
Qed.

Lemma next_answered now d : answered d (next now d).
Proof.
  apply (next_R answered);
    try exact answered_refl; try exact answered_trans;
    intros; first [apply answered_call|by apply answered_emit|by apply answered_trace].
Qed.

Lemma step_answered i d d' : step i d = Some d' -> answered d d'.
Proof.
  intros Hs.
  assert (Hcase : (exists now q, i = Add now q) \/ forall now q, i <> Add now q).
  { destruct i; try (right; intros; discriminate). left. eauto. }
  destruct Hcase as [(now & q & ->)|Hother].
  - simpl in Hs. destruct (decide _); [|done]. injection Hs as <-.
    unfold add. cbn [snd]. eapply answered_trans; [|apply next_answered].
    by apply answered_trace.
  - eapply (step_R answered); [..|exact Hother|exact Hs];
      try exact answered_refl; try exact answered_trans;
      try exact answered_last; try exact next_answered;
      try exact answered_resolved; try exact answered_rejected;
      intros; first [apply answered_call|by apply answered_emit|by apply answered_trace].
Qed.

Lemma run_answered l d d' : run l d = Some d' -> answered d d'.
Proof.
  revert d. induction l as [|i l IH]; intros d; simpl;
    [intros [= <-]; apply answered_refl|].
  destruct (step i d) as [d1|] eqn:Hs; [|done]. intros Hr.
  eapply answered_trans; [by apply (step_answered i)|by apply IH].
Qed.

(** As long as the callbacks of [success] return, the turns of the event
    loop are the inputs of the dispatcher. *)
Lemma turns_regular (l : list (Turn C)) d :
  Forall (fun o => regular o = true) l -> turns l d = run (inputs_of l) d.
Proof.
  revert d. induction l as [|o l IH]; intros d Hl; [done|].
  apply Forall_cons in Hl as [Ho Hl]. destruct o as [i|]; [|done].
  change (inputs_of (Regular i :: l)) with (i :: inputs_of l).
  cbn [turns turn run]. destruct (step i d) as [d1|]; [by apply IH|done].
Qed.

(** X16: As long as the callbacks that [success] calls ([queue.resolve], the
    listeners of [queue-done]) return, in every state that the dispatcher
    reaches no item has been signalled done or in error more than once, an
    item that has been signalled is DONE or ERROR, and the submitter of an
    item has been answered at most once: [queue.resolve] and
    [queue.reject] together are called at most once for an item.  Every
    call of [add] submits an item of its own. *)
Theorem settled_at_most_once (l : list (Turn C)) (t0 : Z) (d : t) :
  turns l (new t0) = Some d ->
  Forall (fun o => regular o = true) l ->
  NoDup (settlements (trace d))
  /\ (forall r, r ∈ settlements (trace d) -> status_in d r [STATUS_DONE; STATUS_ERROR])
  /\ forall r, (answers r (trace d) <= 1)%nat.
Proof.
  intros Hr Hl. rewrite (turns_regular l _ Hl) in Hr. clear Hl.
  destruct (run_Settled (inputs_of l) (new t0) d (new_Inv t0) (new_Settled t0) Hr)
    as [S1 S2].
  split_and!; [done|done|]. intros r.
  pose proof (run_answered (inputs_of l) (new t0) d Hr r) as Ha. simpl in Ha.
  assert (Hc : (signals r (trace d) <= 1)%nat).
  { unfold signals. apply (proj1 (List.NoDup_count_occ Nat.eq_dec _)).
    by apply NoDup_ListNoDup. }
  change (signals r []) with 0%nat in Ha. lia.
Qed.

End SettledFacts.

(** ** Saving the logs and the pending items *)

Section PathFacts.

Lemma string_length_app a b : String.length (a +:+ b) = (String.length a + String.length b)%nat.
Proof. induction a as [|c a IH]; simpl; [done|]. by rewrite IH. Qed.

Lemma string_app_inv_tail a b s : a +:+ s = b +:+ s -> a = b.
Proof.
  revert b. induction a as [|c a IH]; intros [|c' b] E; simpl in E.
  - done.
  - apply (f_equal String.length) in E. rewrite !string_length_app in E.
    simpl in E. rewrite ?string_length_app in E. lia.
  - apply (f_equal String.length) in E. rewrite !string_length_app in E.
    simpl in E. rewrite ?string_length_app in E. lia.
  - injection E as -> E. f_equal. by apply IH.
Qed.

Lemma log_file_inj n m : log_file n = log_file m -> n = m.
Proof.
  unfold log_file. intros E. apply (inj (String.app "queue")) in E.
  apply string_app_inv_tail in E. by apply (inj pretty) in E.
Qed.

Lemma join_inj dir a b : Files.join dir a = Files.join dir b -> a = b.
Proof.
  unfold Files.join. destruct (String.eqb dir "/"); intros E.
  - by apply (inj (String.app dir)) in E.
  - apply (inj (String.app dir)) in E. by apply (inj (String.app "/")) in E.
Qed.

Lemma log_file_not_saved n : log_file n <> "saved.queue".
Proof. unfold log_file. discriminate. Qed.

End PathFacts.

Section NodeFacts.
Context {A : Type}.

Lemma assoc_Some_key k (v : A) l : assoc k l = Some v -> k ∈ l.*1.
Proof.
  induction l as [|[k' v'] l IH]; simpl; [done|].
  destruct (String.eqb k' k) eqn:E.
  - apply String.eqb_eq in E. subst. intros _. left.
  - intros Hk. right. by apply IH.
Qed.

End NodeFacts.

Section SaveFacts.
Context `{Host} {C : Type}.
Import SiapDequeue.
Local Abbreviation t := (SiapDequeue.t C).

(** *** The loop of [saveLogs] *)

Lemma free_seq_Some fuel seq dir fs n :
  free_seq fuel seq dir fs = Some n ->
  (seq < n)%nat
  /\ Files.existsSync (Files.join dir (log_file n)) fs = false
  /\ forall m, (seq < m < n)%nat ->
       Files.existsSync (Files.join dir (log_file m)) fs = true.
Proof.
  revert seq. induction fuel as [|fuel IH]; intros seq; simpl; [done|].
  destruct (Files.existsSync (Files.join dir (log_file (S seq))) fs) eqn:E; simpl.
  - intros Hn. destruct (IH _ Hn) as (Hlt & Hno & Hall). split_and!; [lia|done|].
    intros m Hm. destruct (decide (m = S seq)) as [->|Hne]; [done|]. apply Hall. lia.
  - intros [= <-]. split_and!; [lia|done|]. intros m Hm. lia.
Qed.

Lemma free_seq_None fuel seq dir fs :
  free_seq fuel seq dir fs = None ->
  forall m, (seq < m <= seq + fuel)%nat ->
    Files.existsSync (Files.join dir (log_file m)) fs = true.
Proof.
  revert seq. induction fuel as [|fuel IH]; intros seq; simpl; [intros _ m Hm; lia|].
  destruct (Files.existsSync (Files.join dir (log_file (S seq))) fs) eqn:E; simpl; [|done].
  intros Hn m Hm. destruct (decide (m = S seq)) as [->|Hne]; [done|].
  apply (IH _ Hn). lia.
Qed.

(** The loop ends: the names [queue1.log], [queue2.log], ... are different
    paths, and only finitely many paths exist. *)
Lemma free_seq_total dir fs :
  exists n, free_seq (S (length (Files.nodes fs))) 0 dir fs = Some n.
Proof.
  destruct (free_seq _ _ _ _) as [n|] eqn:E; [by eexists|]. exfalso.
  pose proof (free_seq_None _ _ _ _ E) as Hall.
  set (names := map (fun m => Files.join dir (log_file m))
                  (seq 1 (S (length (Files.nodes fs))))).
  assert (Hnd : NoDup names).
  { apply NoDup_fmap_2; [|apply NoDup_seq].
    intros a b Hab. by apply log_file_inj, (join_inj dir). }
  assert (Hsub : names ⊆+ (Files.nodes fs).*1).
  { apply NoDup_submseteq; [done|]. intros p Hp.
    apply list_elem_of_fmap in Hp as (m & -> & Hm). apply elem_of_seq in Hm.
    specialize (Hall m ltac:(lia)). unfold Files.existsSync in Hall.
    destruct (assoc _ _) as [v|] eqn:Ha; [|done]. by eapply assoc_Some_key. }
  apply submseteq_length in Hsub. unfold names in Hsub.
  rewrite !length_map, length_seq in Hsub. lia.
Qed.

(** *** The entries that [saveLogs] writes *)

Lemma to_log_getLog raw q : to_log (SiapQueue.getLog raw q) = logged q.
Proof.
  unfold to_log, logged, SiapQueue.finished, SiapQueue.getLog. simpl.
  destruct (negb _); [|done]. simpl. by destruct (SiapQueue.status q).
Qed.

Lemma filter_map_bool {X Y} (f : X -> Y) (P : Y -> bool) (l : list X) :
  filter (fun y => P y = true) (map f l) = map f (filter (fun x => P (f x) = true) l).
Proof.
  induction l as [|x l IH]; simpl; [done|].
  rewrite !filter_cons. destruct (decide (P (f x) = true)); simpl; by rewrite IH.
Qed.

Lemma saveLogs_selection (d : t) :
  filter (fun log => to_log log = true) (getLogs true d)
  = map (SiapQueue.getLog true) (filter (fun q => logged q = true) (queues d)).
Proof.
  unfold getLogs. rewrite filter_map_bool. f_equal.
  apply list_filter_iff. intros q. by rewrite to_log_getLog.
Qed.

(** *** The directory *)

Lemma join_ne dir name : name <> EmptyString -> Files.join dir name <> dir.
Proof.
  intros Hn E. unfold Files.join in E.
  assert (En : forall s, s +:+ EmptyString = s).
  { intros s. induction s as [|c s IH]; [done|].
    change (String c s +:+ EmptyString) with (String c (s +:+ EmptyString)).
    by rewrite IH. }
  assert (E' : forall x, dir +:+ x = dir -> x = EmptyString).
  { intros x Hx. apply (inj (String.app dir)). by rewrite Hx, En. }
  destruct (String.eqb dir "/"); apply E' in E; [done|discriminate].
Qed.

Lemma existsSync_false p fs :
  Files.existsSync p fs = false <-> assoc p (Files.nodes fs) = None.
Proof. unfold Files.existsSync. destruct (assoc _ _); split; done. Qed.

Lemma existsSync_true p fs :
  Files.existsSync p fs = true <-> is_Some (assoc p (Files.nodes fs)).
Proof.
  unfold Files.existsSync. destruct (assoc _ _); split; try done;
    first [by eexists|by intros [? ?]].
Qed.

(** After the check of the directory, [queue] is a directory unless it was
    a file, and no other path has changed. *)
Lemma ensure_dir_spec dir fs :
  (forall c, assoc dir (Files.nodes fs) <> Some (Files.File c)) ->
  assoc dir (Files.nodes (ensure_dir dir fs)) = Some Files.Dir
  /\ Files.cwd (ensure_dir dir fs) = Files.cwd fs
  /\ forall p, p <> dir ->
       assoc p (Files.nodes (ensure_dir dir fs)) = assoc p (Files.nodes fs).
Proof.
  intros Hd. unfold ensure_dir, Files.existsSync.
  destruct (assoc dir (Files.nodes fs)) as [[|c]|] eqn:E; simpl.
  - done.
  - by destruct (Hd c).
  - split_and!; [apply assoc_assign_eq|done|]. intros p Hp. by apply assoc_assign_ne.
Qed.

(** What [saveLogs] does when [queue] is not a file. *)
Lemma saveLogs_spec (d : t) (fs : Files.t) :
  (forall c, assoc (queueDir fs) (Files.nodes fs) <> Some (Files.File c)) ->
  let dir := queueDir fs in
  let logs := map (SiapQueue.getLog true) (filter (fun q => logged q = true) (queues d)) in
  (logs = [] /\ saveLogs d fs = Normal fs)
  \/ (logs <> [] /\ exists n fs', saveLogs d fs = Normal fs'
        /\ Files.cwd fs' = Files.cwd fs
        /\ (1 <= n)%nat
        /\ assoc (Files.join dir (log_file n)) (Files.nodes fs) = None
        /\ (forall m, (1 <= m < n)%nat ->
              is_Some (assoc (Files.join dir (log_file m)) (Files.nodes fs)))
        /\ assoc (Files.join dir (log_file n)) (Files.nodes fs')
           = Some (Files.File (Files.Logs logs))
        /\ assoc dir (Files.nodes fs') = Some Files.Dir
        /\ forall p, p <> Files.join dir (log_file n) -> p <> dir ->
             assoc p (Files.nodes fs') = assoc p (Files.nodes fs)).
Proof.
  intros Hd dir logs. unfold saveLogs. rewrite saveLogs_selection. fold logs.
  destruct logs as [|lg logs'] eqn:Hlogs; [by left|]. right. split; [done|].
  rewrite <- Hlogs. fold dir.
  destruct (ensure_dir_spec dir fs Hd) as (Hdir & Hcwd & Hrest).
  set (fs1 := ensure_dir dir fs) in *.
  destruct (free_seq_total dir fs1) as [n Hn]. rewrite Hn.
  destruct (free_seq_Some _ _ _ _ _ Hn) as (Hlt & Hfree & Hleast).
  apply existsSync_false in Hfree.
  assert (Hne : forall m, Files.join dir (log_file m) <> dir).
  { intros m. apply join_ne. unfold log_file. discriminate. }
  exists n. unfold Files.writeFileSync. rewrite Hdir, Hfree. eexists.
  split; [reflexivity|]. cbn [Files.nodes Files.cwd]. split_and!.
  - done.
  - lia.
  - by rewrite <- Hrest.
  - intros m Hm. rewrite <- Hrest by done. apply existsSync_true, Hleast. lia.
  - apply assoc_assign_eq.
  - rewrite assoc_assign_ne by (intros E; by apply (Hne n)). done.
  - intros p Hp Hpd. rewrite assoc_assign_ne by done. by apply Hrest.
Qed.

(** X17: [saveLogs] writes the raw log entries of the items that are finished
    and not callbacks, in the order of their submission, to a file that did
    not exist: [queue<n>.log] for the least [n >= 1] that is free.  Nothing
    is written when there is no such item, and no other file changes.
    The directory [queue] is created when it is missing; the statement
    supposes that [queue] is not a file. *)
Theorem saveLogs_writes_new_file (d : t) (fs : Files.t) :
  (forall c, assoc (queueDir fs) (Files.nodes fs) <> Some (Files.File c)) ->
  let dir := queueDir fs in
  let logs := map (SiapQueue.getLog true) (filter (fun q => logged q = true) (queues d)) in
  match logs with
  | [] => saveLogs d fs = Normal fs
  | _ :: _ =>
      exists n fs', saveLogs d fs = Normal fs'
        /\ (1 <= n)%nat
        /\ assoc (Files.join dir (log_file n)) (Files.nodes fs) = None
        /\ (forall m, (1 <= m < n)%nat ->
              is_Some (assoc (Files.join dir (log_file m)) (Files.nodes fs)))
        /\ assoc (Files.join dir (log_file n)) (Files.nodes fs')
           = Some (Files.File (Files.Logs logs))
        /\ assoc dir (Files.nodes fs') = Some Files.Dir
        /\ forall p, p <> Files.join dir (log_file n) -> p <> dir ->
             assoc p (Files.nodes fs') = assoc p (Files.nodes fs)
  end.
Proof.
  intros Hd dir logs.
  destruct (saveLogs_spec d fs Hd) as [[Hl Hs]|[Hl (n & fs' & Hs & _ & Hrest)]].
  - fold logs in Hl. by rewrite Hl.
  - fold logs in Hl. fold dir logs in Hrest. destruct logs; [done|]. by exists n, fs'.
Qed.

(** What [saveQueue] does when [queue] is not a file and [saved.queue] is
    not a directory. *)
Lemma saveQueue_spec (d : t) (fs : Files.t) :
  (forall c, assoc (queueDir fs) (Files.nodes fs) <> Some (Files.File c)) ->
  assoc (Files.join (queueDir fs) "saved.queue") (Files.nodes fs) <> Some Files.Dir ->
  let dir := queueDir fs in
  let items := filter (fun q => to_save q = true) (queues d) in
  let recs := map (fun q => Files.mkSaved (SiapQueue.type q) (SiapQueue.id q)
                              (SiapQueue.data q) (SiapQueue.callback q)) items in
  (items = [] /\ saveQueue d fs = Normal fs)
  \/ (items <> [] /\ exists fs', saveQueue d fs = Normal fs'
        /\ Files.cwd fs' = Files.cwd fs
        /\ assoc (Files.join dir "saved.queue") (Files.nodes fs')
           = Some (Files.File (Files.Queues recs))
        /\ assoc dir (Files.nodes fs') = Some Files.Dir
        /\ forall p, p <> Files.join dir "saved.queue" -> p <> dir ->
             assoc p (Files.nodes fs') = assoc p (Files.nodes fs)).
Proof.
  intros Hd Hf dir items recs. unfold saveQueue. fold items.
  destruct items as [|it items'] eqn:Hitems; [by left|]. right. split; [done|].
  fold dir. destruct (ensure_dir_spec dir fs Hd) as (Hdir & Hcwd & Hrest).
  set (fs1 := ensure_dir dir fs) in *.
  assert (Hne : Files.join dir "saved.queue" <> dir) by (by apply join_ne).
  assert (Hf1 : assoc (Files.join dir "saved.queue") (Files.nodes fs1) <> Some Files.Dir).
  { by rewrite Hrest. }
  unfold Files.writeFileSync. rewrite Hdir.
  eexists. split.
  - destruct (assoc (Files.join dir "saved.queue") (Files.nodes fs1)) as [[|c]|];
      [done|reflexivity|reflexivity].
  - cbn [Files.nodes Files.cwd]. split_and!.
    + done.
    + apply assoc_assign_eq.
    + by rewrite assoc_assign_ne.
    + intros p Hp Hpd. rewrite assoc_assign_ne by done. by apply Hrest.
Qed.

Lemma log_path_ne dir n : Files.join dir (log_file n) <> Files.join dir "saved.queue".
Proof. intros E. apply join_inj in E. by apply log_file_not_saved in E. Qed.

Lemma log_path_ne_dir dir n : Files.join dir (log_file n) <> dir.
Proof. apply join_ne. unfold log_file. discriminate. Qed.

(** X18: At shutdown the order of [saveQueue] and [saveLogs] does not matter:
    both orders succeed and leave the same files.  [saved.queue] then holds
    the type, id, data and callback of the items that are NEW and not
    callbacks, in the order of their submission, whatever it held before;
    when there is no such item, [saved.queue] is left as it was.  The
    statement supposes that [queue] is not a file and [saved.queue] not a
    directory. *)
Theorem shutdown_order_irrelevant (d : t) (fs : Files.t) :
  (forall c, assoc (queueDir fs) (Files.nodes fs) <> Some (Files.File c)) ->
  assoc (Files.join (queueDir fs) "saved.queue") (Files.nodes fs) <> Some Files.Dir ->
  let saved := Files.join (queueDir fs) "saved.queue" in
  let items := filter (fun q => to_save q = true) (queues d) in
  let recs := map (fun q => Files.mkSaved (SiapQueue.type q) (SiapQueue.id q)
                              (SiapQueue.data q) (SiapQueue.callback q)) items in
  exists fsA fsAB fsB fsBA,
    saveQueue d fs = Normal fsA /\ saveLogs d fsA = Normal fsAB
    /\ saveLogs d fs = Normal fsB /\ saveQueue d fsB = Normal fsBA
    /\ (forall p, assoc p (Files.nodes fsAB) = assoc p (Files.nodes fsBA))
    /\ assoc saved (Files.nodes fsAB)
       = match items with
         | [] => assoc saved (Files.nodes fs)
         | _ :: _ => Some (Files.File (Files.Queues recs))
         end.
Proof.
  intros Hd Hf saved items recs.
  set (dir := queueDir fs) in *.
  (* saveQueue, then saveLogs *)
  destruct (saveQueue_spec d fs Hd Hf) as [[Hi HA]|[Hi (fsA & HA & HcA & HsA & HdA & HrA)]];
    fold items in Hi; fold dir in HA.
  - (* nothing to save *)
    destruct (saveLogs_spec d fs Hd)
      as [[Hl HB]|[Hl (n & fsB & HB & HcB & Hn & Hfree & Hleast & HlB & HdB & HrB)]].
    + exists fs, fs, fs, fs. rewrite Hi. by split_and!.
    + fold dir in Hfree, Hleast, HlB, HdB, HrB.
      assert (HdB' : forall c, assoc (queueDir fsB) (Files.nodes fsB) <> Some (Files.File c)).
      { intros c. unfold queueDir. rewrite HcB. fold (queueDir fs). fold dir.
        by rewrite HdB. }
      exists fs, fsB, fsB, fsB. rewrite Hi. split_and!; try done.
      * unfold saveQueue. fold items. by rewrite Hi.
      * apply HrB; [|by apply join_ne]. intros E. symmetry in E.
        by apply log_path_ne in E.
  - (* some items are saved *)
    fold dir recs in HsA, HdA, HrA. fold saved in HsA, HrA.
    assert (HqA : queueDir fsA = dir) by (unfold queueDir; by rewrite HcA).
    assert (HdA' : forall c, assoc (queueDir fsA) (Files.nodes fsA) <> Some (Files.File c)).
    { intros c. by rewrite HqA, HdA. }
    destruct (saveLogs_spec d fsA HdA')
      as [[Hl HAB]|[Hl (n & fsAB & HAB & HcAB & Hn & Hfree & Hleast & HlAB & HdAB & HrAB)]].
    + (* nothing to log *)
      destruct (saveLogs_spec d fs Hd) as [[_ HB]|[Hl' _]]; [|done].
      exists fsA, fsA, fs, fsA. split_and!; try done.
      rewrite HsA. subst recs items. by destruct (filter _ _).
    + rewrite HqA in Hfree, Hleast, HlAB, HdAB, HrAB.
      destruct (saveLogs_spec d fs Hd)
        as [[Hl' _]|[_ (n' & fsB & HB & HcB & Hn' & Hfree' & Hleast' & HlB & HdB & HrB)]];
        [done|].
      fold dir in Hfree', Hleast', HlB, HdB, HrB.
      assert (Hsame : forall m, assoc (Files.join dir (log_file m)) (Files.nodes fsA)
                                = assoc (Files.join dir (log_file m)) (Files.nodes fs)).
      { intros m. apply HrA; [apply log_path_ne|apply log_path_ne_dir]. }
      assert (Enn : n' = n).
      { destruct (Nat.lt_trichotomy n' n) as [Hlt|[?|Hlt]]; [|done|].
        - destruct (Hleast n' ltac:(lia)) as [v Hv]. rewrite Hsame in Hv. congruence.
        - destruct (Hleast' n ltac:(lia)) as [v Hv]. rewrite <- Hsame in Hv. congruence. }
      subst n'.
      assert (HqB : queueDir fsB = dir) by (unfold queueDir; by rewrite HcB).
      assert (HdB' : forall c, assoc (queueDir fsB) (Files.nodes fsB) <> Some (Files.File c)).
      { intros c. by rewrite HqB, HdB. }
      assert (HfB : assoc (Files.join (queueDir fsB) "saved.queue") (Files.nodes fsB)
                    <> Some Files.Dir).
      { rewrite HqB. rewrite HrB; [done| |by apply join_ne].
        intros E. symmetry in E. by apply log_path_ne in E. }
      destruct (saveQueue_spec d fsB HdB' HfB)
        as [[Hi' _]|[_ (fsBA & HBA & HcBA & HsBA & HdBA & HrBA)]]; [done|].
      rewrite HqB in HsBA, HdBA, HrBA. fold recs saved in HsBA, HrBA.
      exists fsA, fsAB, fsB, fsBA. split_and!; try done.
      * intros p.
        destruct (decide (p = Files.join dir (log_file n))) as [->|Hp1].
        { rewrite HlAB. rewrite HrBA; [by rewrite HlB|apply log_path_ne|apply log_path_ne_dir]. }
        destruct (decide (p = dir)) as [->|Hp2]; [by rewrite HdAB, HdBA|].
        rewrite (HrAB p) by done.
        destruct (decide (p = saved)) as [->|Hp3]; [by rewrite HsA, HsBA|].
        rewrite (HrA p), (HrBA p), (HrB p) by done. done.
      * rewrite HrAB; [|intros E; symmetry in E; by apply log_path_ne in E|by apply join_ne].
        rewrite HsA. subst recs items. by destruct (filter _ _).
Qed.

(** X19: At shutdown, an item that is not a callback is kept by [saveQueue] when
    it is NEW, its log entry is written by [saveLogs] when it is finished,
    and neither happens when it is PROCESSING: such an item is neither saved
    for the next run nor logged.  Callbacks are neither saved nor logged. *)
Theorem shutdown_keeps_or_logs (raw : bool) (q : SiapQueue.t) :
  (to_save q = true
   <-> SiapQueue.type q <> SiapQueue.QUEUE_CALLBACK
       /\ SiapQueue.status q = SiapQueue.STATUS_NEW)
  /\ (to_log (SiapQueue.getLog raw q) = true
      <-> SiapQueue.type q <> SiapQueue.QUEUE_CALLBACK /\ SiapQueue.finished q = true)
  /\ (to_save q = false /\ to_log (SiapQueue.getLog raw q) = false
      <-> SiapQueue.type q = SiapQueue.QUEUE_CALLBACK
          \/ SiapQueue.status q = SiapQueue.STATUS_PROCESSING).
Proof.
  rewrite to_log_getLog. unfold to_save, logged, SiapQueue.finished.
  destruct (String.eqb (SiapQueue.type q) SiapQueue.QUEUE_CALLBACK) eqn:E; simpl.
  - apply String.eqb_eq in E. split_and!; split; try tauto; try done;
      try (by intros [? _]).
  - apply String.eqb_neq in E.
    destruct (SiapQueue.status q); simpl; split_and!; split;
      try tauto; try done; try (intros [? ?]; done); try (intros [?|?]; done).
Qed.

End SaveFacts.

(** ** The dispatcher: what happens to the other items *)

(** A relation that the updates of the items other than [r] satisfy is
    satisfied by every operation that does not act on [r]: the runner while
    [r] is not pending, and the settlement of the promises of the other
    items. *)
Section ItemInduction.
Context `{Host} {C : Type} `{Consumer C}.
Import SiapDequeue.
Local Abbreviation t := (SiapDequeue.t C).
Implicit Types (d : t) (q : SiapQueue.t).

Variable r : nat.
Variable R : t -> t -> Prop.
Hypothesis R_refl : forall d, R d d.
Hypothesis R_trans : forall d1 d2 d3, R d1 d2 -> R d2 d3 -> R d1 d3.
Hypothesis R_pending : forall d d', R d d' -> r ∉ pending d -> r ∉ pending d'.
(* doit *)
Hypothesis R_start : forall now r' d, r' <> r -> R d (call r' (SiapQueue.start now) d).
Hypothesis R_qstart : forall r' d, r' <> r -> R d (emit (QueueStart r') d).
Hypothesis R_process : forall r' d, r' <> r -> R d (emit (ProcessQueue r') d).
Hypothesis R_print : forall l d, R d (print l d).
Hypothesis R_await : forall p d, owner p <> r -> R d (await p d).
Hypothesis R_consumer : forall c d, R d (with_consumer c d).
(* the runner *)
Hypothesis R_pop : forall r' rest d, r' <> r -> pending d = r' :: rest ->
  R d (emit (Dispatch r') (with_queue (Queue.mkRunner rest true) d)).
Hypothesis R_release : forall d, R d (with_queue (Queue.mkRunner (pending d) false) d).
(* success, fail and retry *)
Hypothesis R_done : forall res r' d, r' <> r -> R d (call r' (SiapQueue.done res) d).
Hypothesis R_error : forall err r' d, r' <> r -> R d (call r' (SiapQueue.error err) d).
Hypothesis R_last : forall r' d, R d (setLastQueue r' d).
Hypothesis R_qdone : forall r' d, r' <> r -> R d (emit (QueueDone r') d).
Hypothesis R_resolved : forall r' res d, r' <> r ->
  R d (emit (QueueDone r') (emit (Resolve r' res) d)).
Hypothesis R_qerror : forall r' d, r' <> r -> R d (emit (QueueError r') d).
Hypothesis R_rejected : forall r' err d, r' <> r ->
  R d (emit (QueueError r') (emit (Reject r' err) d)).
Hypothesis R_count : forall r' q n d, r' <> r -> queues d !! r' = Some q ->
  R d (with_queues (<[r' := SiapQueue.with_retryCount (Some n) q]> (queues d)) d).

Section Closures.
Context (now : Z) (next : t -> t).
Hypothesis next_R : forall d, r ∉ pending d -> R d (next d).

Lemma fault_item e d : r ∉ pending d -> R d (fault next e d).
Proof.
  intros Hp. unfold fault. eapply R_trans; [apply R_print|]. apply next_R.
  by eapply R_pending; [apply R_print|].
Qed.

Lemma doit_item r' d : r' <> r -> r ∉ pending d -> R d (doit now next r' d).
Proof.
  intros Hne Hp. unfold doit. destruct (queues d !! r') as [q|]; [|apply R_refl].
  destruct (decide _); [|by apply next_R].
  set (d1 := call r' (SiapQueue.start now) d).
  assert (H1 : R d d1) by (by apply R_start).
  set (d2 := emit (QueueStart r') d1).
  assert (H2 : R d d2) by (eapply R_trans; [exact H1|by apply R_qstart]).
  assert (Hp2 : r ∉ pending d2) by (by eapply R_pending).
  destruct (consumer d2) as [c|];
    [|eapply R_trans; [exact H2|by apply fault_item]].
  destruct (queues d2 !! r') as [q2|];
    [|eapply R_trans; [exact H2|by apply fault_item]].
  destruct (processQueue c q2) as [c'|e];
    [|eapply R_trans; [exact H2|by apply fault_item]].
  set (d3 := await _ _).
  assert (H3 : R d d3).
  { eapply R_trans; [exact H2|]. eapply R_trans; [apply (R_consumer (Some c'))|].
    eapply R_trans; [by apply (R_process r')|]. by apply R_await. }
  assert (Hp3 : r ∉ pending d3) by (by eapply R_pending).
  destruct (getNext d3) as [nr|]; [|done].
  destruct (queues d3 !! nr) as [nq|]; [|done].
  destruct (_ && _); [|done].
  eapply R_trans; [exact H3|by apply next_R].
Qed.

Lemma doQueue_item r' d : r' <> r -> r ∉ pending d -> R d (doQueue now next r' d).
Proof.
  intros. unfold doQueue. destruct (consumer d); [by apply doit_item|apply R_refl].
Qed.

Lemma success_item res r' d : r' <> r -> r ∉ pending d -> R d (success next res r' d).
Proof.
  intros Hne Hp. unfold success.
  set (d2 := setLastQueue r' (call r' (SiapQueue.done res) d)).
  assert (H2 : R d d2).
  { eapply R_trans; [by apply (R_done res r')|apply R_last]. }
  set (d4 := emit (QueueDone r') _).
  assert (H4 : R d d4).
  { eapply R_trans; [exact H2|]. unfold d4.
    destruct (queues d2 !! r') as [q|]; [|by apply R_qdone].
    destruct (SiapQueue.resolve q); [by apply R_resolved|by apply R_qdone]. }
  eapply R_trans; [exact H4|]. apply next_R. by eapply R_pending.
Qed.

Lemma fail_item err r' d : r' <> r -> r ∉ pending d -> R d (fail next err r' d).
Proof.
  intros Hne Hp. unfold fail.
  set (d2 := setLastQueue r' (call r' (SiapQueue.error err) d)).
  assert (H2 : R d d2).
  { eapply R_trans; [by apply (R_error err r')|apply R_last]. }
  set (d4 := emit (QueueError r') _).
  assert (H4 : R d d4).
  { eapply R_trans; [exact H2|]. unfold d4.
    destruct (queues d2 !! r') as [q|]; [|by apply R_qerror].
    destruct (SiapQueue.reject q); [by apply R_rejected|by apply R_qerror]. }
  eapply R_trans; [exact H4|]. apply next_R. by eapply R_pending.
Qed.

Lemma retry_step_item err r' d : r' <> r -> r ∉ pending d -> R d (retry_ now next err r' d).
Proof.
  intros Hne Hp. unfold retry_. destruct (queues d !! r') as [q|] eqn:Hq; [|apply R_refl].
  set (n := (default 0 (SiapQueue.retryCount q) + 1)%nat).
  set (d1 := with_queues _ d).
  assert (H1 : R d d1) by (by apply (R_count r' q n d)).
  assert (Hp1 : r ∉ pending d1) by (by eapply R_pending).
  destruct (_ && _); [|eapply R_trans; [exact H1|by apply fail_item]].
  set (d2 := print _ d1).
  assert (H2 : R d d2) by (eapply R_trans; [exact H1|apply R_print]).
  assert (Hp2 : r ∉ pending d2) by (by eapply R_pending).
  destruct (SiapQueue.onretry _).
  - eapply R_trans; [exact H2|]. by apply R_await.
  - eapply R_trans; [exact H2|by apply doit_item].
Qed.

End Closures.

Lemma next_fuel_item f now d : r ∉ pending d -> R d (next_fuel f now d).
Proof.
  revert d. induction f as [|f IH]; intros d Hp; [apply R_refl|].
  cbn [next_fuel]. unfold Queue.next.
  destruct (Queue.active (queue d)); [apply R_refl|].
  destruct (negb (canProcess d)); [apply R_refl|].
  destruct (Queue.queues (queue d)) as [|r' rest] eqn:Hq; [apply R_refl|].
  assert (Hne : r' <> r).
  { intros ->. apply Hp. unfold pending. rewrite Hq. by left. }
  set (d1 := emit (Dispatch r') (with_queue (Queue.mkRunner rest true) d)).
  assert (H1 : R d d1) by (by apply R_pop).
  assert (Hp1 : r ∉ pending d1) by (by eapply R_pending).
  set (d2 := doQueue now (next_fuel f now) r' d1).
  assert (H2 : R d d2).
  { eapply R_trans; [exact H1|]. by apply doQueue_item. }
  eapply R_trans; [exact H2|]. apply R_release.
Qed.

Lemma next_item now d : r ∉ pending d -> R d (next now d).
Proof. apply next_fuel_item. Qed.

(** The settlement of a promise of another item, or of the [ontimeout]
    hook of [r]. *)
Lemma settle_item now p s d :
  owner p <> r \/ p = POnTimeout r -> r ∉ pending d -> R d (settle now p s d).
Proof.
  intros Ho Hp. destruct p as [r'|r'|r'], s as [v|err]; simpl in *;
    try (by apply next_item);
    (assert (Hne : r' <> r) by (by destruct Ho));
    auto using success_item, retry_step_item, doit_item, fail_item, next_item.
Qed.

End ItemInduction.

Section AsideFacts.
Context `{Host} {C : Type} `{Consumer C}.
Import SiapDequeue SiapQueue.
Local Abbreviation t := (SiapDequeue.t C).
Implicit Types (d : t) (r : nat) (q : SiapQueue.t).

Lemma aside_refl r d : aside r d d.
Proof.
  split_and!; try done. intros q Hq. exists q.
  split_and!; [done|reflexivity|done|done|done|by left].
Qed.

Lemma aside_trans r d1 d2 d3 : aside r d1 d2 -> aside r d2 d3 -> aside r d1 d3.
Proof.
  intros (A1 & A2 & A3 & A4 & A5) (B1 & B2 & B3 & B4 & B5).
  split_and!; [|auto|auto|auto|congruence].
  intros q Hq. destruct (A1 q Hq) as (q2 & Hq2 & Hf2 & Hr2 & Hc2 & Ht2 & Hs2).
  destruct (B1 q2 Hq2) as (q3 & Hq3 & Hf3 & Hr3 & Hc3 & Ht3 & Hs3).
  exists q3. split_and!; [done|by etrans|congruence|congruence|congruence|].
  destruct Hs2 as [Hs2|[[Hs2 Hs2']|[Hs2 Hs2']]],
           Hs3 as [Hs3|[[Hs3 Hs3']|[Hs3 Hs3']]];
    first [left; congruence | right; left; split; congruence
          | right; right; split; congruence].
Qed.

Lemma aside_pending r d d' : aside r d d' -> r ∉ pending d -> r ∉ pending d'.
Proof. intros (_ & _ & A3 & _). exact A3. Qed.

(** An update that leaves the item [r] as it is. *)
Lemma aside_same r d d' :
  queues d' !! r = queues d !! r ->
  length (queues d') = length (queues d) ->
  (r ∉ busy (inflight d) -> r ∉ busy (inflight d')) ->
  (r ∉ pending d -> r ∉ pending d') ->
  events_of r (trace d') = events_of r (trace d) ->
  aside r d d'.
Proof.
  intros Hq Hl Hb Hp He. split_and!; try done; [|by rewrite Hl].
  intros q Hr. exists q. rewrite Hq.
  split_and!; [done|reflexivity|done|done|done|by left].
Qed.

Lemma aside_call r r' m d : r' <> r -> aside r d (call r' m d).
Proof.
  intros Hne. pose proof (call_rest r' m d) as (Hqu & Hin & Htr & _).
  apply aside_same; rewrite ?Hin, ?Htr; try done.
  - by apply call_lookup_ne.
  - apply call_length.
  - unfold pending. by rewrite Hqu.
Qed.

Lemma events_of_app r tr1 tr2 :
  events_of r (tr1 ++ tr2) = (events_of r tr1 ++ events_of r tr2)%list.
Proof. unfold events_of. apply filter_app. Qed.

Lemma aside_emit r e d : concerns r e = false -> aside r d (emit e d).
Proof.
  intros He. apply aside_same; try done. simpl. rewrite events_of_app.
  unfold events_of at 2. rewrite filter_cons_False by (by rewrite He).
  by rewrite filter_nil, app_nil_r.
Qed.

Lemma concerns_ne r r' : r' <> r -> (r =? r')%nat = false.
Proof. intros Hne. apply Nat.eqb_neq. congruence. Qed.

Lemma aside_emit2 r e1 e2 d :
  concerns r e1 = false -> concerns r e2 = false -> aside r d (emit e2 (emit e1 d)).
Proof.
  intros H1 H2. eapply aside_trans; by apply aside_emit.
Qed.

Lemma aside_await r p d : owner p <> r -> aside r d (await p d).
Proof.
  intros Ho. apply aside_same; try done. simpl. rewrite busy_app.
  intros Hb [Hin|Hin]%elem_of_app; [done|].
  destruct p; simpl in *; inlist; apply list_elem_of_singleton in Hin; congruence.
Qed.

Lemma aside_await_timeout r r' d : aside r d (await (POnTimeout r') d).
Proof.
  apply aside_same; try done. simpl. rewrite busy_app. simpl. by rewrite app_nil_r.
Qed.

Lemma aside_remove r p d : aside r d (with_inflight (remove p (inflight d)) d).
Proof.
  apply aside_same; try done. simpl. intros Hb Hin. apply Hb.
  eapply elem_of_sublist; [exact Hin|apply busy_remove_sublist].
Qed.

Lemma aside_last r r' d : aside r d (setLastQueue r' d).
Proof.
  pose proof (setLastQueue_rest r' d) as (Hq & Hp & Hi & Ht & _).
  apply aside_same; rewrite ?Hq, ?Hi, ?Ht; try done. unfold pending. by rewrite Hp.
Qed.

Lemma aside_count r r' q n d :
  r' <> r -> queues d !! r' = Some q ->
  aside r d (with_queues (<[r' := with_retryCount (Some n) q]> (queues d)) d).
Proof.
  intros Hne Hq. apply aside_same; try done; simpl.
  - by apply list_lookup_insert_ne.
  - apply length_insert.
Qed.

Lemma aside_pop r r' rest d :
  r' <> r -> pending d = r' :: rest ->
  aside r d (emit (Dispatch r') (with_queue (Queue.mkRunner rest true) d)).
Proof.
  intros Hne Hp. apply aside_same; try done.
  - unfold pending at 2. simpl. rewrite Hp. intros Hn Hin. apply Hn. by right.
  - simpl. rewrite events_of_app. unfold events_of at 2.
    rewrite filter_cons_False by (simpl; by rewrite concerns_ne).
    by rewrite filter_nil, app_nil_r.
Qed.

Lemma aside_release r d : aside r d (with_queue (Queue.mkRunner (pending d) false) d).
Proof. by apply aside_same. Qed.

(** The poll loop declares the item [r'] TIMED_OUT. *)
Lemma aside_timeout r r' d :
  status_in d r' [STATUS_PROCESSING] ->
  aside r d (call r' (setStatus STATUS_TIMED_OUT) d).
Proof.
  intros (q' & Hq' & Hs'). destruct (decide (r' = r)) as [->|Hne]; [|by apply aside_call].
  pose proof (call_rest r (setStatus STATUS_TIMED_OUT) d) as (Hqu & Hin & Htr & _).
  split_and!; rewrite ?Hin, ?Htr; try done.
  - intros q Hq. assert (q = q') by congruence. subst q'.
    exists (setStatus STATUS_TIMED_OUT q).1.
    destruct (setStatus_others STATUS_TIMED_OUT q) as (Hr & Ht & Hc).
    split_and!; [by apply call_lookup|apply setStatus_fields|done|done|done|].
    right. left. split; [|apply setStatus_status]. inlist.
  - unfold pending. by rewrite Hqu.
  - by rewrite call_length.
Qed.

Lemma next_aside now r d : r ∉ pending d -> aside r d (next now d).
Proof.
  apply (next_item r (aside r));
    try exact (aside_refl r); try exact (aside_trans r); try exact (aside_pending r);
    try exact (aside_release r);
    intros;
    first [ by apply aside_call | by apply aside_await | by apply aside_pop
          | apply aside_emit; simpl; by apply concerns_ne
          | by apply aside_same ].
Qed.

Lemma settle_aside now r p s d :
  owner p <> r \/ p = POnTimeout r -> r ∉ pending d -> aside r d (settle now p s d).
Proof.
  apply (settle_item r (aside r));
    try exact (aside_refl r); try exact (aside_trans r); try exact (aside_pending r);
    try exact (aside_release r); try exact (aside_last r);
    intros;
    first [ by apply aside_call | by apply aside_await | by apply aside_pop
          | by apply aside_count
          | apply aside_emit; simpl; by apply concerns_ne
          | apply aside_emit2; simpl; by apply concerns_ne
          | by apply aside_same ].
Qed.

Lemma poll_aside now r d : r ∉ pending d -> aside r d (poll now d).
Proof.
  intros Hp. unfold poll. destruct (list_find _ _) as [[r' q]|] eqn:Hfind.
  - destruct (find_processing d r' q Hfind) as [Hq Hs].
    destruct (time q); [|by apply aside_same].
    destruct (_ && _); [|apply aside_refl].
    assert (H1 : aside r d (call r' (setStatus STATUS_TIMED_OUT) d)).
    { apply aside_timeout. exists q. split; [done|]. rewrite Hs. left. }
    eapply aside_trans; [exact H1|].
    destruct (ontimeout q); [apply aside_await_timeout|].
    apply next_aside. by eapply aside_pending.
  - destruct (queues d); [apply aside_refl|by apply next_aside].
Qed.

(** Every input leaves aside an item that is not pending and not NEW,
    unless the input settles the consumer call or the [onretry] hook of the
    item. *)
Lemma step_aside_gen i r d d' q :
  Inv d -> queues d !! r = Some q -> status q <> STATUS_NEW -> r ∉ pending d ->
  (forall now p s, i = Settle now p s -> owner p <> r \/ p = POnTimeout r) ->
  step i d = Some d' -> aside r d d'.
Proof.
  intros Hi Hq Hst Hp Hown.
  assert (Hlt : (r < length (queues d))%nat) by (by eapply lookup_lt_Some).
  destruct i as [now q0|now c|inf|now|now p s|r0|c]; simpl.
  - destruct (decide _); [|done]. intros [= <-]. unfold add. cbn [snd].
    set (d2 := with_queue _ _).
    assert (H2 : aside r d d2).
    { split_and!; try done; simpl.
      - intros q1 Hq1. exists q1. rewrite lookup_app_l by done.
        split_and!; [done|reflexivity|done|done|done|by left].
      - intros _. unfold pending. simpl. unfold Queue.requeue.
        destruct (String.eqb _ _); simpl;
          rewrite ?elem_of_cons, ?elem_of_app, ?list_elem_of_singleton;
          intros [Hx|Hx]; first [done|lia].
      - intros _. rewrite length_app. simpl. lia. }
    eapply aside_trans; [exact H2|]. apply next_aside. by eapply aside_pending.
  - intros [= <-]. unfold setConsumer. destruct c as [c|]; [|by apply aside_same].
    eapply aside_trans; [|by apply poll_aside]. by apply aside_same.
  - intros [= <-]. by apply aside_same.
  - destruct (polling d); [|done]. intros [= <-]. by apply poll_aside.
  - destruct (decide _) as [Hin|]; [|done]. intros [= <-].
    eapply aside_trans; [apply (aside_remove r p)|]. apply settle_aside; [|done].
    by apply (Hown now p s).
  - destruct (queues d !! r0) as [q0|] eqn:Hq0; [|done].
    destruct (decide _) as [Hnew|]; [|done]. intros [= <-].
    apply aside_call. intros ->. assert (q0 = q) by congruence. by subst.
  - destruct (consumer d); [|done]. intros [= <-]. by apply aside_same.
Qed.

(** Every input leaves aside an item that has been started and has no
    consumer call and no [onretry] hook in flight. *)
Lemma step_aside i r d d' :
  Inv d ->
  status_in d r [STATUS_PROCESSING; STATUS_TIMED_OUT; STATUS_DONE; STATUS_ERROR] ->
  r ∉ busy (inflight d) -> step i d = Some d' -> aside r d d'.
Proof.
  intros Hi (q & Hq & Hst) Hb Hs.
  assert (Hp : r ∉ pending d).
  { intros Hin. destruct (inv_pending d Hi r Hin) as (q' & Hq' & Hs').
    assert (q' = q) by congruence. subst. inlist. }
  apply (step_aside_gen i r d d' q); try done.
  - intros E. rewrite E in Hst. inlist.
  - intros now p s ->. simpl in Hs. destruct (decide _) as [Hin|]; [|done].
    destruct p as [r'|r'|r']; simpl; [left|left|].
    + intros ->. apply Hb. by eapply busy_owner; [left|].
    + intros ->. apply Hb. by eapply busy_owner; [right|].
    + destruct (decide (r' = r)) as [->|]; [by right|by left].
Qed.

End AsideFacts.

(** ** The dispatcher: items that are abandoned, items that are not started *)

Section AbandonFacts.
Context `{Host} {C : Type} `{Consumer C}.
Import SiapDequeue SiapQueue.
Local Abbreviation t := (SiapDequeue.t C).
Implicit Types (d : t) (r : nat) (q : SiapQueue.t).

Lemma run_aside l r d d' :
  Inv d ->
  status_in d r [STATUS_PROCESSING; STATUS_TIMED_OUT; STATUS_DONE; STATUS_ERROR] ->
  r ∉ busy (inflight d) -> run l d = Some d' -> aside r d d'.
Proof.
  revert d. induction l as [|i l IH]; intros d Hi Hst Hb; simpl;
    [intros [= <-]; apply aside_refl|].
  destruct (step i d) as [d1|] eqn:Hs; [|done]. intros Hr.
  pose proof (step_aside i r d d1 Hi Hst Hb Hs) as Ha.
  destruct (step_ok i d d1 Hi Hs) as [Hi1 _].
  eapply aside_trans; [exact Ha|]. apply IH; try done.
  - destruct Hst as (q & Hq & Hsq). destruct Ha as (A1 & _).
    destruct (A1 q Hq) as (q' & Hq' & _ & _ & _ & _ & Hs').
    exists q'. split; [done|].
    destruct Hs' as [Hs'|[[_ Hs']|[_ Hs']]]; rewrite Hs'; [done|is_in|is_in].
  - by apply Ha.
Qed.

(** X20: An item that is PROCESSING or TIMED_OUT while no consumer call and no
    [onretry] hook of the item is in flight stays so: whatever happens
    next, no event of the item is emitted (it is not signalled done or in
    error, its submitter is not answered, the consumer is not called for it
    again), its result and its retry count do not change, and its status
    changes at most from PROCESSING to TIMED_OUT. *)
Theorem abandoned_item_never_settled (l l' : list (Input C)) (t0 : Z) (d d' : t)
    (r : nat) (q : SiapQueue.t) :
  run l (new t0) = Some d ->
  queues d !! r = Some q ->
  status q ∈ [STATUS_PROCESSING; STATUS_TIMED_OUT] ->
  r ∉ busy (inflight d) ->
  run l' d = Some d' ->
  exists q', queues d' !! r = Some q'
    /\ status q' ∈ [STATUS_PROCESSING; STATUS_TIMED_OUT]
    /\ result q' = result q /\ retryCount q' = retryCount q
    /\ (r ∉ busy (inflight d'))
    /\ events_of r (trace d') = events_of r (trace d).
Proof.
  intros Hr Hq Hst Hb Hr'.
  destruct (run_Inv l (new t0) d (new_Inv t0) Hr) as [Hi _].
  assert (Hin : status_in d r [STATUS_PROCESSING; STATUS_TIMED_OUT; STATUS_DONE; STATUS_ERROR]).
  { exists q. split; [done|]. apply elem_of_cons in Hst as [->|Hst]; [is_in|].
    apply list_elem_of_singleton in Hst as ->. is_in. }
  destruct (run_aside l' r d d' Hi Hin Hb Hr') as (A1 & A2 & _ & _ & A5).
  destruct (A1 q Hq) as (q' & Hq' & _ & Hres & Hcnt & _ & Hs').
  exists q'. split_and!; try done; [|by apply A2].
  destruct Hs' as [Hs'|[[_ Hs']|[_ Hs']]]; rewrite Hs'; [done|is_in|is_in].
Qed.

(** An item of which every field is the same. *)
Lemma same_item q q' :
  same_fields q q' -> status q' = status q -> result q' = result q ->
  time q' = time q -> retryCount q' = retryCount q -> q' = q.
Proof.
  intros (H1 & H2 & H3 & H4 & H5 & H6 & H7 & H8 & H9 & H10 & H11) Hs Hr Ht Hc.
  destruct q, q'. simpl in *. by subst.
Qed.

(** X24: As long as the callbacks that [success] calls ([queue.resolve], the
    listeners of [queue-done]) return, an item that is DONE or in ERROR is
    final: whatever happens next, the item does not change any more (its
    status, its result, its start time and its retry count stay), the
    consumer is not called for it again, and no event of the item is
    emitted: it is not signalled twice and its submitter is not answered
    again. *)
Theorem finished_item_is_final (l l' : list (Turn C)) (t0 : Z) (d d' : t)
    (r : nat) (q : SiapQueue.t) :
  turns l (new t0) = Some d ->
  Forall (fun o => regular o = true) l ->
  queues d !! r = Some q ->
  status q ∈ [STATUS_DONE; STATUS_ERROR] ->
  turns l' d = Some d' ->
  Forall (fun o => regular o = true) l' ->
  queues d' !! r = Some q
  /\ (r ∉ busy (inflight d'))
  /\ (r ∉ pending d')
  /\ events_of r (trace d') = events_of r (trace d).
Proof.
  intros Hr Hl Hq Hst Hr' Hl'.
  rewrite (turns_regular l _ Hl) in Hr. rewrite (turns_regular l' _ Hl') in Hr'.
  destruct (run_Inv _ (new t0) d (new_Inv t0) Hr) as [Hi _].
  assert (Hb : r ∉ busy (inflight d)).
  { intros Hin. destruct (inv_busy d Hi r Hin) as (q0 & Hq0 & Hs0).
    assert (q0 = q) by congruence. subst. inlist. }
  assert (Hp : r ∉ pending d).
  { intros Hin. destruct (inv_pending d Hi r Hin) as (q0 & Hq0 & Hs0).
    assert (q0 = q) by congruence. subst. inlist. }
  assert (Hin : status_in d r [STATUS_PROCESSING; STATUS_TIMED_OUT; STATUS_DONE; STATUS_ERROR]).
  { exists q. split; [done|]. apply elem_of_cons in Hst as [->|Hst]; [is_in|].
    apply list_elem_of_singleton in Hst as ->. is_in. }
  destruct (run_aside _ r d d' Hi Hin Hb Hr') as (A1 & A2 & A3 & _ & A5).
  destruct (A1 q Hq) as (q' & Hq' & Hf & Hres & Hcnt & Htime & Hs').
  assert (Hsame : status q' = status q).
  { destruct Hs' as [Hs'|[[Hs' _]|[Hs' _]]]; [done|rewrite Hs' in Hst; inlist..]. }
  rewrite Hq'. split_and!; [|by apply A2|by apply A3|done].
  f_equal. by apply same_item.
Qed.

(** *** A consumer that throws *)

(** When [processQueue] throws, [doit] prints the error and calls
    [next()]: the item has been started and no promise is awaited for it. *)
Lemma next_fault now d r rest q c e :
  Queue.active (queue d) = false -> consumer d = Some c -> canProcessQueue c = true ->
  pending d = r :: rest -> queues d !! r = Some q ->
  status q <> STATUS_SKIPPED ->
  processQueue c (start now q).1 = Throw e ->
  next now d
  = mkDequeue (SiapDequeue.info d) (SiapDequeue.time d) (<[r := (start now q).1]> (queues d))
      (Queue.mkRunner rest false) (timeout d) (SiapDequeue.retry d) (Some c) (last d)
      (inflight d) (polling d)
      (trace d ++ [Dispatch r; QueueStart r])
      (console d ++ (start now q).2 ++ [LogFault e]).
Proof.
  intros Ha Hc Hready Hp Hq Hskip Hproc.
  unfold next. rewrite (next_fuel_enough 1). cbn [next_fuel]. unfold Queue.next.
  unfold pending in Hp. rewrite Ha. unfold canProcess. rewrite Hc, Hready, Hp.
  cbn [negb].
  set (d0 := emit (Dispatch r) (with_queue (Queue.mkRunner rest true) d)).
  assert (Hq0 : queues d0 !! r = Some q) by exact Hq.
  assert (Hc0 : consumer d0 = Some c) by exact Hc.
  unfold doQueue. rewrite Hc0. unfold doit. rewrite Hq0.
  destruct (decide _) as [_|Hn]; [|by destruct Hn].
  set (d1 := call r (start now) d0).
  assert (Hq1 : queues d1 !! r = Some (start now q).1) by (by apply call_lookup).
  assert (Hc1 : consumer d1 = Some c).
  { unfold d1. by rewrite (proj1 (proj2 (proj2 (proj2 (call_rest r (start now) d0))))). }
  assert (Hd1 : d1 = with_console (console d0 ++ (start now q).2)
                       (with_queues (<[r := (start now q).1]> (queues d0)) d0)).
  { unfold d1, call. by rewrite Hq0. }
  cbn [consumer emit with_trace queues]. rewrite Hc1, Hq1, Hproc.
  unfold fault. cbn [next_fuel]. rewrite Hd1. unfold with_queue. simpl.
  f_equal; by rewrite <- ?app_assoc.
Qed.

(** X21: At a run of the poll loop that finds no PROCESSING item, a ready
    consumer and a waiting item, if [processQueue] throws for the item
    instead of returning a promise, the item is left PROCESSING with no
    call in flight: it has left the pending list, its dispatch and
    [queue-start] are in the trace, the error is printed, and what else the
    run does is no event of the item: neither [queue-done] nor
    [queue-error] is emitted for it.  When no other item waits, the run
    does nothing else. *)
Theorem throwing_consumer_leaves_processing (l : list (Input C)) (t0 now : Z) (d : t)
    (r : nat) (rest : list nat) (q : SiapQueue.t) (c : C) (e : string) :
  run l (new t0) = Some d ->
  polling d = true ->
  Forall (fun x => status x <> STATUS_PROCESSING) (queues d) ->
  consumer d = Some c -> canProcessQueue c = true ->
  pending d = r :: rest ->
  queues d !! r = Some q -> status q = STATUS_NEW ->
  processQueue c (start now q).1 = Throw e ->
  exists d', step (Tick now) d = Some d'
    /\ queues d' !! r = Some (start now q).1
    /\ status (start now q).1 = STATUS_PROCESSING
    /\ (r ∉ busy (inflight d'))
    /\ (r ∉ pending d')
    /\ (exists tail,
          trace d' = (trace d ++ [Dispatch r; QueueStart r] ++ tail)%list
          /\ events_of r tail = [])
    /\ (exists more,
          console d' = (console d ++ (start now q).2 ++ [LogFault e] ++ more)%list)
    /\ (rest = [] ->
          pending d' = []
          /\ trace d' = (trace d ++ [Dispatch r; QueueStart r])%list
          /\ console d' = (console d ++ (start now q).2 ++ [LogFault e])%list).
Proof.
  intros Hr Hpoll Hnone Hc Hready Hp Hq Hnew Hproc.
  destruct (run_Inv l (new t0) d (new_Inv t0) Hr) as [Hi _].
  exists (poll now d). simpl. rewrite Hpoll. split; [done|].
  assert (Hfind : list_find (fun x => is_processing x = true) (queues d) = None).
  { apply list_find_None. eapply Forall_impl; [exact Hnone|].
    intros x Hx Hpx. apply Hx. unfold is_processing in Hpx.
    by apply bool_decide_eq_true in Hpx. }
  assert (Hpo : poll now d = next now d).
  { unfold poll. rewrite Hfind. destruct (queues d); [done|done]. }
  rewrite Hpo.
  rewrite (next_fault now d r rest q c e); try done;
    [|by eapply reachable_idle|by rewrite Hnew].
  cbn [queues inflight trace console pending queue Queue.queues].
  split_and!; try done.
  - apply list_lookup_insert_eq. by eapply lookup_lt_Some.
  - apply start_status.
  - apply (pending_not_busy d r Hi). rewrite Hp. left.
  - pose proof (inv_pending_nodup d Hi) as Hnd. rewrite Hp in Hnd.
    by apply NoDup_cons in Hnd as [Hnd _].
  - exists []. simpl. rewrite ?app_nil_r. done.
  - exists []. simpl. rewrite ?app_nil_r. done.
Qed.

(** *** Items that are not started *)

Lemma keeps_started_refl d : keeps_started d d.
Proof. by intros ?. Qed.

Lemma keeps_started_trans d1 d2 d3 :
  keeps_started d1 d2 -> keeps_started d2 d3 -> keeps_started d1 d3.
Proof. unfold keeps_started. auto. Qed.

Lemma keeps_started_same d d' :
  queues d' = queues d -> (forall r, attempts r (trace d') = attempts r (trace d)) ->
  keeps_started d d'.
Proof.
  intros Hq Ht Hs r Hr. rewrite Ht in Hr. destruct (Hs r Hr) as (q & Hq' & Hst).
  exists q. by rewrite Hq.
Qed.

Lemma keeps_started_emit e d :
  (forall r, is_call r e = false) -> keeps_started d (emit e d).
Proof.
  intros He. apply keeps_started_same; [done|]. intros r. simpl.
  by apply attempts_other.
Qed.

(** The update of an item to a status other than NEW and SKIPPED. *)
Lemma keeps_started_insert r q q' d d' :
  queues d !! r = Some q -> queues d' = <[r := q']> (queues d) -> trace d' = trace d ->
  (status q' = status q
   \/ status q' ∈ [STATUS_PROCESSING; STATUS_DONE; STATUS_ERROR; STATUS_TIMED_OUT]) ->
  keeps_started d d'.
Proof.
  intros Hq Hd Ht Hst Hs r0 Hr0. rewrite Ht in Hr0.
  destruct (Hs r0 Hr0) as (q0 & Hq0 & Hst0). unfold status_in. rewrite Hd.
  destruct (decide (r = r0)) as [->|Hne].
  - exists q'. rewrite list_lookup_insert_eq by (by eapply lookup_lt_Some).
    split; [done|]. assert (q0 = q) by congruence. subst q0.
    destruct Hst as [-> | ?]; done.
  - exists q0. by rewrite list_lookup_insert_ne.
Qed.

Lemma keeps_started_call r m d :
  (forall q, status (m q).1 ∈
     [STATUS_PROCESSING; STATUS_DONE; STATUS_ERROR; STATUS_TIMED_OUT]) ->
  keeps_started d (call r m d).
Proof.
  intros Hm. destruct (queues d !! r) as [q|] eqn:Hq.
  - eapply keeps_started_insert; [exact Hq|by apply call_queues|apply call_rest|].
    right. apply Hm.
  - unfold call. rewrite Hq. apply keeps_started_refl.
Qed.

Lemma keeps_started_start now r d : keeps_started d (call r (start now) d).
Proof. apply keeps_started_call. intros q. rewrite start_status. is_in. Qed.

Lemma keeps_started_done res r d : keeps_started d (call r (done res) d).
Proof. apply keeps_started_call. intros q. rewrite done_status. is_in. Qed.

Lemma keeps_started_error err r d : keeps_started d (call r (error err) d).
Proof. apply keeps_started_call. intros q. rewrite error_status. is_in. Qed.

Lemma keeps_started_timeout r d :
  keeps_started d (call r (setStatus STATUS_TIMED_OUT) d).
Proof. apply keeps_started_call. intros q. rewrite setStatus_status. is_in. Qed.

Lemma keeps_started_count r q n d :
  queues d !! r = Some q ->
  keeps_started d (with_queues (<[r := with_retryCount (Some n) q]> (queues d)) d).
Proof. intros Hq. eapply keeps_started_insert; [exact Hq|done|done|by left]. Qed.

Lemma keeps_started_last r d : keeps_started d (setLastQueue r d).
Proof.
  pose proof (setLastQueue_rest r d) as (Hq & _ & _ & Ht & _).
  apply keeps_started_same; [done|]. intros r0. by rewrite Ht.
Qed.

(** The consumer is called for an item that has just been started. *)
Lemma keeps_started_process r d :
  status_in d r [STATUS_PROCESSING] -> keeps_started d (emit (ProcessQueue r) d).
Proof.
  intros (q & Hq & Hst) Hs r0 Hr0. destruct (decide (r0 = r)) as [->|Hne].
  - exists q. split; [done|]. inlist. rewrite Hst. is_in.
  - simpl in Hr0. rewrite attempts_other in Hr0
      by (simpl; apply Nat.eqb_neq; congruence).
    by apply Hs.
Qed.

Lemma next_keeps_started now d : keeps_started d (next now d).
Proof.
  apply (next_R keeps_started);
    try exact keeps_started_refl; try exact keeps_started_trans;
    try exact keeps_started_start; try exact keeps_started_process;
    intros; first [by apply keeps_started_emit|by apply keeps_started_same].
Qed.

Lemma settle_keeps_started now p s d : keeps_started d (settle now p s d).
Proof.
  apply (settle_R keeps_started);
    try exact keeps_started_refl; try exact keeps_started_trans;
    try exact keeps_started_start; try exact keeps_started_process;
    try exact keeps_started_done; try exact keeps_started_error;
    try exact keeps_started_count; try exact keeps_started_last;
    try exact next_keeps_started;
    intros;
    first [ by apply keeps_started_emit
          | eapply keeps_started_trans; by apply keeps_started_emit
          | by apply keeps_started_same ].
Qed.

Lemma poll_keeps_started now d : keeps_started d (poll now d).
Proof.
  apply (poll_R keeps_started);
    try exact keeps_started_refl; try exact keeps_started_trans;
    try exact keeps_started_timeout; try exact next_keeps_started;
    intros; by apply keeps_started_same.
Qed.

Lemma step_keeps_started i d d' : step i d = Some d' -> keeps_started d d'.
Proof.
  destruct i as [now q|now c|inf|now|now p s|r|c]; simpl.
  - destruct (decide _); [|done]. intros [= <-]. unfold add. cbn [snd].
    eapply keeps_started_trans; [|apply next_keeps_started].
    intros Hs r Hr. destruct (Hs r Hr) as (q0 & Hq0 & Hst0).
    exists q0. split; [|done]. simpl. by apply lookup_app_l_Some.
  - intros [= <-]. unfold setConsumer. destruct c as [c|]; [|by apply keeps_started_same].
    eapply keeps_started_trans; [|apply poll_keeps_started].
    by apply keeps_started_same.
  - intros [= <-]. by apply keeps_started_same.
  - destruct (polling d); [|done]. intros [= <-]. apply poll_keeps_started.
  - destruct (decide _); [|done]. intros [= <-].
    eapply keeps_started_trans; [|apply settle_keeps_started].
    by apply keeps_started_same.
  - destruct (queues d !! r) as [q|] eqn:Hq; [|done].
    destruct (decide _) as [Hnew|]; [|done]. intros [= <-].
    intros Hs r0 Hr0.
    rewrite (proj1 (proj2 (proj2 (call_rest r (setStatus STATUS_SKIPPED) d)))) in Hr0.
    destruct (Hs r0 Hr0) as (q0 & Hq0 & Hst0).
    destruct (decide (r = r0)) as [->|Hne].
    + assert (q0 = q) by congruence. subst q0. rewrite Hnew in Hst0. inlist.
    + exists q0. by rewrite call_lookup_ne.
  - destruct (consumer d); [|done]. intros [= <-]. by apply keeps_started_same.
Qed.

Lemma run_Started l d d' : Started d -> run l d = Some d' -> Started d'.
Proof.
  revert d. induction l as [|i l IH]; intros d Hs; simpl; [by intros [= <-]|].
  destruct (step i d) as [d1|] eqn:Hstep; [|done].
  apply IH. by apply (step_keeps_started i d).
Qed.

(** X22: In every state that the dispatcher reaches, the consumer has never been
    called for an item that is NEW or SKIPPED.  An item that is marked
    SKIPPED before its dispatch is popped by the runner and not started. *)
Theorem skipped_item_is_never_processed (l : list (Input C)) (t0 : Z) (d : t)
    (r : nat) (q : SiapQueue.t) :
  run l (new t0) = Some d ->
  queues d !! r = Some q ->
  status q ∈ [STATUS_NEW; STATUS_SKIPPED] ->
  attempts r (trace d) = O.
Proof.
  intros Hr Hq Hst.
  assert (Hs : Started d).
  { apply (run_Started l (new t0)); [|done]. intros r0 Hr0. done. }
  destruct (decide (attempts r (trace d) = O)) as [|Hne]; [done|].
  destruct (Hs r Hne) as (q' & Hq' & Hst').
  assert (q' = q) by congruence. subst q'. inlist; rewrite Hst in Hst'; inlist.
Qed.

(** *** A hook that rejects *)

Lemma extends_refl d : extends d d.
Proof. exists []. by rewrite app_nil_r. Qed.

Lemma extends_trans d1 d2 d3 : extends d1 d2 -> extends d2 d3 -> extends d1 d3.
Proof.
  intros [t1 E1] [t2 E2]. exists (t1 ++ t2)%list. by rewrite E2, E1, app_assoc.
Qed.

Lemma extends_same d d' : trace d' = trace d -> extends d d'.
Proof. intros E. exists []. by rewrite app_nil_r. Qed.

Lemma extends_emit e d : extends d (emit e d).
Proof. by exists [e]. Qed.

Lemma next_extends now d : extends d (next now d).
Proof.
  apply (next_R extends);
    try exact extends_refl; try exact extends_trans;
    intros; first [apply extends_emit|apply extends_same; apply call_rest
                  |by apply extends_same].
Qed.

(** X23: When the [onretry] hook of an item rejects, the item is not retried:
    it becomes ERROR with the value of the rejection as its result (not the
    error of the consumer call that led to the retry), [queue.reject] is
    called with that value when the item has one, and [queue-error] is
    emitted. *)
Theorem onretry_rejection_fails_item (l : list (Input C)) (t0 now : Z) (d d' : t)
    (r : nat) (q : SiapQueue.t) (err : jsval) :
  run l (new t0) = Some d ->
  POnRetry r ∈ inflight d ->
  queues d !! r = Some q ->
  step (Settle now (POnRetry r) (Rejected err)) d = Some d' ->
  queues d' !! r = Some (error err q).1
  /\ status (error err q).1 = STATUS_ERROR
  /\ strict_eq (result (error err q).1) err = true
  /\ attempts r (trace d') = attempts r (trace d)
  /\ exists tail,
       trace d' = (trace d ++ (if reject q then [Reject r err] else [])
                     ++ QueueError r :: tail)%list.
Proof.
  intros Hr Hin Hq. simpl. rewrite decide_True by done. intros [= <-].
  destruct (run_Inv l (new t0) d (new_Inv t0) Hr) as [Hi _].
  set (d0 := with_inflight (remove (POnRetry r) (inflight d)) d).
  assert (Hp0 : r ∉ pending d0).
  { apply (busy_not_pending d r Hi). by eapply busy_owner; [right|]. }
  destruct (fail_final now err r d0 q Hq Hp0) as (F1 & F2 & _).
  split_and!; [done|apply error_status|apply error_result|done|].
  unfold fail.
  pose proof (call_rest r (error err) d0) as (_ & _ & Htr1 & _).
  pose proof (call_lookup r (error err) d0 q Hq) as Hq1.
  set (d1 := call r (error err) d0) in *.
  pose proof (setLastQueue_rest r d1) as (Hq2 & _ & _ & Htr2 & _).
  set (d2 := setLastQueue r d1) in *.
  rewrite Hq2, Hq1.
  assert (Hrej : reject (error err q).1 = reject q).
  { by destruct (error_fields err q) as (_ & _ & _ & _ & _ & _ & _ & _ & <- & _). }
  rewrite Hrej.
  set (d3 := if reject q then emit (Reject r err) d2 else d2).
  destruct (next_extends now (emit (QueueError r) d3)) as [tail ->].
  exists tail. simpl. unfold d3. destruct (reject q); simpl;
    rewrite Htr2, Htr1, <- ?app_assoc; done.
Qed.

(** *** A consumer call that is fulfilled *)

Lemma done_result res q : strict_eq (result (done res q).1) res = true.
Proof.
  unfold done. destruct (setStatus STATUS_DONE q) as [q1 l1].
  pose proof (setResult_result res q1) as Hr.
  by destruct (setResult res q1) as [q2 l2].
Qed.


End AbandonFacts.

(** ** The dispatcher: the items that wait *)

Section WaitingFacts.
Context `{Host} {C : Type} `{Consumer C}.
Import SiapDequeue.
Local Abbreviation t := (SiapDequeue.t C).
Implicit Types (d : t) (r : nat) (q : SiapQueue.t).

(** The runner pops an item that is not in the history, or that is
    SKIPPED: nothing else happens. *)
Lemma next_pop now d r rest c :
  Queue.active (queue d) = false -> consumer d = Some c -> canProcessQueue c = true ->
  pending d = r :: rest ->
  (queues d !! r = None
   \/ exists q, queues d !! r = Some q /\ SiapQueue.status q = SiapQueue.STATUS_SKIPPED) ->
  next now d = with_queue (Queue.mkRunner rest false) (emit (Dispatch r) d).
Proof.
  intros Ha Hc Hready Hp Hq.
  unfold next. cbn [next_fuel]. unfold Queue.next.
  unfold pending in Hp. rewrite Ha. unfold canProcess at 1. rewrite Hc, Hready, Hp.
  cbn [negb].
  set (d0 := emit (Dispatch r) (with_queue (Queue.mkRunner rest true) d)).
  assert (Hc0 : consumer d0 = Some c) by exact Hc.
  unfold doQueue. rewrite Hc0. unfold doit.
  change (queues d0 !! r) with (queues d !! r).
  destruct Hq as [Hq|(q & Hq & Hs)]; rewrite Hq.
  - reflexivity.
  - destruct (decide _) as [Hn|_]; [by destruct Hn|].
    unfold Queue.next. reflexivity.
Qed.

(** What a call of [next()] does to the history and to the pending list:
    nothing, or the head of the list is popped and that item alone may
    change; if it is still in the history, it is PROCESSING or SKIPPED. *)
Lemma next_shape now d :
  (queues (next now d) = queues d /\ pending (next now d) = pending d)
  \/ exists r rest,
       pending d = r :: rest /\ pending (next now d) = rest
       /\ (forall r', r' <> r -> queues (next now d) !! r' = queues d !! r')
       /\ (forall q', queues (next now d) !! r = Some q' ->
             SiapQueue.status q' ∈ [SiapQueue.STATUS_PROCESSING; SiapQueue.STATUS_SKIPPED]).
Proof.
  destruct (Queue.active (queue d)) eqn:Ha.
  { left. unfold next. by rewrite next_fuel_active. }
  destruct (canProcess d) eqn:Hcan; [|left; by rewrite next_not_ready].
  unfold canProcess in Hcan. destruct (consumer d) as [c|] eqn:Hc; [|done].
  destruct (pending d) as [|r rest] eqn:Hp.
  { left. unfold next. cbn [next_fuel]. unfold Queue.next.
    unfold pending in Hp. unfold canProcess. by rewrite Ha, Hc, Hcan, Hp. }
  right. exists r, rest. split; [done|].
  destruct (queues d !! r) as [q|] eqn:Hq.
  - destruct (decide (SiapQueue.status q = SiapQueue.STATUS_SKIPPED)) as [Hs|Hs].
    + rewrite (next_pop now d r rest c) by eauto. split_and!; try done.
      intros q'. simpl. rewrite Hq. intros [= <-]. rewrite Hs. is_in.
    + destruct (processQueue c (SiapQueue.start now q).1) as [c'|e] eqn:Hproc.
      * rewrite (next_dispatch now d r rest q c c') by done. simpl. split_and!; try done.
        -- intros r' Hne. by apply list_lookup_insert_ne.
        -- intros q'. rewrite list_lookup_insert_eq by (by eapply lookup_lt_Some).
           intros [= <-]. rewrite start_status. is_in.
      * rewrite (next_fault now d r rest q c e) by done. simpl. split_and!; try done.
        -- intros r' Hne. by apply list_lookup_insert_ne.
        -- intros q'. rewrite list_lookup_insert_eq by (by eapply lookup_lt_Some).
           intros [= <-]. rewrite start_status. is_in.
  - rewrite (next_pop now d r rest c) by eauto. split_and!; try done.
    intros q'. simpl. by rewrite Hq.
Qed.

Lemma keeps_waiting_refl d : keeps_waiting d d.
Proof. by intros ?. Qed.

Lemma keeps_waiting_trans d1 d2 d3 :
  keeps_waiting d1 d2 -> keeps_waiting d2 d3 -> keeps_waiting d1 d3.
Proof. unfold keeps_waiting. auto. Qed.

Lemma keeps_waiting_same d d' :
  queues d' = queues d -> queue d' = queue d -> keeps_waiting d d'.
Proof. intros Hq Hp W r q. unfold pending. rewrite Hq, Hp. apply W. Qed.

(** A method that leaves the status as it is, or sets a status other than
    NEW. *)
Lemma keeps_waiting_call r m d :
  (forall q, SiapQueue.status (m q).1 = SiapQueue.status q
             \/ SiapQueue.status (m q).1 <> SiapQueue.STATUS_NEW) ->
  keeps_waiting d (call r m d).
Proof.
  intros Hm W r' q' Hq' Hs'. unfold pending.
  rewrite (proj1 (call_rest r m d)). fold (pending d).
  destruct (decide (r = r')) as [<-|Hne].
  - destruct (queues d !! r) as [q|] eqn:Hq.
    + rewrite (call_lookup r m d q Hq) in Hq'. injection Hq' as <-.
      destruct (Hm q) as [E|E]; [|done]. apply (W r q Hq). congruence.
    + unfold call in Hq'. rewrite Hq in Hq'. congruence.
  - rewrite call_lookup_ne in Hq' by done. by apply (W r' q').
Qed.

Lemma keeps_waiting_setStatus r s d :
  s <> SiapQueue.STATUS_NEW -> keeps_waiting d (call r (SiapQueue.setStatus s) d).
Proof. intros Hs. apply keeps_waiting_call. intros q. right. by rewrite setStatus_status. Qed.

Lemma keeps_waiting_start now r d : keeps_waiting d (call r (SiapQueue.start now) d).
Proof. apply keeps_waiting_call. intros q. right. by rewrite start_status. Qed.

Lemma keeps_waiting_done res r d : keeps_waiting d (call r (SiapQueue.done res) d).
Proof. apply keeps_waiting_call. intros q. right. by rewrite done_status. Qed.

Lemma keeps_waiting_error err r d : keeps_waiting d (call r (SiapQueue.error err) d).
Proof. apply keeps_waiting_call. intros q. right. by rewrite error_status. Qed.

Lemma keeps_waiting_last r d : keeps_waiting d (setLastQueue r d).
Proof.
  pose proof (setLastQueue_rest r d) as (Hq & Hp & _).
  by apply keeps_waiting_same.
Qed.

Lemma keeps_waiting_count r q n d :
  queues d !! r = Some q ->
  keeps_waiting d (with_queues (<[r := SiapQueue.with_retryCount (Some n) q]> (queues d)) d).
Proof.
  intros Hq W r' q' Hq' Hs'. simpl in Hq'. change (r' ∈ pending d).
  destruct (decide (r = r')) as [<-|Hne].
  - rewrite list_lookup_insert_eq in Hq' by (by eapply lookup_lt_Some).
    injection Hq' as <-. by apply (W r q).
  - rewrite list_lookup_insert_ne in Hq' by done. by apply (W r' q').
Qed.

(** A call of [next()] pops an item only to start it, unless the item is
    SKIPPED. *)
Lemma next_keeps_waiting now d : keeps_waiting d (next now d).
Proof.
  intros W r' q' Hq' Hs'.
  destruct (next_shape now d) as [[Hq Hp]|(r & rest & Hp & Hp' & Hne & Hr)].
  - rewrite Hp. rewrite Hq in Hq'. by apply (W r' q').
  - rewrite Hp'. destruct (decide (r' = r)) as [->|Hn].
    + specialize (Hr q' Hq'). rewrite Hs' in Hr. inlist.
    + rewrite Hne in Hq' by done. specialize (W r' q' Hq' Hs').
      rewrite Hp in W. apply elem_of_cons in W as [?|?]; done.
Qed.

Lemma step_keeps_waiting i d d' : step i d = Some d' -> keeps_waiting d d'.
Proof.
  intros Hs.
  assert (Hcase : (exists now q, i = Add now q) \/ forall now q, i <> Add now q).
  { destruct i; eauto; right; done. }
  destruct Hcase as [(now & q & ->)|Hother].
  - simpl in Hs. destruct (decide _) as [Hnew|]; [|done]. injection Hs as <-.
    unfold add. cbn [snd]. set (d2 := with_queue _ _).
    eapply keeps_waiting_trans; [|apply next_keeps_waiting].
    intros W r' q' Hq' Hs'. unfold pending, d2. simpl in Hq' |- *.
    assert (Hin : r' ∈ pending d \/ r' = length (queues d)).
    { destruct (decide (r' < length (queues d))%nat) as [Hlt|Hge].
      - left. rewrite lookup_app_l in Hq' by done. by apply (W r' q').
      - right. apply lookup_lt_Some in Hq'. rewrite length_app in Hq'. simpl in Hq'. lia. }
    unfold Queue.requeue.
    destruct (String.eqb _ _); simpl;
      rewrite ?elem_of_cons, ?elem_of_app, ?list_elem_of_singleton;
      unfold pending in Hin; tauto.
  - eapply (step_R keeps_waiting); [..|exact Hother|exact Hs];
      try exact keeps_waiting_refl; try exact keeps_waiting_trans;
      try exact keeps_waiting_start; try exact keeps_waiting_done;
      try exact keeps_waiting_error; try exact keeps_waiting_last;
      try exact keeps_waiting_count; try exact next_keeps_waiting;
      intros;
      first [ by apply keeps_waiting_setStatus | by apply keeps_waiting_same ].
Qed.

Lemma run_Waiting l d d' : Waiting d -> run l d = Some d' -> Waiting d'.
Proof.
  revert d. induction l as [|i l IH]; intros d W; simpl; [by intros [= <-]|].
  destruct (step i d) as [d1|] eqn:Hs; [|done]. intros Hr.
  apply (IH d1); [|done]. by apply (step_keeps_waiting i d d1).
Qed.

(** X25: In every state that the dispatcher reaches, the items that wait in the
    runner are the items of the history that have not been dispatched: an
    item that is NEW is in the pending list, the pending list has no item
    twice, and an item of the pending list is NEW or SKIPPED.  So no NEW
    item is lost by the runner, and what [saveQueue] keeps for the next run
    are items that the consumer has not seen. *)
Theorem new_items_are_waiting (l : list (Input C)) (t0 : Z) (d : t) :
  run l (new t0) = Some d ->
  (forall r q, queues d !! r = Some q ->
     SiapQueue.status q = SiapQueue.STATUS_NEW ->
     r ∈ pending d /\ attempts r (trace d) = O)
  /\ NoDup (pending d)
  /\ (forall r, r ∈ pending d ->
        status_in d r [SiapQueue.STATUS_NEW; SiapQueue.STATUS_SKIPPED]).
Proof.
  intros Hr.
  destruct (run_Inv l (new t0) d (new_Inv t0) Hr) as [Hi _].
  split_and!.
  - intros r q Hq Hs. split.
    + eapply (run_Waiting l (new t0) d); [|done|done|done]. by intros r' q'.
    + apply (run_Started l (new t0) d) in Hr; [|by intros r'].
      destruct (decide (attempts r (trace d) = O)) as [|Hne]; [done|].
      destruct (Hr r Hne) as (q0 & Hq0 & Hs0). assert (q0 = q) by congruence. subst.
      rewrite Hs in Hs0. inlist.
  - apply (inv_pending_nodup d Hi).
  - apply (inv_pending d Hi).
Qed.

End WaitingFacts.

(** ** The dispatcher: what one input does to an item *)

(** Every handler of [doQueue] calls [next()] as its last action, if it
    calls it: an input is a sequence of updates of the item whose promise
    is settled, or of the item that the poll loop examines, followed by at
    most one call of [next()]. *)
Section PrefixFacts.
Context `{Host} {C : Type} `{Consumer C}.
Import SiapDequeue SiapQueue.
Local Abbreviation t := (SiapDequeue.t C).
Implicit Types (d : t) (r : nat) (q : SiapQueue.t).

(** A handler in which [next()] does nothing. *)
Local Abbreviation stay := (fun d : t => d).

Lemma success_tail (nx : t -> t) res r d : success nx res r d = nx (success stay res r d).
Proof. reflexivity. Qed.

Lemma fail_tail (nx : t -> t) err r d : fail nx err r d = nx (fail stay err r d).
Proof. reflexivity. Qed.

Lemma doit_tail now (nx : t -> t) r d :
  doit now nx r d = doit now stay r d \/ doit now nx r d = nx (doit now stay r d).
Proof.
  unfold doit. destruct (queues d !! r) as [q|]; [|by left].
  destruct (decide _); [|by right].
  set (d2 := emit (QueueStart r) _).
  destruct (consumer d2) as [c|]; [|by right].
  destruct (queues d2 !! r) as [q2|]; [|by right].
  destruct (processQueue c q2) as [c'|e]; [|by right].
  set (d3 := await _ _).
  destruct (getNext d3) as [nr|]; [|by left].
  destruct (queues d3 !! nr) as [nq|]; [|by left].
  destruct (_ && _); [by right|by left].
Qed.

Lemma retry_tail now (nx : t -> t) err r d :
  retry_ now nx err r d = retry_ now stay err r d
  \/ retry_ now nx err r d = nx (retry_ now stay err r d).
Proof.
  unfold retry_. destruct (queues d !! r) as [q|]; [|by left].
  destruct (_ && _); [|by right].
  destruct (onretry _); [by left|]. apply doit_tail.
Qed.

(** The runner is the same after a handler in which [next()] does
    nothing. *)
Lemma call_queue r m d : queue (call r m d) = queue d.
Proof. apply call_rest. Qed.

Lemma success_stay_queue res r d : queue (success stay res r d) = queue d.
Proof.
  unfold success.
  set (d2 := setLastQueue r (call r (done res) d)).
  assert (E : queue d2 = queue d).
  { unfold d2. by rewrite (proj1 (proj2 (setLastQueue_rest _ _))), call_queue. }
  destruct (queues d2 !! r) as [q|]; [|done]. by destruct (resolve q).
Qed.

Lemma fail_stay_queue err r d : queue (fail stay err r d) = queue d.
Proof.
  unfold fail.
  set (d2 := setLastQueue r (call r (error err) d)).
  assert (E : queue d2 = queue d).
  { unfold d2. by rewrite (proj1 (proj2 (setLastQueue_rest _ _))), call_queue. }
  destruct (queues d2 !! r) as [q|]; [|done]. by destruct (reject q).
Qed.

Lemma doit_stay_queue now r d : queue (doit now stay r d) = queue d.
Proof.
  unfold doit. destruct (queues d !! r) as [q|]; [|done].
  destruct (decide _); [|done].
  set (d2 := emit (QueueStart r) _).
  assert (E : queue d2 = queue d) by apply call_queue.
  destruct (consumer d2) as [c|]; [|done].
  destruct (queues d2 !! r) as [q2|]; [|done].
  destruct (processQueue c q2) as [c'|e]; [|done].
  set (d3 := await _ _).
  destruct (getNext d3) as [nr|]; [|done].
  destruct (queues d3 !! nr) as [nq|]; [|done].
  by destruct (_ && _).
Qed.

Lemma retry_stay_queue now err r d : queue (retry_ now stay err r d) = queue d.
Proof.
  unfold retry_. destruct (queues d !! r) as [q|]; [|done].
  destruct (_ && _); [|by rewrite fail_stay_queue].
  destruct (onretry _); [done|]. by rewrite doit_stay_queue.
Qed.

(** The history after a handler in which [next()] does nothing. *)
Lemma success_stay_queues res r d :
  queues (success stay res r d) = queues (call r (done res) d).
Proof.
  unfold success.
  set (d2 := setLastQueue r (call r (done res) d)).
  assert (E : queues d2 = queues (call r (done res) d)) by apply setLastQueue_rest.
  destruct (queues d2 !! r) as [q|]; [|done]. by destruct (resolve q).
Qed.

Lemma fail_stay_queues err r d :
  queues (fail stay err r d) = queues (call r (error err) d).
Proof.
  unfold fail.
  set (d2 := setLastQueue r (call r (error err) d)).
  assert (E : queues d2 = queues (call r (error err) d)) by apply setLastQueue_rest.
  destruct (queues d2 !! r) as [q|]; [|done]. by destruct (reject q).
Qed.

Lemma doit_stay_queues now r d :
  queues (doit now stay r d)
  = match queues d !! r with
    | Some q => if decide (status q <> STATUS_SKIPPED)
                then queues (call r (start now) d) else queues d
    | None => queues d
    end.
Proof.
  unfold doit. destruct (queues d !! r) as [q|]; [|done].
  destruct (decide _); [|done].
  set (d2 := emit (QueueStart r) _).
  destruct (consumer d2) as [c|]; [|done].
  destruct (queues d2 !! r) as [q2|]; [|done].
  destruct (processQueue c q2) as [c'|e]; [|done].
  set (d3 := await _ _).
  destruct (getNext d3) as [nr|]; [|done].
  destruct (queues d3 !! nr) as [nq|]; [|done].
  by destruct (_ && _).
Qed.

(** The items other than the one that the handler is for. *)
Lemma success_stay_other res r' r d :
  r' <> r -> queues (success stay res r' d) !! r = queues d !! r.
Proof. intros Hne. rewrite success_stay_queues. by apply call_lookup_ne. Qed.

Lemma fail_stay_other err r' r d :
  r' <> r -> queues (fail stay err r' d) !! r = queues d !! r.
Proof. intros Hne. rewrite fail_stay_queues. by apply call_lookup_ne. Qed.

Lemma doit_stay_other now r' r d :
  r' <> r -> queues (doit now stay r' d) !! r = queues d !! r.
Proof.
  intros Hne. rewrite doit_stay_queues. destruct (queues d !! r'); [|done].
  destruct (decide _); [|done]. by apply call_lookup_ne.
Qed.

Lemma retry_stay_other now err r' r d :
  r' <> r -> queues (retry_ now stay err r' d) !! r = queues d !! r.
Proof.
  intros Hne. unfold retry_. destruct (queues d !! r') as [q|]; [|done].
  set (d1 := with_queues _ d).
  assert (E : queues d1 !! r = queues d !! r) by (by apply list_lookup_insert_ne).
  destruct (_ && _); [|by rewrite fail_stay_other].
  destruct (onretry _); [done|]. by rewrite doit_stay_other.
Qed.

(** The history after a call of [next()]: it is the same, or the item at
    the head of the pending list has been started. *)
Lemma next_queues now d :
  queues (next now d) = queues d
  \/ exists r0 q0, head (pending d) = Some r0 /\ queues d !! r0 = Some q0
        /\ status q0 <> STATUS_SKIPPED
        /\ queues (next now d) = <[r0 := (start now q0).1]> (queues d).
Proof.
  destruct (Queue.active (queue d)) eqn:Ha.
  { left. unfold next. by rewrite next_fuel_active. }
  destruct (canProcess d) eqn:Hcan; [|left; by rewrite next_not_ready].
  unfold canProcess in Hcan. destruct (consumer d) as [c|] eqn:Hc; [|done].
  destruct (pending d) as [|r rest] eqn:Hp.
  { left. unfold next. cbn [next_fuel]. unfold Queue.next.
    unfold pending in Hp. unfold canProcess. by rewrite Ha, Hc, Hcan, Hp. }
  destruct (queues d !! r) as [q|] eqn:Hq.
  - destruct (decide (status q = STATUS_SKIPPED)) as [Hs|Hs].
    + left. by rewrite (next_pop now d r rest c) by eauto.
    + right. exists r, q. split_and!; try done.
      destruct (processQueue c (start now q).1) as [c'|e] eqn:Hproc.
      * by rewrite (next_dispatch now d r rest q c c').
      * by rewrite (next_fault now d r rest q c e).
  - left. by rewrite (next_pop now d r rest c) by eauto.
Qed.

(** One run of the poll loop: the item that it declares TIMED_OUT, if any,
    was PROCESSING; then [next()] is called, or not. *)
Lemma poll_prefix now d :
  exists dm, (poll now d = dm \/ poll now d = next now dm)
    /\ (queues dm = queues d
        \/ exists r1 q1, queues d !! r1 = Some q1 /\ status q1 = STATUS_PROCESSING
             /\ queues dm = <[r1 := (setStatus STATUS_TIMED_OUT q1).1]> (queues d)).
Proof.
  unfold poll. destruct (list_find _ _) as [[r1 q1]|] eqn:Hfind.
  - destruct (find_processing d r1 q1 Hfind) as [Hq1 Hs1].
    destruct (time q1); [|exists (with_polling false d); split; by left].
    cbv zeta. destruct (_ && _); [|exists d; split; by left].
    set (d1 := call r1 (setStatus STATUS_TIMED_OUT) d).
    assert (E : queues d1 = <[r1 := (setStatus STATUS_TIMED_OUT q1).1]> (queues d))
      by (by apply call_queues).
    destruct (ontimeout q1).
    + exists (await (POnTimeout r1) d1). split; [by left|]. right. by exists r1, q1.
    + exists d1. split; [by right|]. right. by exists r1, q1.
  - exists d. split; [|by left]. destruct (queues d); [by left|by right].
Qed.

End PrefixFacts.

Section OneInput.
Context `{Host} {C : Type} `{Consumer C}.
Import SiapDequeue SiapQueue.
Local Abbreviation t := (SiapDequeue.t C).
Implicit Types (d : t) (r : nat) (q : SiapQueue.t).

Local Abbreviation stay := (fun d : t => d).

Lemma next_lookup now d r : r ∉ pending d -> queues (next now d) !! r = queues d !! r.
Proof. intros Hp. by destruct (next_untouched now r d Hp) as (E & _). Qed.

(** The item whose consumer call is rejected. *)
Lemma retry_stay_self now err r d q :
  queues d !! r = Some q -> status q <> STATUS_SKIPPED ->
  queues (retry_ now stay err r d) !! r
  = Some (reaction now (SiapDequeue.retry d) (PProcess r) (Rejected err) q).
Proof.
  intros Hq Hs. unfold retry_, reaction. rewrite Hq.
  set (n := (default 0 (retryCount q) + 1)%nat).
  set (q1 := with_retryCount (Some n) q).
  set (d1 := with_queues _ d).
  assert (Hlt : (r < length (queues d))%nat) by (by eapply lookup_lt_Some).
  assert (Hq1 : queues d1 !! r = Some q1) by (simpl; by apply list_lookup_insert_eq).
  change (SiapDequeue.retry d1) with (SiapDequeue.retry d).
  destruct (_ && _).
  - destruct (onretry q1); [exact Hq1|].
    rewrite doit_stay_queues.
    change (queues (print _ d1)) with (queues d1). rewrite Hq1.
    rewrite decide_True by done. by apply call_lookup.
  - rewrite fail_stay_queues. by apply call_lookup.
Qed.

(** The item whose promise is settled: the reaction of [doQueue]. *)
Lemma settle_self now p s d q r :
  Inv d -> p ∈ inflight d -> p = PProcess r \/ p = POnRetry r ->
  queues d !! r = Some q ->
  queues (settle now p s (with_inflight (remove p (inflight d)) d)) !! r
  = Some (reaction now (SiapDequeue.retry d) p s q).
Proof.
  intros Hi Hin Hp Hq.
  assert (Hb : r ∈ busy (inflight d)) by (by eapply busy_owner).
  assert (Hs : status q <> STATUS_SKIPPED).
  { destruct (inv_busy d Hi r Hb) as (q0 & Hq0 & Hs0).
    assert (q0 = q) by congruence. subst. intros E. rewrite E in Hs0. inlist. }
  set (d0 := with_inflight (remove p (inflight d)) d).
  assert (Hp0 : r ∉ pending d0) by (by apply (busy_not_pending d r Hi)).
  assert (Hq0 : queues d0 !! r = Some q) by exact Hq.
  destruct Hp as [-> | ->]; destruct s as [res|err]; cbn [settle reaction].
  - rewrite success_tail, next_lookup.
    + rewrite success_stay_queues. by apply call_lookup.
    + unfold pending. by rewrite success_stay_queue.
  - assert (E : queues (retry_ now (next now) err r d0) !! r
                = queues (retry_ now stay err r d0) !! r).
    { destruct (retry_tail now (next now) err r d0) as [-> | ->]; [done|].
      apply next_lookup. unfold pending. by rewrite retry_stay_queue. }
    rewrite E. by apply (retry_stay_self now err r d0 q).
  - assert (E : queues (doit now (next now) r d0) !! r
                = queues (doit now stay r d0) !! r).
    { destruct (doit_tail now (next now) r d0) as [-> | ->]; [done|].
      apply next_lookup. unfold pending. by rewrite doit_stay_queue. }
    rewrite E, doit_stay_queues, Hq0. rewrite decide_True by done. by apply call_lookup.
  - rewrite fail_tail, next_lookup.
    + rewrite fail_stay_queues. by apply call_lookup.
    + unfold pending. by rewrite fail_stay_queue.
Qed.

(** An item that is NEW or SKIPPED, after a call of [next()]. *)
Lemma after_next now dm r q :
  queues dm !! r = Some q ->
  exists q', queues (next now dm) !! r = Some q'
    /\ (q' = q \/ (status q <> STATUS_SKIPPED /\ q' = (start now q).1)).
Proof.
  intros Hq. destruct (next_queues now dm) as [E|(r0 & q0 & _ & Hq0 & Hs0 & E)].
  - exists q. rewrite E. by split; [|left].
  - rewrite E. destruct (decide (r0 = r)) as [->|Hne].
    + assert (q0 = q) by congruence. subst.
      exists (start now q).1. split; [|by right].
      apply list_lookup_insert_eq. by eapply lookup_lt_Some.
    + exists q. split; [|by left]. by rewrite list_lookup_insert_ne.
Qed.

(** One input and an item that is NEW or SKIPPED: the item stays as it is,
    or it is started, or it is marked SKIPPED. *)
Lemma step_waiting_item i d d' r q :
  Inv d -> step i d = Some d' -> queues d !! r = Some q ->
  status q ∈ [STATUS_NEW; STATUS_SKIPPED] ->
  exists q', queues d' !! r = Some q'
    /\ (q' = q
        \/ (status q = STATUS_NEW /\ exists now, q' = (start now q).1)
        \/ (status q = STATUS_NEW /\ q' = (setStatus STATUS_SKIPPED q).1)).
Proof.
  intros Hi Hstep Hq Hst.
  assert (G : forall now dm, queues dm !! r = Some q ->
            d' = dm \/ d' = next now dm ->
            exists q', queues d' !! r = Some q'
              /\ (q' = q
                  \/ (status q = STATUS_NEW /\ exists now, q' = (start now q).1)
                  \/ (status q = STATUS_NEW /\ q' = (setStatus STATUS_SKIPPED q).1))).
  { intros now dm Hm [-> | ->]; [exists q; by split; [|left]|].
    destruct (after_next now dm r q Hm) as (q' & Hq' & [->|[Hs ->]]).
    - exists q. by split; [|left].
    - exists (start now q).1. split; [done|]. right. left. split; [|by eexists].
      inlist. }
  assert (Hother : forall p r1, p ∈ inflight d -> p = PProcess r1 \/ p = POnRetry r1 ->
            r1 <> r).
  { intros p r1 Hin Hp ->.
    assert (Hb : r ∈ busy (inflight d)) by (by eapply busy_owner).
    destruct (inv_busy d Hi r Hb) as (q0 & Hq0 & Hs0).
    assert (q0 = q) by congruence. subst. inlist. }
  assert (Hpoll : forall now d1, queues d1 = queues d ->
            d' = poll now d1 ->
            exists q', queues d' !! r = Some q'
              /\ (q' = q
                  \/ (status q = STATUS_NEW /\ exists now, q' = (start now q).1)
                  \/ (status q = STATUS_NEW /\ q' = (setStatus STATUS_SKIPPED q).1))).
  { intros now d1 E1 ->.
    destruct (poll_prefix now d1) as (dm & Hdm & Hqm).
    apply (G now dm); [|done].
    destruct Hqm as [-> |(r1 & q1 & Hq1 & Hs1 & ->)]; [by rewrite E1|].
    rewrite list_lookup_insert_ne; [by rewrite E1|].
    intros ->. rewrite E1 in Hq1. assert (q1 = q) by congruence. subst. inlist. }
  destruct i as [now q0|now c|inf|now|now p s|r0|c]; simpl in Hstep.
  - destruct (decide _); [|done]. injection Hstep as <-. unfold add. cbn [snd].
    set (d2 := with_queue _ _). apply (G now d2); [|by right].
    simpl. rewrite lookup_app_l; [done|]. by eapply lookup_lt_Some.
  - injection Hstep as <-. unfold setConsumer. destruct c as [c|].
    + by apply (Hpoll now (with_polling true (with_consumer (Some c) d))).
    + exists q. by split; [|left].
  - injection Hstep as <-. exists q. by split; [|left].
  - destruct (polling d); [|done]. injection Hstep as <-. by apply (Hpoll now d).
  - destruct (decide _) as [Hin|]; [|done]. injection Hstep as <-.
    set (d0 := with_inflight (remove p (inflight d)) d).
    destruct p as [r1|r1|r1], s as [res|err]; cbn [settle].
    + rewrite success_tail. apply (G now (success stay res r1 d0)); [|by right].
      rewrite success_stay_other; [done|]. by apply (Hother (PProcess r1)); [|left].
    + apply (G now (retry_ now stay err r1 d0)); [|apply retry_tail].
      rewrite retry_stay_other; [done|]. by apply (Hother (PProcess r1)); [|left].
    + apply (G now (doit now stay r1 d0)); [|apply doit_tail].
      rewrite doit_stay_other; [done|]. by apply (Hother (POnRetry r1)); [|right].
    + rewrite fail_tail. apply (G now (fail stay err r1 d0)); [|by right].
      rewrite fail_stay_other; [done|]. by apply (Hother (POnRetry r1)); [|right].
    + apply (G now d0); [done|by right].
    + apply (G now d0); [done|by right].
  - destruct (queues d !! r0) as [q0|] eqn:Hq0; [|done].
    destruct (decide _) as [Hnew|]; [|done]. injection Hstep as <-.
    destruct (decide (r0 = r)) as [->|Hne].
    + assert (q0 = q) by congruence. subst.
      exists (setStatus STATUS_SKIPPED q).1. split; [by apply call_lookup|].
      right. right. done.
    + exists q. split; [by rewrite call_lookup_ne|by left].
  - destruct (consumer d); [|done]. injection Hstep as <-.
    exists q. by split; [|left].
Qed.

End OneInput.

(** ** C4: the transitions of the status *)

Section StatusClaim.
Context `{Host} {C : Type} `{Consumer C}.
Import SiapDequeue SiapQueue.
Local Abbreviation t := (SiapDequeue.t C).
Implicit Types (d : t) (r : nat) (q : SiapQueue.t).

Lemma with_retryCount_status n q : status (with_retryCount n q) = status q.
Proof. reflexivity. Qed.

(** The reaction to the settlement of the consumer call or of the
    [onretry] hook of an item makes one transition, or none. *)
Lemma reaction_edge now ceiling p s q r :
  p = PProcess r \/ p = POnRetry r ->
  status q ∈ [STATUS_PROCESSING; STATUS_TIMED_OUT] ->
  status (reaction now ceiling p s q) = status q
  \/ edge (status q) (status (reaction now ceiling p s q)).
Proof.
  intros Hp Hst.
  assert (Hdone : forall s', s' = STATUS_DONE -> s' = status q \/ edge (status q) s').
  { intros s' ->. right. inlist; rewrite Hst;
      [apply edge_claimed, edge_done|apply edge_late_done]. }
  assert (Herr : forall s', s' = STATUS_ERROR -> s' = status q \/ edge (status q) s').
  { intros s' ->. right. inlist; rewrite Hst;
      [apply edge_claimed, edge_error|apply edge_late_error]. }
  assert (Hproc : forall s', s' = STATUS_PROCESSING -> s' = status q \/ edge (status q) s').
  { intros s' ->. inlist; rewrite Hst; [by left|right; apply edge_late_retry]. }
  destruct Hp as [-> | ->]; destruct s as [res|err]; cbn [reaction].
  - apply Hdone, done_status.
  - cbv zeta. destruct (_ && _).
    + destruct (onretry _); [by left|]. apply Hproc. by rewrite start_status.
    + apply Herr. by rewrite error_status.
  - apply Hproc, start_status.
  - apply Herr, error_status.
Qed.

(** In a state that the dispatcher reaches, one input makes at most one
    transition of the status of an item. *)
Lemma step_item i d d' r q :
  Inv d -> step i d = Some d' -> queues d !! r = Some q ->
  exists q', queues d' !! r = Some q'
    /\ (status q' = status q \/ edge (status q) (status q')).
Proof.
  intros Hi Hstep Hq.
  destruct (decide (status q ∈ [STATUS_NEW; STATUS_SKIPPED])) as [Hw|Hw].
  { destruct (step_waiting_item i d d' r q Hi Hstep Hq Hw)
      as (q' & Hq' & [->|[[Hn [now ->]]|[Hn ->]]]); eexists; (split; [done|]).
    - by left.
    - right. rewrite Hn, start_status. apply edge_claimed, edge_start.
    - right. rewrite Hn, setStatus_status. apply edge_claimed, edge_skip_new. }
  assert (Hnew : status q <> STATUS_NEW) by (intros E; apply Hw; rewrite E; is_in).
  assert (Hp : r ∉ pending d).
  { intros Hin. destruct (inv_pending d Hi r Hin) as (q0 & Hq0 & Hs0).
    by assert (q0 = q) as -> by congruence. }
  assert (Hown : (exists now p s, i = Settle now p s /\ (p = PProcess r \/ p = POnRetry r))
                 \/ forall now p s, i = Settle now p s -> owner p <> r \/ p = POnTimeout r).
  { destruct i as [| | | |now p s| |]; try (right; intros; done).
    destruct p as [r1|r1|r1]; destruct (decide (r1 = r)) as [->|Hne];
      try (right; intros ? ? ? [= <- <- <-]; by auto).
    - left. exists now, (PProcess r), s. by split; [|left].
    - left. exists now, (POnRetry r), s. by split; [|right]. }
  destruct Hown as [(now & p & s & -> & Hpr)|Hown].
  - simpl in Hstep. destruct (decide _) as [Hin|]; [|done]. injection Hstep as <-.
    exists (reaction now (SiapDequeue.retry d) p s q).
    split; [by apply settle_self|]. apply (reaction_edge _ _ _ _ _ r); [done|].
    assert (Hb : r ∈ busy (inflight d)) by (by eapply busy_owner).
    destruct (inv_busy d Hi r Hb) as (q0 & Hq0 & Hs0).
    by assert (q0 = q) as -> by congruence.
  - destruct (step_aside_gen i r d d' q Hi Hq Hnew Hp Hown Hstep) as (A1 & _).
    destruct (A1 q Hq) as (q' & Hq' & _ & _ & _ & _ & Hs').
    exists q'. split; [done|].
    destruct Hs' as [Hs'|[[Hs1 Hs2]|[Hs1 Hs2]]]; [by left| |left; congruence].
    right. rewrite Hs1, Hs2. apply edge_claimed, edge_timeout.
Qed.

(** C4, amended: as long as the callbacks that [success] calls return, in
    every state that the dispatcher reaches one input makes at most one
    transition of the status of an item, and the transition is one of
    NEW -> PROCESSING -> DONE, ERROR, TIMED_OUT (SKIPPED while still NEW)
    or, for an item that is TIMED_OUT, one of those that the settlement of
    its abandoned consumer call causes: TIMED_OUT -> DONE, ERROR or
    PROCESSING.  DONE, ERROR and SKIPPED are final and no item becomes NEW
    again.  The settlement of the consumer call of an item that is
    TIMED_OUT is not ignored: a success makes the item DONE and records the
    result; a failure adds one to the retry count and makes the item ERROR
    with the error as its result or, when the item is retried, PROCESSING
    again (once its [onretry] hook is fulfilled, if it has one: it is
    TIMED_OUT until then). *)
Theorem status_moves_forward (l : list (Turn C)) (t0 : Z) (i : Input C) (d d' : t) :
  turns l (new t0) = Some d ->
  Forall (fun o => regular o = true) l ->
  step i d = Some d' ->
  (forall r q, queues d !! r = Some q ->
     exists q', queues d' !! r = Some q'
       /\ (status q' = status q \/ edge (status q) (status q'))
       /\ (status q ∈ [STATUS_DONE; STATUS_ERROR; STATUS_SKIPPED] -> status q' = status q)
       /\ (status q' = STATUS_NEW -> status q = STATUS_NEW))
  /\ (forall now r s q,
        i = Settle now (PProcess r) s -> queues d !! r = Some q ->
        status q = STATUS_TIMED_OUT ->
        match s with
        | Fulfilled res =>
            queues d' !! r = Some (done res q).1
            /\ status (done res q).1 = STATUS_DONE
            /\ strict_eq (result (done res q).1) res = true
        | Rejected err =>
            let n := (default 0 (retryCount q) + 1)%nat in
            exists q', queues d' !! r = Some q'
              /\ retryCount q' = Some n
              /\ (if is_retry_error err && retry q && (n <=? SiapDequeue.retry d)%nat
                  then status q' = (if onretry q then STATUS_TIMED_OUT
                                    else STATUS_PROCESSING)
                  else status q' = STATUS_ERROR /\ strict_eq (result q') err = true)
        end).
Proof.
  intros Hrun Hl Hstep. rewrite (turns_regular l _ Hl) in Hrun.
  pose proof (reachable_Inv _ _ _ Hrun) as Hi. split.
  - intros r q Hq.
    destruct (step_item i d d' r q Hi Hstep Hq) as (q' & Hq' & He).
    exists q'. split; [done|]. split; [done|].
    apply edge_inv. destruct He as [-> |He]; [done|by apply rtc_once].
  - intros now r s q -> Hq Hst. simpl in Hstep.
    destruct (decide _) as [Hin|]; [|done]. injection Hstep as <-.
    pose proof (settle_self now (PProcess r) s d q r Hi Hin (or_introl eq_refl) Hq) as E.
    destruct s as [res|err]; cbn [reaction] in E.
    + split_and!; [done|apply done_status|apply done_result].
    + cbv zeta in E |- *.
      set (n := (default 0 (retryCount q) + 1)%nat) in *.
      set (q1 := with_retryCount (Some n) q) in *.
      change (retry q1) with (retry q) in E. change (onretry q1) with (onretry q) in E.
      eexists. split; [exact E|].
      destruct (_ && _).
      * destruct (onretry q).
        -- by split.
        -- split; [by rewrite start_retryCount|by rewrite start_status].
      * split; [by rewrite error_retryCount|].
        split; [apply error_status|apply error_result].
Qed.

End StatusClaim.

(** ** C2: the callback is dispatched, and first *)

Section DispatchClaim.
Context `{Host} {C : Type} `{Consumer C}.
Import SiapDequeue SiapQueue.
Local Abbreviation t := (SiapDequeue.t C).
Implicit Types (d : t) (r : nat) (q : SiapQueue.t).

Lemma run_app (l1 l2 : list (Input C)) d :
  run (l1 ++ l2) d = match run l1 d with Some d1 => run l2 d1 | None => None end.
Proof.
  revert d. induction l1 as [|i l1 IH]; intros d; simpl; [done|].
  by destruct (step i d).
Qed.

(** When the runner is not active and the consumer is ready, [next()]
    dispatches the head of the pending list. *)
Lemma next_dispatches_head now d r rest :
  Queue.active (queue d) = false -> canProcess d = true -> pending d = r :: rest ->
  exists more,
    dispatches (trace (next now d)) = (dispatches (trace d) ++ r :: more)%list
    /\ pending (next now d) = rest.
Proof.
  intros Ha Hcan Hp. exists [].
  unfold canProcess in Hcan. destruct (consumer d) as [c|] eqn:Hc; [|done].
  destruct (queues d !! r) as [q|] eqn:Hq.
  - destruct (decide (status q = STATUS_SKIPPED)) as [Hs|Hs].
    + rewrite (next_pop now d r rest c) by eauto. simpl.
      by rewrite dispatches_app.
    + destruct (processQueue c (start now q).1) as [c'|e] eqn:Hproc.
      * rewrite (next_dispatch now d r rest q c c') by done. simpl.
        by rewrite dispatches_app.
      * rewrite (next_fault now d r rest q c e) by done. simpl.
        by rewrite dispatches_app.
  - rewrite (next_pop now d r rest c) by eauto. simpl.
    by rewrite dispatches_app.
Qed.

(** [add] of a callback: the state in which it calls [next()]. *)
Lemma add_callback now q d :
  type q = QUEUE_CALLBACK -> Queue.active (queue d) = false ->
  exists d1, (add now q d).2 = next now d1
    /\ pending d1 = length (queues d) :: pending d
    /\ trace d1 = trace d
    /\ Queue.active (queue d1) = false
    /\ canProcess d1 = canProcess d.
Proof.
  intros Hcb Ha. eexists. split; [reflexivity|].
  assert (Ht : type (if negb (truthy (id q)) then setId (JStr (genId now)) q else q)
               = QUEUE_CALLBACK) by (by destruct (negb _)).
  unfold pending. simpl. rewrite Ht. simpl. done.
Qed.

(** C2: in a state [d] that the dispatcher has reached, [add] enqueues the
    new item, of reference [rc], at the head of the pending list when its
    type is CALLBACK and at the tail otherwise, and then calls [next()].
    A callback that is added while the consumer is ready is dispatched by
    that call, before [add] returns; otherwise it waits at the head of the
    list.  Whatever happens afterwards, the callback has been dispatched, or
    it is still pending, ahead of every item that was pending when it was
    added, none of which has been dispatched; so it is dispatched before
    every one of them.  The items that are not callbacks are dispatched in
    the order of their submission.  In every later state, a call of [next()]
    made while the consumer is ready dispatches the head of the pending
    list and removes it from the list. *)
Theorem callback_dispatched_first (l0 : list (Input C)) (t0 now : Z) (q : SiapQueue.t)
    (d : t) :
  run l0 (new t0) = Some d ->
  status q = STATUS_NEW ->
  let rc := length (queues d) in
  (exists d1, (add now q d).2 = next now d1
     /\ pending d1 = (if String.eqb (type q) QUEUE_CALLBACK
                      then rc :: pending d else pending d ++ [rc])%list
     /\ trace d1 = trace d)
  /\ (forall l d', type q = QUEUE_CALLBACK ->
        run l (add now q d).2 = Some d' ->
        exists since, dispatches (trace d') = (dispatches (trace d) ++ since)%list
          /\ (forall r, r ∈ pending d -> precedes rc r since)
          /\ (rc ∈ since
              \/ (forall r, r ∈ pending d -> r ∉ since)
                 /\ exists l1 l2, pending d' = (l1 ++ rc :: l2)%list
                      /\ forall r, r ∈ pending d -> r ∉ l1))
  /\ (forall l d', run l (add now q d).2 = Some d' ->
        forall a b, noncallback d' a -> noncallback d' b -> (a < b)%nat ->
          precedes a b (dispatches (trace d')))
  /\ (type q = QUEUE_CALLBACK ->
        if canProcess d
        then (exists more, dispatches (trace (add now q d).2)
                           = (dispatches (trace d) ++ rc :: more)%list)
             /\ rc ∉ pending (add now q d).2
        else pending (add now q d).2 = rc :: pending d
             /\ trace (add now q d).2 = trace d)
  /\ (forall l d' now' r rest,
        run l (add now q d).2 = Some d' ->
        canProcess d' = true -> pending d' = r :: rest ->
        (exists more, dispatches (trace (next now' d'))
                      = (dispatches (trace d') ++ r :: more)%list)
        /\ r ∉ pending (next now' d')).
Proof.
  intros Hrun Hnew rc.
  pose proof (reachable_Inv _ _ _ Hrun) as Hi.
  pose proof (reachable_Ordered _ _ _ Hrun) as Ho.
  pose proof (reachable_idle _ _ _ Hrun) as Hidle.
  destruct (add_enqueues now q d) as (q1 & d1 & Hf & Hq1 & Hqueue & Htr & Hadd).
  assert (Hp1 : pending d1 = (if String.eqb (type q) QUEUE_CALLBACK
                              then rc :: pending d else pending d ++ [rc])%list).
  { unfold pending. rewrite Hqueue. unfold Queue.requeue.
    by destruct (String.eqb _ _). }
  assert (Hadd_ok : Inv (add now q d).2).
  { apply add_ok; [done|]. rewrite Hnew. is_in. }
  assert (Hrun1 : run (l0 ++ [Add now q]) (new t0) = Some (add now q d).2).
  { rewrite run_app, Hrun. simpl. by rewrite decide_True. }
  split_and!.
  - exists d1. by split_and!.
  - intros l d' Hcb Hrun'.
    assert (Hw : forall r, r ∈ pending d -> (r < rc)%nat).
    { intros r Hr. apply (ord_valid d Ho). by left. }
    assert (H1 : ahead rc (pending d) (dispatches (trace d)) d1).
    { exists []. split_and!; [by rewrite Htr, app_nil_r|rewrite Hq1, length_app; simpl; lia|].
      right. split; [intros r _ Hr; inlist|].
      exists [], (pending d). split; [|intros r _ Hr; inlist].
      rewrite Hp1, Hcb. done. }
    assert (Hsteps : rtc qstep d1 d').
    { etrans; [apply (next_steps now)|]. rewrite <- Hadd. by eapply run_steps. }
    destruct (ahead_steps rc _ _ d1 d' Hw H1 Hsteps) as (since & Hd & _ & Hcase).
    exists since. split; [done|]. split.
    + intros r Hr.
      destruct Hcase as [[_ Hpre]|[Hnone _]]; [by apply Hpre|].
      apply precedes_absent. by apply Hnone.
    + destruct Hcase as [[Hin _]|[Hnone Hpend]]; [by left|by right].
  - intros l d' Hrun'.
    assert (Hsteps : rtc qstep d d').
    { etrans; [apply (add_steps now q)|by eapply run_steps]. }
    apply (ord_dispatched d'). by eapply Ordered_steps.
  - intros Hcb.
    assert (Hw : forall r, r ∈ pending d -> (r < rc)%nat).
    { intros r Hr. apply (ord_valid d Ho). by left. }
    destruct (add_callback now q d Hcb Hidle) as (d2 & Hadd2 & Hp2 & Htr2 & Ha2 & Hc2).
    destruct (canProcess d) eqn:Hcan.
    + destruct (next_dispatches_head now d2 rc (pending d) Ha2 Hc2 Hp2) as (more & Hm & Hp).
      rewrite Hadd2. split.
      * exists more. by rewrite Hm, Htr2.
      * rewrite Hp. intros Hin. apply Hw in Hin. lia.
    + rewrite Hadd2, (next_not_ready now d2) by done. by split.
  - intros l d' now' r rest Hrun' Hcan Hp.
    assert (Hrun2 : run ((l0 ++ [Add now q]) ++ l) (new t0) = Some d').
    { rewrite run_app, Hrun1. exact Hrun'. }
    pose proof (reachable_Inv _ _ _ Hrun2) as Hi'.
    pose proof (reachable_idle _ _ _ Hrun2) as Hidle'.
    destruct (next_dispatches_head now' d' r rest Hidle' Hcan Hp) as (more & Hm & Hp').
    split; [by exists more|]. rewrite Hp'.
    pose proof (inv_pending_nodup d' Hi') as Hnd. rewrite Hp in Hnd.
    by apply NoDup_cons_1_1 in Hnd.
Qed.

End DispatchClaim.

Section StatusAndOrderScenarios.
#[local] Existing Instance example_host.
#[local] Existing Instance example_consumer.
Import SiapDequeue SiapQueue.

(** The item of [slow_state] is TIMED_OUT at the tick of time 300; its
    consumer call is fulfilled at time 400: the item becomes DONE and its
    result is the value of the fulfilment. *)
Lemma status_moves_forward_witness :
  queues (settle 400 (PProcess 0%nat) (Fulfilled (JStr "late"))
            (with_inflight [] (poll 300 slow_state))) !! 0%nat
  = Some (done (JStr "late") (with_status STATUS_TIMED_OUT slow_started)).1
  /\ status (done (JStr "late") (with_status STATUS_TIMED_OUT slow_started)).1 = STATUS_DONE
  /\ strict_eq (result (done (JStr "late") (with_status STATUS_TIMED_OUT slow_started)).1)
       (JStr "late") = true.
Proof.
  refine (proj2 (status_moves_forward
                   (map Regular (slow_inputs ++ [Tick 300])) 0
                   (Settle 400 (PProcess 0%nat) (Fulfilled (JStr "late")))
                   (poll 300 slow_state)
                   (settle 400 (PProcess 0%nat) (Fulfilled (JStr "late"))
                      (with_inflight [] (poll 300 slow_state)))
                   _ _ _)
                400 0%nat (Fulfilled (JStr "late"))
                (with_status STATUS_TIMED_OUT slow_started) _ _ _).
  - vm_compute. reflexivity.
  - repeat constructor.
  - vm_compute. reflexivity.
  - reflexivity.
  - vm_compute. reflexivity.
  - reflexivity.
Defined.

(** When a callback of [success] throws, the exception reaches [retry]
    (queue.js 89-91): the item, DONE and answered by [resolve], becomes
    ERROR and is answered by [reject]; when the callback is a listener of
    [queue-done], the item is signalled twice. *)
Example exception_in_success_reaches_retry :
  (d ← turns (broken_turns ByResolve) (new 0); q ← queues d !! 0%nat;
   Some (status q, result q, retryCount q, answers 0 (trace d), signals 0 (trace d)))
  = Some (STATUS_ERROR, JStr "boom", Some 1%nat, 2%nat, 1%nat)
  /\ (d ← turns (broken_turns ByListener) (new 0); q ← queues d !! 0%nat;
      Some (status q, result q, retryCount q, answers 0 (trace d), signals 0 (trace d)))
     = Some (STATUS_ERROR, JStr "boom", Some 1%nat, 2%nat, 2%nat).
Proof. split; vm_compute; reflexivity. Qed.

(** A callback is added while two items wait for the consumer, which is
    not ready: it waits at the head of the list.  Once the consumer is
    ready, the call of [next()] that the tick of time 100 does not make is
    made by the next input that calls it; here [next()] itself is applied
    to the state, and dispatches the callback. *)
Lemma callback_dispatched_first_witness :
  (pending (add 12 callback_item waiting_state).2 = 2%nat :: pending waiting_state
   /\ trace (add 12 callback_item waiting_state).2 = trace waiting_state)
  /\ (exists more,
        dispatches (trace (next 100
           (with_consumer (Some (true, false)) (add 12 callback_item waiting_state).2)))
        = (dispatches (trace (with_consumer (Some (true, false))
                                (add 12 callback_item waiting_state).2))
           ++ 2%nat :: more)%list)
  /\ 2%nat ∉ pending (next 100
        (with_consumer (Some (true, false)) (add 12 callback_item waiting_state).2)).
Proof.
  pose proof (callback_dispatched_first waiting_inputs 0 12 callback_item waiting_state
                waiting_state_run eq_refl) as (_ & _ & _ & H4 & H5).
  split.
  - exact (H4 eq_refl).
  - exact (H5 [ConsumerMoves (true, false)]
              (with_consumer (Some (true, false)) (add 12 callback_item waiting_state).2)
              100 2%nat [0; 1]%nat eq_refl eq_refl eq_refl).
Defined.

End StatusAndOrderScenarios.

(** ** The further properties at the states of the examples *)

Section FurtherScenarios.
#[local] Existing Instance example_host.
Import SiapDequeue.

Lemma logs_in_submission_order_witness :
  length (getLogs true shutdown_state) = 2%nat
  /\ exists lg, getLogs true shutdown_state !! 1%nat = Some lg
       /\ SiapQueue.log_type lg = "spp" /\ SiapQueue.log_id lg = JStr "b".
Proof.
  destruct (logs_in_submission_order (H0 := example_consumer) shutdown_inputs 0
              shutdown_state true) as [Hlen Hk]; [vm_compute; reflexivity|].
  split; [exact Hlen|]. apply (Hk 1%nat 11 item_b). vm_compute; reflexivity.
Defined.

Lemma nothing_dispatched_without_consumer_witness :
  trace unattended_state = [] /\ inflight unattended_state = []
  /\ pending unattended_state ≡ₚ seq 0 (length (queues unattended_state))
  /\ Forall (fun q => SiapQueue.status q ∈
               [SiapQueue.STATUS_NEW; SiapQueue.STATUS_SKIPPED]) (queues unattended_state).
Proof.
  apply (nothing_dispatched_without_consumer (H0 := example_consumer) unattended_inputs 0).
  - vm_compute; reflexivity.
  - repeat constructor.
Defined.

Lemma timeout_off_never_times_out_witness :
  SiapQueue.status (default patient_item (queues patient_state !! 0%nat))
  <> SiapQueue.STATUS_TIMED_OUT.
Proof.
  apply (timeout_off_never_times_out (H0 := example_consumer) patient_inputs 0
           patient_state 0).
  - vm_compute; reflexivity.
  - vm_compute; reflexivity.
  - split_and!; [reflexivity|discriminate|reflexivity].
Defined.

Lemma hasPendingQueue_after_addQueue_witness :
  hasPendingQueue item_b (Some (add (H0 := example_consumer) 30 item_b idle_state).2) = true.
Proof.
  apply (hasPendingQueue_after_addQueue (H0 := example_consumer) 30 item_b (Some idle_state)
           (Some (add (H0 := example_consumer) 30 item_b idle_state).2)
           (add (H0 := example_consumer) 30 item_b idle_state).1).
  - vm_compute; reflexivity.
  - vm_compute; reflexivity.
Defined.

Lemma tick_starts_waiting_item_witness :
  exists d', step (H0 := example_consumer) (Tick 100) attended_state = Some d'
    /\ PProcess 0%nat ∈ inflight d'
    /\ (0%nat ∉ pending d')
    /\ pending d' = [1%nat]
    /\ inflight d' = (inflight attended_state ++ [PProcess 0%nat])%list
    /\ trace d' = (trace attended_state
                   ++ [Dispatch 0%nat; QueueStart 0%nat; ProcessQueue 0%nat])%list.
Proof.
  destruct (tick_starts_waiting_item (H0 := example_consumer) attended_inputs 0 100
              attended_state 0 [1%nat] item_a (true, false) (true, false))
    as (d' & Hs & _ & _ & _ & Hin & Hnp & _ & Hex).
  - vm_compute; reflexivity.
  - vm_compute; reflexivity.
  - repeat constructor; discriminate.
  - vm_compute; reflexivity.
  - vm_compute; reflexivity.
  - vm_compute; reflexivity.
  - vm_compute; reflexivity.
  - vm_compute; reflexivity.
  - vm_compute; reflexivity.
  - destruct Hex as (_ & Hp & Hi & Ht & _).
    + exists item_b. split; [vm_compute; reflexivity|right; vm_compute; reflexivity].
    + exists d'. split_and!; [exact Hs|exact Hin|exact Hnp|exact Hp|exact Hi|exact Ht].
Defined.

Lemma add_starts_item_at_once_witness :
  inflight (add (H0 := example_consumer) 30 item_b idle_state).2 = [PProcess 0%nat]
  /\ (add (H0 := example_consumer) 30 item_b idle_state).1 = mkAck "queued" (JStr "b").
Proof.
  destruct (add_starts_item_at_once (H0 := example_consumer) idle_inputs 0 30 idle_state
              item_b (true, false) (true, false))
    as (_ & _ & _ & Hi & _ & Ha); try (vm_compute; reflexivity).
  split; [exact Hi|exact Ha].
Defined.


Lemma settled_at_most_once_witness :
  NoDup (settlements (trace settled_state))
  /\ (forall r, r ∈ settlements (trace settled_state) ->
        status_in settled_state r [SiapQueue.STATUS_DONE; SiapQueue.STATUS_ERROR])
  /\ forall r, (answers r (trace settled_state) <= 1)%nat.
Proof.
  apply (settled_at_most_once (H0 := example_consumer) (map Regular settled_inputs) 0).
  - vm_compute; reflexivity.
  - repeat constructor.
Defined.

Lemma saveLogs_writes_new_file_witness :
  exists n fs', saveLogs shutdown_state example_files = Normal fs'
    /\ assoc (Files.join "/app/queue" (log_file n)) (Files.nodes example_files) = None
    /\ assoc (Files.join "/app/queue" (log_file n)) (Files.nodes fs')
       = Some (Files.File (Files.Logs
                 [SiapQueue.getLog true (default item_a (queues shutdown_state !! 0%nat))])).
Proof.
  destruct (saveLogs_writes_new_file shutdown_state example_files)
    as (n & fs' & Hs & _ & Hfree & _ & Hlog & _).
  - intros c. vm_compute. discriminate.
  - exists n, fs'. split_and!; [exact Hs|exact Hfree|exact Hlog].
Defined.

Lemma shutdown_order_irrelevant_witness :
  exists fsA fsAB fsB fsBA,
    saveQueue shutdown_state example_files = Normal fsA
    /\ saveLogs shutdown_state fsA = Normal fsAB
    /\ saveLogs shutdown_state example_files = Normal fsB
    /\ saveQueue shutdown_state fsB = Normal fsBA
    /\ (forall p, assoc p (Files.nodes fsAB) = assoc p (Files.nodes fsBA))
    /\ assoc "/app/queue/saved.queue" (Files.nodes fsAB)
       = Some (Files.File (Files.Queues
                 [Files.mkSaved "spp" (JStr "b") (JObj 1 []) JUndefined])).
Proof.
  apply (shutdown_order_irrelevant shutdown_state example_files).
  - intros c. vm_compute. discriminate.
  - vm_compute. discriminate.
Defined.

Lemma abandoned_item_never_settled_witness :
  exists q', queues (default faulty_state
                       (run (H0 := faulty_consumer) faulty_later faulty_state)) !! 0%nat
             = Some q'
    /\ SiapQueue.status q' ∈ [SiapQueue.STATUS_PROCESSING; SiapQueue.STATUS_TIMED_OUT]
    /\ SiapQueue.result q' = JUndefined.
Proof.
  destruct (abandoned_item_never_settled (H0 := faulty_consumer) faulty_inputs faulty_later 0
              faulty_state
              (default faulty_state (run (H0 := faulty_consumer) faulty_later faulty_state))
              0 (default item_a (queues faulty_state !! 0%nat)))
    as (q' & Hq & Hs & Hr & _).
  - vm_compute; reflexivity.
  - vm_compute; reflexivity.
  - left.
  - vm_compute. apply not_elem_of_nil.
  - vm_compute; reflexivity.
  - exists q'. split_and!; [exact Hq|exact Hs|exact Hr].
Defined.

Lemma throwing_consumer_leaves_processing_witness :
  exists d', step (H0 := faulty_consumer) (Tick 100) attended_faulty = Some d'
    /\ (0%nat ∉ busy (inflight d'))
    /\ (0%nat ∉ pending d')
    /\ exists tail,
         trace d' = (trace attended_faulty ++ [Dispatch 0%nat; QueueStart 0%nat] ++ tail)%list
         /\ events_of 0 tail = [].
Proof.
  destruct (throwing_consumer_leaves_processing (H0 := faulty_consumer) attended_inputs 0 100
              attended_faulty 0 [1%nat] item_a (true, false) "not connected")
    as (d' & Hs & _ & _ & Hb & Hp & Ht & _).
  - vm_compute; reflexivity.
  - vm_compute; reflexivity.
  - repeat constructor; discriminate.
  - vm_compute; reflexivity.
  - vm_compute; reflexivity.
  - vm_compute; reflexivity.
  - vm_compute; reflexivity.
  - vm_compute; reflexivity.
  - vm_compute; reflexivity.
  - exists d'. split_and!; [exact Hs|exact Hb|exact Hp|exact Ht].
Defined.

Lemma skipped_item_is_never_processed_witness :
  attempts 0 (trace skipped_state) = O.
Proof.
  apply (skipped_item_is_never_processed (H0 := example_consumer) skipped_inputs 0
           skipped_state 0 (default item_a (queues skipped_state !! 0%nat))).
  - vm_compute; reflexivity.
  - vm_compute; reflexivity.
  - right. left.
Defined.

Lemma onretry_rejection_fails_item_witness :
  let q := default hooked_item (queues hooked_state !! 0%nat) in
  let d' := settle (H0 := example_consumer) 30 (POnRetry 0) (Rejected (JStr "no"))
              (with_inflight [] hooked_state) in
  queues d' !! 0%nat = Some (SiapQueue.error (JStr "no") q).1
  /\ SiapQueue.status (SiapQueue.error (JStr "no") q).1 = SiapQueue.STATUS_ERROR
  /\ attempts 0 (trace d') = 1%nat.
Proof.
  intros q d'.
  destruct (onretry_rejection_fails_item (H0 := example_consumer) hooked_inputs 0 30
              hooked_state d' 0 q (JStr "no"))
    as (Hq & Hs & _ & Ha & _).
  - vm_compute; reflexivity.
  - left.
  - vm_compute; reflexivity.
  - vm_compute; reflexivity.
  - split_and!; [exact Hq|exact Hs|exact Ha].
Defined.

Lemma finished_item_is_final_witness :
  queues (default settled_state
            (turns (H0 := example_consumer) (map Regular settled_later) settled_state))
    !! 0%nat
  = queues settled_state !! 0%nat.
Proof.
  destruct (finished_item_is_final (H0 := example_consumer)
              (map Regular settled_inputs) (map Regular settled_later) 0
              settled_state
              (default settled_state
                 (turns (H0 := example_consumer) (map Regular settled_later) settled_state))
              0 (default item_a (queues settled_state !! 0%nat)))
    as (Hq & _).
  - vm_compute; reflexivity.
  - repeat constructor.
  - vm_compute; reflexivity.
  - left.
  - vm_compute; reflexivity.
  - repeat constructor.
  - rewrite Hq. vm_compute; reflexivity.
Defined.

Lemma new_items_are_waiting_witness :
  (0%nat ∈ pending attended_state) /\ (1%nat ∈ pending attended_state).
Proof.
  destruct (new_items_are_waiting (H0 := example_consumer) attended_inputs 0 attended_state)
    as (Hnew & _).
  - vm_compute; reflexivity.
  - split.
    + apply (Hnew 0%nat item_a); vm_compute; reflexivity.
    + apply (Hnew 1%nat item_b); vm_compute; reflexivity.
Defined.


End FurtherScenarios.
